(** * TrickleJS streams: a shallow embedding of [stream.ts],
    [stream_subscription.ts], [stream_utils.ts] and [stream_controller.ts].

    JavaScript objects live in a store indexed by allocation number; every
    method of the source becomes an operation of a state-and-exception monad
    over that store.  Closures handed to [nextTick] become first-order
    [Task]s in a FIFO queue, the callbacks handed to [listen] become a
    [Consumer] tag that is interpreted when a message is delivered. *)

From stdpp Require Import gmap strings list.
From Stdlib Require Import ZArith.

Local Open Scope Z_scope.

(** ** Values *)

(** What a JavaScript expression of the library can evaluate to, throw, or
    settle a promise with.  Stream data itself is modelled as [Z]. *)
Inductive Value :=
  | VNum (n : Z)
  | VBool (b : bool)
  | VStr (s : string)
  | VNull
  | VUndefined
  | VError (message : string)
  | VArray (items : list Z)
  | VSet (items : list Z).

(** A user function either returns or throws. *)
Inductive Outcome (A : Type) :=
  | Returns (a : A)
  | Throws (thrown : Value).
Arguments Returns {A} a.
Arguments Throws {A} thrown.

Definition ErrorForAdd : Value := VError "cannot add to closed stream".
Definition ErrorForAddError : Value := VError "cannot add error to closed stream".
Definition ErrorForListen : Value :=
  VError "cannot have more than one listener on the stream".
(** What the engine raises when a call chain does not end (a parent chain
    that loops; no constructor of the library can build one). *)
Definition RangeError : Value := VError "Maximum call stack size exceeded".

(** ** types.ts *)

Inductive StreamMessage :=
  | Data (data : Z)
  | Error (data : Value)
  | Done.

Record StreamListenOptions := mkOptions {
  onError : bool;
  onDone : bool;
  onPause : bool;
  onResume : bool;
  cancelOnError : bool
}.

(** ** The objects *)

(** Who is behind the callbacks of a subscription. *)
Inductive Consumer :=
  | User (l : nat)      (* an observer of the application, numbered [l];
                           it records what it is called with and returns *)
  | Forward (s : nat)   (* add / addError / close bound to stream [s] *)
  | Collect (a : nat).  (* the closures of terminal aggregation [a] *)

Record StreamSubscription := mkSubscription {
  sub_stream : nat;
  sub_consumer : Consumer;
  sub_listenOptions : StreamListenOptions;
  sub_buffer : list StreamMessage;
  sub_isPaused : bool
}.

Inductive FilterOp :=
  | OpIdentity
  | OpMap (transform : Z -> Outcome Z)
  | OpTake (_taken takeAmount : Z)
  | OpTakeWhile (condition : Z -> Outcome bool)
  | OpSkip (_skipped skipAmount : Z)
  | OpSkipWhile (_isSkipping : bool) (condition : Z -> Outcome bool)
  | OpWhere (condition : Z -> Outcome bool).

Inductive StreamClass :=
  | ClsStream
  | ClsBroadcast (parent : nat) (_parentSubscription : option nat)
                 (_subscribers : list nat)
  | ClsFiltering (parent : nat) (_sub : option nat) (op : FilterOp).

(** A callback registered with [addEventListener]. *)
Inductive StreamCallback :=
  | HookUser (l : nat)
  | HookController (c : nat) (name : string).

Global Instance StreamCallback_eq_dec : EqDecision StreamCallback.
Proof. solve_decision. Defined.

Record Stream := mkStream {
  _subscription : option nat;
  _buffer : list StreamMessage;
  _isPaused : bool;
  _isClosed : bool;
  _eventCallbacks : gmap string (list StreamCallback);
  class : StreamClass
}.

Inductive PromiseState :=
  | Pending
  | Resolved (v : Value)
  | Rejected (v : Value).

Inductive AggKind :=
  | AggEvery (condition : Z -> Outcome bool)
  | AggFirst
  | AggFirstWhere (condition : Z -> Outcome bool)
  | AggForEach (l : nat) (listener : Z -> Outcome unit)
  | AggReduce (reducer : option Z -> Z -> Outcome (option Z))
  | AggToArray
  | AggToSet.

(** The closure of one call of a terminal aggregation: the promise it
    returned, the [sub] constant, and the variables its callbacks update.
    [None] in [agg_initialValue] is [undefined].  The listener of [forEach]
    is observer [l]: it records its argument, then returns or throws. *)
Record Aggregation := mkAggregation {
  agg_kind : AggKind;
  agg_sub : option nat;
  agg_promise : PromiseState;
  agg_seenFirst : bool;
  agg_initialValue : option Z;
  agg_result : list Z
}.

Record StreamController := mkController {
  _srcStream : nat;
  _dstStream : nat;
  ctl_onListen : option nat;
  ctl_onPause : option nat;
  ctl_onResume : option nat;
  ctl_onCancel : option nat
}.

(** The closure of one call of [Stream.fromPromises]: the controller, the
    counter, and the reactions registered with [p.then(onData, onError)]
    that have not run yet.  A reaction holds how its promise settles, [None]
    for a promise that never does. *)
Record PromisesSource := mkPromisesSource {
  ps_controller : nat;
  ps_count : Z;
  ps_reactions : list (option (Outcome Z))
}.

(** A closure handed to [nextTick]. *)
Inductive Task :=
  | TEmit (s : nat)                       (* Stream._emit *)
  | TEvent (s : nat) (name : string)      (* Stream._callEventListeners *)
  | TFanOut (s : nat) (m : StreamMessage). (* _broadcastStream add/addError/close *)

(** What can be observed from outside.  [EvCancel] and [EvSettle] are marks
    left by [Stream.cancel] and by the settling of a promise. *)
Inductive Event :=
  | EvData (l : nat) (d : Z)
  | EvError (l : nat) (e : Value)
  | EvDone (l : nat)
  | EvPause (l : nat)
  | EvResume (l : nat)
  | EvHook (l : nat)
  | EvCancel (sub : nat)
  | EvSettle (a : nat) (p : PromiseState).

Record World := mkWorld {
  streams : gmap nat Stream;
  nextStream : nat;
  subscriptions : gmap nat StreamSubscription;
  nextSubscription : nat;
  aggregations : gmap nat Aggregation;
  nextAggregation : nat;
  controllers : gmap nat StreamController;
  nextController : nat;
  sources : gmap nat PromisesSource;
  nextSource : nat;
  queue : list Task;
  trace : list Event
}.

Definition emptyWorld : World :=
  mkWorld ∅ 0 ∅ 0 ∅ 0 ∅ 0 ∅ 0 [] [].

(** ** The monad: state, and exceptions that keep the state *)

Inductive Result (A : Type) :=
  | Ok (a : A) (w : World)
  | Throw (e : Value) (w : World).
Arguments Ok {A} a w.
Arguments Throw {A} e w.

Definition Op (A : Type) : Type := World -> Result A.

Definition ret {A} (a : A) : Op A := fun w => Ok a w.
Definition throw {A} (e : Value) : Op A := fun w => Throw e w.
Definition bind {A B} (m : Op A) (k : A -> Op B) : Op B :=
  fun w => match m w with
           | Ok a w' => k a w'
           | Throw e w' => Throw e w'
           end.
(** try { m } catch (e) { h e } *)
Definition tryCatch {A} (m : Op A) (h : Value -> Op A) : Op A :=
  fun w => match m w with
           | Ok a w' => Ok a w'
           | Throw e w' => h e w'
           end.
Definition get : Op World := fun w => Ok w w.
Definition modify (f : World -> World) : Op unit := fun w => Ok tt (f w).

Declare Scope op_scope.
Delimit Scope op_scope with op.
Notation "x <- m ;; k" := (bind m (fun x => k))
  (at level 100, m at next level, right associativity) : op_scope.
Notation "m ;; k" := (bind m (fun _ => k))
  (at level 100, right associativity) : op_scope.
Local Open Scope op_scope.

Definition worldOf {A} (r : Result A) : World :=
  match r with Ok _ w => w | Throw _ w => w end.

(** Array.prototype.forEach over a snapshot of the array. *)
Fixpoint forEach {A} (f : A -> Op unit) (l : list A) : Op unit :=
  match l with
  | [] => ret tt
  | x :: l' => f x ;; forEach f l'
  end.

Definition when (b : bool) (m : Op unit) : Op unit :=
  if b then m else ret tt.

(** Applying a user function inside the monad. *)
Definition call {A} (o : Outcome A) : Op A :=
  match o with
  | Returns a => ret a
  | Throws v => throw v
  end.

(** ** Field access *)

Definition setStreams (f : gmap nat Stream -> gmap nat Stream) (w : World) : World :=
  mkWorld (f (streams w)) (nextStream w) (subscriptions w) (nextSubscription w)
          (aggregations w) (nextAggregation w) (controllers w) (nextController w)
          (sources w) (nextSource w) (queue w) (trace w).
Definition setSubscriptions
  (f : gmap nat StreamSubscription -> gmap nat StreamSubscription) (w : World) : World :=
  mkWorld (streams w) (nextStream w) (f (subscriptions w)) (nextSubscription w)
          (aggregations w) (nextAggregation w) (controllers w) (nextController w)
          (sources w) (nextSource w) (queue w) (trace w).
Definition setAggregations
  (f : gmap nat Aggregation -> gmap nat Aggregation) (w : World) : World :=
  mkWorld (streams w) (nextStream w) (subscriptions w) (nextSubscription w)
          (f (aggregations w)) (nextAggregation w) (controllers w) (nextController w)
          (sources w) (nextSource w) (queue w) (trace w).
Definition setSources
  (f : gmap nat PromisesSource -> gmap nat PromisesSource) (w : World) : World :=
  mkWorld (streams w) (nextStream w) (subscriptions w) (nextSubscription w)
          (aggregations w) (nextAggregation w) (controllers w) (nextController w)
          (f (sources w)) (nextSource w) (queue w) (trace w).
Definition setQueue (f : list Task -> list Task) (w : World) : World :=
  mkWorld (streams w) (nextStream w) (subscriptions w) (nextSubscription w)
          (aggregations w) (nextAggregation w) (controllers w) (nextController w)
          (sources w) (nextSource w) (f (queue w)) (trace w).
Definition setTrace (f : list Event -> list Event) (w : World) : World :=
  mkWorld (streams w) (nextStream w) (subscriptions w) (nextSubscription w)
          (aggregations w) (nextAggregation w) (controllers w) (nextController w)
          (sources w) (nextSource w) (queue w) (f (trace w)).

(** Allocation: the new object takes the next number of its store. *)
Definition storeStream (s : nat) (st : Stream) (w : World) : World :=
  mkWorld (<[s := st]> (streams w)) (S s) (subscriptions w) (nextSubscription w)
          (aggregations w) (nextAggregation w) (controllers w) (nextController w)
          (sources w) (nextSource w) (queue w) (trace w).
Definition storeSubscription (x : nat) (sub : StreamSubscription) (w : World) : World :=
  mkWorld (streams w) (nextStream w) (<[x := sub]> (subscriptions w)) (S x)
          (aggregations w) (nextAggregation w) (controllers w) (nextController w)
          (sources w) (nextSource w) (queue w) (trace w).
Definition storeAggregation (a : nat) (ag : Aggregation) (w : World) : World :=
  mkWorld (streams w) (nextStream w) (subscriptions w) (nextSubscription w)
          (<[a := ag]> (aggregations w)) (S a) (controllers w) (nextController w)
          (sources w) (nextSource w) (queue w) (trace w).
Definition storeController (c : nat) (ctl : StreamController) (w : World) : World :=
  mkWorld (streams w) (nextStream w) (subscriptions w) (nextSubscription w)
          (aggregations w) (nextAggregation w) (<[c := ctl]> (controllers w)) (S c)
          (sources w) (nextSource w) (queue w) (trace w).
Definition storeSource (r : nat) (src : PromisesSource) (w : World) : World :=
  mkWorld (streams w) (nextStream w) (subscriptions w) (nextSubscription w)
          (aggregations w) (nextAggregation w) (controllers w) (nextController w)
          (<[r := src]> (sources w)) (S r) (queue w) (trace w).

Definition withSubscription (x : option nat) (st : Stream) : Stream :=
  mkStream x (_buffer st) (_isPaused st) (_isClosed st) (_eventCallbacks st) (class st).
Definition withBuffer (b : list StreamMessage) (st : Stream) : Stream :=
  mkStream (_subscription st) b (_isPaused st) (_isClosed st) (_eventCallbacks st) (class st).
Definition withPaused (b : bool) (st : Stream) : Stream :=
  mkStream (_subscription st) (_buffer st) b (_isClosed st) (_eventCallbacks st) (class st).
Definition withClosed (b : bool) (st : Stream) : Stream :=
  mkStream (_subscription st) (_buffer st) (_isPaused st) b (_eventCallbacks st) (class st).
Definition withEventCallbacks (e : gmap string (list StreamCallback)) (st : Stream) : Stream :=
  mkStream (_subscription st) (_buffer st) (_isPaused st) (_isClosed st) e (class st).
Definition withClass (c : StreamClass) (st : Stream) : Stream :=
  mkStream (_subscription st) (_buffer st) (_isPaused st) (_isClosed st) (_eventCallbacks st) c.

Definition withSubBuffer (b : list StreamMessage) (x : StreamSubscription) : StreamSubscription :=
  mkSubscription (sub_stream x) (sub_consumer x) (sub_listenOptions x) b (sub_isPaused x).
Definition withSubPaused (b : bool) (x : StreamSubscription) : StreamSubscription :=
  mkSubscription (sub_stream x) (sub_consumer x) (sub_listenOptions x) (sub_buffer x) b.

Definition newStream (c : StreamClass) : Stream :=
  mkStream None [] false false ∅ c.

(** Reading an object.  A reference that points nowhere cannot be built by
    the operations below; dereferencing one is a TypeError of the engine. *)
Definition TypeError : Value := VError "Cannot read properties of undefined".

Definition theStream (s : nat) : Op Stream :=
  fun w => match streams w !! s with
           | Some st => Ok st w
           | None => Throw TypeError w
           end.
Definition theSubscription (x : nat) : Op StreamSubscription :=
  fun w => match subscriptions w !! x with
           | Some sub => Ok sub w
           | None => Throw TypeError w
           end.
Definition theAggregation (a : nat) : Op Aggregation :=
  fun w => match aggregations w !! a with
           | Some ag => Ok ag w
           | None => Throw TypeError w
           end.

Definition updStream (s : nat) (f : Stream -> Stream) : Op unit :=
  modify (setStreams (fun m => match m !! s with
                               | Some st => <[s := f st]> m
                               | None => m
                               end)).
Definition updSubscription (x : nat) (f : StreamSubscription -> StreamSubscription) : Op unit :=
  modify (setSubscriptions (fun m => match m !! x with
                                     | Some sub => <[x := f sub]> m
                                     | None => m
                                     end)).
Definition updAggregation (a : nat) (f : Aggregation -> Aggregation) : Op unit :=
  modify (setAggregations (fun m => match m !! a with
                                    | Some ag => <[a := f ag]> m
                                    | None => m
                                    end)).

Definition record (e : Event) : Op unit := modify (setTrace (fun t => t ++ [e])).

(** ** stream_utils.ts *)

Definition nextTick (t : Task) : Op unit := modify (setQueue (fun q => q ++ [t])).

Definition createDataMessage (data : Z) : StreamMessage := Data data.

(** A string becomes [new Error(m)]; anything else is kept. *)
Definition createErrorMessage (m : Value) : StreamMessage :=
  match m with
  | VStr s => Error (VError s)
  | _ => Error m
  end.

Definition createDoneMessage : StreamMessage := Done.

(** ** stream.ts: class Stream *)

(** Stream._emit: the test is made when the method is called, the closure
    handed to [nextTick] ([Stream_emit_tick]) does not repeat it. *)
Definition Stream_emit (s : nat) : Op unit :=
  st <- theStream s ;;
  match _isPaused st, _subscription st with
  | false, Some _ => nextTick (TEmit s)
  | _, _ => ret tt
  end.

Definition Stream_callEventListeners (s : nat) (name : string) : Op unit :=
  nextTick (TEvent s name).

(** Stream.cancel ignores which subscription it is given. *)
Definition Stream_cancel (s : nat) (x : nat) : Op unit :=
  record (EvCancel x) ;;
  updStream s (withSubscription None) ;;
  Stream_callEventListeners s "onCancel".

(** Set.prototype.delete on the insertion-ordered set of subscribers. *)
Definition setDelete (x : nat) (l : list nat) : list nat :=
  filter (fun y => y ≠ x) l.
(** Set.prototype.add *)
Definition setAdd (x : nat) (l : list nat) : list nat :=
  if bool_decide (x ∈ l) then l else l ++ [x].

Definition withSubscribers (f : list nat -> list nat) (st : Stream) : Stream :=
  match class st with
  | ClsBroadcast p ps subs => withClass (ClsBroadcast p ps (f subs)) st
  | _ => st
  end.
Definition withParentSubscription (x : option nat) (st : Stream) : Stream :=
  match class st with
  | ClsBroadcast p _ subs => withClass (ClsBroadcast p x subs) st
  | ClsFiltering p _ op => withClass (ClsFiltering p x op) st
  | ClsStream => st
  end.
Definition withOp (op : FilterOp) (st : Stream) : Stream :=
  match class st with
  | ClsFiltering p x _ => withClass (ClsFiltering p x op) st
  | _ => st
  end.

Definition broadcast_cancel (s : nat) (x : nat) : Op unit :=
  record (EvCancel x) ;;
  updStream s (withSubscribers (setDelete x)) ;;
  Stream_callEventListeners s "onCancel".

(** stream.cancel(subscription), dispatched on the class of [s]. *)
Definition cancel (s : nat) (x : nat) : Op unit :=
  st <- theStream s ;;
  match class st with
  | ClsBroadcast _ _ _ => broadcast_cancel s x
  | _ => Stream_cancel s x
  end.

(** StreamSubscription.cancel *)
Definition sub_cancel (x : nat) : Op unit :=
  sub <- theSubscription x ;;
  cancel (sub_stream sub) x.

Definition Stream_add (s : nat) (data : Z) : Op unit :=
  st <- theStream s ;;
  if _isClosed st then throw ErrorForAdd
  else
    updStream s (fun st => withBuffer (_buffer st ++ [createDataMessage data]) st) ;;
    Stream_emit s.

Definition Stream_addError (s : nat) (message : Value) : Op unit :=
  st <- theStream s ;;
  if _isClosed st then throw ErrorForAddError
  else
    updStream s (fun st => withBuffer (_buffer st ++ [createErrorMessage message]) st) ;;
    Stream_emit s.

Definition Stream_pause (s : nat) : Op unit :=
  st <- theStream s ;;
  if _isPaused st then ret tt
  else
    updStream s (withPaused true) ;;
    Stream_callEventListeners s "onPause".

Definition Stream_resume (s : nat) : Op unit :=
  st <- theStream s ;;
  if _isPaused st then
    updStream s (withPaused false) ;;
    Stream_callEventListeners s "onResume" ;;
    Stream_emit s
  else ret tt.

Definition Stream_close (s : nat) : Op unit :=
  updStream s (withClosed true) ;;
  updStream s (fun st => withBuffer (_buffer st ++ [createDoneMessage]) st) ;;
  Stream_emit s.

Definition addEventListener (s : nat) (name : string) (callback : StreamCallback) : Op unit :=
  updStream s (fun st =>
    let cbs := default [] (_eventCallbacks st !! name) in
    withEventCallbacks (<[name := cbs ++ [callback]]> (_eventCallbacks st)) st).

Definition removeEventListener (s : nat) (name : string) (callback : StreamCallback) : Op unit :=
  updStream s (fun st =>
    match _eventCallbacks st !! name with
    | None => st
    | Some cbs =>
        withEventCallbacks
          (<[name := filter (fun c => c ≠ callback) cbs]> (_eventCallbacks st)) st
    end).

(** ** class _broadcastStream *)

Definition broadcast_add (s : nat) (data : Z) : Op unit :=
  st <- theStream s ;;
  if _isClosed st then throw ErrorForAdd
  else nextTick (TFanOut s (createDataMessage data)).

Definition broadcast_addError (s : nat) (e : Value) : Op unit :=
  st <- theStream s ;;
  if _isClosed st then throw ErrorForAddError
  else nextTick (TFanOut s (createErrorMessage e)).

Definition broadcast_close (s : nat) : Op unit :=
  updStream s (withClosed true) ;;
  st <- theStream s ;;
  match class st with
  | ClsBroadcast _ (Some ps) _ => sub_cancel ps
  | _ => ret tt
  end ;;
  updStream s (withParentSubscription None) ;;
  nextTick (TFanOut s Done).

(** ** class _filteringStream and its subclasses *)

Definition filtering_close (s : nat) : Op unit :=
  st <- theStream s ;;
  match class st with
  | ClsFiltering _ (Some x) _ => sub_cancel x
  | _ => ret tt
  end ;;
  updStream s (withParentSubscription None) ;;
  Stream_close s.

Definition mapStream_add (s : nat) (transform : Z -> Outcome Z) (data : Z) : Op unit :=
  newData <- call (transform data) ;;
  Stream_add s newData.

Definition takenOf (st : Stream) : Z :=
  match class st with
  | ClsFiltering _ _ (OpTake t _) => t
  | _ => 0
  end.

Definition takeStream_add (s : nat) (takeAmount : Z) (data : Z) : Op unit :=
  st <- theStream s ;;
  when (takenOf st <? takeAmount)
    (Stream_add s data ;;
     updStream s (fun st => withOp (OpTake (takenOf st + 1) takeAmount) st)) ;;
  st <- theStream s ;;
  when (takenOf st >=? takeAmount) (filtering_close s).

(** The [try] block covers the call of the condition and of [super.add];
    it yields whether the method returned from inside it. *)
Definition takeWhileStream_add (s : nat) (condition : Z -> Outcome bool) (data : Z) : Op unit :=
  returned <- tryCatch
    (b <- call (condition data) ;;
     if b : bool then Stream_add s data ;; ret true else ret false)
    (fun _ => ret false) ;;
  if returned : bool then ret tt else filtering_close s.

Definition skipStream_add (s : nat) (_skipped skipAmount : Z) (data : Z) : Op unit :=
  if _skipped <? skipAmount
  then updStream s (withOp (OpSkip (_skipped + 1) skipAmount))
  else Stream_add s data.

Definition skipWhileStream_add (s : nat) (_isSkipping : bool)
    (condition : Z -> Outcome bool) (data : Z) : Op unit :=
  returned <- tryCatch
    (if _isSkipping then call (condition data) else ret false)
    (fun _ => ret false) ;;
  if returned : bool then ret tt
  else
    updStream s (withOp (OpSkipWhile false condition)) ;;
    Stream_add s data.

Definition whereStream_add (s : nat) (condition : Z -> Outcome bool) (data : Z) : Op unit :=
  b <- call (condition data) ;;
  when b (Stream_add s data).

(** ** Method dispatch: stream.add, stream.addError, stream.close,
    stream.pause, stream.resume on an object of any class *)

Definition add (s : nat) (data : Z) : Op unit :=
  st <- theStream s ;;
  match class st with
  | ClsStream => Stream_add s data
  | ClsBroadcast _ _ _ => broadcast_add s data
  | ClsFiltering _ _ op =>
      match op with
      | OpIdentity => Stream_add s data
      | OpMap transform => mapStream_add s transform data
      | OpTake _ takeAmount => takeStream_add s takeAmount data
      | OpTakeWhile condition => takeWhileStream_add s condition data
      | OpSkip skipped skipAmount => skipStream_add s skipped skipAmount data
      | OpSkipWhile skipping condition => skipWhileStream_add s skipping condition data
      | OpWhere condition => whereStream_add s condition data
      end
  end.

Definition addError (s : nat) (e : Value) : Op unit :=
  st <- theStream s ;;
  match class st with
  | ClsBroadcast _ _ _ => broadcast_addError s e
  | _ => Stream_addError s e
  end.

Definition close (s : nat) : Op unit :=
  st <- theStream s ;;
  match class st with
  | ClsStream => Stream_close s
  | ClsBroadcast _ _ _ => broadcast_close s
  | ClsFiltering _ _ _ => filtering_close s
  end.

Definition pause (s : nat) : Op unit :=
  st <- theStream s ;;
  match class st with
  | ClsBroadcast _ _ _ => ret tt
  | _ => Stream_pause s
  end.

Definition resume (s : nat) : Op unit :=
  st <- theStream s ;;
  match class st with
  | ClsBroadcast _ _ _ => ret tt
  | _ => Stream_resume s
  end.

(** ** Terminal aggregations: the promise and the callbacks *)

Definition withAggSub (x : option nat) (ag : Aggregation) : Aggregation :=
  mkAggregation (agg_kind ag) x (agg_promise ag) (agg_seenFirst ag)
                (agg_initialValue ag) (agg_result ag).
Definition withPromise (p : PromiseState) (ag : Aggregation) : Aggregation :=
  mkAggregation (agg_kind ag) (agg_sub ag) p (agg_seenFirst ag)
                (agg_initialValue ag) (agg_result ag).
Definition withAccumulator (seen : bool) (v : option Z) (ag : Aggregation) : Aggregation :=
  mkAggregation (agg_kind ag) (agg_sub ag) (agg_promise ag) seen v (agg_result ag).
Definition withResult (r : list Z) (ag : Aggregation) : Aggregation :=
  mkAggregation (agg_kind ag) (agg_sub ag) (agg_promise ag) (agg_seenFirst ag)
                (agg_initialValue ag) r.

(** resolve(v) and reject(v) of a promise: only the first call settles it. *)
Definition settle (a : nat) (p : PromiseState) : Op unit :=
  ag <- theAggregation a ;;
  match agg_promise ag with
  | Pending => updAggregation a (withPromise p) ;; record (EvSettle a p)
  | _ => ret tt
  end.
Definition resolve (a : nat) (v : Value) : Op unit := settle a (Resolved v).
Definition reject (a : nat) (v : Value) : Op unit := settle a (Rejected v).

(** cancelAndFulfill(v, sub, fulfill) with the [sub] of aggregation [a]. *)
Definition cancelAndFulfill (a : nat) (fulfill : Op unit) : Op unit :=
  ag <- theAggregation a ;;
  match agg_sub ag with
  | Some x => sub_cancel x
  | None => throw TypeError
  end ;;
  fulfill.

Definition valueOfAccumulator (v : option Z) : Value :=
  match v with
  | Some n => VNum n
  | None => VUndefined
  end.

Definition agg_onData (a : nat) (data : Z) : Op unit :=
  ag <- theAggregation a ;;
  match agg_kind ag with
  | AggEvery condition =>
      returned <- tryCatch (call (condition data)) (fun _ => ret false) ;;
      if returned : bool then ret tt
      else cancelAndFulfill a (reject a (VBool false))
  | AggFirst => cancelAndFulfill a (resolve a (VNum data))
  | AggFirstWhere condition =>
      tryCatch
        (b <- call (condition data) ;;
         when b (cancelAndFulfill a (resolve a (VNum data))))
        (fun e => cancelAndFulfill a (reject a e))
  | AggForEach l listener =>
      tryCatch
        (record (EvData l data) ;; call (listener data))
        (fun e => cancelAndFulfill a (reject a e))
  | AggReduce reducer =>
      if agg_seenFirst ag then
        tryCatch
          (v <- call (reducer (agg_initialValue ag) data) ;;
           updAggregation a (withAccumulator true v))
          (fun e => cancelAndFulfill a (reject a e))
      else updAggregation a (withAccumulator true (Some data))
  | AggToArray => updAggregation a (fun ag => withResult (agg_result ag ++ [data]) ag)
  | AggToSet =>
      updAggregation a (fun ag =>
        if bool_decide (data ∈ agg_result ag) then ag
        else withResult (agg_result ag ++ [data]) ag)
  end.

Definition agg_onError (a : nat) (e : Value) : Op unit :=
  cancelAndFulfill a (reject a e).

Definition agg_onDone (a : nat) : Op unit :=
  ag <- theAggregation a ;;
  match agg_kind ag with
  | AggEvery _ => resolve a (VBool true)
  | AggFirst => reject a (VError "")
  | AggFirstWhere _ => cancelAndFulfill a (reject a VNull)
  | AggForEach _ _ => resolve a VUndefined
  | AggReduce _ => resolve a (valueOfAccumulator (agg_initialValue ag))
  | AggToArray => resolve a (VArray (agg_result ag))
  | AggToSet => resolve a (VSet (agg_result ag))
  end.

(** ** stream_subscription.ts *)

Definition call_onData (c : Consumer) (data : Z) : Op unit :=
  match c with
  | User l => record (EvData l data)
  | Forward s => add s data
  | Collect a => agg_onData a data
  end.

Definition call_onError (c : Consumer) (e : Value) : Op unit :=
  match c with
  | User l => record (EvError l e)
  | Forward s => addError s e
  | Collect a => agg_onError a e
  end.

Definition call_onDone (c : Consumer) : Op unit :=
  match c with
  | User l => record (EvDone l)
  | Forward s => close s
  | Collect a => agg_onDone a
  end.

(** Only the application passes onPause and onResume. *)
Definition call_onPause (c : Consumer) : Op unit :=
  match c with
  | User l => record (EvPause l)
  | _ => ret tt
  end.

Definition call_onResume (c : Consumer) : Op unit :=
  match c with
  | User l => record (EvResume l)
  | _ => ret tt
  end.

(** The body of the loop of StreamSubscription._emit. *)
Definition dispatch (x : nat) (m : StreamMessage) : Op unit :=
  sub <- theSubscription x ;;
  let options := sub_listenOptions sub in
  match m with
  | Data data => call_onData (sub_consumer sub) data
  | Error e =>
      when (onError options) (call_onError (sub_consumer sub) e) ;;
      when (cancelOnError options) (sub_cancel x)
  | Done => when (onDone options) (call_onDone (sub_consumer sub))
  end.

Definition sub_emit (x : nat) : Op unit :=
  sub <- theSubscription x ;;
  if sub_isPaused sub then ret tt
  else
    forEach (dispatch x) (sub_buffer sub) ;;
    updSubscription x (withSubBuffer []).

Definition messageHandler (x : nat) (message : StreamMessage) : Op unit :=
  updSubscription x (fun sub => withSubBuffer (sub_buffer sub ++ [message]) sub) ;;
  sub_emit x.

Definition sub_pause (x : nat) : Op unit :=
  sub <- theSubscription x ;;
  if sub_isPaused sub then ret tt
  else
    updSubscription x (withSubPaused true) ;;
    when (onPause (sub_listenOptions sub)) (call_onPause (sub_consumer sub)) ;;
    pause (sub_stream sub).

Definition sub_resume (x : nat) : Op unit :=
  sub <- theSubscription x ;;
  if sub_isPaused sub then
    updSubscription x (withSubPaused false) ;;
    when (onResume (sub_listenOptions sub)) (call_onResume (sub_consumer sub)) ;;
    resume (sub_stream sub) ;;
    sub_emit x
  else ret tt.

(** ** listen *)

Definition newSubscription (s : nat) (c : Consumer) (o : StreamListenOptions) : Op nat :=
  w <- get ;;
  let x := nextSubscription w in
  modify (storeSubscription x (mkSubscription s c o [] false)) ;;
  ret x.

Definition Stream_listen (s : nat) (c : Consumer) (o : StreamListenOptions) : Op nat :=
  st <- theStream s ;;
  match _subscription st with
  | Some _ => throw ErrorForListen
  | None =>
      x <- newSubscription s c o ;;
      updStream s (withSubscription (Some x)) ;;
      Stream_callEventListeners s "onListen" ;;
      Stream_emit s ;;
      ret x
  end.

(** { onError: this.addError.bind(this), onDone: this.close.bind(this) } *)
Definition forwardOptions : StreamListenOptions := mkOptions true true false false false.

(** stream.listen(onData, callbacks) on an object of any class.  A derived
    stream listens to its parent first, so the call descends the chain of
    parents; [depth] bounds the descent. *)
Fixpoint listenAt (depth : nat) (s : nat) (c : Consumer) (o : StreamListenOptions) : Op nat :=
  match depth with
  | O => throw RangeError
  | S depth' =>
      st <- theStream s ;;
      match class st with
      | ClsStream => Stream_listen s c o
      | ClsBroadcast parent ps _ =>
          match ps with
          | None =>
              x <- listenAt depth' parent (Forward s) forwardOptions ;;
              updStream s (withParentSubscription (Some x))
          | Some _ => ret tt
          end ;;
          sub <- newSubscription s c o ;;
          updStream s (withSubscribers (setAdd sub)) ;;
          Stream_callEventListeners s "onListen" ;;
          st <- theStream s ;;
          when (_isClosed st) (broadcast_close s) ;;
          ret sub
      | ClsFiltering parent x _ =>
          match x with
          | None =>
              x <- listenAt depth' parent (Forward s) forwardOptions ;;
              updStream s (withParentSubscription (Some x))
          | Some _ => ret tt
          end ;;
          Stream_listen s c o
      end
  end.

(** A parent is allocated before the streams derived from it, so the chain
    below stream [s] has at most [s] more streams. *)
Definition listen (s : nat) (c : Consumer) (o : StreamListenOptions) : Op nat :=
  listenAt (S s) s c o.

(** ** Deriving streams *)

Definition allocStream (c : StreamClass) : Op nat :=
  w <- get ;;
  let s := nextStream w in
  modify (storeStream s (newStream c)) ;;
  ret s.

Definition Stream_asBroadcastStream (s : nat) : Op nat := allocStream (ClsBroadcast s None []).
Definition Stream_fromStream (s : nat) : Op nat := allocStream (ClsFiltering s None OpIdentity).
Definition Stream_map (s : nat) (transform : Z -> Outcome Z) : Op nat :=
  allocStream (ClsFiltering s None (OpMap transform)).
Definition Stream_take (s : nat) (n : Z) : Op nat :=
  allocStream (ClsFiltering s None (OpTake 0 n)).
Definition Stream_takeWhile (s : nat) (condition : Z -> Outcome bool) : Op nat :=
  allocStream (ClsFiltering s None (OpTakeWhile condition)).
Definition Stream_skip (s : nat) (n : Z) : Op nat :=
  allocStream (ClsFiltering s None (OpSkip 0 n)).
Definition Stream_skipWhile (s : nat) (condition : Z -> Outcome bool) : Op nat :=
  allocStream (ClsFiltering s None (OpSkipWhile true condition)).
Definition Stream_where (s : nat) (condition : Z -> Outcome bool) : Op nat :=
  allocStream (ClsFiltering s None (OpWhere condition)).

(** ** Terminal aggregations *)

(** new Promise((resolve, reject) => { const sub = this.listen(...) }): an
    exception of the executor rejects the promise. *)
Definition aggregate (s : nat) (k : AggKind) (initialValue : option Z) : Op nat :=
  w <- get ;;
  let a := nextAggregation w in
  let seenFirst := match initialValue with Some _ => true | None => false end in
  modify (storeAggregation a (mkAggregation k None Pending seenFirst initialValue [])) ;;
  tryCatch
    (x <- listen s (Collect a) forwardOptions ;;
     updAggregation a (withAggSub (Some x)))
    (fun e => reject a e) ;;
  ret a.

Definition Stream_every (s : nat) (condition : Z -> Outcome bool) : Op nat :=
  aggregate s (AggEvery condition) None.
Definition Stream_first (s : nat) : Op nat := aggregate s AggFirst None.
Definition Stream_firstWhere (s : nat) (condition : Z -> Outcome bool) : Op nat :=
  aggregate s (AggFirstWhere condition) None.
Definition Stream_forEach (s : nat) (l : nat) (listener : Z -> Outcome unit) : Op nat :=
  aggregate s (AggForEach l listener) None.
Definition Stream_reduce (s : nat) (reducer : option Z -> Z -> Outcome (option Z))
    (initialValue : option Z) : Op nat :=
  aggregate s (AggReduce reducer) initialValue.
Definition Stream_toArray (s : nat) : Op nat := aggregate s AggToArray None.
Definition Stream_toSet (s : nat) : Op nat := aggregate s AggToSet None.

Definition promiseOf (a : nat) (w : World) : PromiseState :=
  match aggregations w !! a with
  | Some ag => agg_promise ag
  | None => Pending
  end.

(** ** The closures run by nextTick *)

(** The closure of Stream._emit.  [this.cancel] is Stream.cancel: the
    broadcast class overrides every method that calls _emit. *)
Definition Stream_emit_tick (s : nat) : Op unit :=
  st <- theStream s ;;
  forEach (fun message =>
             st <- theStream s ;;
             match _subscription st with
             | Some x => messageHandler x message
             | None => ret tt
             end) (_buffer st) ;;
  updStream s (withBuffer []) ;;
  st <- theStream s ;;
  match _isClosed st, _subscription st with
  | true, Some x => cancel s x
  | _, _ => ret tt
  end.

Definition theController (c : nat) : Op StreamController :=
  fun w => match controllers w !! c with
           | Some ctl => Ok ctl w
           | None => Throw TypeError w
           end.

(** The four arrow functions _onListen, _onPause, _onResume, _onCancel of
    a controller call the handler that is set when the event fires. *)
Definition controllerHandler (ctl : StreamController) (name : string) : option nat :=
  if bool_decide (name = "onListen"%string) then ctl_onListen ctl
  else if bool_decide (name = "onPause"%string) then ctl_onPause ctl
  else if bool_decide (name = "onResume"%string) then ctl_onResume ctl
  else if bool_decide (name = "onCancel"%string) then ctl_onCancel ctl
  else None.

Definition callCallback (c : StreamCallback) : Op unit :=
  match c with
  | HookUser l => record (EvHook l)
  | HookController c name =>
      ctl <- theController c ;;
      match controllerHandler ctl name with
      | Some l => record (EvHook l)
      | None => ret tt
      end
  end.

(** The closure of Stream._callEventListeners. *)
Definition Stream_callEventListeners_tick (s : nat) (name : string) : Op unit :=
  st <- theStream s ;;
  match _eventCallbacks st !! name with
  | Some cbs => forEach callCallback cbs
  | None => ret tt
  end.

Definition subscribersOf (st : Stream) : list nat :=
  match class st with
  | ClsBroadcast _ _ subs => subs
  | _ => []
  end.

(** this._subscribers.forEach((s) => s.messageHandler(message)): Set's
    forEach skips an entry deleted before its turn. *)
Definition broadcast_fanOut_tick (s : nat) (message : StreamMessage) : Op unit :=
  st <- theStream s ;;
  forEach (fun x =>
             st <- theStream s ;;
             if bool_decide (x ∈ subscribersOf st) then messageHandler x message
             else ret tt) (subscribersOf st).

Definition runTask (t : Task) : Op unit :=
  match t with
  | TEmit s => Stream_emit_tick s
  | TEvent s name => Stream_callEventListeners_tick s name
  | TFanOut s m => broadcast_fanOut_tick s m
  end.

(** Runs the oldest closure of the queue; [false] when there is none. *)
Definition tick : Op bool :=
  w <- get ;;
  match queue w with
  | [] => ret false
  | t :: q => modify (setQueue (fun _ => q)) ;; runTask t ;; ret true
  end.

(** Runs closures until the queue is empty, at most [fuel] of them; an
    exception that leaves a closure ends the run. *)
Fixpoint drain (fuel : nat) : Op unit :=
  match fuel with
  | O => ret tt
  | S fuel' => more <- tick ;; if more : bool then drain fuel' else ret tt
  end.

(** ** stream_controller.ts *)

Definition newStreamController (broadcast : bool)
    (onListen onPause onResume onCancel : option nat) : Op nat :=
  src <- allocStream ClsStream ;;
  dst <- (if broadcast then Stream_asBroadcastStream src else ret src) ;;
  w <- get ;;
  let c := nextController w in
  modify (storeController c (mkController src dst onListen onPause onResume onCancel)) ;;
  addEventListener dst "onListen" (HookController c "onListen") ;;
  addEventListener dst "onPause" (HookController c "onPause") ;;
  addEventListener dst "onResume" (HookController c "onResume") ;;
  addEventListener dst "onCancel" (HookController c "onCancel") ;;
  ret c.

Definition StreamController_add (c : nat) (data : Z) : Op unit :=
  ctl <- theController c ;; add (_srcStream ctl) data.
Definition StreamController_addError (c : nat) (e : Value) : Op unit :=
  ctl <- theController c ;; addError (_srcStream ctl) e.
Definition StreamController_close (c : nat) : Op unit :=
  ctl <- theController c ;; close (_srcStream ctl).
Definition StreamController_isClosed (c : nat) : Op bool :=
  ctl <- theController c ;; st <- theStream (_srcStream ctl) ;; ret (_isClosed st).
(** The proxy forwards to [_dstStream]. *)
Definition StreamController_stream (c : nat) : Op nat :=
  ctl <- theController c ;; ret (_dstStream ctl).

(** ** Stream.fromPromises *)

Definition theSource (r : nat) : Op PromisesSource :=
  fun w => match sources w !! r with
           | Some src => Ok src w
           | None => Throw TypeError w
           end.
Definition updSource (r : nat) (f : PromisesSource -> PromisesSource) : Op unit :=
  modify (setSources (fun m => match m !! r with
                               | Some src => <[r := f src]> m
                               | None => m
                               end)).
Definition withCount (n : Z) (src : PromisesSource) : PromisesSource :=
  mkPromisesSource (ps_controller src) n (ps_reactions src).
Definition withReactions (l : list (option (Outcome Z))) (src : PromisesSource) : PromisesSource :=
  mkPromisesSource (ps_controller src) (ps_count src) l.

(** if (--count === 0) streamController.close() *)
Definition fromPromises_countDown (r : nat) : Op unit :=
  updSource r (fun src => withCount (ps_count src - 1) src) ;;
  src <- theSource r ;;
  when (ps_count src =? 0) (StreamController_close (ps_controller src)).

Definition fromPromises_onData (r : nat) (data : Z) : Op unit :=
  src <- theSource r ;;
  closed <- StreamController_isClosed (ps_controller src) ;;
  if closed : bool then ret tt
  else StreamController_add (ps_controller src) data ;; fromPromises_countDown r.

Definition fromPromises_onError (r : nat) (e : Value) : Op unit :=
  src <- theSource r ;;
  closed <- StreamController_isClosed (ps_controller src) ;;
  if closed : bool then ret tt
  else StreamController_addError (ps_controller src) e ;; fromPromises_countDown r.

(** Each promise of the iterable is given how it settles. *)
Definition Stream_fromPromises (promises : list (option (Outcome Z))) : Op (nat * nat) :=
  c <- newStreamController false None None None None ;;
  w <- get ;;
  let r := nextSource w in
  modify (storeSource r (mkPromisesSource c 0 [])) ;;
  forEach (fun p =>
             updSource r (fun src =>
               withReactions (ps_reactions src ++ [p])
                             (withCount (ps_count src + 1) src))) promises ;;
  s <- StreamController_stream c ;;
  ret (r, s).

(** The job that runs a reaction once its promise has settled: the [i]-th
    reaction still registered, if its promise settles at all. *)
Definition runReaction (r : nat) (i : nat) : Op unit :=
  src <- theSource r ;;
  match ps_reactions src !! i with
  | Some (Some o) =>
      updSource r (withReactions (delete i (ps_reactions src))) ;;
      match o with
      | Returns data => fromPromises_onData r data
      | Throws e => fromPromises_onError r e
      end
  | _ => ret tt
  end.

(** ** Vocabulary of the properties *)

(** Whether Stream._emit hands its closure to nextTick. *)
Definition willEmit (st : Stream) : bool :=
  match _isPaused st, _subscription st with
  | false, Some _ => true
  | _, _ => false
  end.

Definition isBroadcast (st : Stream) : bool :=
  match class st with
  | ClsBroadcast _ _ _ => true
  | _ => false
  end.

(** What stream.cancel leaves of the stream it is called on. *)
Definition afterCancel (x : nat) (st : Stream) : Stream :=
  if isBroadcast st then withSubscribers (setDelete x) st
  else withSubscription None st.

(** ** Worlds used as concrete instances *)

Definition plainOptions : StreamListenOptions := mkOptions true true false false false.

(** A predicate that throws on every value. *)
Definition alwaysThrows : Z -> Outcome bool := fun _ => Throws (VStr "bummer").

(** A parent stream, a stream derived from it with [derive], one listener
    on the derived stream, and the queue run to the end. *)
Definition derivedWorld (derive : nat -> Op nat) : World :=
  worldOf ((p <- allocStream ClsStream ;;
            t <- derive p ;;
            _ <- listen t (User 0) plainOptions ;;
            drain 4) emptyWorld).

Definition whereWorld : World :=
  worldOf (add 0 7 (derivedWorld (fun p => Stream_where p alwaysThrows))).
Definition takeWhileWorld : World :=
  derivedWorld (fun p => Stream_takeWhile p alwaysThrows).
Definition skipWhileWorld : World :=
  derivedWorld (fun p => Stream_skipWhile p alwaysThrows).


Definition parentOf (st : Stream) : option nat :=
  match class st with
  | ClsStream => None
  | ClsBroadcast p _ _ => Some p
  | ClsFiltering p _ _ => Some p
  end.

Definition parentSubscriptionOf (st : Stream) : option nat :=
  match class st with
  | ClsStream => None
  | ClsBroadcast _ x _ => x
  | ClsFiltering _ x _ => x
  end.

(** What the constructors and [listen] establish: a derived stream has a
    larger number than its parent, the subscription it holds belongs to a
    stream with a smaller number, and the numbers of the subscriptions in
    use are below the next one to be given out. *)
Definition streamOk (w : World) (s : nat) (st : Stream) : bool :=
  match parentOf st with
  | None => true
  | Some p => bool_decide (p < s)%nat && bool_decide (is_Some (streams w !! p))
  end &&
  match parentSubscriptionOf st with
  | None => true
  | Some x =>
      match subscriptions w !! x with
      | Some sub => bool_decide (sub_stream sub < s)%nat &&
                    bool_decide (is_Some (streams w !! sub_stream sub))
      | None => false
      end
  end.

Definition subscriptionOk (w : World) (x : nat) (sub : StreamSubscription) : bool :=
  bool_decide (x < nextSubscription w)%nat.

Definition wellFormed (w : World) : Prop :=
  map_Forall (fun s st => streamOk w s st = true) (streams w) /\
  map_Forall (fun x sub => subscriptionOk w x sub = true) (subscriptions w).

(** What [listen] on stream [s] leaves untouched: the streams numbered
    above [s], the existence of every stream, and the subscriptions that
    existed. *)
Definition listenFrame (s : nat) (w w' : World) : Prop :=
  (forall s', (s < s')%nat -> streams w' !! s' = streams w !! s') /\
  (forall s', is_Some (streams w !! s') -> is_Some (streams w' !! s')) /\
  (forall x sub, subscriptions w !! x = Some sub -> subscriptions w' !! x = Some sub) /\
  (forall x sub, subscriptions w' !! x = Some sub -> (x < nextSubscription w')%nat).

(** How [listen] on stream [s] ends: with a subscription of [s], or with the
    error for a second listener. *)
Definition listenResult (s : nat) (r : Result nat) : Prop :=
  match r with
  | Ok x w' => exists sub, subscriptions w' !! x = Some sub /\ sub_stream sub = s
  | Throw e _ => e = ErrorForListen
  end.


(** A derived stream that was closed while its listener is still attached. *)
Definition closedDerivedWorld : World :=
  worldOf ((p <- allocStream ClsStream ;;
            t <- Stream_fromStream p ;;
            _ <- listen t (User 0) plainOptions ;;
            close t) emptyWorld).


(** What observer [l], listening with options [o], records for a message. *)
Definition userEvents (l : nat) (o : StreamListenOptions) (m : StreamMessage) : list Event :=
  match m with
  | Data d => [EvData l d]
  | Error e => if onError o then [EvError l e] else []
  | Done => if onDone o then [EvDone l] else []
  end.


(** A message whose delivery does not make the subscription cancel itself. *)
Definition benign (o : StreamListenOptions) (m : StreamMessage) : bool :=
  match m with
  | Error _ => negb (cancelOnError o)
  | _ => true
  end.

(** C1: a new stream, the calls of [add] in one synchronous run, then the
    first [listen]. *)
Definition addsThenListen (ds : list Z) (l : nat) (o : StreamListenOptions) : Op nat :=
  s <- allocStream ClsStream ;;
  forEach (add s) ds ;;
  listen s (User l) o.


(** ** A broadcast stream over a base stream, with observers *)

(** The store between two calls of the application in the scenarios of the
    broadcast stream: base stream [p] with nothing buffered, broadcast
    stream [b] over it, holding subscription [psub] of [p] (if any), and one
    subscription [xs] for each observer of [ls], nothing buffered. *)
Definition observers (b : nat) (m : gmap nat StreamSubscription)
    (xs : list nat) (ls : list (nat * StreamListenOptions)) : Prop :=
  Forall2 (fun x lo => m !! x = Some (mkSubscription b (User (fst lo)) (snd lo) [] false))
          xs ls.

Definition broadcastState (p b : nat) (psub : option nat) (closed : bool)
    (xs : list nat) (ls : list (nat * StreamListenOptions)) (w : World) : Prop :=
  (p < b)%nat /\
  streams w !! p = Some (mkStream psub [] false false ∅ ClsStream) /\
  streams w !! b = Some (mkStream None [] false closed ∅ (ClsBroadcast p psub xs)) /\
  (forall x0, psub = Some x0 ->
     subscriptions w !! x0 = Some (mkSubscription p (Forward b) forwardOptions [] false)) /\
  observers b (subscriptions w) xs ls /\
  (forall x sub, subscriptions w !! x = Some sub -> (x < nextSubscription w)%nat).

(** The closures that can be in the queue in these scenarios. *)
Definition calm (p b : nat) (t : Task) : bool :=
  match t with
  | TEvent s _ => bool_decide (s = p) || bool_decide (s = b)
  | TEmit s => bool_decide (s = p)
  | TFanOut s (Data _) => bool_decide (s = b)
  | TFanOut s Done => bool_decide (s = b)
  | TFanOut _ (Error _) => false
  end.

(** What the observers [ls] record when closure [t] runs. *)
Definition fanOutEvents (ls : list (nat * StreamListenOptions)) (t : Task) : list Event :=
  match t with
  | TFanOut _ m => flat_map (fun lo => userEvents (fst lo) (snd lo) m) ls
  | _ => []
  end.

Definition listenAll (b : nat) (ls : list (nat * StreamListenOptions)) : Op unit :=
  forEach (fun lo => _ <- listen b (User (fst lo)) (snd lo) ;; ret tt) ls.


(** A closure that delivers nothing to the observers of a broadcast stream. *)
Definition quiet (t : Task) : bool :=
  match t with
  | TFanOut _ _ => false
  | _ => true
  end.

(** C4: observers [ls1] listen, a value is published with [add], observers
    [ls2] listen in the same synchronous run, the queue is run, and observers
    [ls3] listen afterwards. *)
Definition publishBetweenListeners (ls1 ls2 ls3 : list (nat * StreamListenOptions))
    (v : Z) : Op unit :=
  p <- allocStream ClsStream ;;
  b <- Stream_asBroadcastStream p ;;
  listenAll b ls1 ;;
  add b v ;;
  listenAll b ls2 ;;
  drain (3 + length ls1 + length ls2) ;;
  listenAll b ls3 ;;
  drain (2 + length ls3).


(** C9: observers [ls] listen to a broadcast stream, the stream is closed
    and the queue is run. *)
Definition closeAfterListeners (ls : list (nat * StreamListenOptions)) : Op unit :=
  p <- allocStream ClsStream ;;
  b <- Stream_asBroadcastStream p ;;
  listenAll b ls ;;
  close b ;;
  drain (4 + length ls).

(** Then one more observer listens, and the queue is run again. *)
Definition listenWhenClosed (b l : nat) (o : StreamListenOptions) : Op unit :=
  _ <- listen b (User l) o ;;
  drain 5.

(** What the observers [ls] record for a Done message. *)
Definition doneEvents (ls : list (nat * StreamListenOptions)) : list Event :=
  flat_map (fun lo => userEvents (fst lo) (snd lo) Done) ls.


(** ** Terminal aggregations: order of cancel and settle *)

(** Whether, in a run of events, the promise of aggregation [a] settles only
    after subscription [x] was cancelled ([cancelled]: it already was). *)
Fixpoint cancelsFirst (a x : nat) (cancelled : bool) (t : list Event) : bool :=
  match t with
  | [] => true
  | EvCancel y :: r => cancelsFirst a x (cancelled || bool_decide (y = x)) r
  | EvSettle b _ :: r =>
      (negb (bool_decide (b = a)) || cancelled) && cancelsFirst a x cancelled r
  | _ :: r => cancelsFirst a x cancelled r
  end.

(** The store after [cancelAndFulfill] has cancelled subscription [x] of
    stream [s] and settled the promise of [a]. *)
Definition cancelledAndSettled (a x : nat) (ag : Aggregation) (s : nat) (st : Stream)
    (p : PromiseState) (w : World) : World :=
  setTrace (fun t => t ++ [EvSettle a p])
    (setAggregations (fun m => <[a := withPromise p ag]> m)
      (setQueue (fun q => q ++ [TEvent s "onCancel"])
        (setStreams (fun m => <[s := afterCancel x st]> m)
          (setTrace (fun t => t ++ [EvCancel x]) w)))).

(** What the promise of an aggregation settles with when Done arrives. *)
Definition doneOutcome (ag : Aggregation) : PromiseState :=
  match agg_kind ag with
  | AggEvery _ => Resolved (VBool true)
  | AggFirst => Rejected (VError "")
  | AggFirstWhere _ => Rejected VNull
  | AggForEach _ _ => Resolved VUndefined
  | AggReduce _ => Resolved (valueOfAccumulator (agg_initialValue ag))
  | AggToArray => Resolved (VArray (agg_result ag))
  | AggToSet => Resolved (VSet (agg_result ag))
  end.

(** A closed stream with nothing in it, collected with toArray. *)
Definition toArrayOfClosedStream : Op nat :=
  s <- allocStream ClsStream ;;
  close s ;;
  a <- Stream_toArray s ;;
  drain 3 ;;
  ret a.


(** ** every *)

(** A call of the producer: [add] or [addError]. *)
Inductive Publication :=
  | PubData (d : Z)
  | PubError (e : Value).

Definition publish (s : nat) (p : Publication) : Op unit :=
  match p with
  | PubData d => add s d
  | PubError e => addError s e
  end.

(** The error object that [addError] puts in the stream. *)
Definition errorOf (e : Value) : Value :=
  match e with
  | VStr s => VError s
  | _ => e
  end.

Definition messageOf (p : Publication) : StreamMessage :=
  match p with
  | PubData d => Data d
  | PubError e => Error (errorOf e)
  end.

(** C6: a new stream, calls of the producer, possibly [close], then
    [every], and the queue run to the end. *)
Definition everyScenario (ps : list Publication) (closes : bool)
    (condition : Z -> Outcome bool) : Op nat :=
  s <- allocStream ClsStream ;;
  forEach (publish s) ps ;;
  when closes (close s) ;;
  a <- Stream_every s condition ;;
  drain 3 ;;
  ret a.

(** What [every] makes of the messages of a stream, in the words of its
    description: false, as a rejection, at the first value on which the
    condition does not return true; the error, as a rejection, at the first
    error; true at Done. *)
Fixpoint everyOutcome (condition : Z -> Outcome bool) (ms : list StreamMessage)
    : PromiseState :=
  match ms with
  | [] => Pending
  | Data d :: r =>
      match condition d with
      | Returns true => everyOutcome condition r
      | _ => Rejected (VBool false)
      end
  | Error e :: _ => Rejected e
  | Done :: _ => Resolved (VBool true)
  end.

(** The marks left by the settling of the promise of [a] and by the
    cancelling of its subscription [x]: a rejection comes after the cancel
    of [cancelAndFulfill], a resolution before the cancel that the stream
    makes once it has delivered Done. *)
Definition settlingEvents (a x : nat) (p : PromiseState) : list Event :=
  match p with
  | Pending => []
  | Resolved _ => [EvSettle a p; EvCancel x]
  | Rejected _ => [EvCancel x; EvSettle a p]
  end.

Definition holds (condition : Z -> Outcome bool) (p : Publication) : bool :=
  match p with
  | PubData d => match condition d with Returns true => true | _ => false end
  | PubError _ => false
  end.


(** The store after the loop of Stream._emit has delivered messages to the
    callbacks of [every], as a function of what the promise became. *)
Definition afterEveryLoop (a x : nat) (ag : Aggregation) (s : nat) (st : Stream)
    (p : PromiseState) (w : World) : World :=
  match p with
  | Pending => w
  | Resolved _ =>
      setTrace (fun t => t ++ [EvSettle a p])
        (setAggregations (fun m => <[a := withPromise p ag]> m) w)
  | Rejected _ => cancelledAndSettled a x ag s st p w
  end.


(** A stream that toArray has just begun to collect. *)
Definition toArrayWorld : World :=
  worldOf ((s <- allocStream ClsStream ;; Stream_toArray s) emptyWorld).


(** The store in which the callbacks of [every] can run: stream [s] with
    subscription [x], whose consumer is aggregation [a]. *)
Definition everyReady (s x a : nat) (st : Stream) (ag : Aggregation) (w : World) : Prop :=
  streams w !! s = Some st /\
  subscriptions w !! x = Some (mkSubscription s (Collect a) forwardOptions [] false) /\
  aggregations w !! a = Some ag.


(** ** Stream.fromPromises on an empty iterable *)

(** What the holder of the stream returned by [fromPromises] can do with
    it, and what else can happen: a closure of the queue runs, a reaction to
    one of the promises runs. *)
Inductive ConsumerCall :=
  | CallListen (l : nat) (o : StreamListenOptions)
  | CallAggregate (k : AggKind) (initialValue : option Z)
  | CallPause (x : nat)
  | CallResume (x : nat)
  | CallCancel (x : nat)
  | CallTick
  | CallReaction (i : nat).

Definition consume (r s : nat) (c : ConsumerCall) : Op unit :=
  match c with
  | CallListen l o => _ <- listen s (User l) o ;; ret tt
  | CallAggregate k initialValue => _ <- aggregate s k initialValue ;; ret tt
  | CallPause x => sub_pause x
  | CallResume x => sub_resume x
  | CallCancel x => sub_cancel x
  | CallTick => _ <- tick ;; ret tt
  | CallReaction i => runReaction r i
  end.

(** The calls one after the other; a call that throws leaves the store as
    it was when the exception left it, and the next call goes on from there. *)
Definition consumeAll (r s : nat) (cs : list ConsumerCall) (w : World) : World :=
  fold_left (fun w c => worldOf (consume r s c w)) cs w.

Definition idleTask (t : Task) : bool :=
  match t with
  | TEmit s => bool_decide (s = 0%nat)
  | TEvent s _ => bool_decide (s = 0%nat)
  | TFanOut _ _ => false
  end.

Definition idleEvent (e : Event) : bool :=
  match e with
  | EvDone _ => false
  | EvSettle _ (Resolved _) => false
  | _ => true
  end.

Definition unresolved (p : PromiseState) : bool :=
  match p with
  | Resolved _ => false
  | _ => true
  end.

(** The one stream of [fromPromises([])]: open, nothing buffered, of the
    base class, and its event callbacks are those of controller 0. *)
Definition hookOfController (c : StreamCallback) : bool :=
  match c with
  | HookController c _ => bool_decide (c = 0%nat)
  | HookUser _ => false
  end.

Definition idleStream (st : Stream) : Prop :=
  _buffer st = [] /\ _isClosed st = false /\ class st = ClsStream /\
  map_Forall (fun _ cbs => forallb hookOfController cbs = true) (_eventCallbacks st).

(** The stores that can be reached from [fromPromises([])]: the one stream
    is open with an empty buffer, the controller has no handler, no reaction
    is registered, no subscription has a message, no promise is resolved, the
    queue holds closures of the stream only, and no Done was delivered. *)
Definition sourceIdle (w : World) : Prop :=
  (exists st, streams w = {[0%nat := st]} /\ idleStream st) /\
  controllers w !! 0%nat = Some (mkController 0 0 None None None None) /\
  sources w !! 0%nat = Some (mkPromisesSource 0 0 []) /\
  map_Forall (fun _ sub => sub_stream sub = 0%nat /\ sub_buffer sub = [])
             (subscriptions w) /\
  map_Forall (fun _ ag => unresolved (agg_promise ag) = true) (aggregations w) /\
  forallb idleTask (queue w) = true /\
  forallb idleEvent (trace w) = true.

(** ** Invariants of the store *)

(** [keeps J m Q]: from a store where [J] holds, [m] ends, by returning or
    by throwing, in a store where [J] holds; what it returns satisfies [Q]. *)
Definition keeps {A} (J : World -> Prop) (m : Op A) (Q : A -> Prop) : Prop :=
  forall w, J w ->
    match m w with
    | Ok a w' => J w' /\ Q a
    | Throw _ w' => J w'
    end.

Definition anything {A} : A -> Prop := fun _ => True.


(** ** Closed streams *)

(** The members of the interface that derive a stream from stream [s]. *)
Inductive Derivation :=
  | AsBroadcastStream
  | FromStream
  | Map (transform : Z -> Outcome Z)
  | Take (n : Z)
  | TakeWhile (condition : Z -> Outcome bool)
  | Skip (n : Z)
  | SkipWhile (condition : Z -> Outcome bool)
  | Where (condition : Z -> Outcome bool).

Definition derive (s : nat) (d : Derivation) : Op nat :=
  match d with
  | AsBroadcastStream => Stream_asBroadcastStream s
  | FromStream => Stream_fromStream s
  | Map transform => Stream_map s transform
  | Take n => Stream_take s n
  | TakeWhile condition => Stream_takeWhile s condition
  | Skip n => Stream_skip s n
  | SkipWhile condition => Stream_skipWhile s condition
  | Where condition => Stream_where s condition
  end.

(** One step of a program that uses the library: a call of a public member
    on an object it names (a member of an object that does not exist cannot
    be called: TypeError), a closure of the queue, or a promise job. *)
Inductive Call :=
  | NewStream
  | NewStreamController (broadcast : bool) (onListen onPause onResume onCancel : option nat)
  | FromPromises (promises : list (option (Outcome Z)))
  | Derive (s : nat) (d : Derivation)
  | Listen (s : nat) (l : nat) (o : StreamListenOptions)
  | Aggregate (s : nat) (k : AggKind) (initialValue : option Z)
  | Add (s : nat) (data : Z)
  | AddError (s : nat) (e : Value)
  | Close (s : nat)
  | Pause (s : nat)
  | Resume (s : nat)
  | Cancel (s : nat) (x : nat)
  | AddEventListener (s : nat) (name : string) (l : nat)
  | RemoveEventListener (s : nat) (name : string) (l : nat)
  | SubPause (x : nat)
  | SubResume (x : nat)
  | SubCancel (x : nat)
  | ControllerAdd (c : nat) (data : Z)
  | ControllerAddError (c : nat) (e : Value)
  | ControllerClose (c : nat)
  | Tick
  | Reaction (r : nat) (i : nat).

Definition perform (c : Call) : Op unit :=
  match c with
  | NewStream => _ <- allocStream ClsStream ;; ret tt
  | NewStreamController broadcast onListen onPause onResume onCancel =>
      _ <- newStreamController broadcast onListen onPause onResume onCancel ;; ret tt
  | FromPromises promises => _ <- Stream_fromPromises promises ;; ret tt
  | Derive s d => _ <- theStream s ;; _ <- derive s d ;; ret tt
  | Listen s l o => _ <- listen s (User l) o ;; ret tt
  | Aggregate s k initialValue => _ <- aggregate s k initialValue ;; ret tt
  | Add s data => add s data
  | AddError s e => addError s e
  | Close s => close s
  | Pause s => pause s
  | Resume s => resume s
  | Cancel s x => cancel s x
  | AddEventListener s name l => addEventListener s name (HookUser l)
  | RemoveEventListener s name l => removeEventListener s name (HookUser l)
  | SubPause x => sub_pause x
  | SubResume x => sub_resume x
  | SubCancel x => sub_cancel x
  | ControllerAdd c data => StreamController_add c data
  | ControllerAddError c e => StreamController_addError c e
  | ControllerClose c => StreamController_close c
  | Tick => _ <- tick ;; ret tt
  | Reaction r i => runReaction r i
  end.

(** The steps one after the other; a step that throws leaves the store as
    it was when the exception left it, and the program goes on from there. *)
Definition performAll (cs : list Call) (w : World) : World :=
  fold_left (fun w c => worldOf (perform c w)) cs w.

Definition isDone (m : StreamMessage) : bool :=
  match m with
  | Done => true
  | _ => false
  end.

(** Nothing but Done messages behind a Done message. *)
Fixpoint doneLast (b : list StreamMessage) : bool :=
  match b with
  | [] => true
  | Done :: b' => forallb isDone b'
  | _ :: b' => doneLast b'
  end.

Definition bufferOk (st : Stream) : Prop :=
  doneLast (_buffer st) = true /\
  (_isClosed st = false -> existsb isDone (_buffer st) = false).

Definition isFiltering (st : Stream) : bool :=
  match class st with
  | ClsFiltering _ _ _ => true
  | _ => false
  end.

(** [closing w0 w]: what holds of every store [w] that a program reaches
    from store [w0]. *)
Definition closing (w0 w : World) : Prop :=
  (forall s st, streams w !! s = Some st -> (s < nextStream w)%nat /\ bufferOk st) /\
  (forall s st0, streams w0 !! s = Some st0 ->
     exists st, streams w !! s = Some st /\
                isFiltering st = isFiltering st0 /\
                (_isClosed st0 = true -> _isClosed st = true)).

Definition closedTwice : World :=
  performAll [NewStream; Close 0; Close 0] emptyWorld.


(** ** take *)

(** What the producer side of the parent stream does, and what else can
    happen: the oldest closure of the queue runs. *)
Inductive ProducerCall :=
  | PAdd (data : Z)
  | PTick.

Definition produce (p : nat) (c : ProducerCall) : Op unit :=
  match c with
  | PAdd data => add p data
  | PTick => _ <- tick ;; ret tt
  end.

Definition added (script : list ProducerCall) : list Z :=
  flat_map (fun c => match c with PAdd data => [data] | PTick => [] end) script.

(** A new stream, take(n) of it, a listener on the derived stream; then the
    producer adds values to the parent while closures of the queue run, in
    any order; at the end the queue is run until it is empty. *)
Definition takeScenario (n : Z) (l : nat) (o : StreamListenOptions)
    (script : list ProducerCall) (fuel : nat) : Op (nat * nat) :=
  p <- allocStream ClsStream ;;
  t <- Stream_take p n ;;
  _ <- listen t (User l) o ;;
  forEach (produce p) script ;;
  drain fuel ;;
  ret (p, t).

(** The calls of the callbacks of observer [l] among the events. *)
Definition heardBy (l : nat) (evs : list Event) : list Event :=
  List.filter (fun e => match e with
                        | EvData l' _ | EvError l' _ | EvDone l'
                        | EvPause l' | EvResume l' => bool_decide (l' = l)
                        | _ => false
                        end) evs.

(** Where the pair of streams is: the take stream has republished [k]
    values and listens to its parent; or it has closed and cancelled, with
    its Done message not delivered yet; or it has delivered it and has been
    detached from its listener. *)
Inductive Phase :=
  | Taking (k : Z)
  | Closing
  | Finished.

Definition parentStream (xp : nat) (ph : Phase) (pb : list Z) : Stream :=
  mkStream (match ph with Taking _ => Some xp | _ => None end)
           (List.map Data pb) false false ∅ ClsStream.

Definition takeStream (p xp xt : nat) (n : Z) (ph : Phase) (tb : list StreamMessage) : Stream :=
  mkStream (match ph with Finished => None | _ => Some xt end) tb false
           (match ph with Taking _ => false | _ => true end) ∅
           (ClsFiltering p (match ph with Taking _ => Some xp | _ => None end)
              (OpTake (match ph with Taking k => k | _ => n end) n)).

(** The four objects of the scenario in the store. *)
Definition takeShape (p t xp xt l : nat) (o : StreamListenOptions) (n : Z)
    (ph : Phase) (pb : list Z) (tb : list StreamMessage) (w : World) : Prop :=
  streams w !! p = Some (parentStream xp ph pb) /\
  streams w !! t = Some (takeStream p xp xt n ph tb) /\
  subscriptions w !! xp = Some (mkSubscription p (Forward t) forwardOptions [] false) /\
  subscriptions w !! xt = Some (mkSubscription t (User l) o [] false).

(** The closures the scenario hands to nextTick. *)
Definition ofThePair (p t : nat) (task : Task) : bool :=
  match task with
  | TEmit s | TEvent s _ => bool_decide (s = p) || bool_decide (s = t)
  | TFanOut _ _ => false
  end.

(** What has been heard, what is buffered and what was added, by phase. *)
Definition takeAccount (p t l : nat) (n : Z) (vs : list Z)
    (ph : Phase) (pb : list Z) (tb : list StreamMessage)
    (heard : list Event) (q : list Task) : Prop :=
  match ph with
  | Taking k =>
      exists seen td,
        heard = List.map (EvData l) seen /\ tb = List.map Data td /\
        vs = seen ++ td ++ pb /\ k = Z.of_nat (length (seen ++ td)) /\ k < n /\
        (pb <> [] -> TEmit p ∈ q) /\ (td <> [] -> TEmit t ∈ q)
  | Closing =>
      exists seen td,
        heard = List.map (EvData l) seen /\ tb = List.map Data td ++ [Done] /\
        seen ++ td = firstn (Z.to_nat n) vs /\ n <= Z.of_nat (length vs) /\ TEmit t ∈ q
  | Finished =>
      heard = List.map (EvData l) (firstn (Z.to_nat n) vs) ++ [EvDone l] /\
      n <= Z.of_nat (length vs) /\ tb = []
  end.

(** How many closures can still run. *)
Definition closuresLeft (ph : Phase) (pb : list Z) (q : list Task) : nat :=
  (length q + match ph with
              | Taking _ => length pb + 4
              | Closing => 1
              | Finished => 0
              end)%nat.

(** [takeInv ... tr0 vs m w]: the store after the producer has added the
    values [vs], in some order with closures of the queue; [evs] is what
    happened since the listener was attached, and at most [m] closures can
    still run. *)
Definition takeInv (p t xp xt l : nat) (o : StreamListenOptions) (n : Z)
    (tr0 : list Event) (vs : list Z) (m : nat) (w : World) : Prop :=
  exists ph pb tb evs,
    takeShape p t xp xt l o n ph pb tb w /\
    forallb (ofThePair p t) (queue w) = true /\
    trace w = tr0 ++ evs /\
    match ph with Taking _ => True | _ => EvCancel xp ∈ evs end /\
    takeAccount p t l n vs ph pb tb (heardBy l evs) (queue w) /\
    (closuresLeft ph pb (queue w) <= m)%nat.


(** ** References between the objects *)

(** [extends w0 w]: the streams of [w0] are still there in [w], and so are
    its subscriptions, each on the stream it was created for. *)
Definition extends (w0 w : World) : Prop :=
  (forall s, is_Some (streams w0 !! s) -> is_Some (streams w !! s)) /\
  (forall x sub0, subscriptions w0 !! x = Some sub0 ->
     exists sub, subscriptions w !! x = Some sub /\ sub_stream sub = sub_stream sub0).

(** Every reference points to an object, and to one that was created
    before: a stream to its parent and to the subscription it holds on it,
    a subscription to its stream. *)
Definition grounded (w : World) : Prop :=
  (forall s st, streams w !! s = Some st ->
     (s < nextStream w)%nat /\
     (forall p, parentOf st = Some p -> (p < s)%nat /\ is_Some (streams w !! p)) /\
     (forall x, parentSubscriptionOf st = Some x ->
        exists sub, subscriptions w !! x = Some sub /\ (sub_stream sub < s)%nat)) /\
  (forall x sub, subscriptions w !! x = Some sub ->
     (x < nextSubscription w)%nat /\ is_Some (streams w !! sub_stream sub)).

Definition groundedFrom (w0 w : World) : Prop := grounded w /\ extends w0 w.


(** ** A listener that pauses and resumes *)

(** What the two ends of a stream with one listener do: the producer
    publishes, the listener pauses and resumes its subscription, and the
    oldest closure of the queue runs. *)
Inductive ListenerCall :=
  | LPublish (p : Publication)
  | LPause
  | LResume
  | LTick.

Definition listenerStep (s x : nat) (c : ListenerCall) : Op unit :=
  match c with
  | LPublish p => publish s p
  | LPause => sub_pause x
  | LResume => sub_resume x
  | LTick => _ <- tick ;; ret tt
  end.

Definition published (script : list ListenerCall) : list StreamMessage :=
  flat_map (fun c => match c with LPublish p => [messageOf p] | _ => [] end) script.

(** Whether the subscription is paused after the calls, if it was [paused]
    before. *)
Definition pausedAfter (paused : bool) (script : list ListenerCall) : bool :=
  fold_left (fun b c => match c with
                        | LPause => true
                        | LResume => false
                        | _ => b
                        end) script paused.

(** The calls of onData, onError and onDone of observer [l] among the
    events. *)
Definition deliveredTo (l : nat) (evs : list Event) : list Event :=
  List.filter (fun e => match e with
                        | EvData l' _ | EvError l' _ | EvDone l' => bool_decide (l' = l)
                        | _ => false
                        end) evs.

(** A new stream and a listener; then the calls of [script]; at the end the
    stream is possibly closed and the queue is run until it is empty. *)
Definition listenerScenario (l : nat) (o : StreamListenOptions)
    (script : list ListenerCall) (closes : bool) (fuel : nat) : Op (nat * nat) :=
  s <- allocStream ClsStream ;;
  x <- listen s (User l) o ;;
  forEach (listenerStep s x) script ;;
  when closes (close s) ;;
  drain fuel ;;
  ret (s, x).

(** The same beginning, up to a call of pause after [script]. *)
Definition pausedListener (l : nat) (o : StreamListenOptions)
    (script : list ListenerCall) : Op (nat * nat) :=
  s <- allocStream ClsStream ;;
  x <- listen s (User l) o ;;
  forEach (listenerStep s x) script ;;
  sub_pause x ;;
  ret (s, x).

(** Where the stream and its subscription are: delivering; paused, with
    [sb] held by the subscription; closed, with Done still to deliver;
    closed and detached from the listener. *)
Inductive Mode :=
  | Running
  | Paused (sb : list StreamMessage)
  | Closed
  | Detached.

Definition isPausedMode (mode : Mode) : bool :=
  match mode with
  | Paused _ => true
  | _ => false
  end.

Definition heldBy (mode : Mode) : list StreamMessage :=
  match mode with
  | Paused sb => sb
  | _ => []
  end.

Definition listenedStream (x : nat) (mode : Mode) (b : list StreamMessage) : Stream :=
  mkStream (match mode with Detached => None | _ => Some x end) b (isPausedMode mode)
           (match mode with Closed | Detached => true | _ => false end) ∅ ClsStream.

Definition listenerShape (s x l : nat) (o : StreamListenOptions)
    (mode : Mode) (b : list StreamMessage) (w : World) : Prop :=
  streams w !! s = Some (listenedStream x mode b) /\
  subscriptions w !! x =
    Some (mkSubscription s (User l) o (heldBy mode) (isPausedMode mode)).

Definition ofTheStream (s : nat) (task : Task) : bool :=
  match task with
  | TEmit s' | TEvent s' _ => bool_decide (s' = s)
  | TFanOut _ _ => false
  end.

(** [listenerInv ... heard pending mode m w]: the listener has been called
    with the messages [heard], the messages [pending] are held by the
    subscription or buffered by the stream, and at most [m] closures can
    still run. *)
Definition listenerInv (s x l : nat) (o : StreamListenOptions) (tr0 : list Event)
    (heard pending : list StreamMessage) (mode : Mode) (m : nat) (w : World) : Prop :=
  exists b evs,
    listenerShape s x l o mode b w /\
    forallb (ofTheStream s) (queue w) = true /\
    trace w = tr0 ++ evs /\
    deliveredTo l evs = flat_map (userEvents l o) heard /\
    pending = heldBy mode ++ b /\
    match mode with
    | Running => b <> [] -> TEmit s ∈ queue w
    | Paused _ => True
    | Closed => (exists b', b = b' ++ [Done]) /\ TEmit s ∈ queue w
    | Detached => b = [] /\ EvCancel x ∈ evs
    end /\
    (length (queue w) + match mode with Closed => 1 | _ => 0 end <= m)%nat.


(** ** Terminal aggregations over a stream that is being fed *)

(** What the callbacks of an aggregation whose promise is pending make of
    one message: they go on, with the variables of the closure updated, or
    the promise settles, after a call of cancelAndFulfill ([cancels]) or
    directly.  [evs] are the calls of the listener of forEach. *)
Inductive AggStep :=
  | Goes (ag' : Aggregation) (evs : list Event)
  | Stops (cancels : bool) (p : PromiseState) (evs : list Event).

Definition aggStep (ag : Aggregation) (m : StreamMessage) : AggStep :=
  match m with
  | Data d =>
      match agg_kind ag with
      | AggEvery condition =>
          match condition d with
          | Returns true => Goes ag []
          | _ => Stops true (Rejected (VBool false)) []
          end
      | AggFirst => Stops true (Resolved (VNum d)) []
      | AggFirstWhere condition =>
          match condition d with
          | Returns true => Stops true (Resolved (VNum d)) []
          | Returns false => Goes ag []
          | Throws e => Stops true (Rejected e) []
          end
      | AggForEach l listener =>
          match listener d with
          | Returns _ => Goes ag [EvData l d]
          | Throws e => Stops true (Rejected e) [EvData l d]
          end
      | AggReduce reducer =>
          if agg_seenFirst ag then
            match reducer (agg_initialValue ag) d with
            | Returns v => Goes (withAccumulator true v ag) []
            | Throws e => Stops true (Rejected e) []
            end
          else Goes (withAccumulator true (Some d) ag) []
      | AggToArray => Goes (withResult (agg_result ag ++ [d]) ag) []
      | AggToSet =>
          Goes (if bool_decide (d ∈ agg_result ag) then ag
                else withResult (agg_result ag ++ [d]) ag) []
      end
  | Error e => Stops true (Rejected e) []
  | Done =>
      Stops (match agg_kind ag with AggFirstWhere _ => true | _ => false end)
            (doneOutcome ag) []
  end.

Definition afterEvents (evs : list Event) (r : AggStep) : AggStep :=
  match r with
  | Goes ag' evs' => Goes ag' (evs ++ evs')
  | Stops cancels p evs' => Stops cancels p (evs ++ evs')
  end.

(** The messages one after the other, up to the one that settles the
    promise. *)
Fixpoint aggRun (ag : Aggregation) (ms : list StreamMessage) : AggStep :=
  match ms with
  | [] => Goes ag []
  | m :: r =>
      match aggStep ag m with
      | Goes ag' evs => afterEvents evs (aggRun ag' r)
      | Stops cancels p evs => Stops cancels p evs
      end
  end.

Definition aggPromise (r : AggStep) : PromiseState :=
  match r with
  | Goes _ _ => Pending
  | Stops _ p _ => p
  end.

(** What is recorded: the calls of the listener, then the cancel of the
    subscription and the settling of the promise, in the order in which
    they happen. *)
Definition aggTrace (a x : nat) (r : AggStep) : list Event :=
  match r with
  | Goes _ evs => evs
  | Stops true p evs => evs ++ [EvCancel x; EvSettle a p]
  | Stops false p evs => evs ++ [EvSettle a p; EvCancel x]
  end.

(** A call of the producer, or the oldest closure of the queue. *)
Inductive FeedCall :=
  | Feed (p : Publication)
  | FeedTick.

Definition feed (s : nat) (c : FeedCall) : Op unit :=
  match c with
  | Feed p => publish s p
  | FeedTick => _ <- tick ;; ret tt
  end.

Definition fed (script : list FeedCall) : list StreamMessage :=
  flat_map (fun c => match c with Feed p => [messageOf p] | FeedTick => [] end) script.

(** A new stream on which [before] is published; then the aggregation is
    started; then the producer goes on publishing while closures of the
    queue run; at the end the stream is possibly closed, and the queue is
    run until it is empty. *)
Definition aggScenario (before : list Publication) (k : AggKind) (initialValue : option Z)
    (script : list FeedCall) (closes : bool) (fuel : nat) : Op (nat * nat) :=
  s <- allocStream ClsStream ;;
  forEach (publish s) before ;;
  a <- aggregate s k initialValue ;;
  forEach (feed s) script ;;
  when closes (close s) ;;
  drain fuel ;;
  ret (s, a).

(** The closure of the aggregation when it starts. *)
Definition newAggregation (k : AggKind) (initialValue : option Z) (x : nat) : Aggregation :=
  mkAggregation k (Some x) Pending
                (match initialValue with Some _ => true | None => false end)
                initialValue [].

Definition aggShape (s x a : nat) (attached closed : bool) (b : list StreamMessage)
    (ag : Aggregation) (w : World) : Prop :=
  streams w !! s =
    Some (mkStream (if attached then Some x else None) b false closed ∅ ClsStream) /\
  subscriptions w !! x = Some (mkSubscription s (Collect a) forwardOptions [] false) /\
  aggregations w !! a = Some ag.

Definition noDone (ms : list StreamMessage) : bool :=
  forallb (fun m => negb (isDone m)) ms.

(** [aggInv ... ag0 tr0 msgs closed m w]: the store after the messages
    [msgs] have been published; [heard] of them have reached the callbacks
    of the aggregation; while the promise is pending the others are in the
    buffer of the stream. *)
Definition aggInv (s x a : nat) (ag0 : Aggregation) (tr0 : list Event)
    (msgs : list StreamMessage) (closed : bool) (m : nat) (w : World) : Prop :=
  exists heard b ag,
    (exists rest, msgs = heard ++ rest) /\
    forallb (ofTheStream s) (queue w) = true /\
    trace w = tr0 ++ aggTrace a x (aggRun ag0 heard) /\
    agg_promise ag = aggPromise (aggRun ag0 heard) /\
    (if closed then exists b', msgs = b' ++ [Done] /\ noDone b' = true
     else noDone msgs = true) /\
    match aggRun ag0 heard with
    | Goes ag' _ =>
        msgs = heard ++ b /\ ag = ag' /\ agg_sub ag = Some x /\
        aggShape s x a true closed b ag w /\
        (b <> [] -> TEmit s ∈ queue w) /\
        (length (queue w) + 1 <= m)%nat
    | Stops _ _ _ =>
        aggShape s x a false closed b ag w /\ (length (queue w) <= m)%nat
    end.


(** What the loop of the closure of Stream._emit leaves, by what the
    callbacks made of the messages. *)
Definition aggLoopResult (s x a : nat) (closed : bool) (bs : list StreamMessage) (ag : Aggregation)
    (r : AggStep) (w w' : World) : Prop :=
  match r with
  | Goes ag' evs =>
      aggShape s x a true closed bs ag' w' /\
      queue w' = queue w /\ trace w' = trace w ++ evs
  | Stops true p evs =>
      (exists ag', aggShape s x a false closed bs ag' w' /\ agg_promise ag' = p) /\
      queue w' = queue w ++ [TEvent s "onCancel"] /\
      trace w' = trace w ++ evs ++ [EvCancel x; EvSettle a p]
  | Stops false p evs =>
      (exists ag', aggShape s x a true closed bs ag' w' /\ agg_promise ag' = p) /\
      queue w' = queue w /\ trace w' = trace w ++ evs ++ [EvSettle a p]
  end.


(** The values among the messages, in their order. *)
Definition valuesOf (ms : list StreamMessage) : list Z :=
  flat_map (fun m => match m with Data d => [d] | _ => [] end) ms.

(** The first error among the messages. *)
Fixpoint firstError (ms : list StreamMessage) : option Value :=
  match ms with
  | [] => None
  | Error e :: _ => Some e
  | _ :: r => firstError r
  end.

(** The values that come before the first error. *)
Fixpoint valuesBefore (ms : list StreamMessage) : list Z :=
  match ms with
  | Data d :: r => d :: valuesBefore r
  | _ => []
  end.

(** The elements of a Set to which the values are added one after the
    other, in the order of iteration: each value where it first occurs. *)
Fixpoint firstOccurrences (ds : list Z) : list Z :=
  match ds with
  | [] => []
  | d :: r => d :: List.filter (fun d' => negb (d' =? d)) (firstOccurrences r)
  end.

(** The accumulator of reduce after the values: without an initial value
    the first value starts it. *)
Definition reduced (g : option Z -> Z -> option Z) (initialValue : option Z)
    (ds : list Z) : option Z :=
  match initialValue, ds with
  | Some i, _ => fold_left g ds (Some i)
  | None, [] => None
  | None, d :: r => fold_left g r (Some d)
  end.

(** The messages that make firstWhere settle: an error, Done, and a value
    on which the condition does not return false. *)
Definition decides (condition : Z -> Outcome bool) (m : StreamMessage) : bool :=
  match m with
  | Data d => match condition d with Returns false => false | _ => true end
  | _ => true
  end.

(** The messages of the scenario: what is published before the aggregation
    starts, what is published after, and Done if the stream is closed. *)
Definition publishedMessages (before : list Publication) (script : list FeedCall)
    (closes : bool) : list StreamMessage :=
  List.map messageOf before ++ fed script ++ (if closes then [Done] else []).


(** Set.add on the result of toSet. *)
Definition resultAdd (acc : list Z) (d : Z) : list Z :=
  if bool_decide (d ∈ acc) then acc else acc ++ [d].

(** The accumulator of reduce after more values, from the variables of
    its closure. *)
Definition accumulated (g : option Z -> Z -> option Z) (seenFirst : bool)
    (acc : option Z) (ds : list Z) : option Z :=
  if seenFirst then fold_left g ds acc
  else match ds with
       | [] => acc
       | d :: r => fold_left g r (Some d)
       end.


(** ** Derived streams over a parent that is being fed *)

(** What the [add] of a derived stream does with a value of its parent:
    the operator afterwards, the values it republishes and whether it
    closes itself; or the exception of its callback, where the method lets
    it escape. *)
Definition filterStep (op : FilterOp) (d : Z) : Outcome (FilterOp * list Z * bool) :=
  match op with
  | OpIdentity => Returns (op, [d], false)
  | OpMap transform =>
      match transform d with
      | Returns v => Returns (op, [v], false)
      | Throws e => Throws e
      end
  | OpTake taken takeAmount =>
      if taken <? takeAmount
      then Returns (OpTake (taken + 1) takeAmount, [d], taken + 1 >=? takeAmount)
      else Returns (op, [], taken >=? takeAmount)
  | OpTakeWhile condition =>
      match condition d with
      | Returns true => Returns (op, [d], false)
      | _ => Returns (op, [], true)
      end
  | OpSkip skipped skipAmount =>
      if skipped <? skipAmount then Returns (OpSkip (skipped + 1) skipAmount, [], false)
      else Returns (op, [d], false)
  | OpSkipWhile skipping condition =>
      match (if skipping then condition d else Returns false) with
      | Returns true => Returns (op, [], false)
      | _ => Returns (OpSkipWhile false condition, [d], false)
      end
  | OpWhere condition =>
      match condition d with
      | Returns true => Returns (op, [d], false)
      | Returns false => Returns (op, [], false)
      | Throws e => Throws e
      end
  end.

(** The callbacks whose exception [add] lets escape never throw. *)
Definition neverThrows (op : FilterOp) : Prop :=
  match op with
  | OpMap transform => forall d, exists v, transform d = Returns v
  | OpWhere condition => forall d, exists b, condition d = Returns b
  | _ => True
  end.

(** What a derived stream republishes of the messages of its parent, and
    its operator afterwards, [None] once it has closed: values go through
    [add], errors through [addError], and Done closes it. *)
Fixpoint filterRun (op : FilterOp) (ms : list StreamMessage)
    : Outcome (option FilterOp * list StreamMessage) :=
  match ms with
  | [] => Returns (Some op, [])
  | Data d :: r =>
      match filterStep op d with
      | Returns (op', out, false) =>
          match filterRun op' r with
          | Returns (st, outs) => Returns (st, List.map Data out ++ outs)
          | Throws e => Throws e
          end
      | Returns (_, out, true) => Returns (None, List.map Data out ++ [Done])
      | Throws e => Throws e
      end
  | Error e :: r =>
      match filterRun op r with
      | Returns (st, outs) => Returns (st, Error (errorOf e) :: outs)
      | Throws e' => Throws e'
      end
  | Done :: _ => Returns (None, [Done])
  end.











(** *** What the listener of a derived stream hears, in closed form *)











(** * Properties *)

(** ** Running operations step by step *)

Lemma world_eq (w w' : World) :
  streams w = streams w' -> nextStream w = nextStream w' ->
  subscriptions w = subscriptions w' -> nextSubscription w = nextSubscription w' ->
  aggregations w = aggregations w' -> nextAggregation w = nextAggregation w' ->
  controllers w = controllers w' -> nextController w = nextController w' ->
  sources w = sources w' -> nextSource w = nextSource w' ->
  queue w = queue w' -> trace w = trace w' -> w = w'.
Proof. destruct w, w'; simpl; intros; subst; reflexivity. Qed.

Ltac wsimpl :=
  cbn [streams nextStream subscriptions nextSubscription aggregations nextAggregation
       controllers nextController sources nextSource queue trace
       setStreams setSubscriptions setAggregations setSources setQueue setTrace
       storeStream storeSubscription storeAggregation storeController storeSource
       worldOf] in *.

Lemma bind_ok {A B} (m : Op A) (k : A -> Op B) w a w' :
  m w = Ok a w' -> bind m k w = k a w'.
Proof. intros H. unfold bind. by rewrite H. Qed.

Lemma bind_throw {A B} (m : Op A) (k : A -> Op B) w e w' :
  m w = Throw e w' -> bind m k w = Throw e w'.
Proof. intros H. unfold bind. by rewrite H. Qed.

Lemma bind_assoc {A B C} (m : Op A) (k1 : A -> Op B) (k2 : B -> Op C) w :
  bind (bind m k1) k2 w = bind m (fun a => bind (k1 a) k2) w.
Proof. unfold bind. destruct (m w); reflexivity. Qed.

Lemma bind_ret_tt (m : Op unit) w : bind m (fun _ => ret tt) w = m w.
Proof. unfold bind, ret. destruct (m w) as [[] ?|]; reflexivity. Qed.

Lemma ret_ok {A} (a : A) w : ret a w = Ok a w.
Proof. reflexivity. Qed.

Lemma get_ok w : get w = Ok w w.
Proof. reflexivity. Qed.

Lemma modify_ok f w : modify f w = Ok tt (f w).
Proof. reflexivity. Qed.

Lemma record_ok e w : record e w = Ok tt (setTrace (fun t => t ++ [e]) w).
Proof. reflexivity. Qed.

Lemma nextTick_ok t w : nextTick t w = Ok tt (setQueue (fun q => q ++ [t]) w).
Proof. reflexivity. Qed.

Lemma theStream_ok w s st : streams w !! s = Some st -> theStream s w = Ok st w.
Proof. intros H. unfold theStream. by rewrite H. Qed.

Lemma theSubscription_ok w x sub :
  subscriptions w !! x = Some sub -> theSubscription x w = Ok sub w.
Proof. intros H. unfold theSubscription. by rewrite H. Qed.

Lemma theAggregation_ok w a ag :
  aggregations w !! a = Some ag -> theAggregation a w = Ok ag w.
Proof. intros H. unfold theAggregation. by rewrite H. Qed.

Lemma updStream_ok w s st f :
  streams w !! s = Some st ->
  updStream s f w = Ok tt (setStreams (fun m => <[s := f st]> m) w).
Proof. intros H. unfold updStream, modify, setStreams. by rewrite H. Qed.

Lemma updSubscription_ok w x sub f :
  subscriptions w !! x = Some sub ->
  updSubscription x f w = Ok tt (setSubscriptions (fun m => <[x := f sub]> m) w).
Proof. intros H. unfold updSubscription, modify, setSubscriptions. by rewrite H. Qed.

Lemma updAggregation_ok w a ag f :
  aggregations w !! a = Some ag ->
  updAggregation a f w = Ok tt (setAggregations (fun m => <[a := f ag]> m) w).
Proof. intros H. unfold updAggregation, modify, setAggregations. by rewrite H. Qed.

(** Looking an object up in a store that was just written. *)
Ltac lk :=
  wsimpl;
  first [ eassumption
        | apply lookup_insert_eq
        | rewrite lookup_insert_ne by (first [lia | congruence | done]); lk ].

(** [step lem] runs the first operation of a sequence with the equation
    [lem], whose premises are lookups. *)
Ltac step lem := rewrite ?bind_assoc; erewrite bind_ok by (eapply lem; lk); cbn beta.
Ltac step0 lem := rewrite ?bind_assoc; erewrite bind_ok by (apply lem); cbn beta.

(** ** Equations of the methods of class Stream *)

Lemma Stream_emit_ok w s st :
  streams w !! s = Some st ->
  Stream_emit s w =
  Ok tt (if willEmit st then setQueue (fun q => q ++ [TEmit s]) w else w).
Proof.
  intros H. unfold Stream_emit. step theStream_ok.
  unfold willEmit. destruct (_isPaused st), (_subscription st); reflexivity.
Qed.

Lemma Stream_cancel_ok w s st x :
  streams w !! s = Some st ->
  Stream_cancel s x w =
  Ok tt (setQueue (fun q => q ++ [TEvent s "onCancel"])
          (setStreams (fun m => <[s := withSubscription None st]> m)
            (setTrace (fun t => t ++ [EvCancel x]) w))).
Proof.
  intros H. unfold Stream_cancel. step0 record_ok. step updStream_ok. reflexivity.
Qed.

Lemma broadcast_cancel_ok w s st x :
  streams w !! s = Some st ->
  broadcast_cancel s x w =
  Ok tt (setQueue (fun q => q ++ [TEvent s "onCancel"])
          (setStreams (fun m => <[s := withSubscribers (setDelete x) st]> m)
            (setTrace (fun t => t ++ [EvCancel x]) w))).
Proof.
  intros H. unfold broadcast_cancel. step0 record_ok. step updStream_ok. reflexivity.
Qed.

Lemma cancel_ok w s st x :
  streams w !! s = Some st ->
  cancel s x w =
  Ok tt (setQueue (fun q => q ++ [TEvent s "onCancel"])
          (setStreams (fun m => <[s := afterCancel x st]> m)
            (setTrace (fun t => t ++ [EvCancel x]) w))).
Proof.
  intros H. unfold cancel. step theStream_ok. unfold afterCancel, isBroadcast.
  destruct (class st); first [ by apply Stream_cancel_ok | by apply broadcast_cancel_ok ].
Qed.

Lemma sub_cancel_ok w x sub st :
  subscriptions w !! x = Some sub ->
  streams w !! sub_stream sub = Some st ->
  sub_cancel x w =
  Ok tt (setQueue (fun q => q ++ [TEvent (sub_stream sub) "onCancel"])
          (setStreams (fun m => <[sub_stream sub := afterCancel x st]> m)
            (setTrace (fun t => t ++ [EvCancel x]) w))).
Proof.
  intros Hx Hs. unfold sub_cancel. step theSubscription_ok. by apply cancel_ok.
Qed.

Lemma Stream_add_ok w s st d :
  streams w !! s = Some st -> _isClosed st = false ->
  Stream_add s d w =
  Ok tt (let w' := setStreams (fun m => <[s := withBuffer (_buffer st ++ [Data d]) st]> m) w in
         if willEmit st then setQueue (fun q => q ++ [TEmit s]) w' else w').
Proof.
  intros H Hc. unfold Stream_add. step theStream_ok. rewrite Hc.
  step updStream_ok. erewrite Stream_emit_ok by lk. reflexivity.
Qed.

Lemma Stream_add_closed w s st d :
  streams w !! s = Some st -> _isClosed st = true ->
  Stream_add s d w = Throw ErrorForAdd w.
Proof. intros H Hc. unfold Stream_add. step theStream_ok. by rewrite Hc. Qed.

Lemma Stream_addError_ok w s st e :
  streams w !! s = Some st -> _isClosed st = false ->
  Stream_addError s e w =
  Ok tt (let w' := setStreams (fun m => <[s := withBuffer (_buffer st ++ [createErrorMessage e]) st]> m) w in
         if willEmit st then setQueue (fun q => q ++ [TEmit s]) w' else w').
Proof.
  intros H Hc. unfold Stream_addError. step theStream_ok. rewrite Hc.
  step updStream_ok. erewrite Stream_emit_ok by lk. reflexivity.
Qed.

Lemma Stream_addError_closed w s st e :
  streams w !! s = Some st -> _isClosed st = true ->
  Stream_addError s e w = Throw ErrorForAddError w.
Proof. intros H Hc. unfold Stream_addError. step theStream_ok. by rewrite Hc. Qed.

Lemma Stream_close_ok w s st :
  streams w !! s = Some st ->
  Stream_close s w =
  Ok tt (let w' := setStreams
                     (fun m => <[s := withBuffer (_buffer st ++ [Done]) (withClosed true st)]> m) w in
         if willEmit st then setQueue (fun q => q ++ [TEmit s]) w' else w').
Proof.
  intros H. unfold Stream_close. step updStream_ok. step updStream_ok.
  erewrite Stream_emit_ok by lk. f_equal.
  cbn [willEmit withBuffer withClosed _isPaused _subscription].
  fold (willEmit st).
  assert (E : setStreams
    (fun m => <[s:=withBuffer (_buffer (withClosed true st) ++ [createDoneMessage])
                    (withClosed true st)]> m)
    (setStreams (fun m => <[s:=withClosed true st]> m) w)
    = setStreams (fun m => <[s:=withBuffer (_buffer st ++ [Done]) (withClosed true st)]> m) w).
  { apply world_eq; wsimpl; try reflexivity. by rewrite insert_insert_eq. }
  rewrite E. reflexivity.
Qed.

(** ** A predicate that throws: where, takeWhile, skipWhile *)

Lemma whereStream_add_throws w s st p x condition d e :
  streams w !! s = Some st ->
  class st = ClsFiltering p x (OpWhere condition) ->
  condition d = Throws e ->
  add s d w = Throw e w.
Proof.
  intros Hs Hc Ht. unfold add. step theStream_ok. rewrite Hc.
  unfold whereStream_add. by rewrite Ht.
Qed.

Lemma takeWhileStream_add_throws w s st p x condition d e :
  streams w !! s = Some st ->
  class st = ClsFiltering p x (OpTakeWhile condition) ->
  condition d = Throws e ->
  add s d w = filtering_close s w.
Proof.
  intros Hs Hc Ht. unfold add. step theStream_ok. rewrite Hc.
  unfold takeWhileStream_add. by rewrite Ht.
Qed.

Lemma skipWhileStream_add_throws w s st p x condition d e :
  streams w !! s = Some st ->
  class st = ClsFiltering p x (OpSkipWhile true condition) ->
  condition d = Throws e ->
  add s d w = (updStream s (withOp (OpSkipWhile false condition)) ;; Stream_add s d) w.
Proof.
  intros Hs Hc Ht. unfold add. step theStream_ok. rewrite Hc.
  unfold skipWhileStream_add. by rewrite Ht.
Qed.

(** A failing callback leaves the message in the buffer of the
    subscription: the assignment after the loop is not reached. *)
Lemma messageHandler_throws w x sub s d e :
  subscriptions w !! x = Some sub ->
  sub_consumer sub = Forward s -> sub_isPaused sub = false -> sub_buffer sub = [] ->
  (forall w', streams w' = streams w -> add s d w' = Throw e w') ->
  messageHandler x (Data d) w =
  Throw e (setSubscriptions (fun m => <[x := withSubBuffer [Data d] sub]> m) w).
Proof.
  intros Hx Hc Hp Hb Hadd. unfold messageHandler.
  step updSubscription_ok. rewrite Hb. unfold sub_emit. step theSubscription_ok.
  cbn [withSubBuffer sub_isPaused sub_buffer app forEach]. rewrite Hp.
  rewrite ?bind_assoc. erewrite bind_throw; [reflexivity|].
  unfold dispatch. step theSubscription_ok.
  cbn [withSubBuffer sub_consumer call_onData]. rewrite Hc. by apply Hadd.
Qed.

Lemma filtering_close_ok w s st p x op :
  streams w !! s = Some st ->
  class st = ClsFiltering p x op ->
  match x with
  | None => True
  | Some x0 => exists sub pst, subscriptions w !! x0 = Some sub /\ sub_stream sub = p /\
                               p <> s /\ streams w !! p = Some pst
  end ->
  exists w' st',
    filtering_close s w = Ok tt w' /\
    streams w' !! s = Some st' /\
    _isClosed st' = true /\
    _buffer st' = _buffer st ++ [Done] /\
    _subscription st' = _subscription st /\
    class st' = ClsFiltering p None op /\
    trace w' = trace w ++ match x with Some x0 => [EvCancel x0] | None => [] end.
Proof.
  intros Hs Hc Hx. unfold filtering_close. step theStream_ok. rewrite Hc.
  destruct x as [x0|].
  - destruct Hx as (sub & pst & Hsub & <- & Hne & Hp).
    erewrite bind_ok by (eapply sub_cancel_ok; eassumption).
    step updStream_ok. erewrite Stream_close_ok by lk.
    eexists _, _. split; [reflexivity|].
    cbn zeta. destruct (willEmit _); wsimpl; rewrite lookup_insert_eq;
      (split; [reflexivity|]); unfold withParentSubscription; rewrite Hc;
      cbn [withBuffer withClosed withClass _isClosed _buffer _subscription class];
      repeat split; reflexivity.
  - step0 @ret_ok. step updStream_ok. erewrite Stream_close_ok by lk.
    eexists _, _. split; [reflexivity|].
    cbn zeta. destruct (willEmit _); wsimpl; rewrite lookup_insert_eq;
      (split; [reflexivity|]); unfold withParentSubscription; rewrite Hc;
      cbn [withBuffer withClosed withClass _isClosed _buffer _subscription class];
      rewrite app_nil_r; repeat split; reflexivity.
Qed.

Lemma Stream_emit_tick_throws w par pst y sub s d e rest :
  streams w !! par = Some pst ->
  _subscription pst = Some y -> _buffer pst = Data d :: rest ->
  subscriptions w !! y = Some sub ->
  sub_consumer sub = Forward s -> sub_isPaused sub = false -> sub_buffer sub = [] ->
  (forall w', streams w' = streams w -> add s d w' = Throw e w') ->
  runTask (TEmit par) w =
  Throw e (setSubscriptions (fun m => <[y := withSubBuffer [Data d] sub]> m) w).
Proof.
  intros Hp Hy Hb Hsub Hc Hps Hsb Hadd. cbn [runTask]. unfold Stream_emit_tick.
  step theStream_ok. rewrite Hb. cbn [forEach].
  rewrite ?bind_assoc. step theStream_ok. rewrite Hy.
  apply bind_throw. by eapply messageHandler_throws.
Qed.

(** C7: a predicate that throws.  In a where stream the exception leaves
    [add], and with it the closure that delivers the parent's messages; in a
    takeWhile stream [add] is [close], which republishes nothing; in a
    skipWhile stream [add] leaves the skipping mode and goes on as when the
    predicate returns false. *)
Theorem predicate_failure_where_propagates_others_swallow
    (w : World) (s p : nat) (x : option nat) (st : Stream)
    (condition : Z -> Outcome bool) (d : Z) (e : Value) :
  streams w !! s = Some st ->
  condition d = Throws e ->
  (class st = ClsFiltering p x (OpWhere condition) ->
     add s d w = Throw e w /\
     forall par pst y sub rest,
       streams w !! par = Some pst ->
       _subscription pst = Some y -> _buffer pst = Data d :: rest ->
       subscriptions w !! y = Some sub ->
       sub_consumer sub = Forward s -> sub_isPaused sub = false -> sub_buffer sub = [] ->
       exists w', runTask (TEmit par) w = Throw e w' /\ streams w' = streams w) /\
  (class st = ClsFiltering p x (OpTakeWhile condition) ->
     add s d w = filtering_close s w /\
     (match x with
      | None => True
      | Some x0 => exists sub pst, subscriptions w !! x0 = Some sub /\ sub_stream sub = p /\
                                   p <> s /\ streams w !! p = Some pst
      end ->
      exists w' st',
        add s d w = Ok tt w' /\ streams w' !! s = Some st' /\
        _isClosed st' = true /\ _buffer st' = _buffer st ++ [Done] /\
        class st' = ClsFiltering p None (OpTakeWhile condition))) /\
  (class st = ClsFiltering p x (OpSkipWhile true condition) ->
     add s d w =
       (updStream s (withOp (OpSkipWhile false condition)) ;; Stream_add s d) w /\
     (_isClosed st = false ->
      exists w' st',
        add s d w = Ok tt w' /\ streams w' !! s = Some st' /\
        class st' = ClsFiltering p x (OpSkipWhile false condition) /\
        _buffer st' = _buffer st ++ [Data d])).
Proof.
  intros Hs Ht. split; [|split]; intros Hc.
  - split; [by eapply whereStream_add_throws|].
    intros par pst y sub rest Hp Hy Hb Hsub Hcons Hps Hsb.
    eexists. split.
    + eapply Stream_emit_tick_throws; try eassumption.
      intros w' Hw'. eapply whereStream_add_throws; try eassumption. by rewrite Hw'.
    + reflexivity.
  - split; [by eapply takeWhileStream_add_throws|].
    intros Hx. erewrite takeWhileStream_add_throws by eassumption.
    destruct (filtering_close_ok w s st p x _ Hs Hc Hx)
      as (w' & st' & E & Hl & Hcl & Hb & _ & Hcls & _).
    by exists w', st'.
  - split; [by eapply skipWhileStream_add_throws|].
    intros Hopen. erewrite skipWhileStream_add_throws by eassumption.
    step updStream_ok.
    erewrite Stream_add_ok; [|lk|].
    2:{ unfold withOp. rewrite Hc. exact Hopen. }
    eexists _, _. split; [reflexivity|]. cbn zeta.
    destruct (willEmit _); wsimpl; rewrite insert_insert_eq, lookup_insert_eq;
      (split; [reflexivity|]); unfold withOp; rewrite Hc; split; reflexivity.
Qed.

Lemma predicate_failure_where_propagates_others_swallow_witness :
  (add 1 7 whereWorld = Throw (VStr "bummer") whereWorld /\
   exists w', runTask (TEmit 0) whereWorld = Throw (VStr "bummer") w') /\
  (exists w' st', add 1 7 takeWhileWorld = Ok tt w' /\ streams w' !! 1%nat = Some st' /\
                  _isClosed st' = true /\ _buffer st' = [Done]) /\
  (exists w' st', add 1 7 skipWhileWorld = Ok tt w' /\ streams w' !! 1%nat = Some st' /\
                  class st' = ClsFiltering 0 (Some 0%nat) (OpSkipWhile false alwaysThrows) /\
                  _buffer st' = [Data 7]).
Proof.
  split; [|split].
  - destruct (predicate_failure_where_propagates_others_swallow
                whereWorld 1 0 (Some 0%nat)
                (mkStream (Some 1%nat) [] false false ∅
                          (ClsFiltering 0 (Some 0%nat) (OpWhere alwaysThrows)))
                alwaysThrows 7 (VStr "bummer") eq_refl eq_refl) as [[Ha Ht] _];
      [reflexivity|].
    split; [exact Ha|].
    destruct (Ht 0%nat (mkStream (Some 0%nat) [Data 7] false false ∅ ClsStream) 0%nat
                 (mkSubscription 0 (Forward 1) forwardOptions [] false) []
                 eq_refl eq_refl eq_refl eq_refl eq_refl eq_refl eq_refl) as (w' & E & _).
    by exists w'.
  - destruct (predicate_failure_where_propagates_others_swallow
                takeWhileWorld 1 0 (Some 0%nat)
                (mkStream (Some 1%nat) [] false false ∅
                          (ClsFiltering 0 (Some 0%nat) (OpTakeWhile alwaysThrows)))
                alwaysThrows 7 (VStr "bummer") eq_refl eq_refl) as (_ & [_ Hb] & _);
      [reflexivity|].
    destruct Hb as (w' & st' & E & Hl & Hc & Hbuf & _).
    { exists (mkSubscription 0 (Forward 1) forwardOptions [] false),
             (mkStream (Some 0%nat) [] false false ∅ ClsStream).
      repeat split; [lia]. }
    by exists w', st'.
  - destruct (predicate_failure_where_propagates_others_swallow
                skipWhileWorld 1 0 (Some 0%nat)
                (mkStream (Some 1%nat) [] false false ∅
                          (ClsFiltering 0 (Some 0%nat) (OpSkipWhile true alwaysThrows)))
                alwaysThrows 7 (VStr "bummer") eq_refl eq_refl) as (_ & _ & [_ Hb]);
      [reflexivity|].
    destruct (Hb eq_refl) as (w' & st' & E & Hl & Hc & Hbuf).
    by exists w', st'.
Defined.

(** ** listen *)

Lemma wf_parent w s st p :
  wellFormed w -> streams w !! s = Some st -> parentOf st = Some p ->
  (p < s)%nat /\ is_Some (streams w !! p).
Proof.
  intros [Hw _] Hs Hp. specialize (Hw s st Hs). unfold streamOk in Hw. rewrite Hp in Hw.
  apply andb_prop in Hw as [Hw _]. apply andb_prop in Hw as [H1 H2].
  split; by eapply bool_decide_eq_true_1.
Qed.

Lemma wf_parentSubscription w s st x :
  wellFormed w -> streams w !! s = Some st -> parentSubscriptionOf st = Some x ->
  exists sub, subscriptions w !! x = Some sub /\ (sub_stream sub < s)%nat /\
              is_Some (streams w !! sub_stream sub).
Proof.
  intros [Hw _] Hs Hp. specialize (Hw s st Hs). unfold streamOk in Hw. rewrite Hp in Hw.
  apply andb_prop in Hw as [_ Hw]. destruct (subscriptions w !! x) as [sub|]; [|done].
  apply andb_prop in Hw as [H1 H2]. exists sub.
  split; [done|]. split; by eapply bool_decide_eq_true_1.
Qed.

Lemma wf_subscription w x sub :
  wellFormed w -> subscriptions w !! x = Some sub -> (x < nextSubscription w)%nat.
Proof. intros [_ Hw] Hx. specialize (Hw x sub Hx). by eapply bool_decide_eq_true_1. Qed.

Lemma newSubscription_ok s c o w :
  newSubscription s c o w =
  Ok (nextSubscription w)
     (storeSubscription (nextSubscription w) (mkSubscription s c o [] false) w).
Proof. reflexivity. Qed.

Lemma Stream_listen_busy w s st x c o :
  streams w !! s = Some st -> _subscription st = Some x ->
  Stream_listen s c o w = Throw ErrorForListen w.
Proof. intros Hs Hx. unfold Stream_listen. step theStream_ok. by rewrite Hx. Qed.

Lemma Stream_listen_free w s st c o :
  streams w !! s = Some st -> _subscription st = None ->
  Stream_listen s c o w =
  Ok (nextSubscription w)
     (setQueue (fun q => q ++ TEvent s "onListen" :: if _isPaused st then [] else [TEmit s])
        (setStreams (fun m => <[s := withSubscription (Some (nextSubscription w)) st]> m)
           (storeSubscription (nextSubscription w) (mkSubscription s c o [] false) w))).
Proof.
  intros Hs Hx. unfold Stream_listen. step theStream_ok. rewrite Hx.
  step0 newSubscription_ok. step updStream_ok.
  unfold Stream_callEventListeners. step0 nextTick_ok.
  erewrite bind_ok by (eapply Stream_emit_ok; lk).
  unfold willEmit. cbn [withSubscription _isPaused _subscription]. unfold ret. f_equal.
  destruct (_isPaused st); apply world_eq; wsimpl; try reflexivity.
  by rewrite <- app_assoc.
Qed.

Lemma listenFrame_refl s w :
  (forall x sub, subscriptions w !! x = Some sub -> (x < nextSubscription w)%nat) ->
  listenFrame s w w.
Proof. intros H. repeat split; auto. Qed.

Lemma Stream_listen_cases w s st c o :
  (forall x sub, subscriptions w !! x = Some sub -> (x < nextSubscription w)%nat) ->
  streams w !! s = Some st ->
  listenResult s (Stream_listen s c o w) /\
  listenFrame s w (worldOf (Stream_listen s c o w)).
Proof.
  intros Hn Hs. destruct (_subscription st) as [x|] eqn:Hx.
  - erewrite Stream_listen_busy by eassumption. split; [done|]. by apply listenFrame_refl.
  - erewrite Stream_listen_free by eassumption. split.
    + eexists. wsimpl. rewrite lookup_insert_eq. done.
    + repeat split; wsimpl.
      * intros s' Hlt. rewrite lookup_insert_ne by lia. done.
      * intros s' Hs'. destruct (decide (s = s')) as [->|].
        -- rewrite lookup_insert_eq. done.
        -- by rewrite lookup_insert_ne.
      * intros x sub Hsub. rewrite lookup_insert_ne; [done|].
        apply Hn in Hsub. lia.
      * intros x sub. destruct (decide (x = nextSubscription w)) as [->|].
        -- lia.
        -- rewrite lookup_insert_ne by done. intros Hsub%Hn. lia.
Qed.


Lemma withParentSubscription_closed_id st p subs :
  class st = ClsBroadcast p None subs ->
  withParentSubscription None (withClosed true st) = withClosed true st.
Proof. destruct st; simpl; intros ->; reflexivity. Qed.

Lemma broadcast_close_ok_none w s st p subs :
  streams w !! s = Some st -> class st = ClsBroadcast p None subs ->
  broadcast_close s w =
  Ok tt (setQueue (fun q => q ++ [TFanOut s Done])
           (setStreams (fun m => <[s := withClosed true st]> m) w)).
Proof.
  intros Hs Hc. unfold broadcast_close. step updStream_ok. step theStream_ok.
  cbn [withClosed class]. rewrite Hc. step0 @ret_ok. step updStream_ok.
  rewrite nextTick_ok. f_equal. apply world_eq; wsimpl; try reflexivity.
  rewrite insert_insert_eq. by erewrite withParentSubscription_closed_id.
Qed.

Lemma broadcast_close_ok_some w s st p y subs sub qst :
  streams w !! s = Some st -> class st = ClsBroadcast p (Some y) subs ->
  subscriptions w !! y = Some sub -> sub_stream sub <> s ->
  streams w !! sub_stream sub = Some qst ->
  broadcast_close s w =
  Ok tt (setQueue (fun q => q ++ [TFanOut s Done])
          (setStreams (fun m => <[s := withParentSubscription None (withClosed true st)]> m)
            (setQueue (fun q => q ++ [TEvent (sub_stream sub) "onCancel"])
              (setStreams (fun m => <[sub_stream sub := afterCancel y qst]> m)
                (setTrace (fun t => t ++ [EvCancel y])
                  (setStreams (fun m => <[s := withClosed true st]> m) w)))))).
Proof.
  intros Hs Hc Hy Hne Hq. unfold broadcast_close. step updStream_ok. step theStream_ok.
  cbn [withClosed class]. rewrite Hc.
  rewrite ?bind_assoc. erewrite bind_ok; cycle 1.
  { eapply sub_cancel_ok; wsimpl; [eassumption|]. rewrite lookup_insert_ne by done. eassumption. }
  cbn beta. rewrite ?bind_assoc. erewrite bind_ok; cycle 1.
  { eapply updStream_ok. wsimpl. rewrite lookup_insert_ne by done. apply lookup_insert_eq. }
  cbn beta. rewrite nextTick_ok. reflexivity.
Qed.


Lemma listenFrame_trans s w w1 w2 :
  listenFrame s w w1 -> listenFrame s w1 w2 -> listenFrame s w w2.
Proof.
  intros (F1 & F2 & F3 & F4) (G1 & G2 & G3 & G4). repeat split; auto.
  intros s' Hs'. rewrite G1 by done. by apply F1.
Qed.

Lemma listenFrame_weaken p s w w1 :
  (p <= s)%nat -> listenFrame p w w1 -> listenFrame s w w1.
Proof.
  intros Hle (F1 & F2 & F3 & F4). repeat split; auto.
  intros s' Hs'. apply F1. lia.
Qed.

Lemma listenFrame_setStreams s w st st' :
  (forall x sub, subscriptions w !! x = Some sub -> (x < nextSubscription w)%nat) ->
  streams w !! s = Some st ->
  listenFrame s w (setStreams (fun m => <[s := st']> m) w).
Proof.
  intros Hn Hs. repeat split; wsimpl; auto.
  - intros s' Hs'. by rewrite lookup_insert_ne by lia.
  - intros s' Hs'. destruct (decide (s = s')) as [->|].
    + rewrite lookup_insert_eq. done.
    + by rewrite lookup_insert_ne.
Qed.

Lemma withSubscribers_class st p ps subs f :
  class st = ClsBroadcast p ps subs ->
  class (withSubscribers f st) = ClsBroadcast p ps (f subs).
Proof. intros H. unfold withSubscribers. rewrite H. reflexivity. Qed.

Lemma broadcast_listen_tail w s st p ps subs c o :
  (forall x sub, subscriptions w !! x = Some sub -> (x < nextSubscription w)%nat) ->
  streams w !! s = Some st -> class st = ClsBroadcast p ps subs ->
  (forall y, ps = Some y ->
     exists sub, subscriptions w !! y = Some sub /\ (sub_stream sub < s)%nat /\
                 is_Some (streams w !! sub_stream sub)) ->
  let m := (sub <- newSubscription s c o ;;
            updStream s (withSubscribers (setAdd sub)) ;;
            Stream_callEventListeners s "onListen" ;;
            st <- theStream s ;;
            when (_isClosed st) (broadcast_close s) ;;
            ret sub) in
  listenResult s (m w) /\ listenFrame s w (worldOf (m w)).
Proof.
  intros Hn Hs Hc Hps m. subst m.
  step0 newSubscription_ok. step updStream_ok.
  unfold Stream_callEventListeners. step0 nextTick_ok. step theStream_ok.
  assert (Hc5 : class (withSubscribers (setAdd (nextSubscription w)) st)
                = ClsBroadcast p ps (setAdd (nextSubscription w) subs))
    by (by apply withSubscribers_class).
  assert (Hcl : _isClosed (withSubscribers (setAdd (nextSubscription w)) st) = _isClosed st).
  { unfold withSubscribers. rewrite Hc. reflexivity. }
  rewrite Hcl. destruct (_isClosed st); cbn [when].
  - destruct ps as [y|].
    + destruct (Hps y eq_refl) as (sub & Hy & Hlt & [qst Hq]).
      assert (y <> nextSubscription w) by (apply Hn in Hy; lia).
      erewrite bind_ok; cycle 1.
      { eapply broadcast_close_ok_some; [lk|exact Hc5|..].
        - wsimpl. rewrite lookup_insert_ne by done. exact Hy.
        - lia.
        - wsimpl. rewrite lookup_insert_ne by lia. exact Hq. }
      cbn beta. unfold ret. cbn [listenResult worldOf]. split.
      * eexists. wsimpl. rewrite lookup_insert_eq. done.
      * repeat split; wsimpl.
        -- intros s' Hs'. by rewrite !lookup_insert_ne by lia.
        -- intros s' Hs'. destruct (decide (s = s')) as [->|]; [by rewrite lookup_insert_eq|].
           rewrite lookup_insert_ne by done.
           destruct (decide (sub_stream sub = s')) as [<-|]; [by rewrite lookup_insert_eq|].
           by rewrite !lookup_insert_ne by done.
        -- intros x sub' Hx. rewrite lookup_insert_ne; [done|]. apply Hn in Hx. lia.
        -- intros x sub'. destruct (decide (x = nextSubscription w)) as [->|]; [lia|].
           rewrite lookup_insert_ne by done. intros Hx%Hn. lia.
    + erewrite bind_ok by (eapply broadcast_close_ok_none; [lk|exact Hc5]).
      unfold ret. cbn [listenResult worldOf]. split.
      * eexists. wsimpl. rewrite lookup_insert_eq. done.
      * repeat split; wsimpl.
        -- intros s' Hs'. by rewrite !lookup_insert_ne by lia.
        -- intros s' Hs'. destruct (decide (s = s')) as [->|]; [by rewrite lookup_insert_eq|].
           by rewrite !lookup_insert_ne by done.
        -- intros x sub' Hx. rewrite lookup_insert_ne; [done|]. apply Hn in Hx. lia.
        -- intros x sub'. destruct (decide (x = nextSubscription w)) as [->|]; [lia|].
           rewrite lookup_insert_ne by done. intros Hx%Hn. lia.
  - step0 @ret_ok. unfold ret. cbn [listenResult worldOf]. split.
    * eexists. wsimpl. rewrite lookup_insert_eq. done.
    * repeat split; wsimpl.
      -- intros s' Hs'. by rewrite !lookup_insert_ne by lia.
      -- intros s' Hs'. destruct (decide (s = s')) as [->|]; [by rewrite lookup_insert_eq|].
         by rewrite !lookup_insert_ne by done.
      -- intros x sub' Hx. rewrite lookup_insert_ne; [done|]. apply Hn in Hx. lia.
      -- intros x sub'. destruct (decide (x = nextSubscription w)) as [->|]; [lia|].
         rewrite lookup_insert_ne by done. intros Hx%Hn. lia.
Qed.

Lemma listenAt_cases depth : forall s c o w st,
  wellFormed w -> (s < depth)%nat -> streams w !! s = Some st ->
  listenResult s (listenAt depth s c o w) /\
  listenFrame s w (worldOf (listenAt depth s c o w)).
Proof.
  induction depth as [|depth IH]; intros s c o w st Hwf Hd Hs; [lia|].
  assert (Hn : forall x sub, subscriptions w !! x = Some sub -> (x < nextSubscription w)%nat)
    by (intros; by eapply wf_subscription).
  cbn [listenAt]. step theStream_ok.
  destruct (class st) as [|p ps subs|p xp op] eqn:Hc.
  - by eapply Stream_listen_cases.
  - (* broadcast *)
    destruct (wf_parent w s st p Hwf Hs) as [Hlt [pst Hp]]; [by unfold parentOf; rewrite Hc|].
    destruct ps as [y|].
    + step0 @ret_ok.
      eapply broadcast_listen_tail; try eassumption.
      intros y' [= <-]. eapply wf_parentSubscription; try eassumption.
      unfold parentSubscriptionOf. by rewrite Hc.
    + destruct (IH p (Forward s) forwardOptions w pst Hwf ltac:(lia) Hp) as [HR HF].
      destruct (listenAt depth p (Forward s) forwardOptions w) as [x w1|e w1] eqn:E.
      * cbn [listenResult worldOf] in HR, HF.
        assert (HF' := HF). destruct HF' as (F1 & F2 & F3 & F4).
        assert (Hs1 : streams w1 !! s = Some st) by (rewrite F1 by lia; done).
        rewrite ?bind_assoc. step0 E. step updStream_ok.
        destruct HR as (subx & Hx & Hxs).
        match goal with |- context [bind (newSubscription s c o) ?k ?w2] =>
          destruct (broadcast_listen_tail w2 s (withParentSubscription (Some x) st)
                      p (Some x) subs c o) as [HR2 HF2]
        end.
        { wsimpl. exact F4. }
        { lk. }
        { unfold withParentSubscription. rewrite Hc. reflexivity. }
        { intros y [= <-]. exists subx. wsimpl. split; [done|]. split; [lia|].
          rewrite lookup_insert_ne by lia. apply F2. rewrite Hxs. done. }
        cbn zeta in HR2, HF2. split; [exact HR2|].
        eapply listenFrame_trans; [|exact HF2].
        eapply listenFrame_trans; [eapply listenFrame_weaken; [|exact HF]; lia|].
        eapply listenFrame_setStreams; eassumption.
      * cbn [listenResult worldOf] in HR, HF.
        erewrite bind_throw by (rewrite ?bind_assoc; erewrite bind_throw; [reflexivity|exact E]).
        split; [exact HR|]. cbn [worldOf]. eapply listenFrame_weaken; [|exact HF]. lia.
  - (* filtering *)
    destruct (wf_parent w s st p Hwf Hs) as [Hlt [pst Hp]]; [by unfold parentOf; rewrite Hc|].
    destruct xp as [x0|].
    + step0 @ret_ok. by eapply Stream_listen_cases.
    + destruct (IH p (Forward s) forwardOptions w pst Hwf ltac:(lia) Hp) as [HR HF].
      destruct (listenAt depth p (Forward s) forwardOptions w) as [x w1|e w1] eqn:E.
      * cbn [listenResult worldOf] in HR, HF. destruct HF as (F1 & F2 & F3 & F4).
        step0 E.
        assert (Hs1 : streams w1 !! s = Some st) by (rewrite F1 by lia; done).
        step updStream_ok.
        match goal with |- context [Stream_listen s c o ?w2] =>
          destruct (Stream_listen_cases w2 s (withParentSubscription (Some x) st) c o) as [HR2 HF2]
        end.
        { wsimpl. exact F4. }
        { lk. }
        split; [exact HR2|].
        destruct HF2 as (G1 & G2 & G3 & G4). wsimpl.
        repeat split.
        -- intros s' Hs'. rewrite G1 by done. rewrite lookup_insert_ne by lia. apply F1. lia.
        -- intros s' Hs'. apply G2. destruct (decide (s = s')) as [->|].
           ++ rewrite lookup_insert_eq. done.
           ++ rewrite lookup_insert_ne by done. by apply F2.
        -- intros y sub Hy. apply G3. by apply F3.
        -- exact G4.
      * cbn [listenResult worldOf] in HR, HF. erewrite bind_throw by (rewrite ?bind_assoc; erewrite bind_throw; [reflexivity|exact E]).
        split; [exact HR|]. cbn [worldOf]. destruct HF as (F1 & F2 & F3 & F4).
        repeat split; auto. intros s' Hs'. apply F1. lia.
Qed.

(** C8: on a stream that is not a broadcast stream and has a subscription,
    [listen] throws the error for a second listener, whatever the class of
    the stream, and the stream keeps the subscription it had. *)
Theorem second_listen_fails
    (w : World) (s x : nat) (st : Stream) (c : Consumer) (o : StreamListenOptions) :
  wellFormed w ->
  streams w !! s = Some st ->
  isBroadcast st = false ->
  _subscription st = Some x ->
  exists w' st',
    listen s c o w = Throw ErrorForListen w' /\
    streams w' !! s = Some st' /\ _subscription st' = Some x /\
    forall sub, subscriptions w !! x = Some sub -> subscriptions w' !! x = Some sub.
Proof.
  intros Hwf Hs Hb Hx. unfold listen. cbn [listenAt]. step theStream_ok.
  destruct (class st) as [|p ps subs|p xp op] eqn:Hc.
  - erewrite Stream_listen_busy by eassumption. by exists w, st.
  - unfold isBroadcast in Hb. by rewrite Hc in Hb.
  - destruct xp as [x0|].
    + step0 @ret_ok. erewrite Stream_listen_busy by eassumption. by exists w, st.
    + destruct (wf_parent w s st p Hwf Hs) as [Hlt [pst Hp]]; [by unfold parentOf; rewrite Hc|].
      destruct (listenAt_cases s p (Forward s) forwardOptions w pst Hwf Hlt Hp) as [HR HF].
      destruct (listenAt s p (Forward s) forwardOptions w) as [x1 w1|e w1] eqn:E;
        cbn [listenResult worldOf] in HR, HF; destruct HF as (F1 & F2 & F3 & F4).
      * assert (Hs1 : streams w1 !! s = Some st) by (rewrite F1 by lia; done).
        rewrite ?bind_assoc. step0 E. step updStream_ok.
        erewrite Stream_listen_busy; [|lk|].
        2:{ unfold withParentSubscription. rewrite Hc. exact Hx. }
        eexists _, _. split; [reflexivity|]. wsimpl. rewrite lookup_insert_eq.
        split; [reflexivity|]. split; [|exact (F3 x)].
        unfold withParentSubscription. rewrite Hc. exact Hx.
      * subst e. erewrite bind_throw by (rewrite ?bind_assoc; erewrite bind_throw; [reflexivity|exact E]).
        exists w1, st. split; [reflexivity|]. split; [by rewrite F1 by lia|].
        split; [done|exact (F3 x)].
Qed.


Lemma second_listen_fails_witness :
  exists w', listen 1 (User 1) plainOptions closedDerivedWorld = Throw ErrorForListen w'.
Proof.
  destruct (second_listen_fails closedDerivedWorld 1 1
              (mkStream (Some 1%nat) [Done] false true ∅ (ClsFiltering 0 None OpIdentity))
              (User 1) plainOptions) as (w' & st' & E & _).
  - split; apply (bool_decide_unpack _); vm_compute; exact I.
  - reflexivity.
  - reflexivity.
  - reflexivity.
  - by exists w'.
Defined.

(** ** Delivery to an observer *)

Lemma setTrace_nil w : setTrace (fun t => t ++ []) w = w.
Proof. apply world_eq; wsimpl; try reflexivity. apply app_nil_r. Qed.

Lemma setTrace_setTrace w a b :
  setTrace (fun t => t ++ b) (setTrace (fun t => t ++ a) w) = setTrace (fun t => t ++ (a ++ b)) w.
Proof. apply world_eq; wsimpl; try reflexivity. by rewrite app_assoc. Qed.

Lemma sub_eta sub :
  mkSubscription (sub_stream sub) (sub_consumer sub) (sub_listenOptions sub) (sub_buffer sub)
                 (sub_isPaused sub) = sub.
Proof. by destruct sub. Qed.

Lemma dispatch_user w x sub l m :
  subscriptions w !! x = Some sub ->
  sub_consumer sub = User l -> benign (sub_listenOptions sub) m = true ->
  dispatch x m w = Ok tt (setTrace (fun t => t ++ userEvents l (sub_listenOptions sub) m) w).
Proof.
  intros Hx Hc Hce. unfold dispatch. step theSubscription_ok. rewrite Hc.
  destruct m as [d|e|]; cbn [userEvents call_onData call_onError call_onDone].
  - reflexivity.
  - cbn [benign] in Hce. apply negb_true_iff in Hce. rewrite Hce. destruct (onError _); cbn [when].
    + step0 record_ok. reflexivity.
    + step0 @ret_ok. by rewrite setTrace_nil.
  - destruct (onDone _); cbn [when]; [reflexivity|]. by rewrite setTrace_nil.
Qed.

Lemma messageHandler_user w x sub l m :
  subscriptions w !! x = Some sub ->
  sub_consumer sub = User l -> benign (sub_listenOptions sub) m = true ->
  sub_isPaused sub = false -> sub_buffer sub = [] ->
  messageHandler x m w = Ok tt (setTrace (fun t => t ++ userEvents l (sub_listenOptions sub) m) w).
Proof.
  intros Hx Hc Hce Hp Hb. unfold messageHandler. step updSubscription_ok. rewrite Hb.
  unfold sub_emit. step theSubscription_ok.
  cbn [withSubBuffer sub_isPaused sub_buffer app forEach]. rewrite Hp.
  rewrite ?bind_assoc. erewrite bind_ok; cycle 1.
  { eapply dispatch_user; [lk|exact Hc|exact Hce]. }
  cbn beta. step0 @ret_ok. erewrite updSubscription_ok by lk.
  f_equal. apply world_eq; wsimpl; try reflexivity.
  rewrite insert_insert_eq. apply insert_id. rewrite Hx. f_equal.
  destruct sub; simpl in *; subst; reflexivity.
Qed.

(** The loop of the closure of Stream._emit, for an observer. *)
Lemma emit_loop_user s x l sub ms : forall w st,
  streams w !! s = Some st -> _subscription st = Some x ->
  subscriptions w !! x = Some sub ->
  sub_consumer sub = User l -> forallb (benign (sub_listenOptions sub)) ms = true ->
  sub_isPaused sub = false -> sub_buffer sub = [] ->
  forEach (fun message =>
             st <- theStream s ;;
             match _subscription st with
             | Some x => messageHandler x message
             | None => ret tt
             end) ms w =
  Ok tt (setTrace (fun t => t ++ flat_map (userEvents l (sub_listenOptions sub)) ms) w).
Proof.
  induction ms as [|m ms IH]; intros w st Hs Hx Hsub Hc Hce Hp Hb; cbn [forEach flat_map].
  - by rewrite setTrace_nil.
  - cbn [forallb] in Hce. apply andb_prop in Hce as [Hm Hms].
    rewrite ?bind_assoc. step theStream_ok. rewrite Hx.
    erewrite bind_ok by (eapply messageHandler_user; eassumption).
    erewrite IH by (wsimpl; eassumption).
    by rewrite setTrace_setTrace.
Qed.

Lemma Stream_emit_tick_user w s st x sub l :
  streams w !! s = Some st -> _subscription st = Some x ->
  subscriptions w !! x = Some sub ->
  sub_consumer sub = User l ->
  forallb (benign (sub_listenOptions sub)) (_buffer st) = true ->
  sub_isPaused sub = false -> sub_buffer sub = [] ->
  runTask (TEmit s) w =
  let w1 := setStreams (fun m => <[s := withBuffer [] st]> m)
              (setTrace (fun t => t ++ flat_map (userEvents l (sub_listenOptions sub)) (_buffer st)) w) in
  if _isClosed st then cancel s x w1 else Ok tt w1.
Proof.
  intros Hs Hx Hsub Hc Hce Hp Hb. cbn [runTask]. unfold Stream_emit_tick.
  step theStream_ok.
  erewrite bind_ok by (eapply emit_loop_user; eassumption).
  step updStream_ok. step theStream_ok.
  cbn [withBuffer _isClosed _subscription]. rewrite Hx.
  destruct (_isClosed st); reflexivity.
Qed.

Lemma tick_cons w t q :
  queue w = t :: q ->
  tick w = (runTask t ;; ret true) (setQueue (fun _ => q) w).
Proof. intros H. unfold tick. step0 get_ok. rewrite H. step0 modify_ok. reflexivity. Qed.

Lemma tick_nil w : queue w = [] -> tick w = Ok false w.
Proof. intros H. unfold tick. step0 get_ok. by rewrite H. Qed.

Lemma drain_cons fuel w t q w' :
  queue w = t :: q ->
  runTask t (setQueue (fun _ => q) w) = Ok tt w' ->
  drain (S fuel) w = drain fuel w'.
Proof.
  intros Hq Ht. cbn [drain]. erewrite bind_ok; cycle 1.
  { rewrite (tick_cons _ _ _ Hq). step0 Ht. reflexivity. }
  reflexivity.
Qed.

Lemma drain_nil fuel w : queue w = [] -> drain fuel w = Ok tt w.
Proof.
  intros H. destruct fuel; [reflexivity|]. cbn [drain].
  erewrite bind_ok by (by apply tick_nil). reflexivity.
Qed.

Lemma event_tick_none w s st name :
  streams w !! s = Some st -> _eventCallbacks st !! name = None ->
  runTask (TEvent s name) w = Ok tt w.
Proof.
  intros Hs Hn. cbn [runTask]. unfold Stream_callEventListeners_tick.
  step theStream_ok. by rewrite Hn.
Qed.

Lemma allocStream_ok c w :
  allocStream c w = Ok (nextStream w) (storeStream (nextStream w) (newStream c) w).
Proof. reflexivity. Qed.

Lemma stream_eta st :
  mkStream (_subscription st) (_buffer st) (_isPaused st) (_isClosed st)
           (_eventCallbacks st) (class st) = st.
Proof. by destruct st. Qed.

Lemma add_base w s st d :
  streams w !! s = Some st -> class st = ClsStream -> add s d w = Stream_add s d w.
Proof. intros Hs Hc. unfold add. step theStream_ok. by rewrite Hc. Qed.

Lemma adds_buffered s ds : forall w st,
  streams w !! s = Some st -> class st = ClsStream ->
  _isClosed st = false -> _subscription st = None ->
  forEach (add s) ds w =
  Ok tt (setStreams (fun m => <[s := withBuffer (_buffer st ++ List.map Data ds) st]> m) w).
Proof.
  induction ds as [|d ds IH]; intros w st Hs Hc Hcl Hsub; cbn [forEach List.map].
  - unfold ret. f_equal. apply world_eq; wsimpl; try reflexivity.
    symmetry. apply insert_id. rewrite Hs. f_equal. rewrite app_nil_r.
    unfold withBuffer. symmetry. apply stream_eta.
  - erewrite bind_ok; cycle 1.
    { erewrite add_base by eassumption. eapply Stream_add_ok; eassumption. }
    cbn zeta. unfold willEmit. rewrite Hsub. destruct (_isPaused st) eqn:Hp;
    (erewrite IH; [|lk|done..]);
      (f_equal; apply world_eq; wsimpl; try reflexivity;
       rewrite insert_insert_eq; cbn [withBuffer _buffer]; by rewrite <- app_assoc).
Qed.

Lemma userEvents_data l o ds :
  flat_map (userEvents l o) (List.map Data ds) = List.map (EvData l) ds.
Proof. induction ds as [|d ds IH]; cbn; [done|]. by rewrite IH. Qed.

Lemma benign_data o ds : forallb (benign o) (List.map Data ds) = true.
Proof. by induction ds. Qed.

Lemma listen_base w s st c o :
  streams w !! s = Some st -> class st = ClsStream ->
  listen s c o w = Stream_listen s c o w.
Proof. intros Hs Hc. unfold listen. cbn [listenAt]. step theStream_ok. by rewrite Hc. Qed.

(** C1: the values given to [add] before the first [listen] are all in the
    buffer when [listen] is called; nothing is delivered by [listen] itself;
    the two closures it hands to nextTick deliver exactly these values to
    the listener, each once, in the order of the calls. *)
Theorem buffered_adds_reach_first_listener_in_order
    (w : World) (ds : list Z) (l : nat) (o : StreamListenOptions) :
  queue w = [] ->
  exists x w1 w2,
    addsThenListen ds l o w = Ok x w1 /\
    trace w1 = trace w /\
    drain 2 w1 = Ok tt w2 /\
    trace w2 = trace w ++ List.map (EvData l) ds /\
    queue w2 = [].
Proof.
  intros Hq. unfold addsThenListen.
  step0 allocStream_ok.
  erewrite bind_ok; cycle 1.
  { eapply adds_buffered; [lk|done..]. }
  cbn beta. erewrite listen_base; [|lk|done].
  erewrite Stream_listen_free; [|lk|done].
  eexists _, _, _. split; [reflexivity|]. split. { wsimpl. reflexivity. }
  cbn [withBuffer newStream _isPaused _buffer app].
  erewrite drain_cons; cycle 1.
  { wsimpl. rewrite Hq. reflexivity. }
  { eapply event_tick_none; [lk|]. reflexivity. }
  erewrite drain_cons; cycle 1.
  { wsimpl. reflexivity. }
  { erewrite Stream_emit_tick_user; [|lk|reflexivity|lk|reflexivity| |reflexivity..].
    - cbn zeta. cbn [withSubscription _isClosed]. reflexivity.
    - cbn [withSubscription _buffer sub_listenOptions]. apply benign_data. }
  cbn [drain]. unfold ret. split; [reflexivity|]. wsimpl.
  cbn [withSubscription withBuffer _buffer sub_listenOptions]. rewrite userEvents_data. done.
Qed.

Lemma buffered_adds_reach_first_listener_in_order_witness :
  exists x w1 w2,
    addsThenListen [1; 2; 3] 0 plainOptions emptyWorld = Ok x w1 /\
    trace w1 = [] /\
    drain 2 w1 = Ok tt w2 /\
    trace w2 = [EvData 0 1; EvData 0 2; EvData 0 3] /\
    queue w2 = [].
Proof.
  exact (buffered_adds_reach_first_listener_in_order
           emptyWorld [1; 2; 3] 0%nat plainOptions eq_refl).
Defined.

(** ** The broadcast stream *)

Lemma fanOut_loop b bst m xs : forall ls w,
  streams w !! b = Some bst ->
  (forall x, x ∈ xs -> x ∈ subscribersOf bst) ->
  observers b (subscriptions w) xs ls ->
  (forall o, benign o m = true) ->
  forEach (fun x =>
             st <- theStream b ;;
             if bool_decide (x ∈ subscribersOf st) then messageHandler x m
             else ret tt) xs w =
  Ok tt (setTrace (fun t => t ++ flat_map (fun lo => userEvents (fst lo) (snd lo) m) ls) w).
Proof.
  induction xs as [|x xs IH]; intros ls w Hb Hin HF Hm.
  - apply Forall2_nil_inv_l in HF as ->. cbn [forEach flat_map]. by rewrite setTrace_nil.
  - apply Forall2_cons_inv_l in HF as (lo & ls' & Hx & HF & ->).
    cbn [forEach flat_map]. rewrite ?bind_assoc. step theStream_ok.
    rewrite bool_decide_eq_true_2 by (apply Hin; left).
    erewrite bind_ok; cycle 1.
    { eapply messageHandler_user; [exact Hx|reflexivity|apply Hm|reflexivity..]. }
    cbn beta. erewrite IH; [|lk| |exact HF|exact Hm].
    + cbn [sub_listenOptions]. by rewrite setTrace_setTrace.
    + intros y Hy. apply Hin. by right.
Qed.

Lemma setStreams_id w s st :
  streams w !! s = Some st -> setStreams (fun m => <[s := st]> m) w = w.
Proof. intros H. apply world_eq; wsimpl; try reflexivity. by apply insert_id. Qed.

Lemma broadcastState_ext p b psub closed xs ls w w' :
  broadcastState p b psub closed xs ls w ->
  streams w' = streams w -> subscriptions w' = subscriptions w ->
  nextSubscription w' = nextSubscription w ->
  broadcastState p b psub closed xs ls w'.
Proof.
  intros (H1 & H2 & H3 & H4 & H5 & H6) E1 E2 E3. unfold broadcastState.
  rewrite E1, E2, E3. done.
Qed.

(** A closure of the queue, run between two calls of the application. *)
Lemma calm_task p b psub closed xs ls w t :
  broadcastState p b psub closed xs ls w ->
  calm p b t = true ->
  runTask t w = Ok tt (setTrace (fun tr => tr ++ fanOutEvents ls t) w).
Proof.
  intros (Hlt & Hp & Hb & Hps & Hsubs & Hfresh) Hcalm.
  destruct t as [s|s name|s m]; cbn [calm] in Hcalm.
  - apply bool_decide_eq_true_1 in Hcalm as ->. cbn [runTask fanOutEvents].
    unfold Stream_emit_tick. step theStream_ok. cbn [_buffer forEach].
    step0 @ret_ok. step updStream_ok. step theStream_ok. cbn [withBuffer _isClosed].
    rewrite setTrace_nil. unfold ret. f_equal. by apply setStreams_id.
  - cbn [fanOutEvents]. rewrite setTrace_nil. apply orb_prop in Hcalm as [H|H];
      apply bool_decide_eq_true_1 in H as ->;
      (eapply event_tick_none; [eassumption|reflexivity]).
  - assert (s = b /\ forall o, benign o m = true) as [-> Hm].
    { destruct m; try discriminate;
        (split; [by eapply bool_decide_eq_true_1 | intros o; reflexivity]). }
    cbn [runTask fanOutEvents]. unfold broadcast_fanOut_tick. step theStream_ok.
    cbn [subscribersOf class].
    eapply fanOut_loop; [eassumption|done|exact Hsubs|exact Hm].
Qed.

Lemma drain_calm p b psub closed xs ls : forall q fuel w,
  broadcastState p b psub closed xs ls w ->
  queue w = q -> forallb (calm p b) q = true -> (length q <= fuel)%nat ->
  drain fuel w =
  Ok tt (setQueue (fun _ => []) (setTrace (fun tr => tr ++ flat_map (fanOutEvents ls) q) w)).
Proof.
  induction q as [|t q IH]; intros fuel w HB Hq Hcalm Hlen.
  - rewrite drain_nil by done. f_equal. cbn [flat_map]. rewrite setTrace_nil.
    apply world_eq; wsimpl; try reflexivity. done.
  - destruct fuel as [|fuel]; [cbn in Hlen; lia|].
    cbn [forallb] in Hcalm. apply andb_prop in Hcalm as [Ht Hcalm].
    erewrite drain_cons; [|exact Hq|].
    2:{ eapply calm_task; [|exact Ht]. eapply broadcastState_ext; [exact HB|reflexivity..]. }
    erewrite IH; [|eapply broadcastState_ext; [exact HB|reflexivity..]|reflexivity|exact Hcalm|cbn in Hlen; lia].
    f_equal. apply world_eq; wsimpl; try reflexivity.
    cbn [flat_map]. by rewrite app_assoc.
Qed.

Lemma observers_mono b (m m' : gmap nat StreamSubscription) xs ls :
  (forall x sub, m !! x = Some sub -> m' !! x = Some sub) ->
  observers b m xs ls -> observers b m' xs ls.
Proof. intros H HF. eapply Forall2_impl; [exact HF|]. intros x lo Hx. by apply H. Qed.

Lemma observers_snoc b (m : gmap nat StreamSubscription) xs ls x l o :
  observers b m xs ls ->
  m !! x = Some (mkSubscription b (User l) o [] false) ->
  observers b m (xs ++ [x]) (ls ++ [(l, o)]).
Proof. intros HF Hx. apply Forall2_app; [exact HF|]. by repeat constructor. Qed.

Lemma observers_below b w xs ls x :
  (forall x sub, subscriptions w !! x = Some sub -> (x < nextSubscription w)%nat) ->
  observers b (subscriptions w) xs ls ->
  x ∈ xs -> (x < nextSubscription w)%nat.
Proof.
  intros Hfresh HF Hx. apply list_elem_of_lookup in Hx as [i Hi].
  destruct (Forall2_lookup_l _ _ _ _ _ HF Hi) as (lo & _ & Hlo). by eapply Hfresh.
Qed.

Lemma setAdd_fresh x xs : x ∉ xs -> setAdd x xs = xs ++ [x].
Proof. intros H. unfold setAdd. by rewrite bool_decide_eq_false_2. Qed.

Lemma listen_broadcast_some p b x0 xs ls w l o :
  broadcastState p b (Some x0) false xs ls w ->
  exists w',
    listen b (User l) o w = Ok (nextSubscription w) w' /\
    broadcastState p b (Some x0) false (xs ++ [nextSubscription w]) (ls ++ [(l, o)]) w' /\
    queue w' = queue w ++ [TEvent b "onListen"] /\
    trace w' = trace w.
Proof.
  intros (Hlt & Hp & Hb & Hps & Hsubs & Hfresh).
  assert (Hnew : nextSubscription w ∉ xs).
  { intros Hin. eapply observers_below in Hin; [|eassumption..]. lia. }
  unfold listen. cbn [listenAt]. step theStream_ok. cbn [class].
  step0 @ret_ok. step0 newSubscription_ok. step updStream_ok.
  unfold Stream_callEventListeners. step0 nextTick_ok. step theStream_ok.
  cbn [withSubscribers withClass class _isClosed when]. step0 @ret_ok.
  eexists. split; [reflexivity|]. split; [|split; reflexivity].
  rewrite setAdd_fresh by done.
  assert (Hx0 : x0 <> nextSubscription w).
  { specialize (Hps x0 eq_refl). apply Hfresh in Hps. lia. }
  unfold broadcastState. wsimpl. split; [done|]. split; [by rewrite lookup_insert_ne by lia|].
  split; [by rewrite lookup_insert_eq|]. split; [|split].
  - intros ? [= <-]. rewrite lookup_insert_ne by done. by apply Hps.
  - apply observers_snoc; [|apply lookup_insert_eq].
    eapply observers_mono; [|exact Hsubs]. intros x sub Hx.
    rewrite lookup_insert_ne; [done|]. apply Hfresh in Hx. lia.
  - intros x sub. destruct (decide (x = nextSubscription w)) as [->|]; [lia|].
    rewrite lookup_insert_ne by done. intros Hx%Hfresh. lia.
Qed.

Lemma listen_broadcast_none p b closed xs ls w l o :
  broadcastState p b None closed xs ls w ->
  exists w',
    listen b (User l) o w = Ok (S (nextSubscription w)) w' /\
    broadcastState p b (if closed then None else Some (nextSubscription w)) closed
                   (xs ++ [S (nextSubscription w)]) (ls ++ [(l, o)]) w' /\
    queue w' = queue w ++ [TEvent p "onListen"; TEmit p; TEvent b "onListen"] ++
                 (if closed then [TEvent p "onCancel"; TFanOut b Done] else []) /\
    trace w' = trace w ++ (if closed then [EvCancel (nextSubscription w)] else []).
Proof.
  intros (Hlt & Hp & Hb & Hps & Hsubs & Hfresh).
  assert (Hnew : S (nextSubscription w) ∉ xs).
  { intros Hin. eapply observers_below in Hin; [|eassumption..]. lia. }
  unfold listen. cbn [listenAt]. step theStream_ok. cbn [class].
  destruct b as [|b']; [lia|]. cbn [listenAt].
  rewrite ?bind_assoc. step theStream_ok. cbn [class].
  erewrite bind_ok by (eapply Stream_listen_free; [eassumption|reflexivity]).
  cbn [_isPaused]. step updStream_ok. step0 newSubscription_ok. step updStream_ok.
  unfold Stream_callEventListeners. step0 nextTick_ok. step theStream_ok.
  cbn [withSubscribers withParentSubscription withSubscription withClass class _isClosed
       _subscription _buffer _isPaused _eventCallbacks storeSubscription nextSubscription].
  rewrite setAdd_fresh by done.
  destruct closed; cbn [when].
  - erewrite bind_ok; cycle 1.
    { eapply broadcast_close_ok_some; [lk|reflexivity|..].
      - wsimpl. rewrite lookup_insert_ne by lia. apply lookup_insert_eq.
      - cbn [sub_stream]. lia.
      - cbn [sub_stream]. wsimpl. rewrite lookup_insert_ne by lia.
        rewrite lookup_insert_ne by lia. apply lookup_insert_eq. }
    unfold ret. eexists. split; [reflexivity|].
    cbn [sub_stream afterCancel isBroadcast withSubscription withParentSubscription withClosed
         withClass class _isClosed _subscription _buffer _isPaused _eventCallbacks].
    split; [|split].
    + unfold broadcastState. wsimpl. split; [done|]. split; [|split; [|split; [|split]]].
      * rewrite lookup_insert_ne by lia. by rewrite lookup_insert_eq.
      * by rewrite lookup_insert_eq.
      * done.
      * apply observers_snoc; [|apply lookup_insert_eq].
        eapply observers_mono; [|exact Hsubs]. intros x sub Hx.
        apply Hfresh in Hx as Hx'. by rewrite !lookup_insert_ne by lia.
      * intros x sub. destruct (decide (x = S (nextSubscription w))) as [->|]; [lia|].
        rewrite lookup_insert_ne by done.
        destruct (decide (x = nextSubscription w)) as [->|]; [lia|].
        rewrite lookup_insert_ne by done. intros Hx%Hfresh. lia.
    + wsimpl. by rewrite <- !app_assoc.
    + reflexivity.
  - step0 @ret_ok. unfold ret. eexists. split; [reflexivity|]. split; [|split].
    + unfold broadcastState. wsimpl. split; [done|]. split; [|split; [|split; [|split]]].
      * rewrite lookup_insert_ne by lia. rewrite lookup_insert_ne by lia.
        by rewrite lookup_insert_eq.
      * by rewrite lookup_insert_eq.
      * intros ? [= <-]. rewrite lookup_insert_ne by lia. by rewrite lookup_insert_eq.
      * apply observers_snoc; [|apply lookup_insert_eq].
        eapply observers_mono; [|exact Hsubs]. intros x sub Hx.
        apply Hfresh in Hx as Hx'. by rewrite !lookup_insert_ne by lia.
      * intros x sub. destruct (decide (x = S (nextSubscription w))) as [->|]; [lia|].
        rewrite lookup_insert_ne by done.
        destruct (decide (x = nextSubscription w)) as [->|]; [lia|].
        rewrite lookup_insert_ne by done. intros Hx%Hfresh. lia.
    + wsimpl. rewrite app_nil_r. by rewrite <- !app_assoc.
    + wsimpl. by rewrite app_nil_r.
Qed.

Lemma quiet_events ls q : forallb quiet q = true -> flat_map (fanOutEvents ls) q = [].
Proof.
  induction q as [|t q IH]; [done|]. cbn [forallb flat_map].
  intros [Ht Hq]%andb_prop. rewrite IH by done. by destruct t.
Qed.

Lemma listenAll_open p b ls' : forall psub xs ls w,
  broadcastState p b psub false xs ls w ->
  exists psub' xs' extra w',
    listenAll b ls' w = Ok tt w' /\
    broadcastState p b psub' false (xs ++ xs') (ls ++ ls') w' /\
    queue w' = queue w ++ extra /\
    forallb (calm p b) extra = true /\ forallb quiet extra = true /\
    (length extra <= 2 + length ls')%nat /\
    (is_Some psub -> length extra <= length ls')%nat /\
    (is_Some psub -> psub' = psub) /\
    (psub' = None -> extra = []) /\
    (psub = None ->
     psub' = match ls' with [] => None | _ => Some (nextSubscription w) end) /\
    trace w' = trace w.
Proof.
  induction ls' as [|[l o] ls' IH]; intros psub xs ls w HB.
  - exists psub, [], [], w. rewrite !app_nil_r.
    split; [reflexivity|]. split; [exact HB|]. split; [reflexivity|].
    split; [reflexivity|]. split; [reflexivity|]. split; [cbn; lia|].
    split; [intros _; cbn; lia|]. split; [done|]. split; [done|]. split; done.
  - unfold listenAll. cbn [forEach fst snd]. destruct psub as [x0|].
    + destruct (listen_broadcast_some p b x0 xs ls w l o HB) as (w1 & E & HB1 & Hq1 & Ht1).
      destruct (IH _ _ _ _ HB1) as (psub' & xs' & extra & w' & E' & HB' & Hq' & Hc & Hqu & Hlen & Hlen' & Hps & _ & _ & Ht').
      rewrite ?bind_assoc. step0 E. step0 @ret_ok. fold (listenAll b ls'). rewrite E'.
      exists psub', (nextSubscription w :: xs'), (TEvent b "onListen" :: extra), w'.
      split; [reflexivity|]. rewrite <- !app_assoc in HB'. split; [exact HB'|].
      split; [by rewrite Hq', Hq1, <- app_assoc|].
      assert (Hpb : (p < b)%nat) by apply HB.
      split; [cbn [forallb calm]; rewrite Hc; rewrite (bool_decide_eq_true_2 (b = b)) by done;
              by rewrite orb_true_r|].
      split; [done|]. specialize (Hlen' ltac:(done)). specialize (Hps ltac:(done)).
      split; [cbn [length]; lia|]. split; [cbn [length]; lia|]. split; [done|].
      split; [congruence|]. split; [done|congruence].
    + destruct (listen_broadcast_none p b false xs ls w l o HB) as (w1 & E & HB1 & Hq1 & Ht1).
      destruct (IH _ _ _ _ HB1) as (psub' & xs' & extra & w' & E' & HB' & Hq' & Hc & Hqu & Hlen & Hlen' & Hps & _ & _ & Ht').
      rewrite ?bind_assoc. step0 E. step0 @ret_ok. fold (listenAll b ls'). rewrite E'.
      exists psub', (S (nextSubscription w) :: xs'),
        ([TEvent p "onListen"; TEmit p; TEvent b "onListen"] ++ extra), w'.
      split; [reflexivity|]. rewrite <- !app_assoc in HB'. split; [exact HB'|].
      split; [rewrite Hq', Hq1; by rewrite app_nil_r, <- !app_assoc|].
      split.
      { cbn [forallb calm app]. rewrite Hc.
        rewrite (bool_decide_eq_true_2 (p = p)) by done.
        rewrite (bool_decide_eq_true_2 (b = b)) by done. by rewrite orb_true_r. }
      split; [done|]. specialize (Hlen' ltac:(done)).
      split; [cbn [length app]; lia|]. split; [by intros [? [=]]|].
      split; [by intros [? [=]]|]. specialize (Hps ltac:(done)).
      split; [congruence|]. split; [done|]. rewrite Ht', Ht1. by rewrite app_nil_r.
Qed.

Lemma add_broadcast w b st d p ps xs :
  streams w !! b = Some st -> class st = ClsBroadcast p ps xs -> _isClosed st = false ->
  add b d w = Ok tt (setQueue (fun q => q ++ [TFanOut b (Data d)]) w).
Proof.
  intros Hb Hc Hcl. unfold add. step theStream_ok. rewrite Hc.
  unfold broadcast_add. step theStream_ok. by rewrite Hcl.
Qed.

Lemma broadcastState_initial w :
  wellFormed w ->
  broadcastState (nextStream w) (S (nextStream w)) None false [] []
    (storeStream (S (nextStream w)) (newStream (ClsBroadcast (nextStream w) None []))
       (storeStream (nextStream w) (newStream ClsStream) w)).
Proof.
  intros Hwf. unfold broadcastState. wsimpl. split; [lia|]. split; [|split; [|split; [|split]]].
  - rewrite lookup_insert_ne by lia. by rewrite lookup_insert_eq.
  - by rewrite lookup_insert_eq.
  - done.
  - constructor.
  - intros x sub Hx. by eapply wf_subscription.
Qed.

Lemma fanOut_data_events ls v :
  flat_map (fun lo : nat * StreamListenOptions => userEvents (fst lo) (snd lo) (Data v)) ls
  = List.map (fun lo => EvData (fst lo) v) ls.
Proof.
  induction ls as [|lo ls IH]; [done|]. simpl. by f_equal.
Qed.

(** C4, as the code has it: the value given to [add] is fanned out by a
    closure handed to nextTick, to the subscribers in the set when that
    closure runs.  The observers that listened before the call of [add] and
    those that listened after it, in the same synchronous run, all record
    the value, once each, in the order in which they listened; the observers
    that listen after the closure has run record nothing. *)
Theorem broadcast_value_reaches_subscribers_of_the_fan_out
    (w : World) (ls1 ls2 ls3 : list (nat * StreamListenOptions)) (v : Z) :
  wellFormed w -> queue w = [] ->
  exists w',
    publishBetweenListeners ls1 ls2 ls3 v w = Ok tt w' /\
    trace w' = trace w ++ List.map (fun lo => EvData (fst lo) v) (ls1 ++ ls2) /\
    queue w' = [].
Proof.
  intros Hwf Hq. unfold publishBetweenListeners.
  step0 allocStream_ok. unfold Stream_asBroadcastStream. step0 allocStream_ok.
  cbn [storeStream nextStream].
  pose proof (broadcastState_initial w Hwf) as HB0.
  destruct (listenAll_open _ _ ls1 _ _ _ _ HB0)
    as (psub1 & xs1 & q1 & w1 & E1 & HB1 & Hq1 & Hc1 & Hqu1 & Hlen1 & _ & _ & Hnil1 & _ & Ht1).
  cbn [app] in HB1. step0 E1.
  erewrite bind_ok; cycle 1.
  { eapply add_broadcast; [apply HB1|reflexivity..]. }
  cbn beta.
  assert (HB1' : broadcastState (nextStream w) (S (nextStream w)) psub1 false xs1 ls1
                   (setQueue (fun q => q ++ [TFanOut (S (nextStream w)) (Data v)]) w1))
    by (eapply broadcastState_ext; [exact HB1|reflexivity..]).
  destruct (listenAll_open _ _ ls2 _ _ _ _ HB1')
    as (psub2 & xs2 & q2 & w2 & E2 & HB2 & Hq2 & Hc2 & Hqu2 & Hlen2 & Hlen2' & Hps2 & _ & _ & Ht2).
  step0 E2.
  assert (Hlen : (length (q1 ++ [TFanOut (S (nextStream w)) (Data v)] ++ q2)
                  <= 3 + length ls1 + length ls2)%nat).
  { rewrite !length_app. cbn [length].
    destruct psub1 as [x0|].
    - specialize (Hlen2' ltac:(done)). lia.
    - rewrite (Hnil1 eq_refl). cbn [length]. lia. }
  erewrite bind_ok; cycle 1.
  { eapply drain_calm; [exact HB2| | |exact Hlen].
    - rewrite Hq2. wsimpl. rewrite Hq1. wsimpl. rewrite Hq. cbn [app].
      by rewrite <- app_assoc.
    - rewrite !forallb_app, Hc1, Hc2. cbn [forallb calm].
      by rewrite (bool_decide_eq_true_2 (S (nextStream w) = S (nextStream w))) by done. }
  cbn beta.
  match goal with |- context [bind (listenAll _ ls3) _ ?w3] =>
    assert (HB3 : broadcastState (nextStream w) (S (nextStream w)) psub2 false
                    (xs1 ++ xs2) (ls1 ++ ls2) w3)
      by (eapply broadcastState_ext; [exact HB2|reflexivity..]);
    destruct (listenAll_open _ _ ls3 _ _ _ _ HB3)
      as (psub3 & xs3 & q3 & w4 & E3 & HB4 & Hq3 & Hc3 & Hqu3 & Hlen3 & _ & _ & _ & _ & Ht3)
  end.
  step0 E3. wsimpl.
  erewrite drain_calm; [|exact HB4|rewrite Hq3; reflexivity|exact Hc3|exact Hlen3].
  eexists. split; [reflexivity|]. split; [|reflexivity]. wsimpl.
  rewrite quiet_events by done. rewrite app_nil_r, Ht3. wsimpl.
  rewrite Ht2. wsimpl. rewrite Ht1. f_equal.
  rewrite !flat_map_app. rewrite (quiet_events _ q1), (quiet_events _ q2) by done.
  cbn [flat_map fanOutEvents app]. rewrite app_nil_r, app_nil_r.
  apply fanOut_data_events.
Qed.

Lemma close_broadcast p b psub xs ls w :
  broadcastState p b psub false xs ls w ->
  exists w',
    close b w = Ok tt w' /\
    broadcastState p b None true xs ls w' /\
    queue w' = queue w ++ match psub with
                          | Some _ => [TEvent p "onCancel"; TFanOut b Done]
                          | None => [TFanOut b Done]
                          end /\
    trace w' = trace w ++ match psub with Some x0 => [EvCancel x0] | None => [] end /\
    nextSubscription w' = nextSubscription w.
Proof.
  intros (Hlt & Hp & Hb & Hps & Hsubs & Hfresh).
  unfold close. step theStream_ok. cbn [class]. destruct psub as [x0|].
  - erewrite broadcast_close_ok_some; [|exact Hb|reflexivity|by apply Hps|cbn [sub_stream]; lia|exact Hp].
    eexists. split; [reflexivity|].
    cbn [sub_stream afterCancel isBroadcast withSubscription withParentSubscription withClosed
         withClass class _isClosed _subscription _buffer _isPaused _eventCallbacks].
    split; [|split; [|split]]; [|wsimpl; by rewrite <- app_assoc|reflexivity..].
    unfold broadcastState. wsimpl. split; [done|]. split; [|split; [|split; [|split]]]; try done.
    + rewrite lookup_insert_ne by lia. by rewrite lookup_insert_eq.
    + by rewrite lookup_insert_eq.
  - erewrite broadcast_close_ok_none; [|exact Hb|reflexivity].
    eexists. split; [reflexivity|]. cbn [withClosed _isClosed _subscription _buffer _isPaused
                                         _eventCallbacks class].
    split; [|split; [|split]]; [|reflexivity|wsimpl; by rewrite app_nil_r|reflexivity].
    unfold broadcastState. wsimpl. split; [done|]. split; [|split; [|split; [|split]]]; try done.
    + by rewrite lookup_insert_ne by lia.
    + by rewrite lookup_insert_eq.
Qed.

(** C9: when the stream is closed every observer records Done once.  A
    later [listen] closes the stream again: the subscription it took on the
    parent is cancelled, and Done is fanned out to the whole subscriber set,
    so every earlier observer records Done once more, before the new one. *)
Theorem listen_on_closed_broadcast_repeats_done
    (w : World) (ls : list (nat * StreamListenOptions)) (l' : nat) (o' : StreamListenOptions) :
  wellFormed w -> queue w = [] ->
  exists w1 w2,
    closeAfterListeners ls w = Ok tt w1 /\
    trace w1 = trace w ++
               match ls with [] => [] | _ => [EvCancel (nextSubscription w)] end ++
               doneEvents ls /\
    queue w1 = [] /\
    listenWhenClosed (S (nextStream w)) l' o' w1 = Ok tt w2 /\
    trace w2 = trace w1 ++ [EvCancel (nextSubscription w1)] ++
               doneEvents ls ++ doneEvents [(l', o')] /\
    queue w2 = [].
Proof.
  intros Hwf Hq. unfold closeAfterListeners.
  step0 allocStream_ok. unfold Stream_asBroadcastStream. step0 allocStream_ok.
  cbn [storeStream nextStream].
  pose proof (broadcastState_initial w Hwf) as HB0.
  destruct (listenAll_open _ _ ls _ _ _ _ HB0)
    as (psub1 & xs1 & q1 & wa & E1 & HB1 & Hq1 & Hc1 & Hqu1 & Hlen1 & _ & _ & Hnil1 & Hps1 & Ht1).
  cbn [app] in HB1. step0 E1. specialize (Hps1 eq_refl). wsimpl.
  destruct (close_broadcast _ _ _ _ _ _ HB1) as (wb & E2 & HB2 & Hq2 & Ht2 & Hn2).
  step0 E2.
  erewrite drain_calm; [|exact HB2|reflexivity| |].
  2:{ rewrite Hq2, Hq1. wsimpl. rewrite Hq. cbn [app]. rewrite forallb_app, Hc1.
      destruct psub1; cbn [forallb calm andb];
        rewrite ?(bool_decide_eq_true_2 (S (nextStream w) = S (nextStream w))) by done;
        rewrite ?(bool_decide_eq_true_2 (nextStream w = nextStream w)) by done;
        by rewrite ?orb_true_r. }
  2:{ rewrite Hq2, Hq1. wsimpl. rewrite Hq. cbn [app]. rewrite length_app.
      destruct psub1; cbn [length]; [lia|]. rewrite (Hnil1 eq_refl). cbn [length]. lia. }
  match goal with |- exists w1 w2, Ok tt ?W = _ /\ _ =>
    assert (HB3 : broadcastState (nextStream w) (S (nextStream w)) None true xs1 ls W)
      by (eapply broadcastState_ext; [exact HB2|reflexivity..]);
    destruct (listen_broadcast_none _ _ _ _ _ _ l' o' HB3) as (wc & E3 & HB4 & Hq3 & Ht3)
  end.
  eexists _, _. split; [reflexivity|].
  assert (Hev : forall q, flat_map (fanOutEvents ls)
                  (q1 ++ q ++ [TFanOut (S (nextStream w)) Done]) =
                flat_map (fanOutEvents ls) q ++ doneEvents ls).
  { intros q. rewrite !flat_map_app, (quiet_events _ q1) by done.
    cbn [flat_map fanOutEvents app]. by rewrite app_nil_r. }
  split.
  { wsimpl. rewrite Hq2, Hq1, Ht2, Ht1. wsimpl. rewrite Hq. cbn [app]. rewrite <- !app_assoc.
    f_equal. rewrite Hps1. destruct ls as [|lo ls'].
    - pose proof (Hev []) as H. cbn [app flat_map fanOutEvents] in H. rewrite H.
      reflexivity.
    - pose proof (Hev [TEvent (nextStream w) "onCancel"]) as H.
      cbn [app flat_map fanOutEvents] in H. rewrite H. reflexivity. }
  split; [reflexivity|].
  unfold listenWhenClosed. step0 E3.
  erewrite drain_calm; [|exact HB4|exact Hq3| |reflexivity].
  2:{ wsimpl. cbn [forallb calm app andb].
      rewrite ?(bool_decide_eq_true_2 (S (nextStream w) = S (nextStream w))) by done;
      rewrite ?(bool_decide_eq_true_2 (nextStream w = nextStream w)) by done.
      by rewrite ?orb_true_r. }
  split; [reflexivity|]. split; [|reflexivity].
  wsimpl. rewrite Ht3. wsimpl. rewrite <- !app_assoc. f_equal. f_equal.
  cbn [flat_map fanOutEvents app]. rewrite app_nil_r.
  unfold doneEvents. by rewrite flat_map_app.
Qed.

Lemma broadcast_value_reaches_subscribers_of_the_fan_out_witness :
  exists w',
    publishBetweenListeners [(1, plainOptions)]%nat [(2, plainOptions)]%nat
                            [(3, plainOptions)]%nat 42 emptyWorld = Ok tt w' /\
    trace w' = [EvData 1 42; EvData 2 42] /\
    queue w' = [].
Proof.
  apply (broadcast_value_reaches_subscribers_of_the_fan_out emptyWorld
           [(1, plainOptions)]%nat [(2, plainOptions)]%nat [(3, plainOptions)]%nat 42).
  - split; apply (bool_decide_unpack _); vm_compute; exact I.
  - reflexivity.
Defined.

(** The claim as stated fails: observer 2 listens after the call of [add]
    and records the value. *)
Lemma listener_after_add_receives_value :
  exists w',
    (p <- allocStream ClsStream ;;
     b <- Stream_asBroadcastStream p ;;
     _ <- listen b (User 1) plainOptions ;;
     add b 42 ;;
     _ <- listen b (User 2) plainOptions ;;
     drain 10) emptyWorld = Ok tt w' /\
    EvData 2 42 ∈ trace w'.
Proof.
  eexists. split; [vm_compute; reflexivity|].
  apply list_elem_of_In. right. left. reflexivity.
Qed.

Lemma listen_on_closed_broadcast_repeats_done_witness :
  exists w1 w2,
    closeAfterListeners [(1, plainOptions); (2, plainOptions)]%nat emptyWorld = Ok tt w1 /\
    trace w1 = [EvCancel 0; EvDone 1; EvDone 2] /\
    queue w1 = [] /\
    listenWhenClosed 1 3 plainOptions w1 = Ok tt w2 /\
    trace w2 = trace w1 ++ [EvCancel (nextSubscription w1); EvDone 1; EvDone 2; EvDone 3] /\
    queue w2 = [].
Proof.
  apply (listen_on_closed_broadcast_repeats_done emptyWorld
           [(1, plainOptions); (2, plainOptions)]%nat 3%nat plainOptions).
  - split; apply (bool_decide_unpack _); vm_compute; exact I.
  - reflexivity.
Defined.

(** ** Terminal aggregations *)

Lemma settle_ok w a ag p :
  aggregations w !! a = Some ag -> agg_promise ag = Pending ->
  settle a p w =
  Ok tt (setTrace (fun t => t ++ [EvSettle a p])
           (setAggregations (fun m => <[a := withPromise p ag]> m) w)).
Proof.
  intros Ha Hp. unfold settle. step theAggregation_ok. rewrite Hp.
  step updAggregation_ok. reflexivity.
Qed.

Lemma settle_settled w a ag p :
  aggregations w !! a = Some ag -> agg_promise ag <> Pending ->
  settle a p w = Ok tt w.
Proof.
  intros Ha Hp. unfold settle. step theAggregation_ok. by destruct (agg_promise ag).
Qed.

Lemma cancelAndFulfill_ok w a x ag sub st p :
  aggregations w !! a = Some ag -> agg_sub ag = Some x -> agg_promise ag = Pending ->
  subscriptions w !! x = Some sub -> streams w !! sub_stream sub = Some st ->
  cancelAndFulfill a (settle a p) w =
  Ok tt (cancelledAndSettled a x ag (sub_stream sub) st p w).
Proof.
  intros Ha Hx Hp Hsub Hst. unfold cancelAndFulfill. step theAggregation_ok. rewrite Hx.
  erewrite bind_ok by (eapply sub_cancel_ok; eassumption).
  erewrite settle_ok; [reflexivity|lk|done].
Qed.

Lemma tryCatch_ok {A} (m : Op A) h w a w' :
  m w = Ok a w' -> tryCatch m h w = Ok a w'.
Proof. intros H. unfold tryCatch. by rewrite H. Qed.

Lemma tryCatch_throw {A} (m : Op A) h w e w' :
  m w = Throw e w' -> tryCatch m h w = h e w'.
Proof. intros H. unfold tryCatch. by rewrite H. Qed.

Section OneAggregation.
Variables (w : World) (a x : nat) (ag : Aggregation) (sub : StreamSubscription) (st : Stream).
Hypothesis Ha : aggregations w !! a = Some ag.
Hypothesis Hx : agg_sub ag = Some x.
Hypothesis Hp : agg_promise ag = Pending.
Hypothesis Hsub : subscriptions w !! x = Some sub.
Hypothesis Hst : streams w !! sub_stream sub = Some st.

Lemma cancelAndFulfill_here p :
  cancelAndFulfill a (settle a p) w =
  Ok tt (cancelledAndSettled a x ag (sub_stream sub) st p w).
Proof. by eapply cancelAndFulfill_ok. Qed.

Lemma agg_onError_ok e :
  agg_onError a e w =
  Ok tt (cancelledAndSettled a x ag (sub_stream sub) st (Rejected e) w).
Proof. unfold agg_onError, reject. apply cancelAndFulfill_here. Qed.

Lemma agg_onDone_ok :
  exists w',
    agg_onDone a w = Ok tt w' /\
    promiseOf a w' = doneOutcome ag /\
    trace w' = trace w ++
               match agg_kind ag with
               | AggFirstWhere _ => [EvCancel x; EvSettle a (doneOutcome ag)]
               | _ => [EvSettle a (doneOutcome ag)]
               end.
Proof.
  unfold agg_onDone. step theAggregation_ok. unfold doneOutcome, resolve, reject.
  destruct (agg_kind ag);
    try (erewrite settle_ok by eassumption; eexists; split; [reflexivity|];
         unfold promiseOf; wsimpl; rewrite lookup_insert_eq; split; reflexivity).
  rewrite cancelAndFulfill_here. eexists. split; [reflexivity|].
  unfold promiseOf, cancelledAndSettled; wsimpl. rewrite lookup_insert_eq.
  split; [reflexivity|]. by rewrite <- app_assoc.
Qed.

Lemma agg_onData_ok d :
  exists w' new,
    agg_onData a d w = Ok tt w' /\
    trace w' = trace w ++ new /\
    cancelsFirst a x false new = true.
Proof.
  unfold agg_onData. step theAggregation_ok. unfold resolve, reject.
  destruct (agg_kind ag) as [c| |c|l f|f| |] eqn:Hk.
  - (* every *)
    destruct (c d) as [[|]|e] eqn:Hc; cbn [call].
    + erewrite bind_ok by (eapply tryCatch_ok; reflexivity).
      exists w, []. by rewrite app_nil_r.
    + erewrite bind_ok by (eapply tryCatch_ok; reflexivity). cbn beta iota.
      rewrite cancelAndFulfill_here. eexists _, [_; _]. split; [reflexivity|].
      unfold cancelledAndSettled. wsimpl. split; [by rewrite <- app_assoc|].
      cbn. by rewrite !bool_decide_eq_true_2.
    + erewrite bind_ok by (erewrite tryCatch_throw by reflexivity; reflexivity).
      cbn beta iota.
      rewrite cancelAndFulfill_here. eexists _, [_; _]. split; [reflexivity|].
      unfold cancelledAndSettled. wsimpl. split; [by rewrite <- app_assoc|].
      cbn. by rewrite !bool_decide_eq_true_2.
  - (* first *)
    rewrite cancelAndFulfill_here. eexists _, [_; _]. split; [reflexivity|].
    unfold cancelledAndSettled. wsimpl. split; [by rewrite <- app_assoc|].
    cbn. by rewrite !bool_decide_eq_true_2.
  - (* firstWhere *)
    destruct (c d) as [[|]|e] eqn:Hc; cbn [call when].
    + erewrite tryCatch_ok; cycle 1.
      { step0 @ret_ok. cbn [when]. apply cancelAndFulfill_here. }
      eexists _, [_; _]. split; [reflexivity|].
      unfold cancelledAndSettled. wsimpl. split; [by rewrite <- app_assoc|].
      cbn. by rewrite !bool_decide_eq_true_2.
    + erewrite tryCatch_ok by reflexivity. exists w, []. by rewrite app_nil_r.
    + erewrite tryCatch_throw by reflexivity. rewrite cancelAndFulfill_here.
      eexists _, [_; _]. split; [reflexivity|].
      unfold cancelledAndSettled. wsimpl. split; [by rewrite <- app_assoc|].
      cbn. by rewrite !bool_decide_eq_true_2.
  - (* forEach *)
    destruct (f d) as [[]|e] eqn:Hf.
    + erewrite tryCatch_ok; cycle 1.
      { step0 record_ok. reflexivity. }
      eexists _, [_]. split; [reflexivity|]. split; reflexivity.
    + erewrite tryCatch_throw; cycle 1.
      { step0 record_ok. reflexivity. }
      erewrite cancelAndFulfill_ok; [|lk|exact Hx|exact Hp|lk|lk].
      eexists _, [_; _; _]. split; [reflexivity|].
      unfold cancelledAndSettled. wsimpl. split; [by rewrite <- !app_assoc|].
      cbn. by rewrite !bool_decide_eq_true_2.
  - (* reduce *)
    destruct (agg_seenFirst ag).
    + destruct (f (agg_initialValue ag) d) as [v|e] eqn:Hf.
      * erewrite tryCatch_ok; cycle 1.
        { cbn [call]. step0 @ret_ok. eapply updAggregation_ok. eassumption. }
        eexists _, []. split; [reflexivity|]. wsimpl. by rewrite app_nil_r.
      * erewrite tryCatch_throw by reflexivity. rewrite cancelAndFulfill_here.
        eexists _, [_; _]. split; [reflexivity|].
        unfold cancelledAndSettled. wsimpl. split; [by rewrite <- app_assoc|].
        cbn. by rewrite !bool_decide_eq_true_2.
    + erewrite updAggregation_ok by eassumption.
      eexists _, []. split; [reflexivity|]. wsimpl. by rewrite app_nil_r.
  - erewrite updAggregation_ok by eassumption.
    eexists _, []. split; [reflexivity|]. wsimpl. by rewrite app_nil_r.
  - erewrite updAggregation_ok by eassumption.
    eexists _, []. split; [reflexivity|]. wsimpl. by rewrite app_nil_r.
Qed.
End OneAggregation.

(** C5, as the code has it: when a data value or an error of the stream
    makes an aggregation settle its promise, the subscription is cancelled
    first; on Done only firstWhere cancels before it settles, the other six
    resolve or reject without a cancel before. *)
Theorem aggregation_cancels_before_settling_except_on_done
    (w : World) (a x : nat) (ag : Aggregation) (sub : StreamSubscription) (st : Stream) :
  aggregations w !! a = Some ag -> agg_sub ag = Some x -> agg_promise ag = Pending ->
  subscriptions w !! x = Some sub -> streams w !! sub_stream sub = Some st ->
  (forall d, exists w' new,
     agg_onData a d w = Ok tt w' /\ trace w' = trace w ++ new /\
     cancelsFirst a x false new = true) /\
  (forall e, exists w',
     agg_onError a e w = Ok tt w' /\ promiseOf a w' = Rejected e /\
     trace w' = trace w ++ [EvCancel x; EvSettle a (Rejected e)]) /\
  (exists w',
     agg_onDone a w = Ok tt w' /\ promiseOf a w' = doneOutcome ag /\
     trace w' = trace w ++
                match agg_kind ag with
                | AggFirstWhere _ => [EvCancel x; EvSettle a (doneOutcome ag)]
                | _ => [EvSettle a (doneOutcome ag)]
                end).
Proof.
  intros Ha Hx Hp Hsub Hst. split; [|split].
  - intros d. by eapply agg_onData_ok.
  - intros e. erewrite agg_onError_ok by eassumption. eexists. split; [reflexivity|].
    unfold promiseOf, cancelledAndSettled. wsimpl. rewrite lookup_insert_eq.
    split; [reflexivity|]. by rewrite <- app_assoc.
  - by eapply agg_onDone_ok.
Qed.

Lemma aggregation_cancels_before_settling_except_on_done_witness :
  exists w',
    agg_onDone 0 toArrayWorld = Ok tt w' /\
    promiseOf 0 w' = Resolved (VArray []) /\
    trace w' = [EvSettle 0 (Resolved (VArray []))].
Proof.
  destruct (aggregation_cancels_before_settling_except_on_done
              toArrayWorld 0 0
              (mkAggregation AggToArray (Some 0%nat) Pending false None [])
              (mkSubscription 0 (Collect 0) forwardOptions [] false)
              (mkStream (Some 0%nat) [] false false ∅ ClsStream)
              eq_refl eq_refl eq_refl eq_refl eq_refl) as (_ & _ & w' & E & Hp & Ht).
  exists w'. split; [exact E|]. split; [exact Hp|exact Ht].
Defined.

(** The claim as stated fails on Done: toArray on a closed stream resolves
    its promise, and the subscription is cancelled only afterwards, by the
    stream. *)
Lemma toArray_settles_before_cancel :
  exists w,
    toArrayOfClosedStream emptyWorld = Ok 0%nat w /\
    trace w = [EvSettle 0 (Resolved (VArray [])); EvCancel 0] /\
    cancelsFirst 0 0 false (trace w) = false.
Proof. eexists. split; [vm_compute; reflexivity|]. split; reflexivity. Qed.

(** ** every *)

(** A message handled by a subscription that is not paused and has nothing
    buffered: the callback runs on the store in which the message is
    buffered, and the buffer is emptied afterwards. *)
Lemma messageHandler_run w x sub m w2 :
  subscriptions w !! x = Some sub -> sub_isPaused sub = false -> sub_buffer sub = [] ->
  dispatch x m (setSubscriptions (fun s => <[x := withSubBuffer [m] sub]> s) w) = Ok tt w2 ->
  subscriptions w2 = <[x := withSubBuffer [m] sub]> (subscriptions w) ->
  messageHandler x m w = Ok tt (setSubscriptions (fun _ => subscriptions w) w2).
Proof.
  intros Hx Hp Hb Hd Hs2. unfold messageHandler. step updSubscription_ok. rewrite Hb.
  unfold sub_emit. step theSubscription_ok.
  cbn [withSubBuffer sub_isPaused sub_buffer app forEach]. rewrite Hp.
  rewrite ?bind_assoc. cbn [app] in Hd. step0 Hd. step0 @ret_ok.
  erewrite updSubscription_ok by (rewrite Hs2; apply lookup_insert_eq).
  f_equal. apply world_eq; wsimpl; try reflexivity.
  rewrite Hs2, insert_insert_eq. apply insert_id. rewrite Hx. f_equal.
  destruct sub; simpl in *; subst; reflexivity.
Qed.

Lemma emit_loop_detached s st ms : forall w,
  streams w !! s = Some st -> _subscription st = None ->
  forEach (fun message =>
             st <- theStream s ;;
             match _subscription st with
             | Some x => messageHandler x message
             | None => ret tt
             end) ms w = Ok tt w.
Proof.
  induction ms as [|m ms IH]; intros w Hs Hn; cbn [forEach]; [done|].
  rewrite ?bind_assoc. step theStream_ok. rewrite Hn. step0 @ret_ok. by apply IH.
Qed.

Section Every.
Variables (s x a : nat) (condition : Z -> Outcome bool).
Variables (st : Stream) (ag : Aggregation).
Hypothesis Hsx : _subscription st = Some x.
Hypothesis Hbase : isBroadcast st = false.
Hypothesis Hkind : agg_kind ag = AggEvery condition.
Hypothesis Hagx : agg_sub ag = Some x.
Hypothesis Hpend : agg_promise ag = Pending.

Lemma every_message w m :
  everyReady s x a st ag w ->
  messageHandler x m w =
  Ok tt (afterEveryLoop a x ag s st (everyOutcome condition [m]) w).
Proof.
  intros (Hs & Hx & Ha).
  assert (Hcf : forall p,
    cancelAndFulfill a (settle a p)
      (setSubscriptions (fun m0 => <[x := withSubBuffer [m] (mkSubscription s (Collect a) forwardOptions [] false)]> m0) w) =
    Ok tt (cancelledAndSettled a x ag s st p
             (setSubscriptions (fun m0 => <[x := withSubBuffer [m] (mkSubscription s (Collect a) forwardOptions [] false)]> m0) w))).
  { intros p. erewrite cancelAndFulfill_ok; [|lk|done|done|lk|lk]. reflexivity. }
  assert (Hback : forall p,
    setSubscriptions (fun _ => subscriptions w)
      (cancelledAndSettled a x ag s st p
         (setSubscriptions (fun m0 => <[x := withSubBuffer [m] (mkSubscription s (Collect a) forwardOptions [] false)]> m0) w)) =
    cancelledAndSettled a x ag s st p w).
  { intros p. apply world_eq; reflexivity. }
  destruct m as [d|e|]; cbn [everyOutcome].
  - destruct (condition d) as [[|]|e] eqn:Hc.
    + erewrite messageHandler_run; [|exact Hx|reflexivity|reflexivity| |]; cycle 1.
      * unfold dispatch. step theSubscription_ok. cbn [sub_consumer withSubBuffer call_onData].
        unfold agg_onData. step theAggregation_ok. rewrite Hkind, Hc. cbn [call].
        erewrite bind_ok by (eapply tryCatch_ok; reflexivity). reflexivity.
      * reflexivity.
      * cbn [afterEveryLoop]. f_equal. apply world_eq; try reflexivity.
    + erewrite messageHandler_run; [|exact Hx|reflexivity|reflexivity| |]; cycle 1.
      * unfold dispatch. step theSubscription_ok. cbn [sub_consumer withSubBuffer call_onData].
        unfold agg_onData. step theAggregation_ok. rewrite Hkind, Hc. cbn [call].
        erewrite bind_ok by (eapply tryCatch_ok; reflexivity). cbn beta iota.
        apply Hcf.
      * reflexivity.
      * cbn [afterEveryLoop]. by rewrite Hback.
    + erewrite messageHandler_run; [|exact Hx|reflexivity|reflexivity| |]; cycle 1.
      * unfold dispatch. step theSubscription_ok. cbn [sub_consumer withSubBuffer call_onData].
        unfold agg_onData. step theAggregation_ok. rewrite Hkind, Hc. cbn [call].
        erewrite bind_ok by (erewrite tryCatch_throw by reflexivity; reflexivity).
        cbn beta iota. apply Hcf.
      * reflexivity.
      * cbn [afterEveryLoop]. by rewrite Hback.
  - erewrite messageHandler_run; [|exact Hx|reflexivity|reflexivity| |]; cycle 1.
    + unfold dispatch. step theSubscription_ok.
      cbn [sub_consumer sub_listenOptions withSubBuffer forwardOptions onError
           cancelOnError when call_onError].
      unfold agg_onError, reject. rewrite ?bind_assoc. step0 Hcf. reflexivity.
    + reflexivity.
    + cbn [afterEveryLoop]. by rewrite Hback.
  - erewrite messageHandler_run; [|exact Hx|reflexivity|reflexivity| |]; cycle 1.
    + unfold dispatch. step theSubscription_ok.
      cbn [sub_consumer sub_listenOptions withSubBuffer forwardOptions onDone
           when call_onDone].
      unfold agg_onDone. step theAggregation_ok. rewrite Hkind. unfold resolve.
      erewrite settle_ok; [|lk|done]. reflexivity.
    + reflexivity.
    + cbn [afterEveryLoop]. f_equal; try (apply world_eq; reflexivity).
Qed.

Lemma everyOutcome_cons m ms :
  everyOutcome condition (m :: ms) =
  match everyOutcome condition [m] with
  | Pending => everyOutcome condition ms
  | p => p
  end.
Proof. destruct m as [d|e|]; cbn; [|done..]. by destruct (condition d) as [[|]|]. Qed.

Lemma every_loop ps fin : forall w,
  everyReady s x a st ag w -> fin = [] \/ fin = [Done] ->
  forEach (fun message =>
             st <- theStream s ;;
             match _subscription st with
             | Some x => messageHandler x message
             | None => ret tt
             end) (List.map messageOf ps ++ fin) w =
  Ok tt (afterEveryLoop a x ag s st
           (everyOutcome condition (List.map messageOf ps ++ fin)) w).
Proof.
  induction ps as [|p ps IH]; intros w HR Hfin; pose proof HR as (Hs & Hx & Ha).
  - destruct Hfin as [->| ->]; cbn [List.map app forEach]; [reflexivity|].
    rewrite ?bind_assoc. step theStream_ok. rewrite Hsx.
    erewrite bind_ok by (by apply every_message). reflexivity.
  - cbn [List.map app forEach]. rewrite ?bind_assoc. step theStream_ok.
    rewrite Hsx. erewrite bind_ok by (by apply every_message).
    rewrite (everyOutcome_cons (messageOf p) (List.map messageOf ps ++ fin)).
    destruct (everyOutcome condition [messageOf p]) as [|v|v] eqn:Ho; cbv iota.
    + cbn [afterEveryLoop]. by apply IH.
    + exfalso. destruct p as [d|e]; cbn in Ho; [|done]. by destruct (condition d) as [[|]|].
    + erewrite emit_loop_detached; [reflexivity| |].
      * unfold afterEveryLoop, cancelledAndSettled. lk.
      * unfold afterCancel. rewrite Hbase. reflexivity.
Qed.
End Every.

Lemma createErrorMessage_errorOf e : createErrorMessage e = Error (errorOf e).
Proof. by destruct e. Qed.

Lemma addError_base w s st e :
  streams w !! s = Some st -> class st = ClsStream -> addError s e w = Stream_addError s e w.
Proof. intros Hs Hc. unfold addError. step theStream_ok. by rewrite Hc. Qed.

Lemma close_base w s st :
  streams w !! s = Some st -> class st = ClsStream -> close s w = Stream_close s w.
Proof. intros Hs Hc. unfold close. step theStream_ok. by rewrite Hc. Qed.

Lemma publish_ok w s st p :
  streams w !! s = Some st -> class st = ClsStream -> _isClosed st = false ->
  publish s p w =
  Ok tt (let w' := setStreams
                     (fun m => <[s := withBuffer (_buffer st ++ [messageOf p]) st]> m) w in
         if willEmit st then setQueue (fun q => q ++ [TEmit s]) w' else w').
Proof.
  intros Hs Hc Hcl. destruct p as [d|e]; cbn [publish messageOf].
  - erewrite add_base by eassumption. by eapply Stream_add_ok.
  - erewrite addError_base by eassumption. rewrite <- createErrorMessage_errorOf.
    by eapply Stream_addError_ok.
Qed.

Lemma publishes_buffered s ps : forall w st,
  streams w !! s = Some st -> class st = ClsStream ->
  _isClosed st = false -> _subscription st = None ->
  forEach (publish s) ps w =
  Ok tt (setStreams (fun m => <[s := withBuffer (_buffer st ++ List.map messageOf ps) st]> m) w).
Proof.
  induction ps as [|p ps IH]; intros w st Hs Hc Hcl Hsub; cbn [forEach List.map].
  - unfold ret. f_equal. apply world_eq; wsimpl; try reflexivity.
    symmetry. apply insert_id. rewrite Hs. f_equal. rewrite app_nil_r.
    unfold withBuffer. symmetry. apply stream_eta.
  - erewrite bind_ok by (by eapply publish_ok).
    cbn zeta. unfold willEmit. rewrite Hsub.
    destruct (_isPaused st) eqn:Hp;
    (erewrite IH; [|lk|done..]);
      (f_equal; apply world_eq; wsimpl; try reflexivity;
       rewrite insert_insert_eq; cbn [withBuffer _buffer]; by rewrite <- app_assoc).
Qed.

Lemma aggregate_base w s st k init :
  streams w !! s = Some st -> class st = ClsStream ->
  _subscription st = None -> _isPaused st = false ->
  aggregate s k init w =
  let a := nextAggregation w in
  let x := nextSubscription w in
  let ag0 := mkAggregation k None Pending
               (match init with Some _ => true | None => false end) init [] in
  Ok a (setAggregations (fun m => <[a := withAggSub (Some x) ag0]> m)
         (setQueue (fun q => q ++ [TEvent s "onListen"; TEmit s])
           (setStreams (fun m => <[s := withSubscription (Some x) st]> m)
             (storeSubscription x (mkSubscription s (Collect a) forwardOptions [] false)
               (storeAggregation a ag0 w))))).
Proof.
  intros Hs Hc Hsub Hp. unfold aggregate. step0 get_ok. step0 modify_ok.
  erewrite bind_ok; cycle 1.
  { eapply tryCatch_ok. erewrite bind_ok; cycle 1.
    { erewrite listen_base; [|lk|done]. eapply Stream_listen_free; [lk|done]. }
    cbn beta. eapply updAggregation_ok. lk. }
  rewrite Hp. reflexivity.
Qed.

Lemma everyOutcome_done condition ps :
  everyOutcome condition (List.map messageOf ps ++ [Done]) <> Pending.
Proof.
  induction ps as [|[d|e] ps IH]; cbn; [done| |done].
  by destruct (condition d) as [[|]|].
Qed.

Lemma everyOutcome_open condition ps v :
  everyOutcome condition (List.map messageOf ps) <> Resolved v.
Proof.
  induction ps as [|[d|e] ps IH]; cbn; [done| |done].
  by destruct (condition d) as [[|]|].
Qed.

Lemma every_tick s x a condition st ag ps (closes : bool) w :
  _subscription st = Some x -> class st = ClsStream ->
  agg_kind ag = AggEvery condition -> agg_sub ag = Some x -> agg_promise ag = Pending ->
  streams w !! s = Some st ->
  subscriptions w !! x = Some (mkSubscription s (Collect a) forwardOptions [] false) ->
  aggregations w !! a = Some ag ->
  _buffer st = List.map messageOf ps ++ (if closes then [Done] else []) ->
  _isClosed st = closes ->
  let p := everyOutcome condition (_buffer st) in
  exists w',
    runTask (TEmit s) w = Ok tt w' /\
    promiseOf a w' = p /\
    trace w' = trace w ++ settlingEvents a x p /\
    queue w' = queue w ++ match p with Pending => [] | _ => [TEvent s "onCancel"] end /\
    exists st', streams w' !! s = Some st' /\ _eventCallbacks st' = _eventCallbacks st.
Proof.
  intros Hsx Hc Hk Hagx Hpend Hs Hx Ha Hbuf Hcl. cbn zeta.
  assert (Hbase : isBroadcast st = false) by (unfold isBroadcast; by rewrite Hc).
  cbn [runTask]. unfold Stream_emit_tick. step theStream_ok. rewrite Hbuf.
  erewrite bind_ok; cycle 1.
  { eapply (every_loop s x a condition st ag); try eassumption.
    - by repeat split.
    - destruct closes; auto. }
  cbn beta.
  destruct (everyOutcome condition _) as [|v|v] eqn:Hp; cbn [afterEveryLoop].
  - assert (closes = false) as ->.
    { destruct closes; [|done]. exfalso. by eapply everyOutcome_done. }
    step updStream_ok. step theStream_ok. cbn [withBuffer _isClosed]. rewrite Hcl.
    eexists. split; [reflexivity|]. unfold promiseOf. wsimpl. rewrite Ha, Hpend.
    split; [done|]. rewrite !app_nil_r. split; [done|]. split; [done|].
    eexists. rewrite lookup_insert_eq. split; reflexivity.
  - assert (closes = true) as ->.
    { destruct closes; [done|]. exfalso. rewrite app_nil_r in Hp.
      by eapply everyOutcome_open. }
    step updStream_ok. step theStream_ok. cbn [withBuffer _isClosed _subscription].
    rewrite Hcl, Hsx.
    erewrite cancel_ok by lk.
    eexists. split; [reflexivity|]. unfold promiseOf. wsimpl. rewrite lookup_insert_eq.
    split; [done|]. split; [by rewrite <- app_assoc|]. split; [done|].
    eexists. rewrite lookup_insert_eq. split; [reflexivity|].
    unfold afterCancel, isBroadcast. cbn [withBuffer class]. rewrite Hc. reflexivity.
  - unfold cancelledAndSettled. step updStream_ok. step theStream_ok.
    unfold afterCancel. rewrite Hbase. cbn [withBuffer withSubscription _isClosed _subscription].
    assert (E : (match _isClosed st with
                 | true => ret tt
                 | false => ret tt
                 end : Op unit) = ret tt) by (by destruct (_isClosed st)).
    rewrite E. eexists. split; [reflexivity|]. unfold promiseOf. wsimpl.
    rewrite lookup_insert_eq. split; [done|]. split; [by rewrite <- app_assoc|].
    split; [done|]. eexists. rewrite lookup_insert_eq. split; reflexivity.
Qed.

Lemma every_drain s x a condition st ag ps (closes : bool) w :
  _subscription st = Some x -> class st = ClsStream -> _eventCallbacks st = ∅ ->
  agg_kind ag = AggEvery condition -> agg_sub ag = Some x -> agg_promise ag = Pending ->
  streams w !! s = Some st ->
  subscriptions w !! x = Some (mkSubscription s (Collect a) forwardOptions [] false) ->
  aggregations w !! a = Some ag ->
  _buffer st = List.map messageOf ps ++ (if closes then [Done] else []) ->
  _isClosed st = closes ->
  queue w = [TEvent s "onListen"; TEmit s] ->
  exists w',
    drain 3 w = Ok tt w' /\
    promiseOf a w' = everyOutcome condition (_buffer st) /\
    trace w' = trace w ++ settlingEvents a x (everyOutcome condition (_buffer st)) /\
    queue w' = [].
Proof.
  intros Hsx Hc He Hk Hagx Hpend Hs Hx Ha Hbuf Hcl Hq.
  destruct (every_tick s x a condition st ag ps closes
              (setQueue (fun _ => []) (setQueue (fun _ => [TEmit s]) w)))
    as (w3 & E3 & Hp3 & Ht3 & Hq3 & st3 & Hs3 & He3); try done.
  cbn zeta in *. wsimpl.
  erewrite drain_cons; [|exact Hq|eapply event_tick_none; [lk|by rewrite He]].
  erewrite drain_cons; [|reflexivity|exact E3].
  destruct (everyOutcome condition (_buffer st)) eqn:Ho.
  - rewrite drain_nil by done. by exists w3.
  - erewrite drain_cons; [|exact Hq3|eapply event_tick_none; [exact Hs3|by rewrite He3, He]].
    rewrite drain_nil by done. eexists. split; [reflexivity|]. done.
  - erewrite drain_cons; [|exact Hq3|eapply event_tick_none; [exact Hs3|by rewrite He3, He]].
    rewrite drain_nil by done. eexists. split; [reflexivity|]. done.
Qed.

Lemma every_scenario_outcome w ps (closes : bool) condition :
  queue w = [] ->
  let ms := List.map messageOf ps ++ (if closes then [Done] else []) in
  exists w',
    everyScenario ps closes condition w = Ok (nextAggregation w) w' /\
    promiseOf (nextAggregation w) w' = everyOutcome condition ms /\
    trace w' = trace w ++
               settlingEvents (nextAggregation w) (nextSubscription w)
                              (everyOutcome condition ms) /\
    queue w' = [].
Proof.
  intros Hq ms. unfold everyScenario. step0 allocStream_ok.
  erewrite bind_ok; cycle 1.
  { eapply publishes_buffered; [lk|done..]. }
  cbn [newStream _buffer app withBuffer _subscription _isPaused _isClosed _eventCallbacks class].
  set (s := nextStream w).
  set (st1 := mkStream None ms false closes ∅ ClsStream).
  erewrite (bind_ok (when closes (close s)) _ _ tt
              (setStreams (fun m => <[s := st1]> m) (storeStream s (newStream ClsStream) w)));
    cycle 1.
  { subst st1 ms. destruct closes; cbn [when].
    - erewrite close_base; [|lk|done]. erewrite Stream_close_ok by lk.
      cbn [willEmit withBuffer withClosed newStream _isPaused _subscription _buffer
           _isClosed _eventCallbacks class].
      f_equal. apply world_eq; wsimpl; try reflexivity. rewrite !insert_insert_eq.
      reflexivity.
    - unfold ret. f_equal. apply world_eq; wsimpl; try reflexivity.
      rewrite !insert_insert_eq. by rewrite app_nil_r. }
  cbn beta. unfold Stream_every.
  erewrite bind_ok by (eapply aggregate_base; [lk|done..]).
  cbn zeta. wsimpl.
  set (a := nextAggregation w). set (x := nextSubscription w).
  set (ag := withAggSub (Some x) (mkAggregation (AggEvery condition) None Pending false None [])).
  match goal with |- context [bind (drain 3) _ ?W] =>
    destruct (every_drain s x a condition (withSubscription (Some x) st1) ag ps closes W)
      as (w' & E & Hp & Ht & Hq'); [reflexivity|reflexivity|reflexivity|reflexivity
        |reflexivity|reflexivity|lk|lk|lk|reflexivity|reflexivity| |]
  end.
  { wsimpl. by rewrite Hq. }
  step0 E. exists w'. split; [reflexivity|]. split; [exact Hp|]. split; [exact Ht|exact Hq'].
Qed.

Lemma everyOutcome_holds condition pre rest :
  forallb (holds condition) pre = true ->
  everyOutcome condition (List.map messageOf pre ++ rest) = everyOutcome condition rest.
Proof.
  induction pre as [|[d|e] pre IH]; cbn [forallb holds List.map app messageOf everyOutcome];
    [done| |done].
  destruct (condition d) as [[|]|]; [|done..]. intros H. by apply IH.
Qed.

(** C6, as the code has it: [every] resolves with true when Done arrives
    after values that all satisfy the condition; at the first value on which
    the condition returns false or throws it cancels its subscription and
    then REJECTS the promise with false; at the first error of the stream it
    cancels and then rejects with that error.  Nothing that follows in the
    stream is looked at. *)
Theorem every_resolves_true_or_rejects
    (w : World) (pre post : list Publication) (closes : bool)
    (condition : Z -> Outcome bool) :
  queue w = [] ->
  forallb (holds condition) pre = true ->
  let a := nextAggregation w in
  let x := nextSubscription w in
  (exists w',
     everyScenario pre true condition w = Ok a w' /\
     promiseOf a w' = Resolved (VBool true) /\
     trace w' = trace w ++ [EvSettle a (Resolved (VBool true)); EvCancel x]) /\
  (forall d, condition d <> Returns true ->
     exists w',
       everyScenario (pre ++ PubData d :: post) closes condition w = Ok a w' /\
       promiseOf a w' = Rejected (VBool false) /\
       trace w' = trace w ++ [EvCancel x; EvSettle a (Rejected (VBool false))]) /\
  (forall e,
     exists w',
       everyScenario (pre ++ PubError e :: post) closes condition w = Ok a w' /\
       promiseOf a w' = Rejected (errorOf e) /\
       trace w' = trace w ++ [EvCancel x; EvSettle a (Rejected (errorOf e))]).
Proof.
  intros Hq Hpre a x. split; [|split].
  - destruct (every_scenario_outcome w pre true condition Hq) as (w' & E & Hp & Ht & _).
    cbn zeta in *. rewrite everyOutcome_holds in Hp, Ht by done. by exists w'.
  - intros d Hd.
    destruct (every_scenario_outcome w (pre ++ PubData d :: post) closes condition Hq)
      as (w' & E & Hp & Ht & _).
    cbn zeta in *. rewrite map_app, <- app_assoc in Hp, Ht.
    rewrite everyOutcome_holds in Hp, Ht by done.
    cbn [List.map messageOf app everyOutcome] in Hp, Ht.
    assert (Ho : match condition d with
                 | Returns true =>
                     everyOutcome condition
                       (List.map messageOf post ++ (if closes then [Done] else []))
                 | _ => Rejected (VBool false)
                 end = Rejected (VBool false)).
    { destruct (condition d) as [[|]|]; done. }
    rewrite Ho in Hp, Ht. by exists w'.
  - intros e.
    destruct (every_scenario_outcome w (pre ++ PubError e :: post) closes condition Hq)
      as (w' & E & Hp & Ht & _).
    cbn zeta in *. rewrite map_app, <- app_assoc in Hp, Ht.
    rewrite everyOutcome_holds in Hp, Ht by done. by exists w'.
Qed.

Lemma every_resolves_true_or_rejects_witness :
  (exists w',
     everyScenario [PubData 2; PubData 4] true
                   (fun d => Returns (Z.even d)) emptyWorld = Ok 0%nat w' /\
     promiseOf 0 w' = Resolved (VBool true)) /\
  (exists w',
     everyScenario [PubData 2; PubData 4; PubData 5; PubData 6] true
                   (fun d => Returns (Z.even d)) emptyWorld = Ok 0%nat w' /\
     promiseOf 0 w' = Rejected (VBool false) /\
     trace w' = [EvCancel 0; EvSettle 0 (Rejected (VBool false))]).
Proof.
  destruct (every_resolves_true_or_rejects emptyWorld [PubData 2; PubData 4] [PubData 6] true
              (fun d => Returns (Z.even d)) eq_refl eq_refl) as (H1 & H2 & _).
  split.
  - destruct H1 as (w' & E & Hp & _). by exists w'.
  - destruct (H2 5) as (w' & E & Hp & Ht); [discriminate|]. by exists w'.
Defined.

(** The claim as stated fails: on a value for which the condition is false
    the promise is rejected with false, not resolved with it. *)
Lemma every_rejects_with_false :
  exists w',
    everyScenario [PubData 1] true (fun d => Returns (Z.even d)) emptyWorld = Ok 0%nat w' /\
    promiseOf 0 w' = Rejected (VBool false) /\
    promiseOf 0 w' <> Resolved (VBool false).
Proof.
  eexists. split; [vm_compute; reflexivity|]. split; [reflexivity|discriminate].
Qed.

(** ** Rules for invariants *)

Section Keeps.
Variable J : World -> Prop.

Lemma keeps_ret {A} (a : A) (Q : A -> Prop) : Q a -> keeps J (ret a) Q.
Proof. intros Ha w Hw. by split. Qed.

Lemma keeps_return {A} (a : A) : keeps J (ret a) anything.
Proof. by apply keeps_ret. Qed.

Lemma keeps_throw {A} e (Q : A -> Prop) : keeps J (throw e) Q.
Proof. intros w Hw. exact Hw. Qed.

Lemma keeps_bind {A B} (m : Op A) (k : A -> Op B) (Q : A -> Prop) (R : B -> Prop) :
  keeps J m Q -> (forall a, Q a -> keeps J (k a) R) -> keeps J (bind m k) R.
Proof.
  intros Hm Hk w Hw. specialize (Hm w Hw). unfold bind.
  destruct (m w) as [a w'|e w']; [|exact Hm].
  destruct Hm as [Hw' Ha]. exact (Hk a Ha w' Hw').
Qed.

Lemma keeps_tryCatch {A} (m : Op A) (h : Value -> Op A) (Q : A -> Prop) :
  keeps J m Q -> (forall e, keeps J (h e) Q) -> keeps J (tryCatch m h) Q.
Proof.
  intros Hm Hh w Hw. specialize (Hm w Hw). unfold tryCatch.
  destruct (m w) as [a w'|e w']; [exact Hm|]. exact (Hh e w' Hm).
Qed.

Lemma keeps_weaken {A} (m : Op A) (Q Q' : A -> Prop) :
  keeps J m Q -> (forall a, Q a -> Q' a) -> keeps J m Q'.
Proof.
  intros Hm HQ w Hw. specialize (Hm w Hw).
  destruct (m w); [|exact Hm]. destruct Hm. split; auto.
Qed.

Lemma keeps_anything {A} (m : Op A) (Q : A -> Prop) :
  keeps J m Q -> keeps J m anything.
Proof. intros Hm. eapply keeps_weaken; [exact Hm|done]. Qed.

Lemma keeps_seq {A B} (m : Op A) (k : Op B) (Q : A -> Prop) (R : B -> Prop) :
  keeps J m Q -> keeps J k R -> keeps J (bind m (fun _ => k)) R.
Proof. intros Hm Hk. eapply keeps_bind; [exact Hm|]. intros _ _. exact Hk. Qed.

Lemma keeps_forEach {A} (f : A -> Op unit) (l : list A) :
  (forall x, x ∈ l -> keeps J (f x) anything) -> keeps J (forEach f l) anything.
Proof.
  induction l as [|x l IH]; intros Hf; simpl.
  - by apply keeps_ret.
  - eapply keeps_seq; [apply Hf; left|]. apply IH. intros y Hy. apply Hf. by right.
Qed.

Lemma keeps_when (b : bool) (m : Op unit) :
  (b = true -> keeps J m anything) -> keeps J (when b m) anything.
Proof. destruct b; simpl; intros H; [by apply H|apply keeps_return]. Qed.

Lemma keeps_call {A} (o : Outcome A) : keeps J (call o) anything.
Proof. destruct o; simpl; [apply keeps_return|apply keeps_throw]. Qed.

Lemma keeps_get : keeps J get J.
Proof. intros w Hw. by split. Qed.

Lemma keeps_modify f : (forall w, J w -> J (f w)) -> keeps J (modify f) anything.
Proof. intros Hf w Hw. split; [by apply Hf|done]. Qed.

Lemma keeps_world {A} (m : Op A) (Q : A -> Prop) w :
  keeps J m Q -> J w -> J (worldOf (m w)).
Proof.
  intros Hm Hw. specialize (Hm w Hw). destruct (m w); simpl; [by destruct Hm|done].
Qed.

End Keeps.

(** ** Stream.fromPromises on an empty iterable *)

Ltac idle_split w :=
  match goal with
  | H : sourceIdle w |- _ =>
      destruct H as ((?st & ?HS & ?Hst) & ?HC & ?HR & ?HX & ?HA & ?HQ & ?HT)
  end.

Ltac idle_fields :=
  split; [|split; [|split; [|split; [|split; [|split]]]]]; wsimpl; try assumption.

Lemma idle_theStream s :
  keeps sourceIdle (theStream s) (fun st => s = 0%nat /\ idleStream st).
Proof.
  intros w HJ. pose proof HJ as HJ'. idle_split w. unfold theStream. rewrite HS.
  destruct (decide (s = 0%nat)) as [->|Hne].
  - rewrite lookup_singleton_eq. done.
  - rewrite lookup_singleton_ne by done. done.
Qed.

Lemma idle_theSubscription x :
  keeps sourceIdle (theSubscription x)
        (fun sub => sub_stream sub = 0%nat /\ sub_buffer sub = []).
Proof.
  intros w HJ. pose proof HJ as HJ'. idle_split w. unfold theSubscription.
  destruct (subscriptions w !! x) as [sub|] eqn:E; [|done].
  split; [done|]. exact (HX x sub E).
Qed.

Lemma idle_theController :
  keeps sourceIdle (theController 0)
        (fun ctl => forall name, controllerHandler ctl name = None).
Proof.
  intros w HJ. pose proof HJ as HJ'. idle_split w. unfold theController.
  rewrite HC. split; [done|]. intros name. unfold controllerHandler. simpl.
  repeat case_bool_decide; reflexivity.
Qed.

Lemma idle_theSource :
  keeps sourceIdle (theSource 0) (fun src => ps_reactions src = []).
Proof.
  intros w HJ. pose proof HJ as HJ'. idle_split w. unfold theSource.
  rewrite HR. done.
Qed.

Lemma idle_theAggregation a :
  keeps sourceIdle (theAggregation a) anything.
Proof.
  intros w HJ. unfold theAggregation. by destruct (aggregations w !! a).
Qed.

Lemma idle_updStream s f :
  (forall st, idleStream st -> idleStream (f st)) ->
  keeps sourceIdle (updStream s f) anything.
Proof.
  intros Hf. apply keeps_modify. intros w HJ. idle_split w.
  idle_fields. rewrite HS.
  destruct (decide (s = 0%nat)) as [->|Hne].
  - rewrite lookup_singleton_eq. exists (f st). split; [|by apply Hf].
    by rewrite insert_singleton_eq.
  - rewrite lookup_singleton_ne by done. by exists st.
Qed.

Lemma idle_updSubscription x f :
  (forall sub, sub_stream (f sub) = sub_stream sub) ->
  (forall sub, sub_buffer sub = [] -> sub_buffer (f sub) = []) ->
  keeps sourceIdle (updSubscription x f) anything.
Proof.
  intros Hf1 Hf2. apply keeps_modify. intros w HJ. idle_split w.
  idle_fields; [by exists st|].
  destruct (subscriptions w !! x) as [sub|] eqn:E; [|done].
  apply map_Forall_insert_2; [|done]. destruct (HX x sub E) as [H1 H2].
  split; [by rewrite Hf1|by apply Hf2].
Qed.

Lemma idle_updAggregation a f :
  (forall ag, unresolved (agg_promise ag) = true -> unresolved (agg_promise (f ag)) = true) ->
  keeps sourceIdle (updAggregation a f) anything.
Proof.
  intros Hf. apply keeps_modify. intros w HJ. idle_split w.
  idle_fields; [by exists st|].
  destruct (aggregations w !! a) as [ag|] eqn:E; [|done].
  apply map_Forall_insert_2; [|done]. apply Hf. exact (HA a ag E).
Qed.

Lemma idle_record e : idleEvent e = true -> keeps sourceIdle (record e) anything.
Proof.
  intros He. apply keeps_modify. intros w HJ. idle_split w.
  idle_fields; [by exists st|].
  rewrite forallb_app, HT. simpl. by rewrite He.
Qed.

Lemma idle_nextTick t : idleTask t = true -> keeps sourceIdle (nextTick t) anything.
Proof.
  intros He. apply keeps_modify. intros w HJ. idle_split w.
  idle_fields; [by exists st|].
  rewrite forallb_app, HQ. simpl. by rewrite He.
Qed.

Lemma idle_Stream_emit s : keeps sourceIdle (Stream_emit s) anything.
Proof.
  unfold Stream_emit. eapply keeps_bind; [apply idle_theStream|].
  intros st [-> _]. destruct (_isPaused st), (_subscription st);
    first [apply keeps_return | by apply idle_nextTick].
Qed.

Lemma idle_cancel s x : keeps sourceIdle (cancel s x) anything.
Proof.
  unfold cancel. eapply keeps_bind; [apply idle_theStream|].
  intros st (-> & _ & _ & -> & _). unfold Stream_cancel.
  eapply keeps_seq; [by apply idle_record|].
  eapply keeps_seq; [apply idle_updStream|by apply idle_nextTick].
  by intros [] ?.
Qed.

Lemma idle_sub_cancel x : keeps sourceIdle (sub_cancel x) anything.
Proof.
  unfold sub_cancel. eapply keeps_bind; [apply idle_theSubscription|].
  intros sub _. apply idle_cancel.
Qed.

Lemma idle_pause s : keeps sourceIdle (pause s) anything.
Proof.
  unfold pause. eapply keeps_bind; [apply idle_theStream|].
  intros st (-> & _ & _ & -> & _). unfold Stream_pause.
  eapply keeps_bind; [apply idle_theStream|]. intros st' _.
  destruct (_isPaused st'); [apply keeps_return|].
  eapply keeps_seq; [apply idle_updStream|by apply idle_nextTick].
  by intros [] ?.
Qed.

Lemma idle_resume s : keeps sourceIdle (resume s) anything.
Proof.
  unfold resume. eapply keeps_bind; [apply idle_theStream|].
  intros st (-> & _ & _ & -> & _). unfold Stream_resume.
  eapply keeps_bind; [apply idle_theStream|]. intros st' _.
  destruct (_isPaused st'); [|apply keeps_return].
  eapply keeps_seq; [apply idle_updStream; by intros [] ?|].
  eapply keeps_seq; [by apply idle_nextTick|apply idle_Stream_emit].
Qed.

Lemma idle_sub_emit x : keeps sourceIdle (sub_emit x) anything.
Proof.
  unfold sub_emit. eapply keeps_bind; [apply idle_theSubscription|].
  intros sub [_ Hb]. destruct (sub_isPaused sub); [apply keeps_return|].
  rewrite Hb. simpl. eapply keeps_seq; [apply keeps_return|].
  apply idle_updSubscription; by intros [].
Qed.

Lemma idle_call_onPause c : keeps sourceIdle (call_onPause c) anything.
Proof. destruct c; simpl; first [by apply idle_record | apply keeps_return]. Qed.

Lemma idle_call_onResume c : keeps sourceIdle (call_onResume c) anything.
Proof. destruct c; simpl; first [by apply idle_record | apply keeps_return]. Qed.

Lemma idle_sub_pause x : keeps sourceIdle (sub_pause x) anything.
Proof.
  unfold sub_pause. eapply keeps_bind; [apply idle_theSubscription|].
  intros sub _. destruct (sub_isPaused sub); [apply keeps_return|].
  eapply keeps_seq; [apply idle_updSubscription; by intros []|].
  eapply keeps_seq; [apply keeps_when; intros _; apply idle_call_onPause|].
  apply idle_pause.
Qed.

Lemma idle_sub_resume x : keeps sourceIdle (sub_resume x) anything.
Proof.
  unfold sub_resume. eapply keeps_bind; [apply idle_theSubscription|].
  intros sub _. destruct (sub_isPaused sub); [|apply keeps_return].
  eapply keeps_seq; [apply idle_updSubscription; by intros []|].
  eapply keeps_seq; [apply keeps_when; intros _; apply idle_call_onResume|].
  eapply keeps_seq; [apply idle_resume|apply idle_sub_emit].
Qed.

Lemma idle_newSubscription c o :
  keeps sourceIdle (newSubscription 0 c o) anything.
Proof.
  unfold newSubscription. eapply keeps_bind; [apply keeps_get|]. intros w0 _.
  eapply keeps_seq; [|apply keeps_return].
  apply keeps_modify. intros w HJ. idle_split w.
  idle_fields; [by exists st|].
  by apply map_Forall_insert_2.
Qed.

Lemma idle_listenAt depth s c o : keeps sourceIdle (listenAt depth s c o) anything.
Proof.
  destruct depth; simpl; [apply keeps_throw|].
  eapply keeps_bind; [apply idle_theStream|].
  intros st (-> & _ & _ & -> & _). unfold Stream_listen.
  eapply keeps_bind; [apply idle_theStream|]. intros st' _.
  destruct (_subscription st'); [apply keeps_throw|].
  eapply keeps_bind; [apply idle_newSubscription|]. intros x _.
  eapply keeps_seq; [apply idle_updStream; by intros [] ?|].
  eapply keeps_seq; [by apply idle_nextTick|].
  eapply keeps_seq; [apply idle_Stream_emit|apply keeps_return].
Qed.

Lemma idle_reject a e : keeps sourceIdle (reject a e) anything.
Proof.
  unfold reject, settle. eapply keeps_bind; [apply idle_theAggregation|].
  intros ag _. destruct (agg_promise ag); try apply keeps_return.
  eapply keeps_seq; [apply idle_updAggregation; by intros []|].
  by apply idle_record.
Qed.

Lemma idle_aggregate s k initialValue :
  keeps sourceIdle (aggregate s k initialValue) anything.
Proof.
  unfold aggregate. eapply keeps_bind; [apply keeps_get|]. intros w0 _. cbv zeta.
  eapply keeps_seq.
  { apply keeps_modify. intros w HJ. idle_split w.
    idle_fields; [by exists st|].
    by apply map_Forall_insert_2. }
  eapply keeps_seq; [|apply keeps_return].
  apply keeps_tryCatch; [|intros e; apply idle_reject].
  eapply keeps_bind; [apply idle_listenAt|]. intros x _.
  apply idle_updAggregation. by intros [].
Qed.

Lemma idle_callCallback c :
  hookOfController c = true -> keeps sourceIdle (callCallback c) anything.
Proof.
  destruct c as [|c n]; [done|]. simpl. intros ->%bool_decide_eq_true_1. eapply keeps_bind; [apply idle_theController|].
  intros ctl Hctl. rewrite Hctl. apply keeps_return.
Qed.

Lemma idle_runTask t : idleTask t = true -> keeps sourceIdle (runTask t) anything.
Proof.
  destruct t as [s|s name|s m]; simpl; intros Ht; [| |done];
    apply bool_decide_eq_true_1 in Ht; subst s.
  - unfold Stream_emit_tick. eapply keeps_bind; [apply idle_theStream|].
    intros st (_ & Hb & _). rewrite Hb. simpl.
    eapply keeps_seq; [apply keeps_return|].
    eapply keeps_seq; [apply idle_updStream; by intros [] (? & ? & ? & ?)|].
    eapply keeps_bind; [apply idle_theStream|].
    intros st' (_ & _ & Hc & _). rewrite Hc. apply keeps_return.
  - unfold Stream_callEventListeners_tick. eapply keeps_bind; [apply idle_theStream|].
    intros st (_ & _ & _ & _ & Hh).
    destruct (_eventCallbacks st !! name) as [cbs|] eqn:E; [|apply keeps_return].
    apply keeps_forEach. intros c Hc. apply idle_callCallback.
    specialize (Hh name cbs E). rewrite forallb_forall in Hh.
    apply Hh. by apply list_elem_of_In.
Qed.

Lemma idle_tick : keeps sourceIdle tick anything.
Proof.
  unfold tick. eapply keeps_bind; [apply keeps_get|]. intros w0 Hw0.
  destruct (queue w0) as [|t q] eqn:E; [apply keeps_return|].
  assert (Ht : idleTask t = true).
  { destruct Hw0 as (_ & _ & _ & _ & _ & HQ & _). rewrite E in HQ. simpl in HQ.
    by apply andb_true_iff in HQ as [? _]. }
  assert (Hq : forallb idleTask q = true).
  { destruct Hw0 as (_ & _ & _ & _ & _ & HQ & _). rewrite E in HQ. simpl in HQ.
    by apply andb_true_iff in HQ as [_ ?]. }
  eapply keeps_seq; [|eapply keeps_seq; [by apply idle_runTask|apply keeps_return]].
  apply keeps_modify. intros w HJ. idle_split w. idle_fields. by exists st.
Qed.

Lemma idle_runReaction i : keeps sourceIdle (runReaction 0 i) anything.
Proof.
  unfold runReaction. eapply keeps_bind; [apply idle_theSource|].
  intros src Hsrc. rewrite Hsrc. simpl. apply keeps_return.
Qed.

Lemma idle_consume c : keeps sourceIdle (consume 0 0 c) anything.
Proof.
  destruct c; simpl.
  - eapply keeps_seq; [apply idle_listenAt|apply keeps_return].
  - eapply keeps_seq; [apply idle_aggregate|apply keeps_return].
  - apply idle_sub_pause.
  - apply idle_sub_resume.
  - apply idle_sub_cancel.
  - eapply keeps_seq; [apply idle_tick|apply keeps_return].
  - apply idle_runReaction.
Qed.

Lemma idle_consumeAll cs w : sourceIdle w -> sourceIdle (consumeAll 0 0 cs w).
Proof.
  revert w. induction cs as [|c cs IH]; intros w Hw; simpl; [done|].
  apply IH. eapply keeps_world; [apply idle_consume|done].
Qed.

Lemma fromPromises_nil :
  exists w, Stream_fromPromises [] emptyWorld = Ok (0%nat, 0%nat) w /\ sourceIdle w.
Proof.
  eexists. split; [vm_compute; reflexivity|].
  idle_fields; try done.
  - eexists. split; [reflexivity|]. split; [done|]. split; [done|]. split; [done|].
    simpl. apply (bool_decide_unpack _). vm_compute. exact I.
Qed.


(** C10: for the empty iterable of promises, fromPromises returns a stream
    that is never closed.  The count is zero and no reaction is registered;
    whatever the holder of the stream does with it (listen, any terminal
    aggregation, pause, resume, cancel), in any order and between any runs
    of queued closures and promise jobs, the stream stays open, no Done
    message is in its buffer or in the buffer of a subscription, no
    observer's onDone is called, and no promise of an aggregation (toArray
    among them) is resolved. *)
Theorem fromPromises_of_nothing_never_closes :
  exists r s w0,
    Stream_fromPromises [] emptyWorld = Ok (r, s) w0 /\
    forall cs : list ConsumerCall,
      let w := consumeAll r s cs w0 in
      (exists src, sources w !! r = Some src /\ ps_count src = 0 /\ ps_reactions src = []) /\
      (exists st, streams w !! s = Some st /\ _isClosed st = false /\ Done ∉ _buffer st) /\
      (forall x sub, subscriptions w !! x = Some sub -> Done ∉ sub_buffer sub) /\
      (forall l, EvDone l ∉ trace w) /\
      (forall a v, promiseOf a w <> Resolved v).
Proof.
  destruct fromPromises_nil as (w0 & Hrun & Hidle).
  exists 0%nat, 0%nat, w0. split; [exact Hrun|]. intros cs w.
  pose proof (idle_consumeAll cs w0 Hidle) as HJ. fold w in HJ.
  destruct HJ as ((st & HS & Hb & Hc & _) & _ & HR & HX & HA & _ & HT).
  split; [|split; [|split; [|split]]].
  - eexists. split; [exact HR|]. done.
  - exists st. rewrite HS, lookup_singleton_eq, Hb. split; [done|]. split; [done|].
    apply not_elem_of_nil.
  - intros x sub E. destruct (HX x sub E) as [_ ->]. apply not_elem_of_nil.
  - intros l Hin. rewrite forallb_forall in HT.
    apply list_elem_of_In, HT in Hin. done.
  - intros a v. unfold promiseOf.
    destruct (aggregations w !! a) as [ag|] eqn:E; [|done].
    specialize (HA a ag E). simpl in HA. intros Hp. by rewrite Hp in HA.
Qed.

(** ** Closed streams *)

Lemma doneLast_all b : forallb isDone b = true -> doneLast b = true.
Proof.
  induction b as [|m b IH]; [done|]. simpl. intros [Hm Hb]%andb_true_iff.
  destruct m; try done.
Qed.

Lemma doneLast_snoc_done b : doneLast b = true -> doneLast (b ++ [Done]) = true.
Proof.
  induction b as [|m b IH]; [done|]. simpl.
  destruct m; try exact IH. intros Hb. by rewrite forallb_app, Hb.
Qed.

Lemma doneLast_snoc b m :
  existsb isDone b = false -> doneLast (b ++ [m]) = true.
Proof.
  induction b as [|m' b IH]; simpl.
  - by destruct m.
  - intros [Hm Hb]%orb_false_iff. destruct m'; try done; by apply IH.
Qed.

Lemma doneLast_open b : existsb isDone b = false -> doneLast b = true.
Proof.
  induction b as [|m' b IH]; simpl; [done|].
  intros [Hm Hb]%orb_false_iff. destruct m'; try done; by apply IH.
Qed.

Create HintDb closing.

Lemma closing_frame w0 w w' :
  streams w' = streams w -> nextStream w' = nextStream w ->
  closing w0 w -> closing w0 w'.
Proof. unfold closing. intros -> ->. done. Qed.

Lemma closing_update w0 w s st st' :
  streams w !! s = Some st ->
  bufferOk st' -> isFiltering st' = isFiltering st ->
  (_isClosed st = true -> _isClosed st' = true) ->
  closing w0 w -> closing w0 (setStreams (fun m => <[s := st']> m) w).
Proof.
  intros Hs Hb Hf Hc [H1 H2]. split; wsimpl.
  - intros s1 st1. destruct (decide (s1 = s)) as [->|Hne].
    + rewrite lookup_insert_eq. intros [= <-]. split; [|done]. by apply (H1 s st).
    + rewrite lookup_insert_ne by done. apply H1.
  - intros s1 st1 E. destruct (H2 s1 st1 E) as (st2 & E2 & Hf2 & Hc2).
    destruct (decide (s1 = s)) as [->|Hne].
    + rewrite lookup_insert_eq. exists st'. split; [done|].
      rewrite Hs in E2. injection E2 as <-. split; [congruence|auto].
    + rewrite lookup_insert_ne by done. by exists st2.
Qed.

Lemma closing_alloc w0 w c :
  closing w0 w -> closing w0 (storeStream (nextStream w) (newStream c) w).
Proof.
  intros [H1 H2]. split; wsimpl.
  - intros s st. destruct (decide (s = nextStream w)) as [->|Hne].
    + rewrite lookup_insert_eq. intros [= <-]. split; [lia|]. by split.
    + rewrite lookup_insert_ne by done. intros E. destruct (H1 s st E). split; [lia|done].
  - intros s st E. destruct (H2 s st E) as (st2 & E2 & Hf2 & Hc2).
    rewrite lookup_insert_ne; [by exists st2|]. apply H1 in E2 as [? _]. lia.
Qed.

Lemma closing_modify w0 f :
  (forall w, streams (f w) = streams w) -> (forall w, nextStream (f w) = nextStream w) ->
  keeps (closing w0) (modify f) anything.
Proof. intros H1 H2. apply keeps_modify. intros w. by apply closing_frame. Qed.

(** An update that does not depend on what the stream holds. *)
Lemma closing_updStream w0 s f :
  (forall st, bufferOk st -> bufferOk (f st)) ->
  (forall st, isFiltering (f st) = isFiltering st) ->
  (forall st, _isClosed st = true -> _isClosed (f st) = true) ->
  keeps (closing w0) (updStream s f) anything.
Proof.
  intros Hb Hf Hc. apply keeps_modify. intros w HJ.
  assert (E : setStreams (fun m => match m !! s with
                                   | Some st => <[s:=f st]> m
                                   | None => m
                                   end) w =
              match streams w !! s with
              | Some st => setStreams (fun m => <[s := f st]> m) w
              | None => w
              end).
  { unfold setStreams. destruct (streams w !! s); [done|by destruct w]. }
  rewrite E. destruct (streams w !! s) as [st|] eqn:Hs; [|done].
  apply (closing_update w0 w s st); auto. apply Hb. by apply HJ in Hs as [_ ?].
Qed.

Lemma closing_theStream w0 s : keeps (closing w0) (theStream s) anything.
Proof. intros w HJ. unfold theStream. by destruct (streams w !! s). Qed.
Lemma closing_theSubscription w0 s : keeps (closing w0) (theSubscription s) anything.
Proof. intros w HJ. unfold theSubscription. by destruct (subscriptions w !! s). Qed.
Lemma closing_theAggregation w0 s : keeps (closing w0) (theAggregation s) anything.
Proof. intros w HJ. unfold theAggregation. by destruct (aggregations w !! s). Qed.
Lemma closing_theController w0 s : keeps (closing w0) (theController s) anything.
Proof. intros w HJ. unfold theController. by destruct (controllers w !! s). Qed.
Lemma closing_theSource w0 s : keeps (closing w0) (theSource s) anything.
Proof. intros w HJ. unfold theSource. by destruct (sources w !! s). Qed.

Lemma closing_updSubscription w0 x f : keeps (closing w0) (updSubscription x f) anything.
Proof. by apply closing_modify. Qed.
Lemma closing_updAggregation w0 x f : keeps (closing w0) (updAggregation x f) anything.
Proof. by apply closing_modify. Qed.
Lemma closing_updSource w0 x f : keeps (closing w0) (updSource x f) anything.
Proof. by apply closing_modify. Qed.
Lemma closing_record w0 e : keeps (closing w0) (record e) anything.
Proof. by apply closing_modify. Qed.
Lemma closing_nextTick w0 t : keeps (closing w0) (nextTick t) anything.
Proof. by apply closing_modify. Qed.

#[local] Hint Resolve closing_theStream closing_theSubscription closing_theAggregation
  closing_theController closing_theSource closing_updSubscription
  closing_updAggregation closing_updSource closing_record closing_nextTick : closing.

(** One step of a proof that an operation keeps the invariant: by the
    shape of the operation. *)
Ltac keep_step :=
  lazymatch goal with
  | |- keeps _ (ret _) _ => apply keeps_return
  | |- keeps _ (throw _) _ => apply keeps_throw
  | |- keeps _ (call _) _ => apply keeps_call
  | |- keeps _ (bind _ _) _ => eapply keeps_bind; [|intros ? _]
  | |- keeps _ (tryCatch _ _) _ => apply keeps_tryCatch; [|intros ?]
  | |- keeps _ (when _ _) _ => apply keeps_when; intros _
  | |- keeps _ (forEach _ _) _ => apply keeps_forEach; intros ? _
  | |- keeps _ get _ => eapply keeps_anything; apply keeps_get
  | |- keeps _ (modify _) _ => by apply closing_modify
  | |- keeps _ (updStream _ _) _ =>
      apply closing_updStream;
      [ intros [? ? ? ? ? []] [? ?]; split; cbn in *; first [done | congruence]
      | intros [? ? ? ? ? []]; reflexivity
      | intros [? ? ? ? ? []]; cbn; congruence ]
  | |- keeps _ (match ?x with _ => _ end) _ => destruct x
  | |- _ => solve [eauto with closing]
  end.
Ltac keep := repeat keep_step.

Lemma closing_Stream_emit w0 s : keeps (closing w0) (Stream_emit s) anything.
Proof. unfold Stream_emit. keep. Qed.
#[local] Hint Resolve closing_Stream_emit : closing.

Lemma closing_Stream_callEventListeners w0 s n :
  keeps (closing w0) (Stream_callEventListeners s n) anything.
Proof. unfold Stream_callEventListeners. keep. Qed.
#[local] Hint Resolve closing_Stream_callEventListeners : closing.

Lemma closing_cancel w0 s x : keeps (closing w0) (cancel s x) anything.
Proof. unfold cancel, Stream_cancel, broadcast_cancel. keep. Qed.
#[local] Hint Resolve closing_cancel : closing.

Lemma closing_sub_cancel w0 x : keeps (closing w0) (sub_cancel x) anything.
Proof. unfold sub_cancel. keep. Qed.
#[local] Hint Resolve closing_sub_cancel : closing.

Lemma closing_emitted w0 w s (b : bool) :
  closing w0 w -> closing w0 (if b then setQueue (fun q => q ++ [TEmit s]) w else w).
Proof. intros HJ. destruct b; [|done]. by apply (closing_frame w0 w). Qed.

Lemma closing_Stream_add w0 s d : keeps (closing w0) (Stream_add s d) anything.
Proof.
  intros w HJ. destruct (streams w !! s) as [st|] eqn:E.
  - pose proof (proj1 HJ s st E) as [_ [Hb1 Hb2]]. destruct (_isClosed st) eqn:C.
    + by erewrite Stream_add_closed.
    + erewrite Stream_add_ok by done. cbv zeta. split; [|done].
      apply closing_emitted. apply (closing_update w0 w s st); try done.
      split; cbn; [by apply doneLast_snoc, Hb2|].
      intros _. rewrite existsb_app, Hb2; done.
  - unfold Stream_add, bind, theStream. by rewrite E.
Qed.

Lemma closing_Stream_addError w0 s e : keeps (closing w0) (Stream_addError s e) anything.
Proof.
  intros w HJ. destruct (streams w !! s) as [st|] eqn:E.
  - pose proof (proj1 HJ s st E) as [_ [Hb1 Hb2]]. destruct (_isClosed st) eqn:C.
    + by erewrite Stream_addError_closed.
    + erewrite Stream_addError_ok by done. cbv zeta. split; [|done].
      apply closing_emitted. apply (closing_update w0 w s st); try done.
      split; cbn; [by apply doneLast_snoc, Hb2|].
      intros _. rewrite existsb_app, Hb2; by destruct e.
  - unfold Stream_addError, bind, theStream. by rewrite E.
Qed.

Lemma updStream_absent w s f : streams w !! s = None -> updStream s f w = Ok tt w.
Proof. intros E. unfold updStream, modify, setStreams. rewrite E. by destruct w. Qed.

Lemma closing_Stream_close w0 s : keeps (closing w0) (Stream_close s) anything.
Proof.
  intros w HJ. destruct (streams w !! s) as [st|] eqn:E.
  - pose proof (proj1 HJ s st E) as [_ [Hb1 Hb2]].
    erewrite Stream_close_ok by done. cbv zeta. split; [|done].
    apply closing_emitted. apply (closing_update w0 w s st); try done.
    split; cbn; [by apply doneLast_snoc_done|done].
  - unfold Stream_close.
    rewrite !(bind_ok _ _ _ _ _ (updStream_absent w s _ E)).
    unfold Stream_emit, bind, theStream. by rewrite E.
Qed.
#[local] Hint Resolve closing_Stream_add closing_Stream_addError closing_Stream_close : closing.

Lemma closing_Stream_pause w0 s : keeps (closing w0) (Stream_pause s) anything.
Proof. unfold Stream_pause. keep. Qed.
Lemma closing_Stream_resume w0 s : keeps (closing w0) (Stream_resume s) anything.
Proof. unfold Stream_resume. keep. Qed.
Lemma closing_addEventListener w0 s n c : keeps (closing w0) (addEventListener s n c) anything.
Proof. unfold addEventListener. keep. Qed.
Lemma closing_removeEventListener w0 s n c :
  keeps (closing w0) (removeEventListener s n c) anything.
Proof.
  unfold removeEventListener. apply closing_updStream.
  - intros st Hb. by destruct (_eventCallbacks st !! n).
  - intros st. by destruct (_eventCallbacks st !! n).
  - intros st Hc. by destruct (_eventCallbacks st !! n).
Qed.
#[local] Hint Resolve closing_Stream_pause closing_Stream_resume closing_addEventListener
  closing_removeEventListener : closing.

Lemma closing_broadcast_add w0 s d : keeps (closing w0) (broadcast_add s d) anything.
Proof. unfold broadcast_add. keep. Qed.
Lemma closing_broadcast_addError w0 s d : keeps (closing w0) (broadcast_addError s d) anything.
Proof. unfold broadcast_addError. keep. Qed.
Lemma closing_broadcast_close w0 s : keeps (closing w0) (broadcast_close s) anything.
Proof. unfold broadcast_close. keep. Qed.
Lemma closing_filtering_close w0 s : keeps (closing w0) (filtering_close s) anything.
Proof. unfold filtering_close. keep. Qed.
#[local] Hint Resolve closing_broadcast_add closing_broadcast_addError closing_broadcast_close
  closing_filtering_close : closing.

Lemma closing_add w0 s d : keeps (closing w0) (add s d) anything.
Proof.
  unfold add, mapStream_add, takeStream_add, takeWhileStream_add, skipStream_add,
    skipWhileStream_add, whereStream_add. keep.
Qed.
Lemma closing_addError w0 s d : keeps (closing w0) (addError s d) anything.
Proof. unfold addError. keep. Qed.
Lemma closing_close w0 s : keeps (closing w0) (close s) anything.
Proof. unfold close. keep. Qed.
Lemma closing_pause w0 s : keeps (closing w0) (pause s) anything.
Proof. unfold pause. keep. Qed.
Lemma closing_resume w0 s : keeps (closing w0) (resume s) anything.
Proof. unfold resume. keep. Qed.
#[local] Hint Resolve closing_add closing_addError closing_close closing_pause
  closing_resume : closing.

Lemma closing_settle w0 a p : keeps (closing w0) (settle a p) anything.
Proof. unfold settle. keep. Qed.
#[local] Hint Resolve closing_settle : closing.
Lemma closing_cancelAndFulfill w0 a m :
  keeps (closing w0) m anything -> keeps (closing w0) (cancelAndFulfill a m) anything.
Proof. intros Hm. unfold cancelAndFulfill. keep. Qed.
#[local] Hint Resolve closing_cancelAndFulfill : closing.
Lemma closing_agg_onData w0 a d : keeps (closing w0) (agg_onData a d) anything.
Proof. unfold agg_onData, resolve, reject. keep. Qed.
Lemma closing_agg_onError w0 a d : keeps (closing w0) (agg_onError a d) anything.
Proof. unfold agg_onError, resolve, reject. keep. Qed.
Lemma closing_agg_onDone w0 a : keeps (closing w0) (agg_onDone a) anything.
Proof. unfold agg_onDone, resolve, reject. keep. Qed.
#[local] Hint Resolve closing_agg_onData closing_agg_onError closing_agg_onDone : closing.

Lemma closing_dispatch w0 x m : keeps (closing w0) (dispatch x m) anything.
Proof.
  unfold dispatch, call_onData, call_onError, call_onDone. keep.
Qed.
#[local] Hint Resolve closing_dispatch : closing.
Lemma closing_sub_emit w0 x : keeps (closing w0) (sub_emit x) anything.
Proof. unfold sub_emit. keep. Qed.
#[local] Hint Resolve closing_sub_emit : closing.
Lemma closing_messageHandler w0 x m : keeps (closing w0) (messageHandler x m) anything.
Proof. unfold messageHandler. keep. Qed.
#[local] Hint Resolve closing_messageHandler : closing.
Lemma closing_sub_pause w0 x : keeps (closing w0) (sub_pause x) anything.
Proof. unfold sub_pause, call_onPause. keep. Qed.
Lemma closing_sub_resume w0 x : keeps (closing w0) (sub_resume x) anything.
Proof. unfold sub_resume, call_onResume. keep. Qed.
#[local] Hint Resolve closing_sub_pause closing_sub_resume : closing.

Lemma closing_newSubscription w0 s c o : keeps (closing w0) (newSubscription s c o) anything.
Proof. unfold newSubscription. keep. Qed.
#[local] Hint Resolve closing_newSubscription : closing.
Lemma closing_Stream_listen w0 s c o : keeps (closing w0) (Stream_listen s c o) anything.
Proof. unfold Stream_listen. keep. Qed.
#[local] Hint Resolve closing_Stream_listen : closing.
Lemma closing_listenAt w0 depth s c o : keeps (closing w0) (listenAt depth s c o) anything.
Proof.
  revert s c o. induction depth as [|depth IH]; intros s c o; simpl; keep.
Qed.
#[local] Hint Resolve closing_listenAt : closing.

Lemma closing_allocStream w0 c : keeps (closing w0) (allocStream c) anything.
Proof.
  intros w HJ. unfold allocStream, bind, get, modify, ret. split; [|done].
  by apply closing_alloc.
Qed.
#[local] Hint Resolve closing_allocStream : closing.

Lemma closing_aggregate w0 s k i : keeps (closing w0) (aggregate s k i) anything.
Proof. unfold aggregate, listen, reject. keep. Qed.
#[local] Hint Resolve closing_aggregate : closing.

Lemma closing_runTask w0 t : keeps (closing w0) (runTask t) anything.
Proof.
  unfold runTask, Stream_emit_tick, Stream_callEventListeners_tick, broadcast_fanOut_tick,
    callCallback. keep.
Qed.
#[local] Hint Resolve closing_runTask : closing.
Lemma closing_tick w0 : keeps (closing w0) tick anything.
Proof. unfold tick. keep. Qed.
#[local] Hint Resolve closing_tick : closing.

Lemma closing_newStreamController w0 b h1 h2 h3 h4 :
  keeps (closing w0) (newStreamController b h1 h2 h3 h4) anything.
Proof. unfold newStreamController, Stream_asBroadcastStream. keep. Qed.
#[local] Hint Resolve closing_newStreamController : closing.

Lemma closing_StreamController_close w0 c :
  keeps (closing w0) (StreamController_close c) anything.
Proof. unfold StreamController_close. keep. Qed.
Lemma closing_StreamController_add w0 c d :
  keeps (closing w0) (StreamController_add c d) anything.
Proof. unfold StreamController_add. keep. Qed.
Lemma closing_StreamController_addError w0 c d :
  keeps (closing w0) (StreamController_addError c d) anything.
Proof. unfold StreamController_addError. keep. Qed.
#[local] Hint Resolve closing_StreamController_close closing_StreamController_add
  closing_StreamController_addError : closing.

Lemma closing_countDown w0 r : keeps (closing w0) (fromPromises_countDown r) anything.
Proof. unfold fromPromises_countDown. keep. Qed.
#[local] Hint Resolve closing_countDown : closing.

Lemma closing_runReaction w0 r i : keeps (closing w0) (runReaction r i) anything.
Proof.
  unfold runReaction, fromPromises_onData, fromPromises_onError, StreamController_isClosed.
  keep.
Qed.

Lemma closing_fromPromises w0 ps : keeps (closing w0) (Stream_fromPromises ps) anything.
Proof. unfold Stream_fromPromises, StreamController_stream. keep. Qed.
#[local] Hint Resolve closing_runReaction closing_fromPromises : closing.

Lemma closing_perform w0 c : keeps (closing w0) (perform c) anything.
Proof.
  destruct c; simpl; unfold listen; keep.
  all: destruct d; simpl; unfold Stream_asBroadcastStream, Stream_fromStream, Stream_map,
    Stream_take, Stream_takeWhile, Stream_skip, Stream_skipWhile, Stream_where; keep.
Qed.

Lemma closing_performAll w0 cs w : closing w0 w -> closing w0 (performAll cs w).
Proof.
  revert w. induction cs as [|c cs IH]; intros w Hw; simpl; [done|].
  apply IH. eapply keeps_world; [apply closing_perform|done].
Qed.

Lemma closing_refl w0 w : closing w0 w -> closing w w.
Proof.
  intros [H1 _]. split; [done|]. intros s st E. by exists st.
Qed.

Lemma closing_emptyWorld : closing emptyWorld emptyWorld.
Proof. split; intros s st; simpl; by rewrite lookup_empty. Qed.

Lemma addError_closed w s st e :
  streams w !! s = Some st -> _isClosed st = true ->
  addError s e w = Throw ErrorForAddError w.
Proof.
  intros E C. unfold addError. step theStream_ok.
  destruct (class st); try by eapply Stream_addError_closed.
  unfold broadcast_addError. step theStream_ok. by rewrite C.
Qed.

Lemma add_closed w s st d :
  streams w !! s = Some st -> _isClosed st = true -> isFiltering st = false ->
  add s d w = Throw ErrorForAdd w.
Proof.
  intros E C F. unfold add. step theStream_ok. unfold isFiltering in F.
  destruct (class st); [by eapply Stream_add_closed| |done].
  unfold broadcast_add. step theStream_ok. by rewrite C.
Qed.

Lemma close_appends_done w s st :
  streams w !! s = Some st -> class st = ClsStream ->
  exists w1 st1,
    close s w = Ok tt w1 /\ streams w1 !! s = Some st1 /\
    _isClosed st1 = true /\ _buffer st1 = _buffer st ++ [Done].
Proof.
  intros E C. unfold close. step theStream_ok. rewrite C.
  erewrite Stream_close_ok by done. cbv zeta.
  eexists _, _. split; [reflexivity|].
  split; [destruct (willEmit st); wsimpl; apply lookup_insert_eq|]. done.
Qed.

(** The claim as stated fails: close called twice on a new stream leaves
    two Done messages in its buffer. *)
Lemma close_twice_buffers_done_twice :
  exists st,
    streams closedTwice !! 0%nat = Some st /\
    _isClosed st = true /\ _buffer st = [Done; Done].
Proof. eexists. split; [vm_compute; reflexivity|]. by split. Qed.

(** C2, as the code has it: in every store a program can reach, the buffer of every
    stream holds nothing but Done messages behind a Done message, and none
    while the stream is open; close on a stream of the base class appends
    one more Done, closed or not; and a closed stream stays closed: whatever
    the program does next, addError throws, and add throws on a stream of
    the base or the broadcast class. *)
Theorem closed_stream_refuses_and_done_stays_last
    (cs cs' : list Call) (s : nat) (st : Stream) :
  let w := performAll cs emptyWorld in
  let w' := performAll cs' w in
  streams w !! s = Some st ->
  (doneLast (_buffer st) = true /\
   (_isClosed st = false -> existsb isDone (_buffer st) = false)) /\
  (class st = ClsStream ->
   exists w1 st1,
     close s w = Ok tt w1 /\ streams w1 !! s = Some st1 /\
     _isClosed st1 = true /\ _buffer st1 = _buffer st ++ [Done]) /\
  (_isClosed st = true ->
   exists st',
     streams w' !! s = Some st' /\ _isClosed st' = true /\
     (forall e, addError s e w' = Throw ErrorForAddError w') /\
     (isFiltering st = false -> forall d, add s d w' = Throw ErrorForAdd w')).
Proof.
  intros w w' E.
  assert (HJ : closing emptyWorld w) by apply closing_performAll, closing_emptyWorld.
  assert (HJ' : closing w w') by (apply closing_performAll; by eapply closing_refl).
  split; [exact (proj2 (proj1 HJ s st E))|]. split; [by apply close_appends_done|].
  intros C. destruct (proj2 HJ' s st E) as (st' & E' & F' & C').
  exists st'. split; [done|]. split; [by apply C'|]. split.
  - intros e. eapply addError_closed; [done|by apply C'].
  - intros F d. eapply add_closed; [done|by apply C'|congruence].
Qed.

Lemma closed_stream_refuses_and_done_stays_last_witness :
  let w' := performAll [Add 0 1; Tick] (performAll [NewStream; Close 0] emptyWorld) in
  add 0 5 w' = Throw ErrorForAdd w' /\
  addError 0 (VStr "late") w' = Throw ErrorForAddError w'.
Proof.
  destruct (closed_stream_refuses_and_done_stays_last
              [NewStream; Close 0] [Add 0 1; Tick] 0
              (mkStream None [Done] false true ∅ ClsStream)) as (_ & _ & H).
  - vm_compute. reflexivity.
  - destruct (H eq_refl) as (st' & _ & _ & He & Ha). split; [by apply Ha|apply He].
Defined.

(** ** take *)

Lemma heardBy_app l a b : heardBy l (a ++ b) = heardBy l a ++ heardBy l b.
Proof. apply List.filter_app. Qed.

Lemma heardBy_data l ds : heardBy l (List.map (EvData l) ds) = List.map (EvData l) ds.
Proof.
  induction ds as [|d ds IH]; [done|]. cbn. rewrite bool_decide_eq_true_2 by done.
  f_equal. exact IH.
Qed.

Lemma elem_of_tail {A} (x y : A) q : x ∈ y :: q -> x <> y -> x ∈ q.
Proof. intros [->|H]%elem_of_cons Hne; [done|exact H]. Qed.

Lemma firstn_covered {A} (a b : list A) k :
  (length a <= k)%nat -> firstn k (a ++ b) = a ++ firstn (k - length a) b.
Proof. intros H. rewrite firstn_app. f_equal. by apply firstn_all2. Qed.

Section Take.
Variables (p t xp xt l : nat) (o : StreamListenOptions) (n : Z).
Hypothesis Hpt : p <> t.
Hypothesis Hxx : xp <> xt.

(** The take stream republishes a value and stays below its amount. *)
Lemma take_add_more w k tb d :
  streams w !! t = Some (takeStream p xp xt n (Taking k) tb) -> k + 1 < n ->
  add t d w =
  Ok tt (setStreams (fun m => <[t := takeStream p xp xt n (Taking (k + 1)) (tb ++ [Data d])]> m)
           (setQueue (fun q => q ++ [TEmit t]) w)).
Proof.
  intros HT Hk. unfold add. step theStream_ok. cbn [class takeStream].
  unfold takeStream_add. step theStream_ok. cbn [takenOf class takeStream].
  replace (k <? n) with true by (symmetry; apply Z.ltb_lt; lia). cbn [when].
  rewrite ?bind_assoc. erewrite bind_ok by (eapply Stream_add_ok; [lk|reflexivity]).
  cbv zeta. cbn [willEmit takeStream _isPaused _subscription].
  step updStream_ok. step theStream_ok. cbn [takenOf class takeStream withOp withBuffer withClass _buffer].
  replace (k + 1 >=? n) with false by (symmetry; rewrite Z.geb_leb; apply Z.leb_gt; lia).
  cbn [when]. unfold ret. f_equal. apply world_eq; wsimpl; try reflexivity.
  by rewrite insert_insert_eq.
Qed.

(** The take stream republishes the value that fills its amount: it cancels
    its subscription to the parent and closes. *)
Lemma take_add_last w k pb tb d :
  streams w !! p = Some (parentStream xp (Taking k) pb) ->
  streams w !! t = Some (takeStream p xp xt n (Taking k) tb) ->
  subscriptions w !! xp = Some (mkSubscription p (Forward t) forwardOptions [Data d] false) ->
  k < n -> n <= k + 1 ->
  exists w',
    add t d w = Ok tt w' /\
    streams w' !! p = Some (parentStream xp Closing pb) /\
    streams w' !! t = Some (takeStream p xp xt n Closing (tb ++ [Data d; Done])) /\
    subscriptions w' = subscriptions w /\
    queue w' = queue w ++ [TEmit t; TEvent p "onCancel"; TEmit t] /\
    trace w' = trace w ++ [EvCancel xp].
Proof.
  intros HP HT HX Hk Hn. assert (k + 1 = n) as Hkn by lia.
  eexists. split.
  { unfold add. step theStream_ok. cbn [class takeStream].
    unfold takeStream_add. step theStream_ok. cbn [takenOf class takeStream].
    replace (k <? n) with true by (symmetry; apply Z.ltb_lt; lia). cbn [when].
    rewrite ?bind_assoc. erewrite bind_ok by (eapply Stream_add_ok; [lk|reflexivity]).
    cbv zeta. cbn [willEmit takeStream _isPaused _subscription].
    step updStream_ok. step theStream_ok.
    cbn [takenOf class takeStream withOp withBuffer withClass _buffer].
    replace (k + 1 >=? n) with true by (symmetry; rewrite Z.geb_leb; apply Z.leb_le; lia).
    cbn [when]. unfold filtering_close. step theStream_ok. cbn [class].
    rewrite ?bind_assoc. erewrite bind_ok; cycle 1.
    { eapply sub_cancel_ok; [lk|]. cbn [sub_stream]. lk. }
    cbn beta. cbn [sub_stream]. step updStream_ok.
    eapply Stream_close_ok. lk. }
  cbv zeta. cbn [willEmit withParentSubscription withClass class _isPaused _subscription
                 withBuffer withClosed _buffer afterCancel isBroadcast parentStream
                 takeStream withSubscription _isClosed _eventCallbacks].
  wsimpl. split; [|split; [|split; [|split]]].
  - rewrite lookup_insert_ne by done. rewrite lookup_insert_ne by done.
    rewrite lookup_insert_eq. reflexivity.
  - rewrite lookup_insert_eq. unfold takeStream. rewrite Hkn, <- app_assoc. reflexivity.
  - reflexivity.
  - by rewrite <- !app_assoc.
  - reflexivity.
Qed.

Lemma forward_more w k pb tb d :
  takeShape p t xp xt l o n (Taking k) pb tb w -> k + 1 < n ->
  exists w',
    messageHandler xp (Data d) w = Ok tt w' /\
    takeShape p t xp xt l o n (Taking (k + 1)) pb (tb ++ [Data d]) w' /\
    queue w' = queue w ++ [TEmit t] /\ trace w' = trace w.
Proof.
  intros (HP & HT & HXP & HXT) Hk. eexists. split.
  { eapply messageHandler_run; [exact HXP|reflexivity|reflexivity| |].
    - unfold dispatch. step theSubscription_ok. cbn [sub_consumer withSubBuffer call_onData].
      eapply take_add_more; [|exact Hk]. wsimpl. exact HT.
    - reflexivity. }
  wsimpl. split; [|done]. split; [|split; [|split]]; wsimpl.
  - by rewrite lookup_insert_ne.
  - by rewrite lookup_insert_eq.
  - done.
  - done.
Qed.

Lemma forward_last w k pb tb d :
  takeShape p t xp xt l o n (Taking k) pb tb w -> k < n -> n <= k + 1 ->
  exists w',
    messageHandler xp (Data d) w = Ok tt w' /\
    takeShape p t xp xt l o n Closing pb (tb ++ [Data d; Done]) w' /\
    queue w' = queue w ++ [TEmit t; TEvent p "onCancel"; TEmit t] /\
    trace w' = trace w ++ [EvCancel xp].
Proof.
  intros (HP & HT & HXP & HXT) Hk Hn.
  destruct (take_add_last
              (setSubscriptions
                 (fun s => <[xp := withSubBuffer [Data d]
                                     (mkSubscription p (Forward t) forwardOptions [] false)]> s) w)
              k pb tb d) as (w2 & E & HP2 & HT2 & HX2 & HQ2 & HTr2);
    [done|done|wsimpl; by rewrite lookup_insert_eq|done|done|].
  eexists. split.
  { eapply messageHandler_run; [exact HXP|reflexivity|reflexivity| |].
    - unfold dispatch. step theSubscription_ok. cbn [sub_consumer withSubBuffer call_onData].
      exact E.
    - exact HX2. }
  wsimpl. split; [|done]. by split; [|split; [|split]].
Qed.

(** The loop of the closure of the parent's _emit while the take stream
    listens: the values go to the take stream until it is full. *)
Lemma forward_loop pb ds : forall w k tb,
  takeShape p t xp xt l o n (Taking k) pb tb w -> k < n ->
  exists w' ph' tb' q' evs',
    forEach (fun message =>
               st <- theStream p ;;
               match _subscription st with
               | Some x => messageHandler x message
               | None => ret tt
               end) (List.map Data ds) w = Ok tt w' /\
    takeShape p t xp xt l o n ph' pb tb' w' /\
    queue w' = queue w ++ q' /\ trace w' = trace w ++ evs' /\
    forallb (ofThePair p t) q' = true /\
    ((k + Z.of_nat (length ds) < n /\ ph' = Taking (k + Z.of_nat (length ds)) /\
      tb' = tb ++ List.map Data ds /\ length q' = length ds /\
      (ds <> [] -> TEmit t ∈ q') /\ evs' = []) \/
     (n <= k + Z.of_nat (length ds) /\ ph' = Closing /\
      tb' = tb ++ List.map Data (firstn (Z.to_nat (n - k)) ds) ++ [Done] /\
      (length q' <= length ds + 2)%nat /\ TEmit t ∈ q' /\ evs' = [EvCancel xp])).
Proof.
  assert (Hpair : forall name, ofThePair p t (TEmit t) = true /\
                               ofThePair p t (TEvent p name) = true).
  { intros name. simpl. rewrite (bool_decide_eq_true_2 (t = t)) by done.
    rewrite (bool_decide_eq_true_2 (p = p)) by done. by rewrite orb_true_r. }
  induction ds as [|d ds IH]; intros w k tb Hs Hk.
  - exists w, (Taking k), tb, [], []. cbn [forEach List.map length].
    rewrite Z.add_0_r, !app_nil_r.
    split; [done|]. split; [done|]. split; [done|]. split; [done|]. split; [done|].
    left. split; [lia|]. by repeat split.
  - cbn [forEach List.map]. destruct (Z_lt_dec (k + 1) n) as [Hlt|Hge].
    + destruct (forward_more w k pb tb d Hs Hlt) as (w1 & E1 & Hs1 & HQ1 & HT1).
      destruct (IH w1 (k + 1) (tb ++ [Data d]) Hs1 Hlt)
        as (w' & ph' & tb' & q' & evs' & E & Hs' & HQ & HT & Hq' & Hcase).
      exists w', ph', tb', (TEmit t :: q'), evs'. split; [|split; [|split; [|split; [|split]]]].
      * pose proof Hs as (HP & _). rewrite ?bind_assoc. step theStream_ok.
        cbn [_subscription parentStream]. step0 E1. exact E.
      * exact Hs'.
      * rewrite HQ, HQ1, <- app_assoc. reflexivity.
      * by rewrite HT, HT1.
      * cbn [forallb]. rewrite Hq'. by rewrite (proj1 (Hpair ""%string)).
      * cbn [length]. destruct Hcase as [(H1 & -> & -> & H4 & H5 & ->)|(H1 & -> & -> & H4 & H5 & ->)].
        -- left. split; [lia|]. split; [f_equal; lia|]. split; [by rewrite <- app_assoc|].
           split; [by rewrite H4|]. split; [intros _; left|done].
        -- right. split; [lia|]. split; [done|].
           split.
           { replace (Z.to_nat (n - k)) with (S (Z.to_nat (n - (k + 1)))) by lia.
             cbn [firstn List.map]. by rewrite <- !app_assoc. }
           split; [lia|]. split; [by right|done].
    + destruct (forward_last w k pb tb d Hs Hk) as (w1 & E1 & Hs1 & HQ1 & HT1); [lia|].
      exists w1, Closing, (tb ++ [Data d; Done]), [TEmit t; TEvent p "onCancel"; TEmit t],
        [EvCancel xp]. split; [|split; [|split; [|split; [|split]]]]; try done.
      * pose proof Hs as (HP & _). rewrite ?bind_assoc. step theStream_ok.
        cbn [_subscription parentStream]. step0 E1.
        eapply emit_loop_detached; [apply Hs1|reflexivity].
      * cbn [forallb]. rewrite (proj1 (Hpair ""%string)), (proj2 (Hpair "onCancel"%string)). done.
      * right. cbn [length]. split; [lia|]. split; [done|].
        split.
        { replace (Z.to_nat (n - k)) with 1%nat by lia. reflexivity. }
        split; [lia|]. split; [left|done].
Qed.

Lemma shape_frame ph pb tb w w' :
  streams w' = streams w -> subscriptions w' = subscriptions w ->
  takeShape p t xp xt l o n ph pb tb w -> takeShape p t xp xt l o n ph pb tb w'.
Proof. unfold takeShape. intros -> ->. done. Qed.

Lemma run_event w ph pb tb s name :
  takeShape p t xp xt l o n ph pb tb w -> s = p \/ s = t -> runTask (TEvent s name) w = Ok tt w.
Proof.
  intros (HP & HT & _) [->| ->]; (eapply event_tick_none; [eassumption|apply lookup_empty]).
Qed.

Lemma run_emit_parent_taking w k pb tb :
  takeShape p t xp xt l o n (Taking k) pb tb w -> k < n ->
  exists w' ph' tb' q' evs',
    runTask (TEmit p) w = Ok tt w' /\
    takeShape p t xp xt l o n ph' [] tb' w' /\
    queue w' = queue w ++ q' /\ trace w' = trace w ++ evs' /\
    forallb (ofThePair p t) q' = true /\
    ((k + Z.of_nat (length pb) < n /\ ph' = Taking (k + Z.of_nat (length pb)) /\
      tb' = tb ++ List.map Data pb /\ length q' = length pb /\
      (pb <> [] -> TEmit t ∈ q') /\ evs' = []) \/
     (n <= k + Z.of_nat (length pb) /\ ph' = Closing /\
      tb' = tb ++ List.map Data (firstn (Z.to_nat (n - k)) pb) ++ [Done] /\
      (length q' <= length pb + 2)%nat /\ TEmit t ∈ q' /\ evs' = [EvCancel xp])).
Proof.
  intros Hs Hk.
  destruct (forward_loop pb pb w k tb Hs Hk)
    as (w' & ph' & tb' & q' & evs' & E & (HP' & HT' & HXP' & HXT') & HQ & HT & Hq' & Hcase).
  pose proof Hs as (HP & _).
  eexists _, ph', tb', q', evs'. split.
  { cbn [runTask]. unfold Stream_emit_tick. step theStream_ok.
    cbn [_buffer parentStream]. step0 E. step updStream_ok. step theStream_ok.
    cbn [_isClosed withBuffer parentStream]. reflexivity. }
  wsimpl. split; [|done]. split; [|split; [|split]]; wsimpl; try done.
  - by rewrite lookup_insert_eq.
  - by rewrite lookup_insert_ne.
Qed.

Lemma run_emit_parent_detached w ph pb tb :
  takeShape p t xp xt l o n ph pb tb w -> (forall k, ph <> Taking k) ->
  exists w',
    runTask (TEmit p) w = Ok tt w' /\ takeShape p t xp xt l o n ph [] tb w' /\
    queue w' = queue w /\ trace w' = trace w.
Proof.
  intros (HP & HT & HXP & HXT) Hph.
  assert (Hsub : _subscription (parentStream xp ph pb) = None).
  { destruct ph as [k| |]; [by destruct (Hph k)|done|done]. }
  eexists. split.
  { cbn [runTask]. unfold Stream_emit_tick. step theStream_ok.
    erewrite bind_ok by (eapply emit_loop_detached; [exact HP|exact Hsub]).
    step updStream_ok. step theStream_ok.
    cbn [_isClosed withBuffer parentStream]. reflexivity. }
  wsimpl. split; [|done]. split; [|split; [|split]]; wsimpl; try done.
  - rewrite lookup_insert_eq. by destruct ph.
  - by rewrite lookup_insert_ne.
Qed.

Lemma run_emit_take_taking w k pb td :
  takeShape p t xp xt l o n (Taking k) pb (List.map Data td) w ->
  exists w',
    runTask (TEmit t) w = Ok tt w' /\ takeShape p t xp xt l o n (Taking k) pb [] w' /\
    queue w' = queue w /\ trace w' = trace w ++ List.map (EvData l) td.
Proof.
  intros (HP & HT & HXP & HXT). eexists. split.
  { erewrite Stream_emit_tick_user; [|exact HT|reflexivity|exact HXT|reflexivity| |reflexivity..].
    - cbv zeta. cbn [_isClosed takeStream]. reflexivity.
    - apply benign_data. }
  wsimpl. cbn [_buffer takeStream sub_listenOptions]. rewrite userEvents_data.
  split; [|done]. split; [|split; [|split]]; wsimpl; try done.
  - by rewrite lookup_insert_ne.
  - by rewrite lookup_insert_eq.
Qed.

Lemma run_emit_take_closing w pb td :
  takeShape p t xp xt l o n Closing pb (List.map Data td ++ [Done]) w -> onDone o = true ->
  exists w',
    runTask (TEmit t) w = Ok tt w' /\ takeShape p t xp xt l o n Finished pb [] w' /\
    queue w' = queue w ++ [TEvent t "onCancel"] /\
    trace w' = trace w ++ List.map (EvData l) td ++ [EvDone l; EvCancel xt].
Proof.
  intros (HP & HT & HXP & HXT) Ho. eexists. split.
  { erewrite Stream_emit_tick_user; [|exact HT|reflexivity|exact HXT|reflexivity| |reflexivity..].
    - cbv zeta. cbn [_isClosed takeStream]. eapply cancel_ok. lk.
    - cbn [sub_listenOptions _buffer takeStream]. rewrite forallb_app, benign_data. done. }
  wsimpl. cbn [_buffer takeStream sub_listenOptions].
  rewrite flat_map_app, userEvents_data. cbn [flat_map userEvents]. rewrite Ho.
  split; [|split; [done|]].
  - split; [|split; [|split]]; wsimpl; try done.
    + by rewrite !lookup_insert_ne.
    + by rewrite lookup_insert_eq.
  - by rewrite <- !app_assoc.
Qed.

Lemma run_emit_take_finished w pb tb :
  takeShape p t xp xt l o n Finished pb tb w ->
  exists w',
    runTask (TEmit t) w = Ok tt w' /\ takeShape p t xp xt l o n Finished pb [] w' /\
    queue w' = queue w /\ trace w' = trace w.
Proof.
  intros (HP & HT & HXP & HXT). eexists. split.
  { cbn [runTask]. unfold Stream_emit_tick. step theStream_ok.
    erewrite bind_ok by (eapply emit_loop_detached; [exact HT|reflexivity]).
    step updStream_ok. step theStream_ok.
    cbn [_isClosed _subscription withBuffer takeStream]. reflexivity. }
  wsimpl. split; [|done]. split; [|split; [|split]]; wsimpl; try done.
  - by rewrite lookup_insert_ne.
  - by rewrite lookup_insert_eq.
Qed.

Lemma add_parent w ph pb tb d :
  takeShape p t xp xt l o n ph pb tb w ->
  exists w',
    add p d w = Ok tt w' /\ takeShape p t xp xt l o n ph (pb ++ [d]) tb w' /\
    queue w' = queue w ++ match ph with Taking _ => [TEmit p] | _ => [] end /\
    trace w' = trace w.
Proof.
  intros (HP & HT & HXP & HXT). eexists. split.
  { erewrite add_base by (first [exact HP | reflexivity]).
    eapply Stream_add_ok; [exact HP|reflexivity]. }
  cbv zeta. cbn [willEmit _isPaused _subscription parentStream _buffer withBuffer].
  destruct ph; wsimpl; (split; [|by rewrite ?app_nil_r]);
    (split; [|split; [|split]]; wsimpl; try done;
     [rewrite lookup_insert_eq; unfold parentStream; by rewrite map_app
     |by rewrite lookup_insert_ne]).
Qed.

Lemma takeInv_weaken tr0 vs m m' w : (m <= m')%nat -> takeInv p t xp xt l o n tr0 vs m w -> takeInv p t xp xt l o n tr0 vs m' w.
Proof.
  intros Hm (ph & pb & tb & evs & Hs & Hq & Htr & Hc & Ha & Hb).
  exists ph, pb, tb, evs. repeat (split; [done|]). lia.
Qed.

Lemma ofThePair_cases task : ofThePair p t task = true ->
  (exists s name, task = TEvent s name /\ (s = p \/ s = t)) \/ task = TEmit p \/ task = TEmit t.
Proof.
  destruct task as [s|s name|s m]; cbn; [| |done];
    intros [->%bool_decide_eq_true_1| ->%bool_decide_eq_true_1]%orb_true_iff; eauto 10.
Qed.

(** One closure of the queue. *)
Lemma takeInv_tick tr0 vs m w :
  onDone o = true -> takeInv p t xp xt l o n tr0 vs m w -> queue w <> [] ->
  exists w', tick w = Ok true w' /\ takeInv p t xp xt l o n tr0 vs (m - 1) w'.
Proof.
  intros Ho (ph & pb & tb & evs & Hs & Hq & Htr & Hc & Ha & Hb) Hne.
  destruct (queue w) as [|task q] eqn:EQ; [done|]. clear Hne.
  cbn [forallb] in Hq. apply andb_true_iff in Hq as [Htask Hq].
  rewrite (tick_cons _ _ _ EQ).
  assert (Hs1 : takeShape p t xp xt l o n ph pb tb (setQueue (fun _ => q) w)) by (by eapply shape_frame).
  unfold closuresLeft in Hb. cbn [length] in Hb.
  destruct (ofThePair_cases task Htask) as [(s & name & -> & Hsp)|[-> | ->]].
  - (* an event closure: no callback is registered *)
    exists (setQueue (fun _ => q) w). split.
    { step0 (run_event _ _ _ _ s name Hs1 Hsp). reflexivity. }
    exists ph, pb, tb, evs. wsimpl. repeat (split; [done|]). split.
    + destruct ph as [k| |].
      * destruct Ha as (seen & td & H1 & H2 & H3 & H4 & H5 & H6 & H7).
        exists seen, td. repeat (split; [done|]).
        split; intros H; [apply H6 in H|apply H7 in H]; by eapply elem_of_tail.
      * destruct Ha as (seen & td & H1 & H2 & H3 & H4 & H5).
        exists seen, td. repeat (split; [done|]). by eapply elem_of_tail.
      * exact Ha.
    + unfold closuresLeft. lia.
  - (* the closure of the parent's _emit *)
    destruct ph as [k| |].
    + destruct Ha as (seen & td & H1 & H2 & H3 & H4 & H5 & H6 & H7). subst tb.
      destruct (run_emit_parent_taking _ k pb (List.map Data td) Hs1 H5)
        as (w' & ph' & tb' & q' & evs' & E & Hs' & HQ & HT & Hq' & Hcase).
      exists w'. split; [step0 E; reflexivity|]. wsimpl.
      exists ph', [], tb', (evs ++ evs'). split; [exact Hs'|].
      split; [by rewrite HQ, forallb_app, Hq, Hq'|].
      split; [by rewrite HT, Htr, app_assoc|].
      destruct Hcase as [(C1 & -> & -> & C4 & C5 & ->)|(C1 & -> & -> & C4 & C5 & ->)].
      * split; [done|]. split.
        -- exists seen, (td ++ pb). rewrite app_nil_r. split; [done|].
           split; [by rewrite map_app|]. split; [by rewrite app_nil_r|].
           split; [rewrite !length_app in *; lia|]. split; [lia|]. split; [done|].
           intros Hne. rewrite HQ. apply elem_of_app.
           destruct pb as [|v pb]; [|right; by apply C5].
           left. rewrite app_nil_r in Hne. eapply elem_of_tail; [by apply H7|].
           intros [=]. by apply Hpt.
        -- unfold closuresLeft. rewrite HQ, length_app. cbn [length]. lia.
      * split; [apply elem_of_app; right; left|]. split.
        -- exists seen, (td ++ firstn (Z.to_nat (n - k)) pb).
           rewrite heardBy_app. cbn. rewrite app_nil_r. split; [done|].
           split; [by rewrite map_app, <- app_assoc|].
           split.
           { rewrite H3, !app_assoc, firstn_covered by lia.
             do 2 f_equal. lia. }
           split; [rewrite H3, !length_app in *; lia|].
           rewrite HQ. apply elem_of_app. by right.
        -- unfold closuresLeft. rewrite HQ, length_app. lia.
    + destruct (run_emit_parent_detached _ Closing pb tb Hs1) as (w' & E & Hs' & HQ & HT); [done|].
      exists w'. split; [step0 E; reflexivity|]. wsimpl.
      exists Closing, [], tb, evs. rewrite HQ, HT. repeat (split; [done|]). split.
      * destruct Ha as (seen & td & H1 & H2 & H3 & H4 & H5).
        exists seen, td. repeat (split; [done|]). eapply elem_of_tail; [done|].
        intros [=]. by apply Hpt.
      * unfold closuresLeft. lia.
    + destruct (run_emit_parent_detached _ Finished pb tb Hs1) as (w' & E & Hs' & HQ & HT); [done|].
      exists w'. split; [step0 E; reflexivity|]. wsimpl.
      exists Finished, [], tb, evs. rewrite HQ, HT. repeat (split; [done|]).
      try (split; [exact Ha|]). unfold closuresLeft. lia.
  - (* the closure of the take stream's _emit *)
    destruct ph as [k| |].
    + destruct Ha as (seen & td & H1 & H2 & H3 & H4 & H5 & H6 & H7). subst tb.
      destruct (run_emit_take_taking _ k pb td Hs1) as (w' & E & Hs' & HQ & HT).
      exists w'. split; [step0 E; reflexivity|]. wsimpl.
      exists (Taking k), pb, [], (evs ++ List.map (EvData l) td). rewrite HQ, HT.
      split; [done|]. split; [done|]. split; [by rewrite Htr, app_assoc|].
      split; [done|]. split.
      * exists (seen ++ td), []. rewrite heardBy_app, heardBy_data, H1, map_app.
        split; [done|]. split; [done|]. split; [by rewrite H3, <- app_assoc|].
        split; [by rewrite app_nil_r|]. split; [done|].
        split; [|done]. intros H. eapply elem_of_tail; [by apply H6|].
        intros [=]. by apply Hpt.
      * unfold closuresLeft. lia.
    + destruct Ha as (seen & td & H1 & H2 & H3 & H4 & H5). subst tb.
      destruct (run_emit_take_closing _ pb td Hs1 Ho) as (w' & E & Hs' & HQ & HT).
      exists w'. split; [step0 E; reflexivity|]. wsimpl.
      exists Finished, pb, [], (evs ++ List.map (EvData l) td ++ [EvDone l; EvCancel xt]).
      rewrite HQ, HT.
      split; [done|]. split; [rewrite forallb_app, Hq; cbn;
                              by rewrite (bool_decide_eq_true_2 (t = t)), orb_true_r|].
      split; [by rewrite Htr, <- app_assoc|].
      split; [apply elem_of_app; by left|]. split.
      * cbn [takeAccount]. split; [|done].
        rewrite !heardBy_app, heardBy_data, H1, <- H3, map_app. cbn.
        rewrite bool_decide_eq_true_2 by done. by rewrite <- app_assoc.
      * unfold closuresLeft. rewrite length_app. cbn [length]. lia.
    + destruct (run_emit_take_finished _ pb tb Hs1) as (w' & E & Hs' & HQ & HT).
      exists w'. split; [step0 E; reflexivity|]. wsimpl.
      destruct Ha as (H1 & H2 & H3).
      exists Finished, pb, [], evs. rewrite HQ, HT. repeat (split; [done|]).
      try (split; [done|]). unfold closuresLeft. lia.
Qed.

(** One more value from the producer. *)
Lemma takeInv_add tr0 vs m w d :
  takeInv p t xp xt l o n tr0 vs m w ->
  exists w', add p d w = Ok tt w' /\ takeInv p t xp xt l o n tr0 (vs ++ [d]) (m + 2) w'.
Proof.
  intros (ph & pb & tb & evs & Hs & Hq & Htr & Hc & Ha & Hb).
  destruct (add_parent w ph pb tb d Hs) as (w' & E & Hs' & HQ & HT).
  exists w'. split; [exact E|].
  exists ph, (pb ++ [d]), tb, evs. rewrite HQ, HT. split; [done|].
  split.
  { rewrite forallb_app, Hq. destruct ph; cbn; [|done..].
    by rewrite (bool_decide_eq_true_2 (p = p)). }
  split; [done|]. split; [done|]. split.
  - destruct ph as [k| |]; cbn [takeAccount] in *.
    + destruct Ha as (seen & td & H1 & H2 & H3 & H4 & H5 & H6 & H7).
      exists seen, td. split; [done|]. split; [done|].
      split; [by rewrite H3, <- !app_assoc|]. split; [done|]. split; [done|].
      split; intros H; apply elem_of_app; [right; left|left; by apply H7].
    + destruct Ha as (seen & td & H1 & H2 & H3 & H4 & H5).
      exists seen, td. split; [done|]. split; [done|].
      split; [rewrite firstn_app; replace (Z.to_nat n - length vs)%nat with 0%nat by lia;
              cbn; by rewrite app_nil_r|].
      split; [rewrite length_app; lia|by rewrite app_nil_r].
    + destruct Ha as (H1 & H2 & H3). split; [|split; [rewrite length_app; lia|done]].
      rewrite firstn_app. replace (Z.to_nat n - length vs)%nat with 0%nat by lia.
      cbn. by rewrite app_nil_r.
  - unfold closuresLeft in *. rewrite !length_app. destruct ph; cbn [length]; lia.
Qed.

Lemma takeInv_script tr0 script : forall vs m w,
  onDone o = true -> takeInv p t xp xt l o n tr0 vs m w ->
  exists w',
    forEach (produce p) script w = Ok tt w' /\
    takeInv p t xp xt l o n tr0 (vs ++ added script) (m + 2 * length (added script)) w'.
Proof.
  induction script as [|c script IH]; intros vs m w Ho Hinv; cbn [forEach added flat_map].
  - exists w. split; [done|]. rewrite app_nil_r. eapply takeInv_weaken; [|exact Hinv].
    cbn. lia.
  - destruct c as [d|]; cbn [produce].
    + destruct (takeInv_add tr0 vs m w d Hinv) as (w1 & E1 & Hinv1).
      destruct (IH _ _ w1 Ho Hinv1) as (w' & E & Hinv').
      exists w'. split; [step0 E1; exact E|].
      fold (added script). rewrite <- app_assoc in Hinv'. cbn [app] in Hinv'.
      eapply takeInv_weaken; [|exact Hinv']. rewrite length_app. cbn [length]. lia.
    + assert (exists w1, tick w = Ok (bool_decide (queue w <> [])) w1 /\ takeInv p t xp xt l o n tr0 vs m w1)
        as (w1 & E1 & Hinv1).
      { destruct (queue w) as [|task q] eqn:EQ.
        - exists w. split; [by apply tick_nil|done].
        - destruct (takeInv_tick tr0 vs m w Ho Hinv) as (w1 & E1 & Hinv1); [by rewrite EQ|].
          exists w1. split; [done|]. eapply takeInv_weaken; [|exact Hinv1]. lia. }
      destruct (IH _ _ w1 Ho Hinv1) as (w' & E & Hinv').
      exists w'. split; [|exact Hinv'].
      rewrite ?bind_assoc. step0 E1. step0 @ret_ok. exact E.
Qed.

(** The queue runs empty, and then every closure it held has run. *)
Lemma takeInv_drain tr0 vs fuel : forall m w,
  onDone o = true -> takeInv p t xp xt l o n tr0 vs m w -> (m <= fuel)%nat ->
  exists w', drain fuel w = Ok tt w' /\ takeInv p t xp xt l o n tr0 vs m w' /\ queue w' = [].
Proof.
  induction fuel as [|fuel IH]; intros m w Ho Hinv Hm.
  - exists w. split; [done|]. split; [done|].
    destruct Hinv as (ph & pb & tb & evs & _ & _ & _ & _ & _ & Hb).
    unfold closuresLeft in Hb. destruct (queue w); [done|]. cbn [length] in Hb. lia.
  - destruct (queue w) as [|task q] eqn:EQ.
    + exists w. split; [by apply drain_nil|done].
    + destruct (takeInv_tick tr0 vs m w Ho Hinv) as (w1 & E1 & Hinv1); [by rewrite EQ|].
      assert (0 < m)%nat.
      { destruct Hinv as (ph & pb & tb & evs & _ & _ & _ & _ & _ & Hb).
        unfold closuresLeft in Hb. rewrite EQ in Hb. cbn [length] in Hb. lia. }
      destruct (IH (m - 1)%nat w1 Ho Hinv1) as (w' & E & Hinv' & HQ); [lia|].
      exists w'. split; [|split; [|done]].
      * cbn [drain]. step0 E1. exact E.
      * eapply takeInv_weaken; [|exact Hinv']. lia.
Qed.

(** With the queue empty and at least [n] values added, the listener has
    heard the first [n] and Done, and both streams are detached. *)
Lemma takeInv_end tr0 vs m w :
  takeInv p t xp xt l o n tr0 vs m w -> queue w = [] -> n <= Z.of_nat (length vs) ->
  exists pb evs,
    takeShape p t xp xt l o n Finished pb [] w /\ trace w = tr0 ++ evs /\ EvCancel xp ∈ evs /\
    heardBy l evs = List.map (EvData l) (firstn (Z.to_nat n) vs) ++ [EvDone l].
Proof.
  intros (ph & pb & tb & evs & Hs & Hq & Htr & Hc & Ha & Hb) HQ Hn. rewrite HQ in Ha.
  destruct ph as [k| |]; cbn [takeAccount] in Ha.
  - destruct Ha as (seen & td & H1 & H2 & H3 & H4 & H5 & H6 & H7).
    destruct pb as [|v pb]; [|exfalso; eapply elem_of_nil, H6; done].
    destruct td as [|v td]; [|exfalso; eapply elem_of_nil, H7; done].
    rewrite !app_nil_r in *. subst vs. lia.
  - destruct Ha as (seen & td & H1 & H2 & H3 & H4 & H5). by apply elem_of_nil in H5.
  - destruct Ha as (H1 & H2 & ->). by exists pb, evs.
Qed.
End Take.

(** The three calls that set the scenario up. *)
Lemma take_listen w n l o :
  queue w = [] -> 0 < n ->
  exists w3,
    (p <- allocStream ClsStream ;; t <- Stream_take p n ;; listen t (User l) o) w
    = Ok (S (nextSubscription w)) w3 /\
    takeInv (nextStream w) (S (nextStream w)) (nextSubscription w) (S (nextSubscription w))
            l o n (trace w) [] 8 w3.
Proof.
  intros HQ Hn. eexists. split.
  { step0 allocStream_ok. unfold Stream_take. step0 allocStream_ok.
    unfold listen. wsimpl. cbn [listenAt]. step theStream_ok. cbn [class newStream].
    rewrite ?bind_assoc. step theStream_ok. cbn [class newStream].
    erewrite bind_ok by (eapply Stream_listen_free; [lk|reflexivity]).
    step updStream_ok. eapply Stream_listen_free; [lk|reflexivity]. }
  wsimpl. cbn [_isPaused newStream withParentSubscription withSubscription class withClass
               _subscription _buffer _isClosed _eventCallbacks].
  exists (Taking 0), [], [], []. split; [|split; [|split; [|split; [|split]]]].
  - split; [|split; [|split]]; wsimpl.
    + rewrite lookup_insert_ne by lia. rewrite lookup_insert_ne by lia.
      rewrite lookup_insert_eq. reflexivity.
    + rewrite lookup_insert_eq. reflexivity.
    + rewrite lookup_insert_ne by lia. rewrite lookup_insert_eq. reflexivity.
    + rewrite lookup_insert_eq. reflexivity.
  - wsimpl. rewrite HQ. cbn.
    rewrite (bool_decide_eq_true_2 (nextStream w = nextStream w)) by done.
    rewrite (bool_decide_eq_true_2 (S (nextStream w) = S (nextStream w))) by done.
    by rewrite !orb_true_r.
  - wsimpl. by rewrite app_nil_r.
  - done.
  - exists [], []. cbn. repeat (split; [done|]). done.
  - wsimpl. rewrite HQ. cbn. lia.
Qed.

(** C3: a new stream, take(n) of it with n >= 1, a listener with an onDone
    callback on the derived stream; the producer then adds at least n values
    to the parent, in any order with the closures of the queue, and the
    queue is run until it is empty.  The listener is called with exactly
    the first n values, in order, and then onDone; the take stream has
    cancelled its subscription to the parent, which has no subscription any
    more, so that a value added later is queued nowhere and delivered to
    nobody. *)
Theorem take_delivers_first_n_then_done_and_detaches
    (w : World) (n : Z) (l : nat) (o : StreamListenOptions)
    (script : list ProducerCall) (fuel : nat) :
  queue w = [] -> 1 <= n -> onDone o = true ->
  n <= Z.of_nat (length (added script)) ->
  (8 + 2 * length (added script) <= fuel)%nat ->
  let p := nextStream w in
  let t := S p in
  exists w' evs stp stt,
    takeScenario n l o script fuel w = Ok (p, t) w' /\
    queue w' = [] /\ trace w' = trace w ++ evs /\
    heardBy l evs = List.map (EvData l) (firstn (Z.to_nat n) (added script)) ++ [EvDone l] /\
    EvCancel (nextSubscription w) ∈ evs /\
    streams w' !! p = Some stp /\ _subscription stp = None /\
    streams w' !! t = Some stt /\ _isClosed stt = true /\
    parentSubscriptionOf stt = None /\ _subscription stt = None /\
    forall d, exists w'', add p d w' = Ok tt w'' /\ queue w'' = [] /\ trace w'' = trace w'.
Proof.
  intros HQ Hn Ho Hlen Hfuel p t.
  assert (Hpt : p <> t) by (unfold t; lia).
  assert (Hxx : nextSubscription w <> S (nextSubscription w)) by lia.
  destruct (take_listen w n l o HQ) as (w3 & E3 & Hinv3); [lia|].
  destruct (takeInv_script _ _ _ _ _ _ _ Hpt Hxx _ script _ _ _ Ho Hinv3) as (w4 & E4 & Hinv4).
  cbn [app] in Hinv4.
  destruct (takeInv_drain _ _ _ _ _ _ _ Hpt Hxx _ _ fuel _ _ Ho Hinv4) as (w' & E & Hinv & HQ');
    [lia|].
  destruct (takeInv_end _ _ _ _ _ _ _ Hpt Hxx _ _ _ _ Hinv HQ' Hlen)
    as (pb & evs & Hs & Htr & Hc & Hheard).
  pose proof Hs as (HP & HT & _).
  exists w', evs, (parentStream (nextSubscription w) Finished pb),
    (takeStream p (nextSubscription w) (S (nextSubscription w)) n Finished []).
  split.
  { unfold takeScenario. rewrite ?bind_assoc.
    unfold Stream_take in *.
    rewrite ?bind_assoc in E3.
    revert E3. step0 allocStream_ok. step0 allocStream_ok. intros E3.
    step0 allocStream_ok. step0 allocStream_ok. step0 E3. step0 E4. step0 E. reflexivity. }
  repeat (split; [done|]).
  intros d. destruct (add_parent _ _ _ _ _ _ _ Hpt _ _ _ _ d Hs) as (w'' & Ea & _ & HQa & HTa).
  exists w''. split; [done|]. rewrite HQa, HQ', HTa. done.
Qed.

Lemma take_delivers_first_n_then_done_and_detaches_witness :
  exists w' evs,
    takeScenario 3 7 plainOptions (List.map PAdd [0; 1; 2; 3; 4; 5; 6; 7; 8; 9]) 28 emptyWorld
    = Ok (0%nat, 1%nat) w' /\
    trace w' = evs /\
    heardBy 7 evs = [EvData 7 0; EvData 7 1; EvData 7 2; EvDone 7].
Proof.
  destruct (take_delivers_first_n_then_done_and_detaches
              emptyWorld 3 7 plainOptions (List.map PAdd [0; 1; 2; 3; 4; 5; 6; 7; 8; 9]) 28)
    as (w' & evs & stp & stt & E & HQ & Htr & Hh & _).
  - reflexivity.
  - lia.
  - reflexivity.
  - cbn. lia.
  - cbn. lia.
  - exists w', evs. split; [exact E|]. split; [exact Htr|exact Hh].
Defined.

(** ** References between the objects *)

Lemma grounded_wellFormed w : grounded w -> wellFormed w.
Proof.
  intros [HS HX]. split.
  - intros s st E. destruct (HS s st E) as (_ & Hp & Hx). unfold streamOk.
    apply andb_true_iff. split.
    + destruct (parentOf st) as [p|]; [|done]. destruct (Hp p eq_refl) as [H1 H2].
      apply andb_true_iff. split; by apply bool_decide_eq_true_2.
    + destruct (parentSubscriptionOf st) as [x|]; [|done].
      destruct (Hx x eq_refl) as (sub & Esub & Hlt). rewrite Esub.
      apply andb_true_iff. split; apply bool_decide_eq_true_2; [done|].
      by destruct (HX x sub Esub).
  - intros x sub E. apply bool_decide_eq_true_2. by destruct (HX x sub E).
Qed.

Lemma extends_refl w : extends w w.
Proof. split; [done|]. intros x sub E. by exists sub. Qed.

Lemma extends_trans w0 w1 w2 : extends w0 w1 -> extends w1 w2 -> extends w0 w2.
Proof.
  intros [A1 B1] [A2 B2]. split; [auto|].
  intros x sub0 E0. destruct (B1 x sub0 E0) as (sub1 & E1 & H1).
  destruct (B2 x sub1 E1) as (sub2 & E2 & H2). exists sub2. split; [done|congruence].
Qed.

Lemma is_Some_insert {A} (m : gmap nat A) k k' v :
  is_Some (m !! k) -> is_Some (<[k' := v]> m !! k).
Proof.
  intros H. destruct (decide (k = k')) as [->|Hne].
  - rewrite lookup_insert_eq. by eexists.
  - by rewrite lookup_insert_ne.
Qed.

(** A stream is replaced by one with the same parent, and with the same
    parent subscription, or none, or a subscription on an older stream. *)
Lemma grounded_update w0 w s st st' :
  streams w !! s = Some st ->
  parentOf st' = parentOf st ->
  (forall x, parentSubscriptionOf st' = Some x ->
     exists sub, subscriptions w !! x = Some sub /\ (sub_stream sub < s)%nat) ->
  groundedFrom w0 w -> groundedFrom w0 (setStreams (fun m => <[s := st']> m) w).
Proof.
  intros Hs Hp Hx [[HS HX] [E1 E2]]. split; [split|split]; wsimpl.
  - intros s1 st1. destruct (decide (s1 = s)) as [->|Hne].
    + rewrite lookup_insert_eq. intros [= <-]. destruct (HS s st Hs) as (H1 & H2 & H3).
      split; [done|]. split; [|done]. rewrite Hp. intros p Ep.
      destruct (H2 p Ep). split; [done|]. by apply is_Some_insert.
    + rewrite lookup_insert_ne by done. intros E. destruct (HS s1 st1 E) as (H1 & H2 & H3).
      split; [done|]. split; [|done]. intros p Ep. destruct (H2 p Ep).
      split; [done|]. by apply is_Some_insert.
  - intros x sub E. destruct (HX x sub E). split; [done|]. by apply is_Some_insert.
  - intros s1 H. by apply is_Some_insert, E1.
  - done.
Qed.

Lemma groundedFrom_frame w0 w w' :
  streams w' = streams w -> nextStream w' = nextStream w ->
  subscriptions w' = subscriptions w -> nextSubscription w' = nextSubscription w ->
  groundedFrom w0 w -> groundedFrom w0 w'.
Proof. unfold groundedFrom, grounded, extends. intros -> -> -> ->. done. Qed.

Lemma grounded_modify w0 f :
  (forall w, streams (f w) = streams w) -> (forall w, nextStream (f w) = nextStream w) ->
  (forall w, subscriptions (f w) = subscriptions w) ->
  (forall w, nextSubscription (f w) = nextSubscription w) ->
  keeps (groundedFrom w0) (modify f) anything.
Proof. intros H1 H2 H3 H4. apply keeps_modify. intros w. by apply groundedFrom_frame. Qed.

Lemma grounded_updStream w0 s f :
  (forall st, parentOf (f st) = parentOf st) ->
  (forall st, parentSubscriptionOf (f st) = parentSubscriptionOf st \/
              parentSubscriptionOf (f st) = None) ->
  keeps (groundedFrom w0) (updStream s f) anything.
Proof.
  intros Hp Hx. apply keeps_modify. intros w HJ.
  assert (E : setStreams (fun m => match m !! s with
                                   | Some st => <[s:=f st]> m
                                   | None => m
                                   end) w =
              match streams w !! s with
              | Some st => setStreams (fun m => <[s := f st]> m) w
              | None => w
              end).
  { unfold setStreams. destruct (streams w !! s); [done|by destruct w]. }
  rewrite E. destruct (streams w !! s) as [st|] eqn:Hs; [|done].
  apply (grounded_update w0 w s st); auto.
  intros x Ex. destruct (Hx st) as [H|H]; [|congruence].
  rewrite H in Ex. by apply (proj1 (proj1 HJ) s st Hs).
Qed.

Lemma grounded_updSubscription w0 x f :
  (forall sub, sub_stream (f sub) = sub_stream sub) ->
  keeps (groundedFrom w0) (updSubscription x f) anything.
Proof.
  intros Hf. apply keeps_modify. intros w [[HS HX] [E1 E2]].
  unfold setSubscriptions. destruct (subscriptions w !! x) as [sub|] eqn:Hx;
    [|by destruct w].
  split; [split|split]; wsimpl.
  - intros s st E. destruct (HS s st E) as (H1 & H2 & H3). split; [done|]. split; [done|].
    intros y Ey. destruct (H3 y Ey) as (sub1 & Es1 & Hlt).
    destruct (decide (y = x)) as [->|Hne].
    + rewrite lookup_insert_eq. exists (f sub). split; [done|]. rewrite Hf. congruence.
    + rewrite lookup_insert_ne by done. by exists sub1.
  - intros y sub1. destruct (decide (y = x)) as [->|Hne].
    + rewrite lookup_insert_eq. intros [= <-]. rewrite Hf. by apply HX.
    + rewrite lookup_insert_ne by done. apply HX.
  - done.
  - intros y sub0 E0. destruct (E2 y sub0 E0) as (sub1 & Es1 & H1).
    destruct (decide (y = x)) as [->|Hne].
    + rewrite lookup_insert_eq. exists (f sub). split; [done|]. rewrite Hf. congruence.
    + rewrite lookup_insert_ne by done. by exists sub1.
Qed.

Lemma grounded_theStream w0 s : keeps (groundedFrom w0) (theStream s) anything.
Proof. intros w HJ. unfold theStream. by destruct (streams w !! s). Qed.
Lemma grounded_theSubscription w0 s : keeps (groundedFrom w0) (theSubscription s) anything.
Proof. intros w HJ. unfold theSubscription. by destruct (subscriptions w !! s). Qed.
Lemma grounded_theAggregation w0 s : keeps (groundedFrom w0) (theAggregation s) anything.
Proof. intros w HJ. unfold theAggregation. by destruct (aggregations w !! s). Qed.
Lemma grounded_theController w0 s : keeps (groundedFrom w0) (theController s) anything.
Proof. intros w HJ. unfold theController. by destruct (controllers w !! s). Qed.
Lemma grounded_theSource w0 s : keeps (groundedFrom w0) (theSource s) anything.
Proof. intros w HJ. unfold theSource. by destruct (sources w !! s). Qed.
Lemma grounded_updAggregation w0 x f : keeps (groundedFrom w0) (updAggregation x f) anything.
Proof. by apply grounded_modify. Qed.
Lemma grounded_updSource w0 x f : keeps (groundedFrom w0) (updSource x f) anything.
Proof. by apply grounded_modify. Qed.
Lemma grounded_record w0 e : keeps (groundedFrom w0) (record e) anything.
Proof. by apply grounded_modify. Qed.
Lemma grounded_nextTick w0 t : keeps (groundedFrom w0) (nextTick t) anything.
Proof. by apply grounded_modify. Qed.

Create HintDb grounded.
#[local] Hint Resolve grounded_theStream grounded_theSubscription grounded_theAggregation
  grounded_theController grounded_theSource grounded_updAggregation grounded_updSource
  grounded_record grounded_nextTick : grounded.

Ltac ground_step :=
  lazymatch goal with
  | |- keeps _ (ret _) _ => apply keeps_return
  | |- keeps _ (throw _) _ => apply keeps_throw
  | |- keeps _ (call _) _ => apply keeps_call
  | |- keeps _ (bind _ _) _ => eapply keeps_bind; [|intros ? _]
  | |- keeps _ (tryCatch _ _) _ => apply keeps_tryCatch; [|intros ?]
  | |- keeps _ (when _ _) _ => apply keeps_when; intros _
  | |- keeps _ (forEach _ _) _ => apply keeps_forEach; intros ? _
  | |- keeps _ get _ => eapply keeps_anything; apply keeps_get
  | |- keeps _ (modify _) _ => by apply grounded_modify
  | |- keeps _ (updSubscription _ _) _ => apply grounded_updSubscription; by intros []
  | |- keeps _ (updStream _ _) _ =>
      apply grounded_updStream;
      [ intros [? ? ? ? ? []]; reflexivity
      | intros [? ? ? ? ? []]; cbn; auto ]
  | |- keeps _ (match ?x with _ => _ end) _ => destruct x
  | |- _ => solve [eauto with grounded]
  end.
Ltac ground := repeat ground_step.

Lemma grounded_Stream_emit w0 s : keeps (groundedFrom w0) (Stream_emit s) anything.
Proof. unfold Stream_emit. ground. Qed.
#[local] Hint Resolve grounded_Stream_emit : grounded.
Lemma grounded_Stream_callEventListeners w0 s n :
  keeps (groundedFrom w0) (Stream_callEventListeners s n) anything.
Proof. unfold Stream_callEventListeners. ground. Qed.
#[local] Hint Resolve grounded_Stream_callEventListeners : grounded.
Lemma grounded_cancel w0 s x : keeps (groundedFrom w0) (cancel s x) anything.
Proof. unfold cancel, Stream_cancel, broadcast_cancel. ground. Qed.
#[local] Hint Resolve grounded_cancel : grounded.
Lemma grounded_sub_cancel w0 x : keeps (groundedFrom w0) (sub_cancel x) anything.
Proof. unfold sub_cancel. ground. Qed.
#[local] Hint Resolve grounded_sub_cancel : grounded.
Lemma grounded_Stream_add w0 s d : keeps (groundedFrom w0) (Stream_add s d) anything.
Proof. unfold Stream_add. ground. Qed.
Lemma grounded_Stream_addError w0 s d : keeps (groundedFrom w0) (Stream_addError s d) anything.
Proof. unfold Stream_addError. ground. Qed.
Lemma grounded_Stream_close w0 s : keeps (groundedFrom w0) (Stream_close s) anything.
Proof. unfold Stream_close. ground. Qed.
Lemma grounded_Stream_pause w0 s : keeps (groundedFrom w0) (Stream_pause s) anything.
Proof. unfold Stream_pause. ground. Qed.
Lemma grounded_Stream_resume w0 s : keeps (groundedFrom w0) (Stream_resume s) anything.
Proof. unfold Stream_resume. ground. Qed.
Lemma grounded_addEventListener w0 s n c :
  keeps (groundedFrom w0) (addEventListener s n c) anything.
Proof. unfold addEventListener. ground. Qed.
Lemma grounded_removeEventListener w0 s n c :
  keeps (groundedFrom w0) (removeEventListener s n c) anything.
Proof.
  unfold removeEventListener. apply grounded_updStream.
  - intros st. by destruct (_eventCallbacks st !! n).
  - intros st. left. by destruct (_eventCallbacks st !! n).
Qed.
#[local] Hint Resolve grounded_Stream_add grounded_Stream_addError grounded_Stream_close
  grounded_Stream_pause grounded_Stream_resume grounded_addEventListener
  grounded_removeEventListener : grounded.

Lemma grounded_broadcast_add w0 s d : keeps (groundedFrom w0) (broadcast_add s d) anything.
Proof. unfold broadcast_add. ground. Qed.
Lemma grounded_broadcast_addError w0 s d :
  keeps (groundedFrom w0) (broadcast_addError s d) anything.
Proof. unfold broadcast_addError. ground. Qed.
Lemma grounded_broadcast_close w0 s : keeps (groundedFrom w0) (broadcast_close s) anything.
Proof. unfold broadcast_close. ground. Qed.
Lemma grounded_filtering_close w0 s : keeps (groundedFrom w0) (filtering_close s) anything.
Proof. unfold filtering_close. ground. Qed.
#[local] Hint Resolve grounded_broadcast_add grounded_broadcast_addError
  grounded_broadcast_close grounded_filtering_close : grounded.

Lemma grounded_add w0 s d : keeps (groundedFrom w0) (add s d) anything.
Proof.
  unfold add, mapStream_add, takeStream_add, takeWhileStream_add, skipStream_add,
    skipWhileStream_add, whereStream_add. ground.
Qed.
Lemma grounded_addError w0 s d : keeps (groundedFrom w0) (addError s d) anything.
Proof. unfold addError. ground. Qed.
Lemma grounded_close w0 s : keeps (groundedFrom w0) (close s) anything.
Proof. unfold close. ground. Qed.
Lemma grounded_pause w0 s : keeps (groundedFrom w0) (pause s) anything.
Proof. unfold pause. ground. Qed.
Lemma grounded_resume w0 s : keeps (groundedFrom w0) (resume s) anything.
Proof. unfold resume. ground. Qed.
#[local] Hint Resolve grounded_add grounded_addError grounded_close grounded_pause
  grounded_resume : grounded.

Lemma grounded_settle w0 a p : keeps (groundedFrom w0) (settle a p) anything.
Proof. unfold settle. ground. Qed.
#[local] Hint Resolve grounded_settle : grounded.
Lemma grounded_cancelAndFulfill w0 a m :
  keeps (groundedFrom w0) m anything -> keeps (groundedFrom w0) (cancelAndFulfill a m) anything.
Proof. intros Hm. unfold cancelAndFulfill. ground. Qed.
#[local] Hint Resolve grounded_cancelAndFulfill : grounded.
Lemma grounded_agg_onData w0 a d : keeps (groundedFrom w0) (agg_onData a d) anything.
Proof. unfold agg_onData, resolve, reject. ground. Qed.
Lemma grounded_agg_onError w0 a d : keeps (groundedFrom w0) (agg_onError a d) anything.
Proof. unfold agg_onError, resolve, reject. ground. Qed.
Lemma grounded_agg_onDone w0 a : keeps (groundedFrom w0) (agg_onDone a) anything.
Proof. unfold agg_onDone, resolve, reject. ground. Qed.
#[local] Hint Resolve grounded_agg_onData grounded_agg_onError grounded_agg_onDone : grounded.

Lemma grounded_dispatch w0 x m : keeps (groundedFrom w0) (dispatch x m) anything.
Proof. unfold dispatch, call_onData, call_onError, call_onDone. ground. Qed.
#[local] Hint Resolve grounded_dispatch : grounded.
Lemma grounded_sub_emit w0 x : keeps (groundedFrom w0) (sub_emit x) anything.
Proof. unfold sub_emit. ground. Qed.
#[local] Hint Resolve grounded_sub_emit : grounded.
Lemma grounded_messageHandler w0 x m : keeps (groundedFrom w0) (messageHandler x m) anything.
Proof. unfold messageHandler. ground. Qed.
#[local] Hint Resolve grounded_messageHandler : grounded.
Lemma grounded_sub_pause w0 x : keeps (groundedFrom w0) (sub_pause x) anything.
Proof. unfold sub_pause, call_onPause. ground. Qed.
Lemma grounded_sub_resume w0 x : keeps (groundedFrom w0) (sub_resume x) anything.
Proof. unfold sub_resume, call_onResume. ground. Qed.
#[local] Hint Resolve grounded_sub_pause grounded_sub_resume : grounded.

Lemma worldOf_bind {A B} (m : Op A) (k : A -> Op B) w :
  worldOf (bind m k w) =
  match m w with
  | Ok a w1 => worldOf (k a w1)
  | Throw _ w1 => w1
  end.
Proof. unfold bind. by destruct (m w). Qed.

Lemma grounded_store_subscription w0 w s c o :
  groundedFrom w0 w -> is_Some (streams w !! s) ->
  groundedFrom w0 (storeSubscription (nextSubscription w) (mkSubscription s c o [] false) w).
Proof.
  intros [[HS HX] [E1 E2]] Hs. split; [split|split]; wsimpl.
  - intros s1 st1 E. destruct (HS s1 st1 E) as (H1 & H2 & H3). split; [done|]. split; [done|].
    intros y Ey. destruct (H3 y Ey) as (sub1 & Es1 & Hlt). exists sub1. split; [|done].
    rewrite lookup_insert_ne; [done|]. apply HX in Es1 as [? _]. lia.
  - intros y sub1. destruct (decide (y = nextSubscription w)) as [->|Hne].
    + rewrite lookup_insert_eq. intros [= <-]. split; [lia|done].
    + rewrite lookup_insert_ne by done. intros E. destruct (HX y sub1 E). split; [lia|done].
  - done.
  - intros y sub0 E0. destruct (E2 y sub0 E0) as (sub1 & Es1 & H1). exists sub1.
    split; [|done]. rewrite lookup_insert_ne; [done|]. apply HX in Es1 as [? _]. lia.
Qed.

Lemma grounded_Stream_listen w0 s c o :
  keeps (groundedFrom w0) (Stream_listen s c o) anything.
Proof.
  intros w HJ. destruct (streams w !! s) as [st|] eqn:Hs.
  - destruct (_subscription st) as [x|] eqn:Hx.
    + by erewrite Stream_listen_busy.
    + erewrite Stream_listen_free by done. split; [|done].
      eapply groundedFrom_frame; [reflexivity..|].
      eapply (grounded_update w0 _ s st); [by wsimpl|done| |].
      * intros y Ey. cbn in Ey. destruct (proj1 (proj1 HJ) s st Hs) as (_ & _ & H3).
        destruct (H3 y Ey) as (sub1 & Es1 & Hlt). exists sub1. split; [|done]. wsimpl.
        rewrite lookup_insert_ne; [done|]. apply (proj2 (proj1 HJ)) in Es1 as [? _]. lia.
      * apply grounded_store_subscription; [done|]. by rewrite Hs.
  - unfold Stream_listen, bind, theStream. by rewrite Hs.
Qed.
#[local] Hint Resolve grounded_Stream_listen : grounded.

Lemma grounded_tail_broadcast w0 s c o :
  forall w, groundedFrom w0 w -> is_Some (streams w !! s) ->
  groundedFrom w0 (worldOf
    ((sub <- newSubscription s c o ;;
      updStream s (withSubscribers (setAdd sub)) ;;
      Stream_callEventListeners s "onListen" ;;
      st <- theStream s ;;
      when (_isClosed st) (broadcast_close s) ;;
      ret sub) w)).
Proof.
  intros w HJ Hs. rewrite worldOf_bind, newSubscription_ok.
  eapply keeps_world; [|by apply grounded_store_subscription]. ground.
Qed.

(** listen keeps the references grounded, whatever the class of [s]. *)
Lemma grounded_listenAt w0 depth : forall s c o w st,
  (s < depth)%nat -> streams w !! s = Some st ->
  groundedFrom w0 w -> groundedFrom w0 (worldOf (listenAt depth s c o w)).
Proof.
  revert w0. induction depth as [|depth IH]; intros w0 s c o w st Hd Hs HJ; [lia|].
  cbn [listenAt]. rewrite worldOf_bind, (theStream_ok _ _ _ Hs).
  assert (Hpre : forall p ps, parentOf st = Some p -> parentSubscriptionOf st = ps ->
            match
              (match ps with
               | None => x <- listenAt depth p (Forward s) forwardOptions ;;
                         updStream s (withParentSubscription (Some x))
               | Some _ => ret tt
               end) w
            with
            | Ok _ w2 => groundedFrom w0 w2 /\ is_Some (streams w2 !! s)
            | Throw _ w1 => groundedFrom w0 w1
            end).
  { intros p ps Hp Hps. destruct ps as [y|]; [split; [done|by rewrite Hs]|].
    destruct (proj1 (proj1 HJ) s st Hs) as (_ & H2 & _).
    destruct (H2 p Hp) as [Hlt [pst Hpst]].
    pose proof (IH w0 p (Forward s) forwardOptions w pst ltac:(lia) Hpst HJ) as HJ1.
    pose proof (IH w p (Forward s) forwardOptions w pst ltac:(lia) Hpst
                  (conj (proj1 HJ) (extends_refl w))) as [_ [X1 X2]].
    destruct (listenAt_cases depth p (Forward s) forwardOptions w pst) as [HR _];
      [by apply grounded_wellFormed, HJ|lia|done|].
    unfold bind. destruct (listenAt depth p (Forward s) forwardOptions w) as [x w1|e w1];
      cbn [worldOf listenResult] in *; [|done].
    destruct (X1 s) as [st1 Hs1]; [by rewrite Hs|].
    erewrite updStream_ok by done. split.
    - apply (grounded_update w0 w1 s st1); [done| | |done].
      + by destruct st1 as [? ? ? ? ? []].
      + destruct HR as (sub & Esub & Hsub). intros y Ey. exists sub.
        destruct st1 as [? ? ? ? ? []]; cbn in Ey; [done|..];
          injection Ey as <-; (split; [done|lia]).
    - wsimpl. rewrite lookup_insert_eq. by eexists. }
  destruct (class st) as [|p ps subs|p xp op] eqn:Hc.
  - eapply keeps_world; [apply grounded_Stream_listen|done].
  - specialize (Hpre p ps). unfold parentOf, parentSubscriptionOf in Hpre. rewrite Hc in Hpre.
    specialize (Hpre eq_refl eq_refl). rewrite worldOf_bind.
    destruct ps as [y|]; cbn [ret] in *.
    + destruct Hpre. by apply grounded_tail_broadcast.
    + destruct ((x <- listenAt depth p (Forward s) forwardOptions ;;
                 updStream s (withParentSubscription (Some x))) w) as [[] w2|e w1]; [|done].
      destruct Hpre. by apply grounded_tail_broadcast.
  - specialize (Hpre p xp). unfold parentOf, parentSubscriptionOf in Hpre. rewrite Hc in Hpre.
    specialize (Hpre eq_refl eq_refl). rewrite worldOf_bind.
    destruct xp as [y|]; cbn [ret] in *.
    + destruct Hpre. eapply keeps_world; [apply grounded_Stream_listen|done].
    + destruct ((x <- listenAt depth p (Forward s) forwardOptions ;;
                 updStream s (withParentSubscription (Some x))) w) as [[] w2|e w1]; [|done].
      destruct Hpre. eapply keeps_world; [apply grounded_Stream_listen|done].
Qed.

Lemma keeps_of_world {A} J (m : Op A) :
  (forall w, J w -> J (worldOf (m w))) -> keeps J m anything.
Proof. intros H w HJ. specialize (H w HJ). by destruct (m w). Qed.

Lemma grounded_listen w0 s c o : keeps (groundedFrom w0) (listen s c o) anything.
Proof.
  apply keeps_of_world. intros w HJ. destruct (streams w !! s) as [st|] eqn:Hs.
  - eapply grounded_listenAt; [|done..]. lia.
  - unfold listen. cbn [listenAt]. unfold bind, theStream. by rewrite Hs.
Qed.
#[local] Hint Resolve grounded_listen : grounded.

Lemma grounded_aggregate w0 s k i : keeps (groundedFrom w0) (aggregate s k i) anything.
Proof. unfold aggregate, reject. ground. Qed.
#[local] Hint Resolve grounded_aggregate : grounded.

Lemma grounded_runTask w0 t : keeps (groundedFrom w0) (runTask t) anything.
Proof.
  unfold runTask, Stream_emit_tick, Stream_callEventListeners_tick, broadcast_fanOut_tick,
    callCallback. ground.
Qed.
#[local] Hint Resolve grounded_runTask : grounded.
Lemma grounded_tick w0 : keeps (groundedFrom w0) tick anything.
Proof. unfold tick. ground. Qed.
#[local] Hint Resolve grounded_tick : grounded.

Lemma grounded_alloc w0 w c :
  (forall p, parentOf (newStream c) = Some p -> is_Some (streams w !! p)) ->
  parentSubscriptionOf (newStream c) = None ->
  groundedFrom w0 w -> groundedFrom w0 (storeStream (nextStream w) (newStream c) w).
Proof.
  intros Hp Hx [[HS HX] [E1 E2]]. split; [split|split]; wsimpl.
  - intros s st. destruct (decide (s = nextStream w)) as [->|Hne].
    + rewrite lookup_insert_eq. intros [= <-]. split; [lia|]. split.
      * intros p Ep. destruct (Hp p Ep) as [pst Hpst]. split.
        -- by apply HS in Hpst as [? _].
        -- apply is_Some_insert. by eexists.
      * intros x Ex. congruence.
    + rewrite lookup_insert_ne by done. intros E. destruct (HS s st E) as (H1 & H2 & H3).
      split; [lia|]. split; [|done]. intros p Ep. destruct (H2 p Ep).
      split; [done|]. by apply is_Some_insert.
  - intros x sub E. destruct (HX x sub E). split; [done|]. by apply is_Some_insert.
  - intros s H. by apply is_Some_insert, E1.
  - done.
Qed.

Lemma grounded_allocStream_base w0 : keeps (groundedFrom w0) (allocStream ClsStream) anything.
Proof.
  intros w HJ. rewrite allocStream_ok. split; [|done]. by apply grounded_alloc.
Qed.
#[local] Hint Resolve grounded_allocStream_base : grounded.

Lemma grounded_derive w0 s d :
  keeps (groundedFrom w0) (_ <- theStream s ;; _ <- derive s d ;; ret tt) anything.
Proof.
  intros w HJ. unfold bind, theStream. destruct (streams w !! s) as [st|] eqn:Hs; [|done].
  destruct d; cbn; (split; [|done]); (apply grounded_alloc; [|done..]);
    intros p [= <-]; by rewrite Hs.
Qed.

Lemma grounded_newStreamController w0 b h1 h2 h3 h4 :
  keeps (groundedFrom w0) (newStreamController b h1 h2 h3 h4) anything.
Proof.
  unfold newStreamController. apply keeps_of_world. intros w HJ.
  rewrite worldOf_bind, allocStream_ok.
  assert (HJ1 : groundedFrom w0 (storeStream (nextStream w) (newStream ClsStream) w))
    by (by apply grounded_alloc).
  destruct b.
  - rewrite worldOf_bind. unfold Stream_asBroadcastStream. rewrite allocStream_ok.
    eapply keeps_world; [ground|]. apply grounded_alloc; [|done..].
    intros p [= <-]. wsimpl. rewrite lookup_insert_eq. by eexists.
  - rewrite worldOf_bind. cbn [ret]. eapply keeps_world; [ground|done].
Qed.
#[local] Hint Resolve grounded_newStreamController : grounded.

Lemma grounded_runReaction w0 r i : keeps (groundedFrom w0) (runReaction r i) anything.
Proof.
  unfold runReaction, fromPromises_onData, fromPromises_onError, fromPromises_countDown,
    StreamController_isClosed, StreamController_add, StreamController_addError,
    StreamController_close. ground.
Qed.

Lemma grounded_fromPromises w0 ps : keeps (groundedFrom w0) (Stream_fromPromises ps) anything.
Proof. unfold Stream_fromPromises, StreamController_stream. ground. Qed.
#[local] Hint Resolve grounded_runReaction grounded_fromPromises : grounded.

Lemma grounded_perform w0 c : keeps (groundedFrom w0) (perform c) anything.
Proof.
  destruct c; cbn [perform];
    unfold StreamController_add, StreamController_addError, StreamController_close;
    try apply grounded_derive; ground.
Qed.

Lemma grounded_performAll w0 cs w : groundedFrom w0 w -> groundedFrom w0 (performAll cs w).
Proof.
  revert w. induction cs as [|c cs IH]; intros w Hw; simpl; [done|].
  apply IH. eapply keeps_world; [apply grounded_perform|done].
Qed.

Lemma grounded_emptyWorld : groundedFrom emptyWorld emptyWorld.
Proof.
  split; [split|apply extends_refl]; intros s st; simpl; by rewrite lookup_empty.
Qed.

(** Every store a program reaches is well formed. *)
Lemma reachable_wellFormed cs : wellFormed (performAll cs emptyWorld).
Proof. apply grounded_wellFormed, (grounded_performAll emptyWorld), grounded_emptyWorld. Qed.

(** ** A listener that pauses and resumes *)

Lemma deliveredTo_app l a b : deliveredTo l (a ++ b) = deliveredTo l a ++ deliveredTo l b.
Proof. apply List.filter_app. Qed.

Lemma deliveredTo_userEvents l o ms :
  deliveredTo l (flat_map (userEvents l o) ms) = flat_map (userEvents l o) ms.
Proof.
  induction ms as [|m ms IH]; [done|]. cbn [flat_map]. rewrite deliveredTo_app, IH.
  f_equal. destruct m as [d|e|]; cbn; [|destruct (onError o)|destruct (onDone o)]; cbn;
    by rewrite ?bool_decide_eq_true_2.
Qed.

Lemma benign_all o ms : cancelOnError o = false -> forallb (benign o) ms = true.
Proof.
  intros Ho. induction ms as [|m ms IH]; [done|]. cbn. rewrite IH, andb_true_r.
  destruct m; cbn; by rewrite ?Ho.
Qed.

(** A paused subscription keeps the message. *)
Lemma messageHandler_paused w x sub m :
  subscriptions w !! x = Some sub -> sub_isPaused sub = true ->
  messageHandler x m w =
  Ok tt (setSubscriptions (fun s => <[x := withSubBuffer (sub_buffer sub ++ [m]) sub]> s) w).
Proof.
  intros Hx Hp. unfold messageHandler. step updSubscription_ok.
  unfold sub_emit. step theSubscription_ok. cbn [withSubBuffer sub_isPaused]. by rewrite Hp.
Qed.

(** The loop of StreamSubscription._emit, for an observer. *)
Lemma dispatch_loop_user x sub l ms : forall w,
  subscriptions w !! x = Some sub -> sub_consumer sub = User l ->
  forallb (benign (sub_listenOptions sub)) ms = true ->
  forEach (dispatch x) ms w =
  Ok tt (setTrace (fun t => t ++ flat_map (userEvents l (sub_listenOptions sub)) ms) w).
Proof.
  induction ms as [|m ms IH]; intros w Hx Hc Hb; cbn [forEach flat_map].
  - by rewrite setTrace_nil.
  - cbn [forallb] in Hb. apply andb_prop in Hb as [Hm Hms].
    erewrite bind_ok by (by eapply dispatch_user).
    erewrite IH by (wsimpl; eassumption). by rewrite setTrace_setTrace.
Qed.

Section Listener.
Variables (s x l : nat) (o : StreamListenOptions).
Hypothesis Ho : cancelOnError o = false.

(** The loop of the closure of Stream._emit while the subscription is
    paused: the messages move to the subscription. *)
Lemma emit_loop_paused b : forall w sb bs,
  listenerShape s x l o (Paused sb) bs w ->
  exists w',
    forEach (fun message =>
               st <- theStream s ;;
               match _subscription st with
               | Some x => messageHandler x message
               | None => ret tt
               end) b w = Ok tt w' /\
    listenerShape s x l o (Paused (sb ++ b)) bs w' /\
    queue w' = queue w /\ trace w' = trace w.
Proof.
  induction b as [|m b IH]; intros w sb bs [HS HX]; cbn [forEach].
  - exists w. rewrite app_nil_r. by repeat split.
  - destruct (IH (setSubscriptions
                    (fun m0 => <[x := withSubBuffer (sb ++ [m])
                                       (mkSubscription s (User l) o sb true)]> m0) w)
                 (sb ++ [m]) bs) as (w' & E & Hs' & HQ & HT).
    { split; wsimpl; [done|]. by rewrite lookup_insert_eq. }
    exists w'. split; [|split; [by rewrite <- app_assoc in Hs'|done]].
    rewrite ?bind_assoc. step theStream_ok. cbn [_subscription listenedStream].
    erewrite bind_ok by (by eapply messageHandler_paused). exact E.
Qed.

Lemma listener_event w mode b name :
  listenerShape s x l o mode b w -> runTask (TEvent s name) w = Ok tt w.
Proof. intros [HS _]. eapply event_tick_none; [exact HS|apply lookup_empty]. Qed.

(** The closure of Stream._emit, by mode. *)
Lemma listener_emit w mode b :
  listenerShape s x l o mode b w ->
  exists w',
    runTask (TEmit s) w = Ok tt w' /\
    listenerShape s x l o
      match mode with
      | Running => Running
      | Paused sb => Paused (sb ++ b)
      | _ => Detached
      end [] w' /\
    queue w' = queue w ++ match mode with Closed => [TEvent s "onCancel"] | _ => [] end /\
    trace w' = trace w ++
               match mode with
               | Running => flat_map (userEvents l o) b
               | Closed => flat_map (userEvents l o) b ++ [EvCancel x]
               | _ => []
               end.
Proof.
  intros Hs. pose proof Hs as [HS HX]. destruct mode as [|sb| |].
  - eexists. split.
    { erewrite Stream_emit_tick_user; [|exact HS|reflexivity|exact HX|reflexivity| |reflexivity..].
      - cbv zeta. cbn [_isClosed listenedStream]. reflexivity.
      - by apply benign_all. }
    wsimpl. split; [|by rewrite app_nil_r]. split; wsimpl; [|done].
    by rewrite lookup_insert_eq.
  - destruct (emit_loop_paused b w sb b Hs) as (w1 & E1 & [HS1 HX1] & HQ1 & HT1).
    eexists. split.
    { cbn [runTask]. unfold Stream_emit_tick. step theStream_ok.
      cbn [_buffer listenedStream]. step0 E1. step updStream_ok. step theStream_ok.
      cbn [_isClosed withBuffer listenedStream]. reflexivity. }
    wsimpl. split; [|by rewrite HQ1, HT1, !app_nil_r]. split; wsimpl; [|done].
    by rewrite lookup_insert_eq.
  - eexists. split.
    { erewrite Stream_emit_tick_user; [|exact HS|reflexivity|exact HX|reflexivity| |reflexivity..].
      - cbv zeta. cbn [_isClosed listenedStream]. eapply cancel_ok. lk.
      - by apply benign_all. }
    wsimpl. split; [|by rewrite <- app_assoc]. split; wsimpl; [|done].
    by rewrite lookup_insert_eq.
  - eexists. split.
    { cbn [runTask]. unfold Stream_emit_tick. step theStream_ok.
      erewrite bind_ok by (eapply emit_loop_detached; [exact HS|reflexivity]).
      step updStream_ok. step theStream_ok.
      cbn [_isClosed _subscription withBuffer listenedStream]. reflexivity. }
    wsimpl. split; [|by rewrite !app_nil_r]. split; wsimpl; [|done].
    by rewrite lookup_insert_eq.
Qed.

Lemma listener_publish w mode b p :
  listenerShape s x l o mode b w -> mode = Running \/ (exists sb, mode = Paused sb) ->
  exists w',
    publish s p w = Ok tt w' /\
    listenerShape s x l o mode (b ++ [messageOf p]) w' /\
    queue w' = queue w ++ match mode with Running => [TEmit s] | _ => [] end /\
    trace w' = trace w.
Proof.
  intros [HS HX] Hm. eexists. split.
  { eapply publish_ok; [exact HS|reflexivity|]. by destruct Hm as [->|[sb ->]]. }
  cbv zeta. destruct Hm as [->|[sb ->]]; cbn [willEmit _isPaused _subscription listenedStream
    isPausedMode]; wsimpl; (split; [|by rewrite ?app_nil_r]); (split; wsimpl; [|done]);
    by rewrite lookup_insert_eq.
Qed.

Lemma listener_pause w b :
  listenerShape s x l o Running b w ->
  exists w',
    sub_pause x w = Ok tt w' /\
    listenerShape s x l o (Paused []) b w' /\
    queue w' = queue w ++ [TEvent s "onPause"] /\
    trace w' = trace w ++ if onPause o then [EvPause l] else [].
Proof.
  intros [HS HX]. eexists. split.
  { unfold sub_pause. step theSubscription_ok. cbn [sub_isPaused isPausedMode heldBy].
    step updSubscription_ok. cbn [sub_listenOptions sub_consumer sub_stream call_onPause].
    rewrite ?bind_assoc.
    erewrite (bind_ok (when (onPause o) (record (EvPause l)))); cycle 1.
    { instantiate (1 := setTrace (fun t => t ++ if onPause o then [EvPause l] else []) _).
      destruct (onPause o); cbn [when]; [reflexivity|]. by rewrite setTrace_nil. }
    unfold pause. step theStream_ok. cbn [class listenedStream].
    unfold Stream_pause. step theStream_ok. cbn [_isPaused listenedStream isPausedMode].
    step updStream_ok. reflexivity. }
  wsimpl. split; [|done]. split; wsimpl; by rewrite lookup_insert_eq.
Qed.

Lemma listener_pause_again w sb b :
  listenerShape s x l o (Paused sb) b w -> sub_pause x w = Ok tt w.
Proof. intros [HS HX]. unfold sub_pause. step theSubscription_ok. reflexivity. Qed.

Lemma listener_resume w sb b :
  listenerShape s x l o (Paused sb) b w ->
  exists w',
    sub_resume x w = Ok tt w' /\
    listenerShape s x l o Running b w' /\
    queue w' = queue w ++ [TEvent s "onResume"; TEmit s] /\
    trace w' = trace w ++ (if onResume o then [EvResume l] else []) ++
               flat_map (userEvents l o) sb.
Proof.
  intros [HS HX]. eexists. split.
  { unfold sub_resume. step theSubscription_ok. cbn [sub_isPaused heldBy isPausedMode].
    step updSubscription_ok. cbn [sub_listenOptions sub_consumer sub_stream call_onResume].
    rewrite ?bind_assoc.
    erewrite (bind_ok (when (onResume o) (record (EvResume l)))); cycle 1.
    { instantiate (1 := setTrace (fun t => t ++ if onResume o then [EvResume l] else []) _).
      destruct (onResume o); cbn [when]; [reflexivity|]. by rewrite setTrace_nil. }
    unfold resume. step theStream_ok. cbn [class listenedStream].
    unfold Stream_resume. rewrite ?bind_assoc. step theStream_ok.
    cbn [_isPaused listenedStream isPausedMode].
    step updStream_ok. unfold Stream_callEventListeners. step0 nextTick_ok.
    erewrite bind_ok by (eapply Stream_emit_ok; lk).
    cbn [willEmit withPaused _isPaused _subscription listenedStream].
    unfold sub_emit. step theSubscription_ok. cbn [sub_isPaused withSubPaused sub_buffer heldBy].
    erewrite bind_ok; cycle 1.
    { eapply dispatch_loop_user; [lk|reflexivity|by apply benign_all]. }
    cbn [sub_listenOptions]. eapply updSubscription_ok. lk. }
  wsimpl. split; [|by rewrite <- !app_assoc]. split; wsimpl.
  - by rewrite lookup_insert_eq.
  - by rewrite lookup_insert_eq.
Qed.

Lemma listener_resume_again w b :
  listenerShape s x l o Running b w -> sub_resume x w = Ok tt w.
Proof. intros [HS HX]. unfold sub_resume. step theSubscription_ok. reflexivity. Qed.

Lemma listener_close w b :
  listenerShape s x l o Running b w ->
  exists w',
    close s w = Ok tt w' /\
    listenerShape s x l o Closed (b ++ [Done]) w' /\
    queue w' = queue w ++ [TEmit s] /\ trace w' = trace w.
Proof.
  intros [HS HX]. eexists. split.
  { erewrite close_base by (first [exact HS|reflexivity]). by eapply Stream_close_ok. }
  cbv zeta. cbn [willEmit _isPaused _subscription listenedStream isPausedMode]. wsimpl.
  split; [|done]. split; wsimpl; [|done]. by rewrite lookup_insert_eq.
Qed.

Lemma listener_frame mode b w w' :
  streams w' = streams w -> subscriptions w' = subscriptions w ->
  listenerShape s x l o mode b w -> listenerShape s x l o mode b w'.
Proof. unfold listenerShape. intros -> ->. done. Qed.

Lemma listenerInv_weaken tr0 heard pending mode m m' w :
  (m <= m')%nat -> listenerInv s x l o tr0 heard pending mode m w ->
  listenerInv s x l o tr0 heard pending mode m' w.
Proof.
  intros Hm (b & evs & Hs & Hq & Htr & Hd & Hp & Hmode & Hb).
  exists b, evs. repeat (split; [done|]). lia.
Qed.

Lemma ofTheStream_cases task : ofTheStream s task = true ->
  (exists name, task = TEvent s name) \/ task = TEmit s.
Proof.
  destruct task as [s'|s' name|s' m]; cbn; [| |done]; intros ->%bool_decide_eq_true_1; eauto.
Qed.

(** One closure of the queue. *)
Lemma listenerInv_tick tr0 heard pending mode m w :
  listenerInv s x l o tr0 heard pending mode m w -> queue w <> [] ->
  exists w' heard' pending' mode',
    tick w = Ok true w' /\
    listenerInv s x l o tr0 heard' pending' mode' (m - 1) w' /\
    heard' ++ pending' = heard ++ pending /\
    match mode with
    | Running => mode' = Running
    | Paused _ => heard' = heard /\ exists sb, mode' = Paused sb
    | _ => mode' = Closed \/ mode' = Detached
    end.
Proof.
  intros (b & evs & Hs & Hq & Htr & Hd & Hp & Hmode & Hb) Hne.
  destruct (queue w) as [|task q] eqn:EQ; [done|]. clear Hne.
  cbn [forallb] in Hq. apply andb_true_iff in Hq as [Htask Hq].
  rewrite (tick_cons _ _ _ EQ).
  assert (Hs1 : listenerShape s x l o mode b (setQueue (fun _ => q) w))
    by (by eapply listener_frame).
  cbn [length] in Hb.
  destruct (ofTheStream_cases task Htask) as [(name & ->)| ->].
  - exists (setQueue (fun _ => q) w), heard, pending, mode. split.
    { step0 (listener_event _ _ _ name Hs1). reflexivity. }
    split; [|split; [done|]].
    + exists b, evs. wsimpl. repeat (split; [done|]). split; [|lia].
      destruct mode; [|done| |done].
      * intros H. eapply elem_of_tail; [by apply Hmode|done].
      * destruct Hmode as [H1 H2]. split; [done|]. by eapply elem_of_tail.
    + destruct mode; eauto.
  - destruct (listener_emit _ mode b Hs1) as (w' & E & Hs' & HQ & HT).
    wsimpl. destruct mode as [|sb| |]; cbn [heldBy] in *.
    + exists w', (heard ++ b), [], Running. split; [step0 E; reflexivity|].
      split; [|split; [by rewrite Hp, app_nil_r|done]].
      exists [], (evs ++ flat_map (userEvents l o) b). rewrite HQ, HT, app_nil_r.
      split; [done|]. split; [done|]. split; [by rewrite Htr, app_assoc|].
      split; [by rewrite deliveredTo_app, deliveredTo_userEvents, Hd, flat_map_app|].
      split; [done|]. split; [done|lia].
    + exists w', heard, (sb ++ b), (Paused (sb ++ b)). split; [step0 E; reflexivity|].
      rewrite !app_nil_r in *. split; [|split; [by rewrite Hp|eauto]].
      exists [], evs. rewrite HQ, HT. cbn [heldBy]. rewrite app_nil_r.
      repeat (split; [done|]). lia.
    + destruct Hmode as [[b' ->] Hin].
      exists w', (heard ++ b' ++ [Done]), [], Detached. split; [step0 E; reflexivity|].
      split; [|split; [by rewrite Hp, app_nil_r|by right]].
      exists [], (evs ++ flat_map (userEvents l o) (b' ++ [Done]) ++ [EvCancel x]).
      rewrite HQ, HT. split; [done|].
      split; [rewrite forallb_app, Hq; cbn; by rewrite bool_decide_eq_true_2|].
      split; [by rewrite Htr, <- !app_assoc|].
      split.
      { rewrite !deliveredTo_app, deliveredTo_userEvents, Hd, !flat_map_app. cbn.
        by rewrite !app_nil_r. }
      split; [done|]. split; [|rewrite length_app; cbn; lia].
      split; [done|]. rewrite !elem_of_app. right. right. left.
    + destruct Hmode as [-> Hc].
      exists w', heard, [], Detached. split; [step0 E; reflexivity|].
      split; [|split; [by rewrite Hp|by right]].
      exists [], evs. rewrite HQ, HT, !app_nil_r. repeat (split; [done|]). lia.
Qed.

(** One call of the producer or of the listener. *)
Lemma listenerInv_step tr0 heard pending mode m w c :
  listenerInv s x l o tr0 heard pending mode m w ->
  mode = Running \/ (exists sb, mode = Paused sb) ->
  exists w' heard' pending' mode',
    listenerStep s x c w = Ok tt w' /\
    listenerInv s x l o tr0 heard' pending' mode' (m + 2) w' /\
    heard' ++ pending' = heard ++ pending ++ published [c] /\
    (mode' = Running \/ exists sb, mode' = Paused sb) /\
    isPausedMode mode' = pausedAfter (isPausedMode mode) [c] /\
    (isPausedMode mode = true -> c <> LResume -> heard' = heard).
Proof.
  intros Hinv Hopen. destruct c as [p| | |]; cbn [listenerStep published flat_map pausedAfter fold_left].
  - destruct Hinv as (b & evs & Hs & Hq & Htr & Hd & Hp & Hmode & Hb).
    destruct (listener_publish w mode b p Hs Hopen) as (w' & E & Hs' & HQ & HT).
    exists w', heard, (pending ++ [messageOf p]), mode. split; [done|].
    split; [|split; [by rewrite app_nil_r, !app_assoc|done]].
    exists (b ++ [messageOf p]), evs. rewrite HQ, HT. split; [done|].
    split.
    { rewrite forallb_app, Hq. destruct mode; cbn; by rewrite ?bool_decide_eq_true_2. }
    split; [done|]. split; [done|]. split; [by rewrite Hp, app_assoc|].
    destruct Hopen as [->|[sb ->]].
    + split; [intros _; apply elem_of_app; right; left|]. rewrite length_app. cbn. lia.
    + split; [done|]. rewrite app_nil_r. lia.
  - destruct Hopen as [->|[sb ->]].
    + destruct Hinv as (b & evs & Hs & Hq & Htr & Hd & Hp & Hmode & Hb).
      destruct (listener_pause w b Hs) as (w' & E & Hs' & HQ & HT).
      exists w', heard, pending, (Paused []). split; [done|].
      split; [|split; [by rewrite !app_nil_r|eauto]].
      exists b, (evs ++ if onPause o then [EvPause l] else []). rewrite HQ, HT.
      split; [done|].
      split; [rewrite forallb_app, Hq; cbn; by rewrite bool_decide_eq_true_2|].
      split; [by rewrite Htr, app_assoc|].
      split; [rewrite deliveredTo_app, Hd; destruct (onPause o); cbn; by rewrite app_nil_r|].
      split; [done|]. split; [done|]. rewrite length_app. cbn. lia.
    + destruct Hinv as (b & evs & Hs & Hinv).
      exists w, heard, pending, (Paused sb).
      split; [by eapply listener_pause_again|].
      split; [|split; [by rewrite !app_nil_r|eauto]].
      eapply listenerInv_weaken; [|by exists b, evs]. lia.
  - destruct Hopen as [->|[sb ->]].
    + destruct Hinv as (b & evs & Hs & Hinv).
      exists w, heard, pending, Running.
      split; [by eapply listener_resume_again|].
      split; [|split; [by rewrite !app_nil_r|eauto]].
      eapply listenerInv_weaken; [|by exists b, evs]. lia.
    + destruct Hinv as (b & evs & Hs & Hq & Htr & Hd & Hp & Hmode & Hb).
      destruct (listener_resume w sb b Hs) as (w' & E & Hs' & HQ & HT).
      cbn [heldBy] in Hp.
      exists w', (heard ++ sb), b, Running. split; [done|].
      split; [|split; [by rewrite Hp, !app_nil_r, app_assoc|split; [eauto|done]]].
      exists b, (evs ++ (if onResume o then [EvResume l] else []) ++
                 flat_map (userEvents l o) sb). rewrite HQ, HT.
      split; [done|].
      split; [rewrite forallb_app, Hq; cbn; by rewrite bool_decide_eq_true_2|].
      split; [by rewrite Htr, <- app_assoc|].
      split.
      { rewrite !deliveredTo_app, deliveredTo_userEvents, Hd, flat_map_app.
        by destruct (onResume o). }
      split; [done|].
      split; [intros _; apply elem_of_app; right; right; left|].
      rewrite length_app. cbn. lia.
  - destruct (queue w) as [|task q] eqn:EQ.
    + exists w, heard, pending, mode. split; [step0 (tick_nil w EQ); reflexivity|].
      split; [eapply listenerInv_weaken; [|exact Hinv]; lia|].
      split; [by rewrite app_nil_r|]. split; [done|]. split; [done|done].
    + destruct (listenerInv_tick tr0 heard pending mode m w Hinv)
        as (w' & heard' & pending' & mode' & E & Hinv' & Hsum & Hm); [by rewrite EQ|].
      exists w', heard', pending', mode'. split; [step0 E; reflexivity|].
      split; [eapply listenerInv_weaken; [|exact Hinv']; lia|].
      split; [by rewrite app_nil_r|].
      destruct Hopen as [->|[sb ->]].
      * subst mode'. split; [eauto|]. split; [done|done].
      * destruct Hm as [-> [sb' ->]]. split; [eauto|]. split; [done|done].
Qed.

Lemma pausedAfter_cons b c script :
  pausedAfter b (c :: script) = pausedAfter (pausedAfter b [c]) script.
Proof. reflexivity. Qed.

Lemma listenerInv_script tr0 script : forall heard pending mode m w,
  listenerInv s x l o tr0 heard pending mode m w ->
  mode = Running \/ (exists sb, mode = Paused sb) ->
  exists w' heard' pending' mode',
    forEach (listenerStep s x) script w = Ok tt w' /\
    listenerInv s x l o tr0 heard' pending' mode' (m + 2 * length script) w' /\
    heard' ++ pending' = heard ++ pending ++ published script /\
    (mode' = Running \/ exists sb, mode' = Paused sb) /\
    isPausedMode mode' = pausedAfter (isPausedMode mode) script /\
    (isPausedMode mode = true -> LResume ∉ script -> heard' = heard).
Proof.
  induction script as [|c script IH]; intros heard pending mode m w Hinv Hopen.
  - exists w, heard, pending, mode. split; [done|].
    split; [eapply listenerInv_weaken; [|exact Hinv]; lia|].
    split; [by rewrite app_nil_r|]. done.
  - destruct (listenerInv_step tr0 heard pending mode m w c Hinv Hopen)
      as (w1 & heard1 & pending1 & mode1 & E1 & Hinv1 & Hsum1 & Hopen1 & Hp1 & Hh1).
    destruct (IH heard1 pending1 mode1 _ w1 Hinv1 Hopen1)
      as (w' & heard' & pending' & mode' & E & Hinv' & Hsum & Hopen' & Hp & Hh).
    exists w', heard', pending', mode'. split; [cbn [forEach]; step0 E1; exact E|].
    split; [eapply listenerInv_weaken; [|exact Hinv']; cbn [length]; lia|].
    split.
    { rewrite Hsum, app_assoc, Hsum1. change (c :: script) with ([c] ++ script).
      unfold published. rewrite flat_map_app. by rewrite <- !app_assoc. }
    split; [done|]. split; [by rewrite pausedAfter_cons, <- Hp1|].
    intros Hpaused Hnr. rewrite Hh, Hh1; try done.
    + intros ->. apply Hnr. left.
    + rewrite Hp1. destruct c; cbn; try done. exfalso. apply Hnr. left.
    + intros Hin. apply Hnr. by right.
Qed.

(** The queue runs empty. *)
Lemma listenerInv_drain tr0 fuel : forall heard pending mode m w,
  listenerInv s x l o tr0 heard pending mode m w -> (m <= fuel)%nat ->
  exists w' heard' pending' mode',
    drain fuel w = Ok tt w' /\ queue w' = [] /\
    listenerInv s x l o tr0 heard' pending' mode' m w' /\
    heard' ++ pending' = heard ++ pending /\
    match mode with
    | Running => mode' = Running
    | Paused _ => heard' = heard /\ exists sb, mode' = Paused sb
    | _ => mode' = Closed \/ mode' = Detached
    end.
Proof.
  induction fuel as [|fuel IH]; intros heard pending mode m w Hinv Hm.
  - exists w, heard, pending, mode. split; [done|]. split.
    { destruct Hinv as (b & evs & _ & _ & _ & _ & _ & _ & Hb).
      destruct (queue w); [done|]. cbn [length] in Hb. lia. }
    split; [done|]. split; [done|]. destruct mode; eauto.
  - destruct (queue w) as [|task q] eqn:EQ.
    + exists w, heard, pending, mode. split; [by apply drain_nil|]. split; [done|].
      split; [done|]. split; [done|]. destruct mode; eauto.
    + assert (0 < m)%nat.
      { destruct Hinv as (b & evs & _ & _ & _ & _ & _ & _ & Hb).
        rewrite EQ in Hb. cbn [length] in Hb. lia. }
      destruct (listenerInv_tick tr0 heard pending mode m w Hinv)
        as (w1 & heard1 & pending1 & mode1 & E1 & Hinv1 & Hsum1 & Hm1); [by rewrite EQ|].
      destruct (IH heard1 pending1 mode1 (m - 1)%nat w1 Hinv1)
        as (w' & heard' & pending' & mode' & E & HQ & Hinv' & Hsum & Hm'); [lia|].
      exists w', heard', pending', mode'. split; [cbn [drain]; step0 E1; exact E|].
      split; [done|]. split; [eapply listenerInv_weaken; [|exact Hinv']; lia|].
      split; [by rewrite Hsum|].
      destruct mode as [|sb| |].
      * by subst mode1.
      * destruct Hm1 as [-> [sb1 ->]]. done.
      * destruct Hm1 as [->| ->]; done.
      * destruct Hm1 as [->| ->]; done.
Qed.

Lemma listenerInv_close tr0 heard pending m w :
  listenerInv s x l o tr0 heard pending Running m w ->
  exists w',
    close s w = Ok tt w' /\
    listenerInv s x l o tr0 heard (pending ++ [Done]) Closed (m + 2) w'.
Proof.
  intros (b & evs & Hs & Hq & Htr & Hd & Hp & Hmode & Hb).
  destruct (listener_close w b Hs) as (w' & E & Hs' & HQ & HT).
  exists w'. split; [done|]. exists (b ++ [Done]), evs. rewrite HQ, HT.
  split; [done|]. split; [rewrite forallb_app, Hq; cbn; by rewrite bool_decide_eq_true_2|].
  split; [done|]. split; [done|]. split; [by rewrite Hp|].
  split; [split; [by exists b|apply elem_of_app; right; left]|].
  rewrite length_app. cbn. lia.
Qed.
End Listener.

(** A new stream and its first listener. *)
Lemma listener_setup w l o :
  queue w = [] ->
  exists w2,
    (s <- allocStream ClsStream ;; x <- listen s (User l) o ;; ret (s, x)) w
    = Ok (nextStream w, nextSubscription w) w2 /\
    listenerInv (nextStream w) (nextSubscription w) l o (trace w) [] [] Running 2 w2.
Proof.
  intros HQ. eexists. split.
  { step0 allocStream_ok. erewrite bind_ok; cycle 1.
    { erewrite listen_base by (first [lk|reflexivity]).
      eapply Stream_listen_free; [lk|reflexivity]. }
    reflexivity. }
  wsimpl. exists [], []. split; [|split; [|split; [|split; [|split; [|split]]]]]; wsimpl.
  - split; wsimpl; by rewrite lookup_insert_eq.
  - rewrite HQ. cbn. by rewrite !bool_decide_eq_true_2.
  - by rewrite app_nil_r.
  - done.
  - done.
  - done.
  - rewrite HQ. cbn. lia.
Qed.

Lemma listener_listen w l o w2 :
  (s <- allocStream ClsStream ;; x <- listen s (User l) o ;; ret (s, x)) w
  = Ok (nextStream w, nextSubscription w) w2 ->
  listen (nextStream w) (User l) o (storeStream (nextStream w) (newStream ClsStream) w)
  = Ok (nextSubscription w) w2.
Proof.
  step0 allocStream_ok. unfold bind, ret.
  destruct (listen _ _ _ _) as [x1 w1|e w1]; [|done]. by intros [= -> ->].
Qed.

(** A new stream with one listener that never cancels on an error: while
    the producer publishes values and errors, the listener pauses and
    resumes its subscription and closures of the queue run, in any order.
    If the subscription is not paused at the end, then once the queue has
    run empty the listener has been called with every message published,
    each once, in the order of publication (errors only if it has an
    onError callback), followed by Done if the stream was closed; after
    Done the stream has detached the listener. *)
Theorem listener_hears_everything_in_order
    (w : World) (l : nat) (o : StreamListenOptions) (script : list ListenerCall)
    (closes : bool) (fuel : nat) :
  queue w = [] -> cancelOnError o = false ->
  pausedAfter false script = false ->
  (4 + 2 * length script <= fuel)%nat ->
  let s := nextStream w in
  let x := nextSubscription w in
  exists w' evs,
    listenerScenario l o script closes fuel w = Ok (s, x) w' /\
    queue w' = [] /\ trace w' = trace w ++ evs /\
    deliveredTo l evs =
      flat_map (userEvents l o) (published script ++ if closes then [Done] else []) /\
    (closes = true ->
     EvCancel x ∈ evs /\
     exists st, streams w' !! s = Some st /\ _subscription st = None /\ _isClosed st = true).
Proof.
  intros HQ Ho Hp Hfuel s x.
  destruct (listener_setup w l o HQ) as (w2 & E2 & Hinv2).
  destruct (listenerInv_script _ _ _ _ Ho _ script _ _ _ _ _ Hinv2)
    as (w3 & heard3 & pending3 & mode3 & E3 & Hinv3 & Hsum3 & Hopen3 & Hp3 & _); [by left|].
  cbn [isPausedMode] in Hp3. rewrite Hp in Hp3.
  destruct Hopen3 as [->|[sb ->]]; [|done]. cbn [app] in Hsum3.
  pose proof (listener_listen w l o w2 E2) as EL.
  unfold listenerScenario. step0 allocStream_ok. step0 EL. step0 E3.
  destruct closes; cbn [when].
  - destruct (listenerInv_close _ _ _ _ _ _ _ _ _ Hinv3) as (w4 & E4 & Hinv4).
    destruct (listenerInv_drain _ _ _ _ Ho _ fuel _ _ _ _ _ Hinv4)
      as (w' & heard' & pending' & mode' & E & HQ' & Hinv' & Hsum & Hm'); [lia|].
    destruct Hinv' as (b & evs & [HS HX] & Hq & Htr & Hd & Hpend & Hmode & Hb).
    destruct Hm' as [->| ->]; [rewrite HQ' in Hmode; by apply proj2, elem_of_nil in Hmode|].
    destruct Hmode as [-> Hc]. cbn [heldBy app] in Hpend. subst pending'.
    rewrite app_nil_r in Hsum. subst heard'.
    exists w', evs. split; [step0 E4; step0 E; reflexivity|].
    split; [done|]. split; [done|]. split.
    { by rewrite Hd, app_assoc, Hsum3. }
    intros _. split; [done|]. by eexists.
  - destruct (listenerInv_drain _ _ _ _ Ho _ fuel _ _ _ _ _ Hinv3)
      as (w' & heard' & pending' & mode' & E & HQ' & Hinv' & Hsum & ->); [lia|].
    destruct Hinv' as (b & evs & [HS HX] & Hq & Htr & Hd & Hpend & Hmode & Hb).
    exists w', evs. split; [step0 @ret_ok; step0 E; reflexivity|].
    split; [done|]. split; [done|]. split; [|done].
    rewrite Hd, app_nil_r, <- Hsum3, <- Hsum.
    destruct b as [|m0 b]; [|exfalso; eapply elem_of_nil; rewrite <- HQ'; by apply Hmode].
    cbn [heldBy app] in Hpend. subst pending'. by rewrite app_nil_r.
Qed.

Lemma listener_hears_everything_in_order_witness :
  exists w' evs,
    listenerScenario 7 plainOptions
      [LPublish (PubData 1); LPause; LTick; LPublish (PubError (VStr "no")); LTick;
       LPublish (PubData 2); LResume] true 18 emptyWorld = Ok (0%nat, 0%nat) w' /\
    trace w' = evs /\
    deliveredTo 7 evs = [EvData 7 1; EvError 7 (VError "no"); EvData 7 2; EvDone 7].
Proof.
  destruct (listener_hears_everything_in_order emptyWorld 7 plainOptions
              [LPublish (PubData 1); LPause; LTick; LPublish (PubError (VStr "no")); LTick;
               LPublish (PubData 2); LResume] true 18)
    as (w' & evs & E & HQ & Htr & Hd & _).
  - reflexivity.
  - reflexivity.
  - reflexivity.
  - cbn. lia.
  - exists w', evs. split; [exact E|]. split; [exact Htr|exact Hd].
Defined.

(** While a subscription is paused none of onData, onError and onDone is
    called: whatever the producer publishes after the call of pause and
    however many closures run, until the subscription is resumed. *)
Theorem paused_listener_hears_nothing
    (w : World) (l : nat) (o : StreamListenOptions) (before after : list ListenerCall) :
  queue w = [] -> cancelOnError o = false -> LResume ∉ after ->
  let s := nextStream w in
  let x := nextSubscription w in
  exists w1 w2,
    pausedListener l o before w = Ok (s, x) w1 /\
    forEach (listenerStep s x) after w1 = Ok tt w2 /\
    deliveredTo l (trace w2) = deliveredTo l (trace w1) /\
    exists sub, subscriptions w2 !! x = Some sub /\ sub_isPaused sub = true.
Proof.
  intros HQ Ho Hnr s x.
  destruct (listener_setup w l o HQ) as (w2 & E2 & Hinv2).
  destruct (listenerInv_script _ _ _ _ Ho _ before _ _ _ _ _ Hinv2)
    as (w3 & heard3 & pending3 & mode3 & E3 & Hinv3 & Hsum3 & Hopen3 & Hp3 & _); [by left|].
  destruct (listenerInv_step _ _ _ _ Ho _ _ _ _ _ _ LPause Hinv3 Hopen3)
    as (w4 & heard4 & pending4 & mode4 & E4 & Hinv4 & Hsum4 & Hopen4 & Hp4 & _).
  cbn in Hp4. destruct Hopen4 as [->|[sb4 ->]]; [done|].
  destruct (listenerInv_script _ _ _ _ Ho _ after _ _ _ _ _ Hinv4)
    as (w5 & heard5 & pending5 & mode5 & E5 & Hinv5 & Hsum5 & Hopen5 & Hp5 & Hh5); [eauto|].
  rewrite Hh5 in Hinv5 by done.
  exists w4, w5. split.
  { pose proof (listener_listen w l o w2 E2) as EL.
    unfold pausedListener. step0 allocStream_ok. step0 EL. step0 E3.
    cbn [listenerStep] in E4. step0 E4. reflexivity. }
  split; [done|].
  destruct Hinv4 as (b4 & evs4 & _ & _ & Htr4 & Hd4 & _).
  destruct Hinv5 as (b5 & evs5 & [_ HX5] & _ & Htr5 & Hd5 & _).
  split; [by rewrite Htr4, Htr5, !deliveredTo_app, Hd4, Hd5|].
  eexists. split; [exact HX5|]. cbn [sub_isPaused]. rewrite Hp5.
  clear -Hnr. cbn [isPausedMode]. induction after as [|c after IH]; [done|].
  rewrite pausedAfter_cons. destruct c; cbn; try (apply IH; intros H; apply Hnr; by right).
  exfalso. apply Hnr. left.
Qed.

Lemma paused_listener_hears_nothing_witness :
  exists w1 w2,
    pausedListener 7 plainOptions [LPublish (PubData 1)] emptyWorld = Ok (0%nat, 0%nat) w1 /\
    forEach (listenerStep 0 0) [LTick; LTick; LPublish (PubData 2); LTick] w1 = Ok tt w2 /\
    deliveredTo 7 (trace w2) = deliveredTo 7 (trace w1).
Proof.
  destruct (paused_listener_hears_nothing emptyWorld 7 plainOptions [LPublish (PubData 1)]
              [LTick; LTick; LPublish (PubData 2); LTick])
    as (w1 & w2 & E1 & E2 & Hd & _).
  - reflexivity.
  - reflexivity.
  - intros H. by repeat (apply elem_of_cons in H as [H|H]; [discriminate|]);
      apply elem_of_nil in H.
  - exists w1, w2. split; [exact E1|]. split; [exact E2|exact Hd].
Defined.

(** ** Terminal aggregations over a stream that is being fed *)

Lemma aggStep_goes ag m ag' evs :
  aggStep ag m = Goes ag' evs ->
  agg_promise ag' = agg_promise ag /\ agg_sub ag' = agg_sub ag /\ agg_kind ag' = agg_kind ag.
Proof.
  destruct m as [d|e|]; cbn; [|done..].
  destruct (agg_kind ag) as [c| |c|l f|f| |] eqn:Hk.
  - destruct (c d) as [[|]|]; [|done..]. by intros [= <- <-].
  - done.
  - destruct (c d) as [[|]|]; [done| |done]. by intros [= <- <-].
  - destruct (f d); [|done]. by intros [= <- <-].
  - destruct (agg_seenFirst ag); [destruct (f _ d); [|done]|]; by intros [= <- <-].
  - by intros [= <- <-].
  - intros [= <- <-]. by destruct (bool_decide _).
Qed.

Lemma aggRun_goes ms : forall ag ag' evs,
  aggRun ag ms = Goes ag' evs ->
  agg_promise ag' = agg_promise ag /\ agg_sub ag' = agg_sub ag /\ agg_kind ag' = agg_kind ag.
Proof.
  induction ms as [|m ms IH]; intros ag ag' evs; cbn [aggRun].
  - by intros [= <- <-].
  - destruct (aggStep ag m) as [ag1 evs1|c p evs1] eqn:E1; [|done].
    destruct (aggRun ag1 ms) as [ag2 evs2|c p evs2] eqn:E2; cbn; [|done].
    intros [= <- <-]. destruct (aggStep_goes _ _ _ _ E1) as (H1 & H2 & H3).
    destruct (IH _ _ _ E2) as (H4 & H5 & H6). split; [congruence|]. split; congruence.
Qed.

Lemma aggRun_app ag ms1 ms2 :
  aggRun ag (ms1 ++ ms2) =
  match aggRun ag ms1 with
  | Goes ag' evs => afterEvents evs (aggRun ag' ms2)
  | Stops c p evs => Stops c p evs
  end.
Proof.
  revert ag. induction ms1 as [|m ms1 IH]; intros ag; cbn [app aggRun].
  - by destruct (aggRun ag ms2).
  - destruct (aggStep ag m) as [ag1 evs1|c p evs1]; [|done]. rewrite IH.
    destruct (aggRun ag1 ms1) as [ag2 evs2|c p evs2]; cbn; [|done].
    destruct (aggRun ag2 ms2); cbn; by rewrite app_assoc.
Qed.

Lemma aggRun_stops ag ms1 ms2 c p evs :
  aggRun ag ms1 = Stops c p evs -> aggRun ag (ms1 ++ ms2) = Stops c p evs.
Proof. intros H. by rewrite aggRun_app, H. Qed.

Section FedAggregation.
Variables (s x a : nat).

Ltac agg_facts :=
  unfold cancelledAndSettled; wsimpl;
  split; [split; [|split]; wsimpl; by rewrite ?lookup_insert_eq
         |split; [done|by rewrite <- ?app_assoc, ?app_nil_r]].

(** One message for the callbacks of an aggregation whose promise is
    pending. *)
Lemma agg_message w closed bs ag m :
  aggShape s x a true closed bs ag w ->
  agg_promise ag = Pending -> agg_sub ag = Some x ->
  exists w',
    messageHandler x m w = Ok tt w' /\
    match aggStep ag m with
    | Goes ag' evs =>
        aggShape s x a true closed bs ag' w' /\
        queue w' = queue w /\ trace w' = trace w ++ evs
    | Stops true p evs =>
        aggShape s x a false closed bs (withPromise p ag) w' /\
        queue w' = queue w ++ [TEvent s "onCancel"] /\
        trace w' = trace w ++ evs ++ [EvCancel x; EvSettle a p]
    | Stops false p evs =>
        aggShape s x a true closed bs (withPromise p ag) w' /\
        queue w' = queue w /\ trace w' = trace w ++ evs ++ [EvSettle a p]
    end.
Proof.
  intros (HS & HX & HA) Hp Hx.
  set (sub := mkSubscription s (Collect a) forwardOptions [] false) in *.
  set (w1 := setSubscriptions (fun m0 => <[x := withSubBuffer [m] sub]> m0) w).
  assert (Hcf : forall p w2,
    aggregations w2 = aggregations w -> streams w2 = streams w ->
    subscriptions w2 = subscriptions w1 ->
    cancelAndFulfill a (settle a p) w2 =
    Ok tt (cancelledAndSettled a x ag s (mkStream (Some x) bs false closed ∅ ClsStream) p w2)).
  { intros p w2 E1 E2 E3. eapply (cancelAndFulfill_ok w2 a x ag (withSubBuffer [m] sub));
      [by rewrite E1|done|done|rewrite E3; unfold w1; wsimpl; apply lookup_insert_eq|].
    cbn [sub_stream withSubBuffer sub]. by rewrite E2. }
  assert (Hrun : forall w2,
    dispatch x m w1 = Ok tt w2 -> subscriptions w2 = subscriptions w1 ->
    messageHandler x m w = Ok tt (setSubscriptions (fun _ => subscriptions w) w2)).
  { intros w2 Hd Hs2. eapply messageHandler_run; [exact HX|reflexivity|reflexivity|exact Hd|].
    exact Hs2. }
  assert (Hsub : theSubscription x w1 = Ok (withSubBuffer [m] sub) w1).
  { apply theSubscription_ok. unfold w1. wsimpl. apply lookup_insert_eq. }
  assert (Hagg : theAggregation a w1 = Ok ag w1) by (by apply theAggregation_ok).
  destruct m as [d|e|]; cbn [aggStep].
  - (* a data value *)
    assert (Hd : forall w2, agg_onData a d w1 = Ok tt w2 -> dispatch x (Data d) w1 = Ok tt w2).
    { intros w2 H. unfold dispatch. step0 Hsub. exact H. }
    destruct (agg_kind ag) as [c| |c|l f|f| |] eqn:Hk.
    + destruct (c d) as [[|]|e] eqn:Hc.
      * eexists. split.
        { apply Hrun; [apply Hd|].
          - unfold agg_onData. step0 Hagg.
          rewrite Hk, Hc. cbn [call].
          erewrite bind_ok by (eapply tryCatch_ok; reflexivity). reflexivity.
          - reflexivity. }
        agg_facts.
      * eexists. split.
        { apply Hrun; [apply Hd|].
          - unfold agg_onData. step0 Hagg.
          rewrite Hk, Hc. cbn [call].
          erewrite bind_ok by (eapply tryCatch_ok; reflexivity). cbn beta iota.
          unfold reject. by apply Hcf.
          - reflexivity. }
        agg_facts.
      * eexists. split.
        { apply Hrun; [apply Hd|].
          - unfold agg_onData. step0 Hagg.
          rewrite Hk, Hc. cbn [call].
          erewrite bind_ok by (erewrite tryCatch_throw by reflexivity; reflexivity).
          cbn beta iota. unfold reject. by apply Hcf.
          - reflexivity. }
        agg_facts.
    + eexists. split.
      { apply Hrun; [apply Hd|].
          - unfold agg_onData. step0 Hagg.
        rewrite Hk. unfold resolve. by apply Hcf.
          - reflexivity. }
      agg_facts.
    + destruct (c d) as [[|]|e] eqn:Hc.
      * eexists. split.
        { apply Hrun; [apply Hd|].
          - unfold agg_onData. step0 Hagg.
          rewrite Hk, Hc. cbn [call]. eapply tryCatch_ok. step0 @ret_ok. cbn [when].
          unfold resolve. by apply Hcf.
          - reflexivity. }
        agg_facts.
      * eexists. split.
        { apply Hrun; [apply Hd|].
          - unfold agg_onData. step0 Hagg.
          rewrite Hk, Hc. cbn [call]. eapply tryCatch_ok. reflexivity.
          - reflexivity. }
        agg_facts.
      * eexists. split.
        { apply Hrun; [apply Hd|].
          - unfold agg_onData. step0 Hagg.
          rewrite Hk, Hc. cbn [call]. erewrite tryCatch_throw by reflexivity.
          unfold reject. by apply Hcf.
          - reflexivity. }
        agg_facts.
    + destruct (f d) as [[]|e] eqn:Hf.
      * eexists. split.
        { apply Hrun; [apply Hd|].
          - unfold agg_onData. step0 Hagg.
          rewrite Hk, Hf. eapply tryCatch_ok. step0 record_ok. reflexivity.
          - reflexivity. }
        agg_facts.
      * eexists. split.
        { apply Hrun; [apply Hd|].
          - unfold agg_onData. step0 Hagg.
          rewrite Hk, Hf. erewrite tryCatch_throw; cycle 1.
          { step0 record_ok. reflexivity. }
          unfold reject. by apply Hcf.
          - reflexivity. }
        agg_facts.
    + destruct (agg_seenFirst ag) eqn:Hseen.
      * destruct (f (agg_initialValue ag) d) as [v|e] eqn:Hf.
        -- eexists. split.
           { apply Hrun; [apply Hd|].
          - unfold agg_onData. step0 Hagg.
             rewrite Hk, Hseen, Hf. eapply tryCatch_ok. cbn [call]. step0 @ret_ok.
             by eapply updAggregation_ok.
          - reflexivity. }
           agg_facts.
        -- eexists. split.
           { apply Hrun; [apply Hd|].
          - unfold agg_onData. step0 Hagg.
             rewrite Hk, Hseen, Hf. erewrite tryCatch_throw by reflexivity.
             unfold reject. by apply Hcf.
          - reflexivity. }
           agg_facts.
      * eexists. split.
        { apply Hrun; [apply Hd|].
          - unfold agg_onData. step0 Hagg.
          rewrite Hk, Hseen. by eapply updAggregation_ok.
          - reflexivity. }
        agg_facts.
    + eexists. split.
      { apply Hrun; [apply Hd|].
          - unfold agg_onData. step0 Hagg.
        rewrite Hk. by eapply updAggregation_ok.
          - reflexivity. }
      agg_facts.
    + eexists. split.
      { apply Hrun; [apply Hd|].
          - unfold agg_onData. step0 Hagg.
        rewrite Hk. by eapply updAggregation_ok.
          - reflexivity. }
      agg_facts.
  - (* an error *)
    eexists. split.
    { apply Hrun.
          - unfold dispatch. step0 Hsub.
      cbn [sub_consumer sub_listenOptions withSubBuffer sub forwardOptions onError
           cancelOnError when call_onError].
      unfold agg_onError, reject. rewrite ?bind_assoc.
      erewrite bind_ok by (by apply Hcf). reflexivity.
          - reflexivity. }
    agg_facts.
  - (* Done *)
    assert (Hd : forall w2, agg_onDone a w1 = Ok tt w2 -> dispatch x Done w1 = Ok tt w2).
    { intros w2 H. unfold dispatch. step0 Hsub.
      cbn [sub_consumer sub_listenOptions withSubBuffer sub forwardOptions onDone
           when call_onDone]. exact H. }
    assert (Hsettle : forall p,
      settle a p w1 =
      Ok tt (setTrace (fun t => t ++ [EvSettle a p])
               (setAggregations (fun m => <[a := withPromise p ag]> m) w1))).
    { intros p. by eapply settle_ok. }
    unfold doneOutcome.
    destruct (agg_kind ag) as [c| |c|l f|f| |] eqn:Hk;
      try (eexists; split;
           [ apply Hrun; [apply Hd; unfold agg_onDone; step0 Hagg;
                          rewrite Hk; unfold resolve, reject; apply Hsettle|reflexivity]
           | agg_facts ]).
    eexists. split.
    { apply Hrun; [apply Hd|].
          - unfold agg_onDone. step0 Hagg.
      rewrite Hk. unfold reject. by apply Hcf.
          - reflexivity. }
    agg_facts.
Qed.

Lemma noDone_step ag m : negb (isDone m) = true ->
  match aggStep ag m with Stops false _ _ => False | _ => True end.
Proof.
  destruct m as [d|e|]; cbn; [|done..]. intros _.
  destruct (agg_kind ag) as [c| |c|l f|f| |]; try done.
  - by destruct (c d) as [[|]|].
  - by destruct (c d) as [[|]|].
  - by destruct (f d).
  - destruct (agg_seenFirst ag); [|done]. by destruct (f _ d).
Qed.

Lemma agg_loop closed bs body : forall fin w ag,
  noDone body = true -> fin = [] \/ fin = [Done] ->
  aggShape s x a true closed bs ag w ->
  agg_promise ag = Pending -> agg_sub ag = Some x ->
  exists w',
    forEach (fun message =>
               st <- theStream s ;;
               match _subscription st with
               | Some x => messageHandler x message
               | None => ret tt
               end) (body ++ fin) w = Ok tt w' /\
    aggLoopResult s x a closed bs ag (aggRun ag (body ++ fin)) w w'.
Proof.
  induction body as [|m body IH]; intros fin w ag Hnd Hfin Hs Hp Hx.
  - destruct Hfin as [->| ->]; cbn [app forEach aggRun].
    + exists w. split; [done|]. cbn. by rewrite app_nil_r.
    + destruct (agg_message w closed bs ag Done Hs Hp Hx) as (w' & E & Hres).
      exists w'. split.
      { pose proof Hs as (HS & _). rewrite ?bind_assoc. step theStream_ok.
        cbn [_subscription]. step0 E. reflexivity. }
      cbn [aggStep] in *. unfold aggLoopResult.
      destruct (match agg_kind ag with AggFirstWhere _ => true | _ => false end);
        destruct Hres as (H1 & H2 & H3); (split; [by eexists|done]).
  - cbn [noDone forallb] in Hnd. apply andb_true_iff in Hnd as [Hm Hnd].
    destruct (agg_message w closed bs ag m Hs Hp Hx) as (w1 & E1 & Hres).
    pose proof (noDone_step ag m Hm) as Hno.
    assert (Hhead :
      (forEach (fun message =>
                  st <- theStream s ;;
                  match _subscription st with
                  | Some x => messageHandler x message
                  | None => ret tt
                  end) (m :: body ++ fin)) w =
      (forEach (fun message =>
                  st <- theStream s ;;
                  match _subscription st with
                  | Some x => messageHandler x message
                  | None => ret tt
                  end) (body ++ fin)) w1).
    { pose proof Hs as (HS & _). cbn [app forEach]. rewrite ?bind_assoc.
      step theStream_ok. cbn [_subscription]. step0 E1. reflexivity. }
    cbn [app aggRun]. destruct (aggStep ag m) as [ag1 evs1|[|] p evs1] eqn:Estep.
    + destruct Hres as (Hs1 & HQ1 & HT1).
      destruct (aggStep_goes _ _ _ _ Estep) as (G1 & G2 & G3).
      destruct (IH fin w1 ag1 Hnd Hfin Hs1) as (w' & E & Hres'); [congruence..|].
      exists w'. split; [by rewrite Hhead|].
      unfold aggLoopResult in *.
      destruct (aggRun ag1 (body ++ fin)) as [ag2 evs2|[|] p evs2]; cbn [afterEvents].
      * destruct Hres' as (H1 & H2 & H3). rewrite H2, H3, HQ1, HT1.
        by rewrite <- !app_assoc.
      * destruct Hres' as (H1 & H2 & H3). rewrite H2, H3, HQ1, HT1.
        by rewrite <- !app_assoc.
      * destruct Hres' as (H1 & H2 & H3). rewrite H2, H3, HQ1, HT1.
        by rewrite <- !app_assoc.
    + destruct Hres as (Hs1 & HQ1 & HT1). exists w1. split.
      { rewrite Hhead. eapply emit_loop_detached; [apply Hs1|reflexivity]. }
      split; [by eexists|done].
    + done.
Qed.

Lemma noDone_run ms : forall ag c p evs,
  noDone ms = true -> aggRun ag ms = Stops c p evs -> c = true.
Proof.
  induction ms as [|m ms IH]; intros ag c p evs Hnd; cbn [aggRun]; [done|].
  cbn [noDone forallb] in Hnd. apply andb_true_iff in Hnd as [Hm Hnd].
  pose proof (noDone_step ag m Hm) as Hno.
  destruct (aggStep ag m) as [ag1 evs1|[|] p1 evs1]; [|by intros [= <- _ _]|done].
  destruct (aggRun ag1 ms) as [ag2 evs2|c2 p2 evs2] eqn:E; cbn; [done|].
  intros [= <- <- <-]. by eapply IH.
Qed.

Lemma noDone_app a1 a2 : noDone (a1 ++ a2) = noDone a1 && noDone a2.
Proof. apply forallb_app. Qed.

Lemma noDone_messages ps : noDone (List.map messageOf ps) = true.
Proof. induction ps as [|[d|e] ps IH]; cbn; by rewrite ?IH. Qed.

Lemma aggShape_frame attached closed b ag w w' :
  streams w' = streams w -> subscriptions w' = subscriptions w ->
  aggregations w' = aggregations w ->
  aggShape s x a attached closed b ag w -> aggShape s x a attached closed b ag w'.
Proof. unfold aggShape. intros -> -> ->. done. Qed.

Variable ag0 : Aggregation.
Hypothesis Hp0 : agg_promise ag0 = Pending.

Lemma aggInv_weaken tr0 msgs closed m m' w :
  (m <= m')%nat -> aggInv s x a ag0 tr0 msgs closed m w -> aggInv s x a ag0 tr0 msgs closed m' w.
Proof.
  intros Hm (heard & b & ag & Hrest & Hq & Htr & Hpr & Hcl & Hcase).
  exists heard, b, ag. repeat (split; [done|]).
  destruct (aggRun ag0 heard); [|split; [tauto|lia]].
  destruct Hcase as (H1 & H2 & H3 & H4 & H5 & H6). repeat (split; [done|]). lia.
Qed.

(** One closure of the queue. *)
Lemma aggInv_tick tr0 msgs closed m w :
  aggInv s x a ag0 tr0 msgs closed m w -> queue w <> [] ->
  exists w', tick w = Ok true w' /\ aggInv s x a ag0 tr0 msgs closed (m - 1) w'.
Proof.
  intros (heard & b & ag & Hrest & Hq & Htr & Hpr & Hcl & Hcase) Hne.
  destruct (queue w) as [|task q] eqn:EQ; [done|]. clear Hne.
  cbn [forallb] in Hq. apply andb_true_iff in Hq as [Htask Hq].
  rewrite (tick_cons _ _ _ EQ). cbn [length] in Hcase.
  destruct (ofTheStream_cases s task Htask) as [(name & ->)| ->].
  - (* an event closure: no callback is registered *)
    exists (setQueue (fun _ => q) w). split.
    { erewrite bind_ok; [reflexivity|].
      destruct (aggRun ag0 heard);
        (eapply event_tick_none; [wsimpl; apply Hcase|apply lookup_empty]). }
    exists heard, b, ag. wsimpl. repeat (split; [done|]).
    destruct (aggRun ag0 heard).
    + destruct Hcase as (H1 & H2 & H3 & H4 & H5 & H6). repeat (split; [done|]).
      split; [|lia]. intros H. eapply elem_of_tail; [by apply H5|done].
    + destruct Hcase as [H1 H2]. split; [done|lia].
  - (* the closure of Stream._emit *)
    destruct (aggRun ag0 heard) as [ag' evs|c p evs] eqn:ER.
    + destruct Hcase as (Hmsgs & -> & Hsub & Hs & Hlive & Hm).
      destruct (aggRun_goes _ _ _ _ ER) as (G1 & G2 & G3).
      assert (Hs1 : aggShape s x a true closed b ag' (setQueue (fun _ => q) w))
        by (by eapply aggShape_frame).
      assert (Hsplit : exists body fin,
                b = body ++ fin /\ noDone body = true /\ (fin = [] \/ fin = [Done]) /\
                (closed = false -> fin = [])).
      { destruct closed.
        - destruct Hcl as (b' & Hb' & Hnd). rewrite Hmsgs in Hb'.
          destruct (decide (b = [])) as [->|Hbne].
          { exfalso. rewrite app_nil_r in Hb'. subst heard.
            rewrite aggRun_app in ER. destruct (aggRun ag0 b'); [|done].
            cbn in ER. by destruct (match agg_kind ag'0 with AggFirstWhere _ => _ | _ => _ end). }
          destruct (exists_last Hbne) as (body & m0 & ->).
          rewrite app_assoc in Hb'. apply app_inj_tail in Hb' as [<- ->].
          exists body, [Done]. split; [done|]. rewrite noDone_app in Hnd.
          apply andb_true_iff in Hnd as [_ Hnd]. split; [done|]. split; [by right|done].
        - exists b, []. rewrite app_nil_r. split; [done|]. rewrite Hmsgs, noDone_app in Hcl.
          apply andb_true_iff in Hcl as [_ Hnd]. split; [done|]. split; [by left|done]. }
      destruct Hsplit as (body & fin & -> & Hnd & Hfin & Hopen).
      destruct (agg_loop closed (body ++ fin) body fin _ ag' Hnd Hfin Hs1)
        as (w1 & E1 & Hres); [congruence..|].
      pose proof Hs1 as (HS1 & _).
      assert (Hrun : aggRun ag0 (heard ++ body ++ fin) =
                     afterEvents evs (aggRun ag' (body ++ fin)))
        by (by rewrite aggRun_app, ER).
      unfold aggLoopResult in Hres.
      destruct (aggRun ag' (body ++ fin)) as [ag2 evs2|[|] p2 evs2] eqn:ER2;
        cbn [afterEvents] in Hrun.
      * (* every message was taken, the promise is pending *)
        destruct Hres as ((HS2 & HX2 & HA2) & HQ2 & HT2).
        assert (closed = false) as ->.
        { destruct closed; [|done]. destruct Hfin as [->| ->].
          - destruct Hcl as (b' & Hb' & _). rewrite Hmsgs, app_nil_r in Hb'.
            assert (aggRun ag0 (b' ++ [Done]) = Goes ag2 (evs ++ evs2))
              by (rewrite <- Hb', <- Hrun; by rewrite app_nil_r).
            rewrite aggRun_app in H. destruct (aggRun ag0 b'); [|done].
            cbn in H. by destruct (match agg_kind ag'0 with AggFirstWhere _ => _ | _ => _ end).
          - rewrite aggRun_app in ER2. destruct (aggRun ag' body); [|done].
            cbn in ER2. by destruct (match agg_kind ag'0 with AggFirstWhere _ => _ | _ => _ end). }
        destruct (aggRun_goes _ _ _ _ ER2) as (G4 & G5 & G6).
        eexists. split.
        { erewrite bind_ok; [reflexivity|]. cbn [runTask]. unfold Stream_emit_tick.
          step theStream_ok. cbn [_buffer]. step0 E1. step updStream_ok. step theStream_ok.
          cbn [_isClosed withBuffer]. reflexivity. }
        exists (heard ++ body ++ fin), [], ag2. wsimpl. rewrite Hrun. cbn [aggTrace aggPromise].
        split; [exists []; by rewrite app_nil_r|]. split; [by rewrite HQ2|].
        split; [by rewrite HT2, Htr, ?ER; cbn [aggTrace]; rewrite ?app_assoc|]. split; [congruence|].
        split; [done|]. split; [by rewrite app_nil_r|]. split; [done|].
        split; [congruence|].
        split; [split; [|split]; wsimpl; by rewrite ?lookup_insert_eq|].
        split; [done|]. rewrite HQ2. wsimpl. lia.
      * (* a callback cancelled the subscription *)
        destruct Hres as ((ag3 & (HS2 & HX2 & HA2) & Hp3) & HQ2 & HT2).
        eexists. split.
        { erewrite bind_ok; [reflexivity|]. cbn [runTask]. unfold Stream_emit_tick.
          step theStream_ok. cbn [_buffer]. step0 E1. step updStream_ok. step theStream_ok.
          cbn [_isClosed _subscription withBuffer]. by destruct closed. }
        exists (heard ++ body ++ fin), [], ag3. wsimpl. rewrite Hrun. cbn [aggTrace aggPromise].
        split; [exists []; by rewrite app_nil_r|].
        split; [rewrite HQ2, forallb_app; wsimpl; rewrite Hq; cbn;
                by rewrite bool_decide_eq_true_2|].
        split; [by rewrite HT2, Htr, ?ER; cbn [aggTrace]; rewrite <- ?app_assoc|]. split; [done|].
        split; [done|].
        split; [split; [|split]; wsimpl; by rewrite ?lookup_insert_eq|].
        rewrite HQ2, length_app. wsimpl. cbn [length]. lia.
      * (* Done settled the promise: the stream cancels the subscription *)
        destruct Hres as ((ag3 & (HS2 & HX2 & HA2) & Hp3) & HQ2 & HT2).
        assert (closed = true) as ->.
        { destruct closed; [done|]. rewrite (Hopen eq_refl), app_nil_r in ER2.
          by rewrite (noDone_run _ _ _ _ _ Hnd ER2). }
        eexists. split.
        { erewrite bind_ok; [reflexivity|]. cbn [runTask]. unfold Stream_emit_tick.
          step theStream_ok. cbn [_buffer]. step0 E1. step updStream_ok. step theStream_ok.
          cbn [_isClosed _subscription withBuffer]. eapply cancel_ok. lk. }
        exists (heard ++ body ++ fin), [], ag3. wsimpl. rewrite Hrun. cbn [aggTrace aggPromise].
        split; [exists []; by rewrite app_nil_r|].
        split; [rewrite forallb_app, HQ2; wsimpl; rewrite Hq; cbn;
                by rewrite bool_decide_eq_true_2|].
        split; [by rewrite HT2, Htr, ?ER; cbn [aggTrace]; rewrite <- ?app_assoc|]. split; [done|].
        split; [done|].
        split; [split; [|split]; wsimpl; by rewrite ?lookup_insert_eq|].
        rewrite length_app, HQ2. wsimpl. cbn [length]. lia.
    + destruct Hcase as [(HS & HX & HA) Hm].
      eexists. split.
      { erewrite bind_ok; [reflexivity|]. cbn [runTask]. unfold Stream_emit_tick.
        step theStream_ok.
        erewrite bind_ok by (eapply emit_loop_detached; [wsimpl; exact HS|reflexivity]).
        step updStream_ok. step theStream_ok.
        cbn [_isClosed _subscription withBuffer]. by destruct closed. }
      exists heard, [], ag. wsimpl. rewrite ER. repeat (split; [done|]).
      split; [split; [|split]; wsimpl; by rewrite ?lookup_insert_eq|]. lia.
Qed.

(** A call of the producer on the open stream. *)
Lemma aggInv_publish tr0 msgs m w p :
  aggInv s x a ag0 tr0 msgs false m w ->
  exists w', publish s p w = Ok tt w' /\
             aggInv s x a ag0 tr0 (msgs ++ [messageOf p]) false (m + 1) w'.
Proof.
  intros (heard & b & ag & (rest & Hrest) & Hq & Htr & Hpr & Hcl & Hcase).
  assert (Hnd : noDone (msgs ++ [messageOf p]) = true).
  { rewrite noDone_app, Hcl. by destruct p. }
  destruct (aggRun ag0 heard) as [ag' evs|c pr evs] eqn:ER.
  - destruct Hcase as (Hmsgs & -> & Hsub & (HS & HX & HA) & Hlive & Hm).
    eexists. split; [by eapply publish_ok|].
    cbn [willEmit _subscription _isPaused negb andb _buffer withBuffer].
    exists heard, (b ++ [messageOf p]), ag'. wsimpl. rewrite ER.
    split; [exists (rest ++ [messageOf p]); by rewrite Hrest, app_assoc|].
    split; [rewrite forallb_app, Hq; cbn; by rewrite bool_decide_eq_true_2|].
    repeat (split; [done|]).
    split; [by rewrite Hmsgs, app_assoc|]. repeat (split; [done|]).
    split; [split; [|split]; wsimpl; by rewrite ?lookup_insert_eq|].
    split; [intros _; apply elem_of_app; right; by left|].
    rewrite length_app. cbn [length]. lia.
  - destruct Hcase as [(HS & HX & HA) Hm].
    eexists. split; [by eapply publish_ok|].
    cbn [willEmit _subscription _isPaused negb andb _buffer withBuffer].
    exists heard, (b ++ [messageOf p]), ag. wsimpl. rewrite ER.
    split; [exists (rest ++ [messageOf p]); by rewrite Hrest, app_assoc|].
    repeat (split; [done|]).
    split; [split; [|split]; wsimpl; by rewrite ?lookup_insert_eq|]. lia.
Qed.

(** close() on the open stream. *)
Lemma aggInv_close tr0 msgs m w :
  aggInv s x a ag0 tr0 msgs false m w ->
  exists w', close s w = Ok tt w' /\
             aggInv s x a ag0 tr0 (msgs ++ [Done]) true (m + 1) w'.
Proof.
  intros (heard & b & ag & (rest & Hrest) & Hq & Htr & Hpr & Hcl & Hcase).
  destruct (aggRun ag0 heard) as [ag' evs|c pr evs] eqn:ER.
  - destruct Hcase as (Hmsgs & -> & Hsub & (HS & HX & HA) & Hlive & Hm).
    eexists. split; [erewrite close_base by (try eassumption; reflexivity);
                     by eapply Stream_close_ok|].
    cbn [willEmit _subscription _isPaused negb andb _buffer withBuffer withClosed].
    exists heard, (b ++ [Done]), ag'. wsimpl. rewrite ER.
    split; [exists (rest ++ [Done]); by rewrite Hrest, app_assoc|].
    split; [rewrite forallb_app, Hq; cbn; by rewrite bool_decide_eq_true_2|].
    repeat (split; [done|]). split; [by exists msgs|].
    split; [by rewrite Hmsgs, app_assoc|]. repeat (split; [done|]).
    split; [split; [|split]; wsimpl; by rewrite ?lookup_insert_eq|].
    split; [intros _; apply elem_of_app; right; by left|].
    rewrite length_app. cbn [length]. lia.
  - destruct Hcase as [(HS & HX & HA) Hm].
    eexists. split; [erewrite close_base by (try eassumption; reflexivity);
                     by eapply Stream_close_ok|].
    cbn [willEmit _subscription _isPaused negb andb _buffer withBuffer withClosed].
    exists heard, (b ++ [Done]), ag. wsimpl. rewrite ER.
    split; [exists (rest ++ [Done]); by rewrite Hrest, app_assoc|].
    repeat (split; [done|]). split; [by exists msgs|].
    split; [split; [|split]; wsimpl; by rewrite ?lookup_insert_eq|]. lia.
Qed.

Lemma aggInv_feed tr0 msgs m w c :
  aggInv s x a ag0 tr0 msgs false m w ->
  exists w', feed s c w = Ok tt w' /\
             aggInv s x a ag0 tr0 (msgs ++ fed [c]) false (m + 1) w'.
Proof.
  intros Hinv. destruct c as [p|]; cbn [feed fed flat_map].
  - rewrite app_nil_r. by apply aggInv_publish.
  - rewrite !app_nil_r. destruct (queue w) as [|t q] eqn:EQ.
    + exists w. split; [step0 (tick_nil w EQ); reflexivity|].
      eapply aggInv_weaken; [|done]. lia.
    + destruct (aggInv_tick _ _ _ _ _ Hinv) as (w' & E & Hinv'); [by rewrite EQ|].
      exists w'. split; [step0 E; reflexivity|]. eapply aggInv_weaken; [|done]. lia.
Qed.

Lemma aggInv_script tr0 script : forall msgs m w,
  aggInv s x a ag0 tr0 msgs false m w ->
  exists w', forEach (feed s) script w = Ok tt w' /\
             aggInv s x a ag0 tr0 (msgs ++ fed script) false (m + length script) w'.
Proof.
  induction script as [|c script IH]; intros msgs m w Hinv.
  - exists w. cbn. split; [done|]. rewrite app_nil_r. eapply aggInv_weaken; [|done]. lia.
  - destruct (aggInv_feed _ _ _ _ c Hinv) as (w1 & E1 & Hinv1).
    destruct (IH _ _ _ Hinv1) as (w2 & E2 & Hinv2).
    exists w2. cbn [forEach]. step0 E1. split; [done|].
    assert (fed (c :: script) = fed [c] ++ fed script) as ->
      by (unfold fed; cbn [flat_map]; by rewrite app_nil_r).
    rewrite app_assoc. eapply aggInv_weaken; [|done]. cbn [length]. lia.
Qed.

Lemma aggInv_drain tr0 msgs closed fuel : forall m w,
  aggInv s x a ag0 tr0 msgs closed m w -> (m <= fuel)%nat ->
  exists w', drain fuel w = Ok tt w' /\ queue w' = [] /\
             aggInv s x a ag0 tr0 msgs closed m w'.
Proof.
  induction fuel as [|fuel IH]; intros m w Hinv Hm.
  - assert (queue w = []) as EQ.
    { destruct Hinv as (heard & b & ag & _ & _ & _ & _ & _ & Hcase).
      destruct (aggRun ag0 heard); [lia|]. destruct (queue w); [done|].
      cbn [length] in Hcase. lia. }
    exists w. by rewrite drain_nil.
  - destruct (queue w) as [|t q] eqn:EQ.
    + exists w. by rewrite drain_nil.
    + destruct (aggInv_tick _ _ _ _ _ Hinv) as (w1 & E1 & Hinv1); [by rewrite EQ|].
      destruct (IH _ _ Hinv1) as (w2 & E2 & HQ2 & Hinv2); [lia|].
      exists w2. split; [|split; [done|]].
      * cbn [drain]. by step0 E1.
      * eapply aggInv_weaken; [|done]. lia.
Qed.

(** What the invariant says once the queue is empty. *)
Lemma aggInv_end tr0 msgs closed m w :
  aggInv s x a ag0 tr0 msgs closed m w -> queue w = [] ->
  promiseOf a w = aggPromise (aggRun ag0 msgs) /\
  trace w = tr0 ++ aggTrace a x (aggRun ag0 msgs) /\
  exists st, streams w !! s = Some st /\ class st = ClsStream /\
             _isClosed st = closed /\
             _subscription st = match aggRun ag0 msgs with
                                | Goes _ _ => Some x
                                | Stops _ _ _ => None
                                end.
Proof.
  intros (heard & b & ag & (rest & Hrest) & Hq & Htr & Hpr & Hcl & Hcase) EQ.
  assert (aggRun ag0 msgs = aggRun ag0 heard) as ->.
  { destruct (aggRun ag0 heard) as [ag' evs|c p evs] eqn:ER.
    - destruct Hcase as (Hmsgs & _ & _ & _ & Hlive & _).
      destruct b as [|m0 b]; [by rewrite Hmsgs, app_nil_r|].
      exfalso. rewrite EQ in Hlive. by eapply not_elem_of_nil, Hlive.
    - rewrite Hrest. by eapply aggRun_stops. }
  unfold promiseOf. destruct (aggRun ag0 heard) as [ag' evs|c p evs].
  - destruct Hcase as (_ & -> & _ & (HS & HX & HA) & _). rewrite HA.
    repeat (split; [done|]). by eexists.
  - destruct Hcase as ((HS & HX & HA) & _). rewrite HA.
    repeat (split; [done|]). by eexists.
Qed.
End FedAggregation.

(** The scenario, whatever the aggregation is: the promise and the record
    are those of the messages taken one after the other. *)
Lemma aggScenario_outcome before k initialValue script (closes : bool) fuel w :
  queue w = [] -> (4 + length script <= fuel)%nat ->
  let s := nextStream w in
  let x := nextSubscription w in
  let a := nextAggregation w in
  let r := aggRun (newAggregation k initialValue x) (publishedMessages before script closes) in
  exists w',
    aggScenario before k initialValue script closes fuel w = Ok (s, a) w' /\
    queue w' = [] /\
    promiseOf a w' = aggPromise r /\
    trace w' = trace w ++ aggTrace a x r /\
    exists st, streams w' !! s = Some st /\ class st = ClsStream /\
               _isClosed st = closes /\
               _subscription st = match r with
                                  | Goes _ _ => Some x
                                  | Stops _ _ _ => None
                                  end.
Proof.
  intros HQ Hfuel s x a r. subst r. unfold publishedMessages.
  set (ag0 := newAggregation k initialValue x).
  assert (Hinv : exists w1,
    aggScenario before k initialValue script closes fuel w =
    (_ <- forEach (feed s) script ;; _ <- when closes (close s) ;;
     _ <- drain fuel ;; ret (s, a)) w1 /\
    aggInv s x a ag0 (trace w) (List.map messageOf before) false 3 w1).
  { eexists. split.
    - unfold aggScenario. step0 allocStream_ok.
      erewrite bind_ok by (eapply publishes_buffered; [lk|reflexivity..]).
      erewrite bind_ok by (eapply aggregate_base; [lk|reflexivity..]).
      cbn zeta. reflexivity.
    - exists [], (List.map messageOf before), ag0. wsimpl. cbn [aggRun aggTrace aggPromise].
      split; [by eexists|]. rewrite HQ.
      split; [cbn; by rewrite !bool_decide_eq_true_2|].
      split; [by rewrite app_nil_r|]. split; [done|].
      split; [apply noDone_messages|]. split; [done|]. split; [done|]. split; [done|].
      split; [split; [|split]; wsimpl; by rewrite ?lookup_insert_eq|].
      split; [intros _; right; by left|]. cbn. lia. }
  destruct Hinv as (w1 & Hrun & Hinv). rewrite Hrun. clear Hrun.
  destruct (aggInv_script s x a ag0 eq_refl _ script _ _ _ Hinv) as (w2 & E2 & Hinv2).
  step0 E2.
  assert (Hclose : exists w3,
    when closes (close s) w2 = Ok tt w3 /\
    aggInv s x a ag0 (trace w)
           ((List.map messageOf before ++ fed script) ++ if closes then [Done] else [])
           closes (3 + length script + 1) w3).
  { destruct closes; cbn [when].
    - by apply aggInv_close.
    - exists w2. split; [done|]. rewrite app_nil_r. eapply aggInv_weaken; [|done]. lia. }
  destruct Hclose as (w3 & E3 & Hinv3). step0 E3.
  destruct (aggInv_drain s x a ag0 eq_refl _ _ _ fuel _ _ Hinv3)
    as (w4 & E4 & HQ4 & Hinv4); [lia|].
  step0 E4. exists w4. split; [done|]. split; [done|].
  rewrite (app_assoc (List.map messageOf before)).
  by eapply aggInv_end.
Qed.

(** ** The aggregations in closed form *)

Lemma noDone_fed script : noDone (fed script) = true.
Proof.
  induction script as [|[[d|e]|] script IH]; cbn; by rewrite ?IH.
Qed.

Lemma noDone_published before script :
  noDone (List.map messageOf before ++ fed script) = true.
Proof. by rewrite noDone_app, noDone_messages, noDone_fed. Qed.

Lemma publishedMessages_split before script closes :
  publishedMessages before script closes =
  (List.map messageOf before ++ fed script) ++ if closes then [Done] else [].
Proof. unfold publishedMessages. by rewrite app_assoc. Qed.

Lemma aggRun_closing ag ms (closes : bool) :
  aggRun ag (ms ++ if closes then [Done] else []) =
  match aggRun ag ms with
  | Goes ag' evs =>
      if closes
      then Stops (match agg_kind ag' with AggFirstWhere _ => true | _ => false end)
                 (doneOutcome ag') evs
      else Goes ag' evs
  | Stops c p evs => Stops c p evs
  end.
Proof.
  rewrite aggRun_app. destruct (aggRun ag ms) as [ag' evs|c p evs]; [|done].
  destruct closes; cbn; by rewrite app_nil_r.
Qed.

Lemma firstError_closing ms (closes : bool) :
  firstError (ms ++ if closes then [Done] else []) = firstError ms.
Proof.
  induction ms as [|[d|e|] ms IH]; cbn; [by destruct closes|done..].
Qed.

Lemma valuesOf_closing ms (closes : bool) :
  valuesOf (ms ++ if closes then [Done] else []) = valuesOf ms.
Proof.
  unfold valuesOf. rewrite flat_map_app. destruct closes; cbn; by rewrite app_nil_r.
Qed.

Lemma valuesBefore_closing ms (closes : bool) :
  valuesBefore (ms ++ if closes then [Done] else []) = valuesBefore ms.
Proof.
  induction ms as [|[d|e|] ms IH]; cbn; [by destruct closes|by rewrite IH|done..].
Qed.

Lemma toArray_run ms : forall ag,
  agg_kind ag = AggToArray -> noDone ms = true ->
  match firstError ms with
  | Some e => aggRun ag ms = Stops true (Rejected e) []
  | None => exists ag', aggRun ag ms = Goes ag' [] /\ agg_kind ag' = AggToArray /\
                        agg_result ag' = agg_result ag ++ valuesOf ms
  end.
Proof.
  induction ms as [|[d|e|] ms IH]; intros ag Hk Hnd; cbn [firstError aggRun aggStep].
  - exists ag. by rewrite app_nil_r.
  - rewrite Hk. specialize (IH (withResult (agg_result ag ++ [d]) ag) Hk Hnd).
    destruct (firstError ms) as [e|].
    + by rewrite IH.
    + destruct IH as (ag' & -> & Hk' & Hr'). exists ag'. split; [done|]. split; [done|].
      rewrite Hr'. cbn. by rewrite <- app_assoc.
  - done.
  - done.
Qed.

Lemma toSet_run ms : forall ag,
  agg_kind ag = AggToSet -> noDone ms = true ->
  match firstError ms with
  | Some e => aggRun ag ms = Stops true (Rejected e) []
  | None => exists ag', aggRun ag ms = Goes ag' [] /\ agg_kind ag' = AggToSet /\
                        agg_result ag' = fold_left resultAdd (valuesOf ms) (agg_result ag)
  end.
Proof.
  induction ms as [|[d|e|] ms IH]; intros ag Hk Hnd; cbn [firstError aggRun aggStep].
  - by exists ag.
  - rewrite Hk.
    set (ag1 := if bool_decide (d ∈ agg_result ag) then ag
                else withResult (agg_result ag ++ [d]) ag).
    assert (Hk1 : agg_kind ag1 = AggToSet) by (subst ag1; by destruct (bool_decide _)).
    assert (Hr1 : agg_result ag1 = resultAdd (agg_result ag) d)
      by (subst ag1; unfold resultAdd; by destruct (bool_decide _)).
    specialize (IH ag1 Hk1 Hnd).
    destruct (firstError ms) as [e|].
    + by rewrite IH.
    + destruct IH as (ag' & -> & Hk' & Hr'). exists ag'. split; [done|]. split; [done|].
      rewrite Hr', Hr1. done.
  - done.
  - done.
Qed.

Lemma filter_filter_Z (f g : Z -> bool) l :
  List.filter f (List.filter g l) = List.filter (fun d => g d && f d) l.
Proof.
  induction l as [|d l IH]; cbn; [done|].
  destruct (g d); cbn; [destruct (f d); by rewrite IH|done].
Qed.

Lemma fold_resultAdd ds : forall acc,
  fold_left resultAdd ds acc =
  acc ++ List.filter (fun d => negb (bool_decide (d ∈ acc))) (firstOccurrences ds).
Proof.
  induction ds as [|d ds IH]; intros acc; cbn [fold_left firstOccurrences List.filter].
  - by rewrite app_nil_r.
  - rewrite IH. unfold resultAdd. rewrite filter_filter_Z.
    destruct (bool_decide (d ∈ acc)) eqn:E; cbn [negb].
    + f_equal. apply filter_ext. intros d'.
      destruct (Z.eqb_spec d' d) as [->|]; cbn; [by rewrite E|done].
    + rewrite <- app_assoc. cbn [app]. f_equal. f_equal. apply filter_ext. intros d'.
      destruct (Z.eqb_spec d' d) as [->|Hne]; cbn.
      * rewrite bool_decide_eq_true_2; [done|]. apply elem_of_app. right. by left.
      * apply bool_decide_eq_false_1 in E.
        destruct (bool_decide (d' ∈ acc)) eqn:E'.
        -- apply bool_decide_eq_true_1 in E'. rewrite bool_decide_eq_true_2; [done|].
           apply elem_of_app. by left.
        -- apply bool_decide_eq_false_1 in E'. rewrite bool_decide_eq_false_2; [done|].
           intros [H|H%list_elem_of_singleton]%elem_of_app; done.
Qed.

Lemma fold_resultAdd_nil ds : fold_left resultAdd ds [] = firstOccurrences ds.
Proof.
  rewrite fold_resultAdd. cbn [app]. rewrite <- (filter_ext (fun _ => true)).
  - induction (firstOccurrences ds) as [|d l IH]; cbn; by rewrite ?IH.
  - intros d. rewrite bool_decide_eq_false_2; [done|]. apply not_elem_of_nil.
Qed.

Lemma reduce_run reducer g ms : forall ag,
  (forall acc d, reducer acc d = Returns (g acc d)) ->
  agg_kind ag = AggReduce reducer -> noDone ms = true ->
  match firstError ms with
  | Some e => aggRun ag ms = Stops true (Rejected e) []
  | None => exists ag', aggRun ag ms = Goes ag' [] /\ agg_kind ag' = AggReduce reducer /\
      agg_initialValue ag' =
        accumulated g (agg_seenFirst ag) (agg_initialValue ag) (valuesOf ms)
  end.
Proof.
  intros ag Hg. revert ag.
  induction ms as [|[d|e|] ms IH]; intros ag Hk Hnd; cbn [firstError aggRun aggStep].
  - exists ag. split; [done|]. split; [done|]. unfold accumulated. by destruct (agg_seenFirst ag).
  - rewrite Hk, Hg.
    set (ag1 := if agg_seenFirst ag
                then withAccumulator true (g (agg_initialValue ag) d) ag
                else withAccumulator true (Some d) ag).
    assert (aggRun ag (Data d :: ms) = aggRun ag1 ms) as Hstep.
    { cbn [aggRun aggStep]. rewrite Hk, Hg. subst ag1.
      destruct (agg_seenFirst ag); by destruct (aggRun _ ms). }
    assert (Hk1 : agg_kind ag1 = AggReduce reducer)
      by (subst ag1; by destruct (agg_seenFirst ag)).
    specialize (IH ag1 Hk1 Hnd). cbn [aggRun aggStep] in Hstep. rewrite Hk, Hg in Hstep.
    rewrite Hstep.
    destruct (firstError ms) as [e|]; [done|].
    destruct IH as (ag' & -> & Hk' & Hr'). exists ag'. split; [done|]. split; [done|].
    rewrite Hr'. subst ag1. unfold accumulated. cbn [valuesOf flat_map app].
    by destruct (agg_seenFirst ag).
  - done.
  - done.
Qed.

Lemma accumulated_new g initialValue ds :
  accumulated g (match initialValue with Some _ => true | None => false end)
              initialValue ds = reduced g initialValue ds.
Proof. destruct initialValue; [done|]. by destruct ds. Qed.

Lemma forEach_run l listener ms : forall ag,
  (forall d, listener d = Returns tt) ->
  agg_kind ag = AggForEach l listener -> noDone ms = true ->
  match firstError ms with
  | Some e => aggRun ag ms = Stops true (Rejected e) (List.map (EvData l) (valuesBefore ms))
  | None => aggRun ag ms = Goes ag (List.map (EvData l) (valuesBefore ms))
  end.
Proof.
  intros ag Hl. revert ag.
  induction ms as [|[d|e|] ms IH]; intros ag Hk Hnd; cbn [firstError aggRun aggStep].
  - done.
  - rewrite Hk, Hl. specialize (IH ag Hk Hnd).
    destruct (firstError ms) as [e|]; by rewrite IH.
  - done.
  - done.
Qed.

Lemma forEach_throw_run l listener ds d e rest : forall ag,
  forallb (fun d' => match listener d' with Returns _ => true | Throws _ => false end) ds
  = true ->
  listener d = Throws e ->
  agg_kind ag = AggForEach l listener ->
  aggRun ag (List.map Data ds ++ Data d :: rest) =
  Stops true (Rejected e) (List.map (EvData l) (ds ++ [d])).
Proof.
  intros ag Hds Hd Hk. induction ds as [|d' ds IH]; cbn [List.map app aggRun aggStep].
  - by rewrite Hk, Hd.
  - rewrite Hk. cbn [forallb] in Hds. apply andb_true_iff in Hds as [Hd' Hds].
    destruct (listener d') as [u|]; [|done]. by rewrite IH.
Qed.

Lemma first_run ag ms :
  agg_kind ag = AggFirst ->
  aggRun ag ms = match ms with
                 | [] => Goes ag []
                 | Data d :: _ => Stops true (Resolved (VNum d)) []
                 | Error e :: _ => Stops true (Rejected e) []
                 | Done :: _ => Stops false (Rejected (VError EmptyString)) []
                 end.
Proof.
  intros Hk. destruct ms as [|[d|e|] ms]; cbn [aggRun aggStep]; rewrite ?Hk; try done.
  unfold doneOutcome. by rewrite Hk.
Qed.

Lemma firstWhere_run condition ms : forall ag,
  agg_kind ag = AggFirstWhere condition ->
  aggRun ag ms = match List.find (decides condition) ms with
                 | None => Goes ag []
                 | Some (Data d) =>
                     Stops true (match condition d with
                                 | Returns _ => Resolved (VNum d)
                                 | Throws e => Rejected e
                                 end) []
                 | Some (Error e) => Stops true (Rejected e) []
                 | Some Done => Stops true (Rejected VNull) []
                 end.
Proof.
  induction ms as [|[d|e|] ms IH]; intros ag Hk;
    cbn [aggRun aggStep List.find decides]; rewrite ?Hk; try done.
  - destruct (condition d) as [[|]|e] eqn:E; cbn; rewrite ?E; [done| |done].
    rewrite (IH ag Hk). by destruct (List.find _ ms) as [[d'|e'|]|].
  - unfold doneOutcome. by rewrite Hk.
Qed.

Ltac scenario_outcome k init HQ Hf :=
  match goal with
  | |- context [aggScenario ?before _ _ ?script ?closes ?fuel ?w] =>
      destruct (aggScenario_outcome before k init script closes fuel w HQ Hf)
        as (w' & E & HQ' & Hp & Ht & st & Hs & Hc & Hcl & Hsub);
      rewrite publishedMessages_split, aggRun_closing in Hp, Ht, Hsub
  end.

(** toArray(): the promise is rejected with the first error published, and
    otherwise, once the stream is closed, resolved with all the values in
    the order of publication, those published before the call included;
    while the stream is open and no error has come the promise stays
    pending. *)
Theorem toArray_collects_every_value_in_order
    (before : list Publication) (script : list FeedCall) (closes : bool)
    (fuel : nat) (w : World) :
  queue w = [] -> (4 + length script <= fuel)%nat ->
  let msgs := publishedMessages before script closes in
  exists w',
    aggScenario before AggToArray None script closes fuel w
    = Ok (nextStream w, nextAggregation w) w' /\
    queue w' = [] /\
    promiseOf (nextAggregation w) w' =
      match firstError msgs with
      | Some e => Rejected e
      | None => if closes then Resolved (VArray (valuesOf msgs)) else Pending
      end.
Proof.
  intros HQ Hf msgs. subst msgs. scenario_outcome AggToArray (@None Z) HQ Hf.
  exists w'. split; [done|]. split; [done|]. rewrite Hp.
  rewrite publishedMessages_split, firstError_closing, valuesOf_closing.
  pose proof (toArray_run _ (newAggregation AggToArray None (nextSubscription w)) eq_refl
                (noDone_published before script)) as Hrun.
  destruct (firstError _) as [e|].
  - by rewrite Hrun.
  - destruct Hrun as (ag' & -> & Hk & Hr). destruct closes; [|done].
    cbn [aggPromise]. unfold doneOutcome. by rewrite Hk, Hr.
Qed.

Lemma toArray_collects_every_value_in_order_witness :
  exists w',
    aggScenario [PubData 3; PubData 1] AggToArray None
                [Feed (PubData 3); FeedTick; Feed (PubData 2)] true 7 emptyWorld
    = Ok (0%nat, 0%nat) w' /\
    promiseOf 0 w' = Resolved (VArray [3; 1; 3; 2]).
Proof.
  destruct (toArray_collects_every_value_in_order [PubData 3; PubData 1]
              [Feed (PubData 3); FeedTick; Feed (PubData 2)] true 7 emptyWorld)
    as (w' & E & _ & Hp).
  - reflexivity.
  - cbn. lia.
  - exists w'. split; [exact E|exact Hp].
Defined.

(** toSet(): as toArray, but the promise is resolved with a Set, which
    holds each value once, at the place of its first occurrence. *)
Theorem toSet_collects_each_value_once
    (before : list Publication) (script : list FeedCall) (closes : bool)
    (fuel : nat) (w : World) :
  queue w = [] -> (4 + length script <= fuel)%nat ->
  let msgs := publishedMessages before script closes in
  exists w',
    aggScenario before AggToSet None script closes fuel w
    = Ok (nextStream w, nextAggregation w) w' /\
    queue w' = [] /\
    promiseOf (nextAggregation w) w' =
      match firstError msgs with
      | Some e => Rejected e
      | None => if closes then Resolved (VSet (firstOccurrences (valuesOf msgs)))
                else Pending
      end.
Proof.
  intros HQ Hf msgs. subst msgs. scenario_outcome AggToSet (@None Z) HQ Hf.
  exists w'. split; [done|]. split; [done|]. rewrite Hp.
  rewrite publishedMessages_split, firstError_closing, valuesOf_closing.
  pose proof (toSet_run _ (newAggregation AggToSet None (nextSubscription w)) eq_refl
                (noDone_published before script)) as Hrun.
  destruct (firstError _) as [e|].
  - by rewrite Hrun.
  - destruct Hrun as (ag' & -> & Hk & Hr). destruct closes; [|done].
    cbn [aggPromise]. unfold doneOutcome. rewrite Hk, Hr. cbn [newAggregation agg_result].
    by rewrite fold_resultAdd_nil.
Qed.

Lemma toSet_collects_each_value_once_witness :
  exists w',
    aggScenario [PubData 3; PubData 1] AggToSet None
                [Feed (PubData 3); FeedTick; Feed (PubData 2); Feed (PubData 1)] true 8
                emptyWorld
    = Ok (0%nat, 0%nat) w' /\
    promiseOf 0 w' = Resolved (VSet [3; 1; 2]).
Proof.
  destruct (toSet_collects_each_value_once [PubData 3; PubData 1]
              [Feed (PubData 3); FeedTick; Feed (PubData 2); Feed (PubData 1)] true 8
              emptyWorld)
    as (w' & E & _ & Hp).
  - reflexivity.
  - cbn. lia.
  - exists w'. split; [exact E|exact Hp].
Defined.

(** reduce(reducer, initialValue) with a reducer that does not throw: the
    promise is rejected with the first error published; otherwise, once
    the stream is closed, it is resolved with the values folded from the
    left, starting from the initial value, or from the first value when
    there is no initial value (undefined for a stream without values). *)
Theorem reduce_folds_the_values_from_the_left
    (reducer : option Z -> Z -> Outcome (option Z)) (g : option Z -> Z -> option Z)
    (initialValue : option Z)
    (before : list Publication) (script : list FeedCall) (closes : bool)
    (fuel : nat) (w : World) :
  (forall acc d, reducer acc d = Returns (g acc d)) ->
  queue w = [] -> (4 + length script <= fuel)%nat ->
  let msgs := publishedMessages before script closes in
  exists w',
    aggScenario before (AggReduce reducer) initialValue script closes fuel w
    = Ok (nextStream w, nextAggregation w) w' /\
    queue w' = [] /\
    promiseOf (nextAggregation w) w' =
      match firstError msgs with
      | Some e => Rejected e
      | None =>
          if closes
          then Resolved (valueOfAccumulator (reduced g initialValue (valuesOf msgs)))
          else Pending
      end.
Proof.
  intros Hg HQ Hf msgs. subst msgs. scenario_outcome (AggReduce reducer) initialValue HQ Hf.
  exists w'. split; [done|]. split; [done|]. rewrite Hp.
  rewrite publishedMessages_split, firstError_closing, valuesOf_closing.
  pose proof (reduce_run reducer g _
                (newAggregation (AggReduce reducer) initialValue (nextSubscription w))
                Hg eq_refl (noDone_published before script)) as Hrun.
  destruct (firstError _) as [e|].
  - by rewrite Hrun.
  - destruct Hrun as (ag' & -> & Hk & Hr). destruct closes; [|done].
    cbn [aggPromise]. unfold doneOutcome. rewrite Hk, Hr.
    cbn [newAggregation agg_seenFirst agg_initialValue].
    by rewrite accumulated_new.
Qed.

Lemma reduce_folds_the_values_from_the_left_witness :
  let plus := fun (acc : option Z) (d : Z) =>
                Some (match acc with Some n => n + d | None => d end) in
  (exists w',
     aggScenario [PubData 3; PubData 1] (AggReduce (fun acc d => Returns (plus acc d))) None
                 [Feed (PubData 5); FeedTick] true 6 emptyWorld
     = Ok (0%nat, 0%nat) w' /\
     promiseOf 0 w' = Resolved (VNum 9)) /\
  (exists w',
     aggScenario [] (AggReduce (fun acc d => Returns (plus acc d))) None
                 [] true 4 emptyWorld
     = Ok (0%nat, 0%nat) w' /\
     promiseOf 0 w' = Resolved VUndefined).
Proof.
  intros plus. split.
  - destruct (reduce_folds_the_values_from_the_left
                (fun acc d => Returns (plus acc d)) plus None [PubData 3; PubData 1]
                [Feed (PubData 5); FeedTick] true 6 emptyWorld)
      as (w' & E & _ & Hp).
    + reflexivity.
    + reflexivity.
    + cbn. lia.
    + exists w'. split; [exact E|exact Hp].
  - destruct (reduce_folds_the_values_from_the_left
                (fun acc d => Returns (plus acc d)) plus None [] [] true 4 emptyWorld)
      as (w' & E & _ & Hp).
    + reflexivity.
    + reflexivity.
    + cbn. lia.
    + exists w'. split; [exact E|exact Hp].
Defined.

(** first(): the first message alone settles the promise, whatever comes
    after it: a value resolves it, an error rejects it with the error, and
    the end of a stream without messages rejects it with a new Error.  On a
    value or an error the subscription is cancelled, so that the stream has
    no listener afterwards. *)
Theorem first_settles_on_the_first_message
    (before : list Publication) (script : list FeedCall) (closes : bool)
    (fuel : nat) (w : World) :
  queue w = [] -> (4 + length script <= fuel)%nat ->
  let msgs := publishedMessages before script closes in
  exists w' st,
    aggScenario before AggFirst None script closes fuel w
    = Ok (nextStream w, nextAggregation w) w' /\
    queue w' = [] /\
    promiseOf (nextAggregation w) w' =
      match msgs with
      | [] => Pending
      | Data d :: _ => Resolved (VNum d)
      | Error e :: _ => Rejected e
      | Done :: _ => Rejected (VError EmptyString)
      end /\
    streams w' !! nextStream w = Some st /\
    _subscription st = match msgs with
                       | [] => Some (nextSubscription w)
                       | _ => None
                       end.
Proof.
  intros HQ Hf msgs. subst msgs.
  destruct (aggScenario_outcome before AggFirst None script closes fuel w HQ Hf)
    as (w' & E & HQ' & Hp & Ht & st & Hs & Hc & Hcl & Hsub).
  exists w', st. split; [done|]. split; [done|].
  rewrite first_run in Hp, Hsub by done.
  split; [|split; [done|]].
  - rewrite Hp. by destruct (publishedMessages before script closes) as [|[d|e|] ms].
  - rewrite Hsub. by destruct (publishedMessages before script closes) as [|[d|e|] ms].
Qed.

Lemma first_settles_on_the_first_message_witness :
  exists w' st,
    aggScenario [] AggFirst None
                [FeedTick; Feed (PubData 4); Feed (PubError VNull); FeedTick; Feed (PubData 5)]
                true 9 emptyWorld
    = Ok (0%nat, 0%nat) w' /\
    promiseOf 0 w' = Resolved (VNum 4) /\
    streams w' !! 0%nat = Some st /\ _subscription st = None.
Proof.
  destruct (first_settles_on_the_first_message []
              [FeedTick; Feed (PubData 4); Feed (PubError VNull); FeedTick; Feed (PubData 5)]
              true 9 emptyWorld)
    as (w' & st & E & _ & Hp & Hs & Hsub).
  - reflexivity.
  - cbn. lia.
  - exists w', st. split; [exact E|]. split; [exact Hp|]. split; [exact Hs|exact Hsub].
Defined.

(** firstWhere(condition): the promise is settled by the first message
    that is an error, the end of the stream, or a value on which the
    condition returns true or throws: it is resolved with that value,
    rejected with what the condition threw, rejected with the error, or
    rejected with null at the end of the stream.  Values on which the
    condition returns false are passed over. *)
Theorem firstWhere_settles_on_the_first_match
    (condition : Z -> Outcome bool)
    (before : list Publication) (script : list FeedCall) (closes : bool)
    (fuel : nat) (w : World) :
  queue w = [] -> (4 + length script <= fuel)%nat ->
  let msgs := publishedMessages before script closes in
  exists w',
    aggScenario before (AggFirstWhere condition) None script closes fuel w
    = Ok (nextStream w, nextAggregation w) w' /\
    queue w' = [] /\
    promiseOf (nextAggregation w) w' =
      match List.find (decides condition) msgs with
      | None => Pending
      | Some (Data d) =>
          match condition d with
          | Returns _ => Resolved (VNum d)
          | Throws e => Rejected e
          end
      | Some (Error e) => Rejected e
      | Some Done => Rejected VNull
      end.
Proof.
  intros HQ Hf msgs. subst msgs.
  destruct (aggScenario_outcome before (AggFirstWhere condition) None script closes fuel w
              HQ Hf)
    as (w' & E & HQ' & Hp & Ht & st & Hs & Hc & Hcl & Hsub).
  exists w'. split; [done|]. split; [done|].
  rewrite (firstWhere_run condition) in Hp by done. rewrite Hp.
  by destruct (List.find _ _) as [[d|e|]|].
Qed.

Lemma firstWhere_settles_on_the_first_match_witness :
  (exists w',
     aggScenario [PubData 3; PubData 1] (AggFirstWhere (fun d => Returns (Z.even d))) None
                 [Feed (PubData 5); FeedTick; Feed (PubData 8); Feed (PubData 6)] false 8
                 emptyWorld
     = Ok (0%nat, 0%nat) w' /\
     promiseOf 0 w' = Resolved (VNum 8)) /\
  (exists w',
     aggScenario [PubData 3] (AggFirstWhere (fun d => Returns (Z.even d))) None
                 [] true 4 emptyWorld
     = Ok (0%nat, 0%nat) w' /\
     promiseOf 0 w' = Rejected VNull).
Proof.
  split.
  - destruct (firstWhere_settles_on_the_first_match (fun d => Returns (Z.even d))
                [PubData 3; PubData 1]
                [Feed (PubData 5); FeedTick; Feed (PubData 8); Feed (PubData 6)] false 8
                emptyWorld)
      as (w' & E & _ & Hp).
    + reflexivity.
    + cbn. lia.
    + exists w'. split; [exact E|exact Hp].
  - destruct (firstWhere_settles_on_the_first_match (fun d => Returns (Z.even d))
                [PubData 3] [] true 4 emptyWorld)
      as (w' & E & _ & Hp).
    + reflexivity.
    + cbn. lia.
    + exists w'. split; [exact E|exact Hp].
Defined.

(** forEach(listener) with a listener that does not throw: the listener is
    called with every value published before the first error, each once,
    in the order of publication; the promise is rejected with the first
    error, after the subscription is cancelled, and otherwise resolved with
    undefined once the stream is closed. *)
Theorem forEach_calls_the_listener_for_each_value
    (l : nat) (listener : Z -> Outcome unit)
    (before : list Publication) (script : list FeedCall) (closes : bool)
    (fuel : nat) (w : World) :
  (forall d, listener d = Returns tt) ->
  queue w = [] -> (4 + length script <= fuel)%nat ->
  let msgs := publishedMessages before script closes in
  let a := nextAggregation w in
  let x := nextSubscription w in
  exists w',
    aggScenario before (AggForEach l listener) None script closes fuel w
    = Ok (nextStream w, a) w' /\
    queue w' = [] /\
    trace w' = trace w ++ List.map (EvData l) (valuesBefore msgs) ++
               match firstError msgs with
               | Some e => [EvCancel x; EvSettle a (Rejected e)]
               | None => if closes then [EvSettle a (Resolved VUndefined); EvCancel x]
                         else []
               end /\
    promiseOf a w' =
      match firstError msgs with
      | Some e => Rejected e
      | None => if closes then Resolved VUndefined else Pending
      end.
Proof.
  intros Hl HQ Hf msgs a x. subst msgs a x.
  scenario_outcome (AggForEach l listener) (@None Z) HQ Hf.
  exists w'. split; [done|]. split; [done|]. rewrite Hp, Ht.
  rewrite publishedMessages_split, firstError_closing, valuesBefore_closing.
  pose proof (forEach_run l listener _
                (newAggregation (AggForEach l listener) None (nextSubscription w))
                Hl eq_refl (noDone_published before script)) as Hrun.
  destruct (firstError _) as [e|]; rewrite Hrun; [done|].
  destruct closes; cbn [aggTrace aggPromise]; [done|]. by rewrite app_nil_r.
Qed.

Lemma forEach_calls_the_listener_for_each_value_witness :
  exists w',
    aggScenario [PubData 3; PubData 1] (AggForEach 7 (fun _ => Returns tt)) None
                [Feed (PubData 3); FeedTick; Feed (PubData 2)] true 7 emptyWorld
    = Ok (0%nat, 0%nat) w' /\
    trace w' = [EvData 7 3; EvData 7 1; EvData 7 3; EvData 7 2;
                EvSettle 0 (Resolved VUndefined); EvCancel 0].
Proof.
  destruct (forEach_calls_the_listener_for_each_value 7 (fun _ => Returns tt)
              [PubData 3; PubData 1]
              [Feed (PubData 3); FeedTick; Feed (PubData 2)] true 7 emptyWorld)
    as (w' & E & _ & Ht & _).
  - reflexivity.
  - reflexivity.
  - cbn. lia.
  - exists w'. split; [exact E|exact Ht].
Defined.

(** forEach(listener) when the listener throws on a value: the
    subscription is cancelled and the promise is rejected with what was
    thrown; the listener is not called again, whatever is published after
    that value. *)
Theorem forEach_stops_at_the_value_the_listener_throws_on
    (l : nat) (listener : Z -> Outcome unit) (ds : list Z) (d : Z) (e : Value)
    (rest : list StreamMessage)
    (before : list Publication) (script : list FeedCall) (closes : bool)
    (fuel : nat) (w : World) :
  forallb (fun d' => match listener d' with Returns _ => true | Throws _ => false end) ds
  = true ->
  listener d = Throws e ->
  List.map messageOf before ++ fed script = List.map Data ds ++ Data d :: rest ->
  queue w = [] -> (4 + length script <= fuel)%nat ->
  let a := nextAggregation w in
  let x := nextSubscription w in
  exists w',
    aggScenario before (AggForEach l listener) None script closes fuel w
    = Ok (nextStream w, a) w' /\
    queue w' = [] /\
    trace w' = trace w ++ List.map (EvData l) (ds ++ [d]) ++
               [EvCancel x; EvSettle a (Rejected e)] /\
    promiseOf a w' = Rejected e.
Proof.
  intros Hds Hd Hmsgs HQ Hf a x. subst a x.
  destruct (aggScenario_outcome before (AggForEach l listener) None script closes fuel w
              HQ Hf)
    as (w' & E & HQ' & Hp & Ht & st & Hs & Hc & Hcl & Hsub).
  exists w'. split; [done|]. split; [done|].
  rewrite publishedMessages_split, Hmsgs, <- app_assoc in Hp, Ht. cbn [app] in Hp, Ht.
  rewrite (forEach_throw_run l listener ds d e) in Hp, Ht by done.
  by rewrite Hp, Ht.
Qed.

Lemma forEach_stops_at_the_value_the_listener_throws_on_witness :
  exists w',
    aggScenario [PubData 2; PubData 4]
                (AggForEach 7 (fun d => if Z.even d then Returns tt else Throws (VNum d))) None
                [Feed (PubData 5); FeedTick; Feed (PubData 6)] true 7 emptyWorld
    = Ok (0%nat, 0%nat) w' /\
    trace w' = [EvData 7 2; EvData 7 4; EvData 7 5;
                EvCancel 0; EvSettle 0 (Rejected (VNum 5))] /\
    promiseOf 0 w' = Rejected (VNum 5).
Proof.
  destruct (forEach_stops_at_the_value_the_listener_throws_on 7
              (fun d => if Z.even d then Returns tt else Throws (VNum d))
              [2; 4] 5 (VNum 5) [Data 6]
              [PubData 2; PubData 4]
              [Feed (PubData 5); FeedTick; Feed (PubData 6)] true 7 emptyWorld)
    as (w' & E & _ & Ht & Hp).
  - reflexivity.
  - reflexivity.
  - reflexivity.
  - reflexivity.
  - cbn. lia.
  - exists w'. split; [exact E|]. split; [exact Ht|exact Hp].
Defined.

(** An aggregation of a stream that already has a listener does not throw:
    it returns a promise that is rejected with the error of listen; the
    stream, its listener and the queue are left as they were. *)
Theorem aggregation_of_a_listened_stream_is_rejected
    (w : World) (s x : nat) (st : Stream) (k : AggKind) (initialValue : option Z) :
  streams w !! s = Some st -> class st = ClsStream -> _subscription st = Some x ->
  exists w',
    aggregate s k initialValue w = Ok (nextAggregation w) w' /\
    promiseOf (nextAggregation w) w' = Rejected ErrorForListen /\
    trace w' = trace w ++ [EvSettle (nextAggregation w) (Rejected ErrorForListen)] /\
    streams w' = streams w /\ subscriptions w' = subscriptions w /\ queue w' = queue w.
Proof.
  intros Hs Hc Hx. eexists. split.
  { unfold aggregate. step0 get_ok. step0 modify_ok.
    erewrite bind_ok; [reflexivity|].
    erewrite tryCatch_throw; cycle 1.
    { apply bind_throw. erewrite listen_base by (first [lk|done]).
      eapply Stream_listen_busy; [lk|done]. }
    unfold reject. eapply settle_ok; [lk|reflexivity]. }
  unfold promiseOf. wsimpl. by rewrite lookup_insert_eq.
Qed.

Lemma aggregation_of_a_listened_stream_is_rejected_witness :
  exists w1 w2,
    (s <- allocStream ClsStream ;; _ <- Stream_toArray s ;; ret s) emptyWorld = Ok 0%nat w1 /\
    Stream_first 0 w1 = Ok 1%nat w2 /\
    promiseOf 1 w2 = Rejected ErrorForListen /\
    promiseOf 0 w2 = Pending.
Proof.
  eexists. 
  destruct (aggregation_of_a_listened_stream_is_rejected
              (worldOf ((s <- allocStream ClsStream ;; _ <- Stream_toArray s ;; ret s)
                          emptyWorld))
              0 0 (mkStream (Some 0%nat) [] false false ∅ ClsStream) AggFirst None)
    as (w2 & E & Hp & _).
  - reflexivity.
  - reflexivity.
  - reflexivity.
  - exists w2. split; [reflexivity|]. split; [exact E|]. split; [exact Hp|].
    unfold Stream_first in E. vm_compute in E. injection E as <-. reflexivity.
Defined.

(** ** Derived streams over a parent that is being fed *)

Lemma filterStep_returns op d :
  neverThrows op ->
  exists op' out c, filterStep op d = Returns (op', out, c) /\ neverThrows op' /\
                    (length out <= 1)%nat.
Proof.
  intros Hn. destruct op as [|f|k n|c|k n|sk c|c]; cbn [filterStep].
  - by eexists _, _, _.
  - destruct (Hn d) as [v ->]. by eexists _, _, _.
  - destruct (k <? n); eexists _, _, _; (split; [done|]); split; cbn; (done || lia).
  - destruct (c d) as [[|]|e]; eexists _, _, _; (split; [done|]); split; cbn; (done || lia).
  - destruct (k <? n); eexists _, _, _; (split; [done|]); split; cbn; (done || lia).
  - destruct sk; [destruct (c d) as [[|]|e]|];
      eexists _, _, _; (split; [done|]); split; cbn; (done || lia).
  - destruct (Hn d) as [[|] ->]; eexists _, _, _; (split; [done|]); split; cbn; (done || lia).
Qed.




Lemma filterRun_returns ms : forall op,
  neverThrows op -> exists st outs, filterRun op ms = Returns (st, outs).
Proof.
  induction ms as [|[d|e|] ms IH]; intros op Hn; cbn [filterRun].
  - by eexists _, _.
  - destruct (filterStep_returns op d Hn) as (op' & out & c & -> & Hn' & _).
    destruct c; [by eexists _, _|].
    destruct (IH op' Hn') as (st & outs & ->). by eexists _, _.
  - destruct (IH op Hn) as (st & outs & ->). by eexists _, _.
  - by eexists _, _.
Qed.

Section Derived.
Variables (p t xp xt l : nat) (o : StreamListenOptions).
Hypothesis Hpt : p <> t.
Hypothesis Hxx : xp <> xt.















Hypothesis Ho : cancelOnError o = false.








Variable op0 : FilterOp.









End Derived.



(** *** What the listener of a derived stream hears, in closed form *)



























